(** * mcp-upstage-server: a shallow embedding of the adapter and its properties

    The development follows the layout of the repository:
    - JavaScript values, [JSON.stringify] and [JSON.parse] (the platform);
    - [utils/schemaHelper]  : construction and validation of extraction schemas;
    - [utils/constants], [utils/validators], [utils/fileUtils];
    - [utils/apiClient]     : the outbound client and its retry loop;
    - [tools/*]             : the four tool handlers;
    - [server], [httpServer]: the stdio and the HTTP dispatchers.

    Asynchronous code is written in a state-and-exception monad over a
    [World] that records what the handlers observe (files, the clock, the
    answers of the remote endpoint) and what they do (outbound requests,
    back-off delays, files written, progress notifications). *)

From Stdlib Require Import Bool String Ascii NArith ZArith Arith Lia List.
Import ListNotations.

Open Scope string_scope.
Open Scope list_scope.

(** ** JavaScript strings

    A JavaScript string is a sequence of UTF-16 code units. String literals
    of the source are ASCII and are written as Rocq strings through the
    coercion [js]. *)

Abbreviation jsstring := (list N) (only parsing).

Definition js (s : string) : jsstring :=
  map N_of_ascii (list_ascii_of_string s).

Coercion js : string >-> list.

Fixpoint str_eqb (a b : jsstring) : bool :=
  match a, b with
  | [], [] => true
  | x :: a', y :: b' => N.eqb x y && str_eqb a' b'
  | _, _ => false
  end.

(** [Array.prototype.join] *)
Fixpoint join (sep : jsstring) (l : list jsstring) : jsstring :=
  match l with
  | [] => []
  | [s] => s
  | s :: l' => s ++ sep ++ join sep l'
  end.

Fixpoint starts_with (p s : jsstring) : bool :=
  match p, s with
  | [], _ => true
  | x :: p', y :: s' => N.eqb x y && starts_with p' s'
  | _ :: _, [] => false
  end.

(** [String.prototype.includes] *)
Fixpoint includes (s sub : jsstring) : bool :=
  starts_with sub s ||
  match s with
  | [] => false
  | _ :: s' => includes s' sub
  end.

(** [Array.prototype.includes] on an array of strings *)
Definition array_includes (l : list jsstring) (s : jsstring) : bool :=
  existsb (str_eqb s) l.

(** [String.prototype.toLowerCase], on the ASCII letters. The function of the
    engine lowers every cased letter of Unicode; this one is the engine's on
    ASCII texts and leaves the other units as they are. The program uses it
    to look an extension up in lists of ASCII texts, where both functions
    find the same entry or none: the only letters that the engine lowers to
    ASCII letters are U+212A (to [k], which no entry holds) and U+0130 (to
    [i] and a combining dot, which no entry holds). The text of the lowered
    extension, as an error message repeats it, is the engine's for ASCII
    extensions only. *)
Definition lower_unit (c : N) : N :=
  if (N.leb 65 c && N.leb c 90)%bool then (c + 32)%N else c.

Definition toLowerCase (s : jsstring) : jsstring := map lower_unit s.

(** Decimal digits of a natural number, as [Number.prototype.toString] prints
    a non-negative integer. *)
Fixpoint uint_units (d : Decimal.uint) : jsstring :=
  match d with
  | Decimal.Nil => []
  | Decimal.D0 d' => 48%N :: uint_units d'
  | Decimal.D1 d' => 49%N :: uint_units d'
  | Decimal.D2 d' => 50%N :: uint_units d'
  | Decimal.D3 d' => 51%N :: uint_units d'
  | Decimal.D4 d' => 52%N :: uint_units d'
  | Decimal.D5 d' => 53%N :: uint_units d'
  | Decimal.D6 d' => 54%N :: uint_units d'
  | Decimal.D7 d' => 55%N :: uint_units d'
  | Decimal.D8 d' => 56%N :: uint_units d'
  | Decimal.D9 d' => 57%N :: uint_units d'
  end.

Definition N_to_dec (n : N) : jsstring := uint_units (N.to_uint n).

Definition is_digit (c : N) : bool := N.leb 48 c && N.leb c 57.

Fixpoint dec_value_from (acc : N) (s : jsstring) : option N :=
  match s with
  | [] => Some acc
  | c :: s' => if is_digit c then dec_value_from (acc * 10 + (c - 48))%N s' else None
  end.

(** The array index a property key denotes, if it is one: a canonical decimal
    numeral below 2^32 - 1. *)
Definition array_index (k : jsstring) : option N :=
  match k with
  | [] => None
  | _ :: _ =>
      match dec_value_from 0%N k with
      | Some n => if str_eqb (N_to_dec n) k && N.ltb n 4294967295 then Some n else None
      | None => None
      end
  end.

(** ** JavaScript values

    The values that JSON texts denote, and [undefined]. A number is kept as
    the text of its literal: no operation of this program computes with the
    numbers of a JSON document; it only tests whether one is zero, and
    [zero_literal] decides that on the double the literal denotes. Two
    literals of one number are two values here, and a number is written
    back as it was read. The engine writes the shortest literal of the
    double instead: the same text for the literals that [plain_number]
    accepts, another one in general ([100] for [1e2], [null] for [1e999]).
    The properties that depend on the text of a number are stated for plain
    numbers. *)

#[local] Unset Elimination Schemes.
Inductive jsval : Type :=
| VUndef
| VNull
| VBool (b : bool)
| VNum (lit : jsstring)
| VStr (s : jsstring)
| VArr (items : list jsval)
| VObj (props : list (jsstring * jsval)).
#[local] Set Elimination Schemes.

Definition typeof (v : jsval) : jsstring :=
  match v with
  | VUndef => "undefined"
  | VNull => "object"
  | VBool _ => "boolean"
  | VNum _ => "number"
  | VStr _ => "string"
  | VArr _ | VObj _ => "object"
  end.

(** The text up to the first unit that [p] holds of, and the text after it. *)
Fixpoint split_at (p : N -> bool) (s : jsstring) : jsstring * option jsstring :=
  match s with
  | [] => ([], None)
  | c :: r =>
      if p c then ([], Some r)
      else let (a, b) := split_at p r in (c :: a, b)
  end.

(** The integer that digits with an optional sign write. *)
Definition signed_value (s : jsstring) : option Z :=
  match s with
  | c :: r =>
      if N.eqb c 45 then option_map (fun n => (- Z.of_N n)%Z) (dec_value_from 0%N r)
      else if N.eqb c 43 then option_map Z.of_N (dec_value_from 0%N r)
      else option_map Z.of_N (dec_value_from 0%N s)
  | [] => None
  end.

(** The literal denotes the double 0 (or -0). Its value is [D * 10^e], with
    [D] the number that the digits of its mantissa write and [e] its exponent
    less the length of its fraction. The double nearest to it is zero when
    [D] is, and when the value is at most [2^-1075], half of the least
    positive double: below [10^-324] at any rate, and by the comparison of
    [D * 2^1075] with [10^-e] otherwise. *)
Definition zero_literal (lit : jsstring) : bool :=
  let (mantissa, exponent) := split_at (fun c => N.eqb c 101 || N.eqb c 69)%bool lit in
  let unsigned :=
    match mantissa with
    | c :: r => if N.eqb c 45 then r else mantissa
    | [] => []
    end in
  let (int, fraction) := split_at (fun c => N.eqb c 46) unsigned in
  let frac := match fraction with Some f => f | None => [] end in
  match dec_value_from 0%N (int ++ frac),
        match exponent with Some x => signed_value x | None => Some 0%Z end with
  | Some D, Some E =>
      let e := (E - Z.of_nat (length frac))%Z in
      if N.eqb D 0 then true
      else if Z.leb (Z.of_nat (length (int ++ frac)) + e) (-324) then true
      else if Z.ltb e 0 then N.leb (D * 2 ^ 1075) (10 ^ Z.to_N (- e))
      else false
  | _, _ => false
  end.

(** ToBoolean *)
Definition truthy (v : jsval) : bool :=
  match v with
  | VUndef | VNull => false
  | VBool b => b
  | VNum lit => negb (zero_literal lit)
  | VStr s => match s with [] => false | _ => true end
  | VArr _ | VObj _ => true
  end.

Fixpoint lookup (k : jsstring) (o : list (jsstring * jsval)) : option jsval :=
  match o with
  | [] => None
  | (k', v) :: o' => if str_eqb k k' then Some v else lookup k o'
  end.

Definition or_undef (o : option jsval) : jsval :=
  match o with Some v => v | None => VUndef end.

(** Reading the property [k] of a value that is neither [undefined] nor
    [null]: own properties of objects, indices and [length] of arrays and
    strings. (The inherited methods are not data and are never read by name
    in this program.) *)
Definition prop (v : jsval) (k : jsstring) : jsval :=
  match v with
  | VObj o => or_undef (lookup k o)
  | VArr l =>
      if str_eqb k "length" then VNum (N_to_dec (N.of_nat (length l)))
      else match array_index k with
           | Some i => nth (N.to_nat i) l VUndef
           | None => VUndef
           end
  | VStr s =>
      if str_eqb k "length" then VNum (N_to_dec (N.of_nat (length s)))
      else match array_index k with
           | Some i => match nth_error s (N.to_nat i) with
                       | Some c => VStr [c]
                       | None => VUndef
                       end
           | None => VUndef
           end
  | _ => VUndef
  end.

(** [v === s] for a string constant [s] *)
Definition is_string (v : jsval) (s : jsstring) : bool :=
  match v with
  | VStr t => str_eqb t s
  | _ => false
  end.

(** [v === 0] *)
Definition is_zero (v : jsval) : bool :=
  match v with
  | VNum lit => zero_literal lit
  | _ => false
  end.

(** *** Property order of objects

    The own keys of an object are enumerated with the array indices first, in
    ascending order, then the other keys in the order of their creation. An
    object is a list of properties in that order, with no key twice. *)

Definition key_before (k k' : jsstring) : bool :=
  match array_index k, array_index k' with
  | Some a, Some b => N.ltb a b
  | Some _, None => true
  | None, _ => false
  end.

Fixpoint has_key (k : jsstring) (o : list (jsstring * jsval)) : bool :=
  match o with
  | [] => false
  | (k', _) :: o' => str_eqb k k' || has_key k o'
  end.

Fixpoint replace_prop (k : jsstring) (v : jsval) (o : list (jsstring * jsval)) :=
  match o with
  | [] => []
  | (k', v') :: o' =>
      if str_eqb k k' then (k', v) :: o' else (k', v') :: replace_prop k v o'
  end.

Fixpoint insert_prop (k : jsstring) (v : jsval) (o : list (jsstring * jsval)) :=
  match o with
  | [] => [(k, v)]
  | (k', v') :: o' =>
      if key_before k k' then (k, v) :: (k', v') :: o'
      else (k', v') :: insert_prop k v o'
  end.

(** [o[k] = v] (CreateDataProperty) *)
Definition set_prop (k : jsstring) (v : jsval) (o : list (jsstring * jsval)) :=
  if has_key k o then replace_prop k v o else insert_prop k v o.

(** The object an object literal or a sequence of assignments builds. *)
Definition object_of (entries : list (jsstring * jsval)) : list (jsstring * jsval) :=
  fold_left (fun o kv => set_prop (fst kv) (snd kv) o) entries [].

Definition obj (entries : list (jsstring * jsval)) : jsval :=
  VObj (object_of entries).

Notation "k :-> v" := (pair (k : jsstring) (v : jsval)) (at level 65, no associativity).

(** A string literal of the source that holds double quotes is written with
    a backquote for each of them (no such literal holds a backquote). *)
Definition jsq (s : string) : jsstring :=
  map (fun c => if N.eqb c 96 then 34%N else c) (js s).

(** ** JSON.stringify *)

Module JSON.

Definition hex_digit (d : N) : N :=
  if N.ltb d 10 then (48 + d)%N else (87 + d)%N.

(** UnicodeEscape: a backslash, [u] and four lower-case hexadecimal digits *)
Definition unicode_escape (c : N) : jsstring :=
  [92; 117; hex_digit (c / 4096); hex_digit ((c / 256) mod 16);
   hex_digit ((c / 16) mod 16); hex_digit (c mod 16)]%N.

Definition is_lead (c : N) : bool := N.leb 55296 c && N.leb c 56319.
Definition is_trail (c : N) : bool := N.leb 56320 c && N.leb c 57343.

(** One code unit that is not the first half of a surrogate pair. *)
Definition quote_unit (c : N) : jsstring :=
  if N.eqb c 8 then [92; 98]%N
  else if N.eqb c 9 then [92; 116]%N
  else if N.eqb c 10 then [92; 110]%N
  else if N.eqb c 12 then [92; 102]%N
  else if N.eqb c 13 then [92; 114]%N
  else if N.eqb c 34 then [92; 34]%N
  else if N.eqb c 92 then [92; 92]%N
  else if (N.ltb c 32 || is_lead c || is_trail c)%bool then unicode_escape c
  else [c].

(** The body of QuoteJSONString: a surrogate pair is copied, a lone surrogate
    is escaped. *)
Fixpoint quote_units (s : jsstring) : jsstring :=
  match s with
  | [] => []
  | c :: r =>
      if is_lead c then
        match r with
        | d :: r' =>
            if is_trail d then c :: d :: quote_units r'
            else unicode_escape c ++ quote_units r
        | [] => unicode_escape c
        end
      else quote_unit c ++ quote_units r
  end.

Definition quote (s : jsstring) : jsstring :=
  34%N :: quote_units s ++ [34%N].

Section Serialize.

(** The gap: empty for [JSON.stringify(v)], [n] spaces for
    [JSON.stringify(v, null, n)]. *)
Variable gap : jsstring.

Definition colon : jsstring :=
  match gap with [] => [58%N] | _ => [58; 32]%N end.

(** The text of an object or array from the texts of its parts. *)
Definition wrap (open close : N) (stepback : jsstring) (partial : list jsstring) : jsstring :=
  match partial with
  | [] => [open; close]
  | _ =>
      match gap with
      | [] => open :: join [44%N] partial ++ [close]
      | _ =>
          let indent := stepback ++ gap in
          open :: 10%N :: indent ++ join (44%N :: 10%N :: indent) partial
            ++ 10%N :: stepback ++ [close]
      end
  end.

(** SerializeJSONProperty; [None] is [undefined]. *)
Fixpoint serialize (indent : jsstring) (v : jsval) {struct v} : option jsstring :=
  match v with
  | VUndef => None
  | VNull => Some (js "null")
  | VBool true => Some (js "true")
  | VBool false => Some (js "false")
  | VNum lit => Some lit
  | VStr s => Some (quote s)
  | VArr l =>
      Some (wrap 91 93 indent
              (map (fun x => match serialize (indent ++ gap) x with
                             | Some t => t
                             | None => js "null"
                             end) l))
  | VObj o =>
      Some (wrap 123 125 indent
              ((fix members (o : list (jsstring * jsval)) : list jsstring :=
                  match o with
                  | [] => []
                  | (k, x) :: o' =>
                      match serialize (indent ++ gap) x with
                      | Some t => (quote k ++ colon ++ t) :: members o'
                      | None => members o'
                      end
                  end) o))
  end.

End Serialize.

(** [JSON.stringify(v)] *)
Definition stringify (v : jsval) : option jsstring := serialize [] [] v.

(** [JSON.stringify(v, null, n)] for [n] up to 10 *)
Definition stringify_indent (n : nat) (v : jsval) : option jsstring :=
  serialize (repeat 32%N n) [] v.

(** ** JSON.parse *)

Definition is_ws (c : N) : bool :=
  N.eqb c 32 || N.eqb c 9 || N.eqb c 10 || N.eqb c 13.

Fixpoint skip_ws (s : jsstring) : jsstring :=
  match s with
  | c :: r => if is_ws c then skip_ws r else s
  | [] => []
  end.

Definition hex_value (c : N) : option N :=
  if is_digit c then Some (c - 48)%N
  else if (N.leb 97 c && N.leb c 102)%bool then Some (c - 87)%N
  else if (N.leb 65 c && N.leb c 70)%bool then Some (c - 55)%N
  else None.

Definition hex4 (a b c d : N) : option N :=
  match hex_value a, hex_value b, hex_value c, hex_value d with
  | Some x, Some y, Some z, Some w => Some (x * 4096 + y * 256 + z * 16 + w)%N
  | _, _, _, _ => None
  end.

(** The unit a one-letter escape denotes. *)
Definition unescape (e : N) : option N :=
  if N.eqb e 34 then Some 34%N
  else if N.eqb e 92 then Some 92%N
  else if N.eqb e 47 then Some 47%N
  else if N.eqb e 98 then Some 8%N
  else if N.eqb e 102 then Some 12%N
  else if N.eqb e 110 then Some 10%N
  else if N.eqb e 114 then Some 13%N
  else if N.eqb e 116 then Some 9%N
  else None.

Definition push_unit (c : N) (r : option (jsstring * jsstring)) :=
  match r with
  | Some (s, rest) => Some (c :: s, rest)
  | None => None
  end.

(** The characters of a string after its opening quote, up to and including
    the closing quote. *)
Fixpoint parse_chars (s : jsstring) : option (jsstring * jsstring) :=
  match s with
  | [] => None
  | c :: r =>
      if N.eqb c 34 then Some ([], r)
      else if N.eqb c 92 then
        match r with
        | [] => None
        | e :: r' =>
            if N.eqb e 117 then
              match r' with
              | h1 :: h2 :: h3 :: h4 :: r'' =>
                  match hex4 h1 h2 h3 h4 with
                  | Some u => push_unit u (parse_chars r'')
                  | None => None
                  end
              | _ => None
              end
            else
              match unescape e with
              | Some u => push_unit u (parse_chars r')
              | None => None
              end
        end
      else if N.ltb c 32 then None
      else push_unit c (parse_chars r)
  end.

Fixpoint span_digits (s : jsstring) : jsstring * jsstring :=
  match s with
  | c :: r =>
      if is_digit c then let (d, rest) := span_digits r in (c :: d, rest)
      else ([], s)
  | [] => ([], [])
  end.

(** One or more digits. *)
Definition digits1 (s : jsstring) : option (jsstring * jsstring) :=
  match span_digits s with
  | ([], _) => None
  | (d, rest) => Some (d, rest)
  end.

(** A lexer returns the text it takes and the text it leaves. *)
Definition lexer := jsstring -> option (jsstring * jsstring).

Definition then_ (p q : lexer) : lexer :=
  fun s =>
    match p s with
    | Some (a, r) =>
        match q r with
        | Some (b, r') => Some (a ++ b, r')
        | None => None
        end
    | None => None
    end.

Definition lex_sign : lexer :=
  fun s =>
    match s with
    | c :: r => if N.eqb c 45 then Some ([c], r) else Some ([], s)
    | [] => Some ([], s)
    end.

Definition lex_int : lexer :=
  fun s =>
    match s with
    | c :: r => if N.eqb c 48 then Some ([c], r) else digits1 s
    | [] => None
    end.

Definition lex_frac : lexer :=
  fun s =>
    match s with
    | c :: r =>
        if N.eqb c 46 then
          match digits1 r with
          | Some (d, rest) => Some (c :: d, rest)
          | None => None
          end
        else Some ([], s)
    | [] => Some ([], s)
    end.

Definition lex_exp_sign : lexer :=
  fun s =>
    match s with
    | c :: r => if (N.eqb c 43 || N.eqb c 45)%bool then Some ([c], r) else Some ([], s)
    | [] => Some ([], s)
    end.

Definition lex_exp : lexer :=
  fun s =>
    match s with
    | c :: r =>
        if (N.eqb c 101 || N.eqb c 69)%bool then
          match then_ lex_exp_sign digits1 r with
          | Some (d, rest) => Some (c :: d, rest)
          | None => None
          end
        else Some ([], s)
    | [] => Some ([], s)
    end.

(** The longest prefix that is a JSON number literal: an optional minus
    sign, an integer part without a leading zero, an optional fraction and an
    optional exponent. *)
Definition lex_number : lexer :=
  then_ lex_sign (then_ lex_int (then_ lex_frac lex_exp)).

Definition strip_prefix (p s : jsstring) : option jsstring :=
  if starts_with p s then Some (skipn (length p) s) else None.

(** A recursive-descent reader of the JSON grammar. The fuel bounds the
    number of nested calls; [parse] supplies more than a text can use. *)
Fixpoint parse_value (fuel : nat) (s : jsstring) : option (jsval * jsstring) :=
  match fuel with
  | O => None
  | S f =>
      match skip_ws s with
      | [] => None
      | c :: r =>
          if N.eqb c 123 then
            match skip_ws r with
            | c' :: r' =>
                if N.eqb c' 125 then Some (VObj [], r')
                else match parse_members f r with
                     | Some (o, rest) => Some (VObj (object_of o), rest)
                     | None => None
                     end
            | [] => None
            end
          else if N.eqb c 91 then
            match skip_ws r with
            | c' :: r' =>
                if N.eqb c' 93 then Some (VArr [], r')
                else match parse_elements f r with
                     | Some (l, rest) => Some (VArr l, rest)
                     | None => None
                     end
            | [] => None
            end
          else if N.eqb c 34 then
            match parse_chars r with
            | Some (str, rest) => Some (VStr str, rest)
            | None => None
            end
          else if N.eqb c 116 then
            match strip_prefix (js "true") (c :: r) with
            | Some rest => Some (VBool true, rest)
            | None => None
            end
          else if N.eqb c 102 then
            match strip_prefix (js "false") (c :: r) with
            | Some rest => Some (VBool false, rest)
            | None => None
            end
          else if N.eqb c 110 then
            match strip_prefix (js "null") (c :: r) with
            | Some rest => Some (VNull, rest)
            | None => None
            end
          else
            match lex_number (c :: r) with
            | Some (lit, rest) => Some (VNum lit, rest)
            | None => None
            end
      end
  end

with parse_members (fuel : nat) (s : jsstring)
  : option (list (jsstring * jsval) * jsstring) :=
  match fuel with
  | O => None
  | S f =>
      match skip_ws s with
      | q :: r =>
          if N.eqb q 34 then
            match parse_chars r with
            | Some (k, r1) =>
                match skip_ws r1 with
                | c :: r2 =>
                    if N.eqb c 58 then
                      match parse_value f r2 with
                      | Some (v, r3) =>
                          match skip_ws r3 with
                          | d :: r4 =>
                              if N.eqb d 44 then
                                match parse_members f r4 with
                                | Some (o, rest) => Some ((k, v) :: o, rest)
                                | None => None
                                end
                              else if N.eqb d 125 then Some ([(k, v)], r4)
                              else None
                          | [] => None
                          end
                      | None => None
                      end
                    else None
                | [] => None
                end
            | None => None
            end
          else None
      | [] => None
      end
  end

with parse_elements (fuel : nat) (s : jsstring) : option (list jsval * jsstring) :=
  match fuel with
  | O => None
  | S f =>
      match parse_value f s with
      | Some (v, r1) =>
          match skip_ws r1 with
          | d :: r2 =>
              if N.eqb d 44 then
                match parse_elements f r2 with
                | Some (l, rest) => Some (v :: l, rest)
                | None => None
                end
              else if N.eqb d 93 then Some ([v], r2)
              else None
          | [] => None
          end
      | None => None
      end
  end.

(** [JSON.parse(text)]; [None] when it throws a [SyntaxError]. *)
Definition parse (text : jsstring) : option jsval :=
  match parse_value (S (length text)) text with
  | Some (v, rest) =>
      match skip_ws rest with
      | [] => Some v
      | _ :: _ => None
      end
  | None => None
  end.

(** *** JSON values

    The values [JSON.parse] can return: no [undefined] inside, numbers that
    are JSON literals, and objects whose properties stand in the order of an
    object (see [set_prop]). *)

Definition number_literal (lit : jsstring) : bool :=
  match lex_number lit with
  | Some (_, []) => true
  | _ => false
  end.

(** Each key is new and comes after the keys before it. *)
Fixpoint keys_ok_from (seen keys : list jsstring) : bool :=
  match keys with
  | [] => true
  | k :: keys' =>
      negb (existsb (fun p => str_eqb k p || key_before k p) seen)
      && keys_ok_from (seen ++ [k]) keys'
  end.

Definition keys_ok (keys : list jsstring) : bool := keys_ok_from [] keys.

Fixpoint json_value (v : jsval) : bool :=
  match v with
  | VUndef => false
  | VNull | VBool _ | VStr _ => true
  | VNum lit => number_literal lit
  | VArr l => forallb json_value l
  | VObj o =>
      keys_ok (map fst o)
      && (fix all (o : list (jsstring * jsval)) : bool :=
            match o with
            | [] => true
            | (_, x) :: o' => json_value x && all o'
            end) o
  end.

(** The number of nested calls [parse_value] makes on the text of a value. *)
Fixpoint size (v : jsval) : nat :=
  match v with
  | VArr l =>
      S ((fix sum (l : list jsval) : nat :=
            match l with
            | [] => 0
            | x :: l' => S (size x + sum l')
            end) l)
  | VObj o =>
      S ((fix sum (o : list (jsstring * jsval)) : nat :=
            match o with
            | [] => 0
            | (_, x) :: o' => S (size x + sum o')
            end) o)
  | _ => 1
  end.

(** What follows a value in a text: the end, a comma or a closing bracket. *)
Definition delimited (rest : jsstring) : bool :=
  match rest with
  | [] => true
  | c :: _ => N.eqb c 44 || N.eqb c 93 || N.eqb c 125
  end.

(** How the text of a value starts: not with white space, not with a
    closing bracket. *)
Definition starts_value (t : jsstring) : bool :=
  match t with
  | [] => false
  | c :: _ => negb (is_ws c) && negb (N.eqb c 93) && negb (N.eqb c 125)
  end.

(** A lexer that reads the same prefix when a delimited text is appended. *)
Definition stable (p : lexer) : Prop :=
  forall s a r rest,
    p s = Some (a, r) -> delimited rest = true -> p (s ++ rest) = Some (a, r ++ rest).

(** A lexer returns a prefix of its input. *)
Definition splits (p : lexer) : Prop :=
  forall s a r, p s = Some (a, r) -> s = a ++ r.

(** The text of an element of an array. *)
Definition element_text (x : jsval) : jsstring :=
  match serialize [] [] x with
  | Some t => t
  | None => js "null"
  end.

(** The texts of the members of an object. *)
Fixpoint member_texts (o : list (jsstring * jsval)) : list jsstring :=
  match o with
  | [] => []
  | (k, x) :: o' =>
      match serialize [] [] x with
      | Some t => (quote k ++ colon [] ++ t) :: member_texts o'
      | None => member_texts o'
      end
  end.

(** A value is read back: its text is read back, with
    enough fuel, whatever delimited text follows. *)
Definition reads_back (v : jsval) : Prop :=
  json_value v = true ->
  exists t,
    serialize [] [] v = Some t /\ starts_value t = true /\
    forall fuel rest,
      size v <= fuel -> delimited rest = true ->
      parse_value fuel (t ++ rest) = Some (v, rest).

(** The message of the [SyntaxError]. For a text that is empty, or white
    space only, it is [Unexpected end of JSON input]. For any other text the
    engine names the offending token and its position, in words that depend
    on its version; the handlers only copy the message into their own, and
    one text stands for all of these. *)
Definition syntax_error_message (text : jsstring) : jsstring :=
  match skip_ws text with
  | [] => js "Unexpected end of JSON input"
  | _ :: _ => js "Unexpected token in JSON"
  end.

End JSON.

(** ** Exceptions and results *)

Inductive exn : Type :=
| Error (message : jsstring)
| TypeError (message : jsstring)
| SyntaxError (message : jsstring)
| SystemError (code : jsstring) (message : jsstring)
| AxiosError (status : option N) (data_message : option jsstring) (message : jsstring)
| ZodError (message : jsstring).

(** [error.message] *)
Definition message_of (e : exn) : jsstring :=
  match e with
  | Error m | TypeError m | SyntaxError m | SystemError _ m
  | AxiosError _ _ m | ZodError m => m
  end.

Inductive Res (A : Type) : Type :=
| Ok (a : A)
| Throw (e : exn).
Arguments Ok {A} a.
Arguments Throw {A} e.

(** Reading a property with the check JavaScript makes: on [undefined] and
    [null] it throws a [TypeError]. *)
Definition get (v : jsval) (k : jsstring) : Res jsval :=
  match v with
  | VUndef => Throw (TypeError (js "Cannot read properties of undefined (reading '" ++ k ++ js "')"))
  | VNull => Throw (TypeError (js "Cannot read properties of null (reading '" ++ k ++ js "')"))
  | _ => Ok (prop v k)
  end.

Definition str (s : string) : jsval := VStr (js s).

(** ** utils/schemaHelper *)

Module SchemaHelper.

Definition default_name : jsstring := "document_schema".

Definition createExtractionSchema (fields : jsval) (name : option jsstring) : jsval :=
  let name := match name with Some n => n | None => default_name end in
  obj [ "type" :-> VStr "json_schema";
        "json_schema" :->
          obj [ "name" :-> VStr name;
                "schema" :->
                  obj [ "type" :-> VStr "object";
                        "properties" :-> fields ] ] ].

Definition not_an_object (v : jsval) : bool :=
  negb (truthy v) || negb (str_eqb (typeof v) "object").

Definition validateSchemaFormat (schema : jsval) : Res unit :=
  if not_an_object schema then
    Throw (Error "Schema must be an object")
  else if negb (is_string (prop schema "type") "json_schema") then
    Throw (Error (jsq "Schema must have type `json_schema`"))
  else if not_an_object (prop schema "json_schema") then
    Throw (Error (jsq "Schema must have `json_schema` property"))
  else
    let jsonSchema := prop schema "json_schema" in
    if negb (truthy (prop jsonSchema "name"))
       || negb (str_eqb (typeof (prop jsonSchema "name")) "string") then
      Throw (Error (jsq "Schema must have a `name` property"))
    else if not_an_object (prop jsonSchema "schema") then
      Throw (Error (jsq "Schema must have a `schema` property"))
    else if negb (is_string (prop (prop jsonSchema "schema") "type") "object") then
      Throw (Error (jsq "Schema type must be `object`"))
    else if not_an_object (prop (prop jsonSchema "schema") "properties") then
      Throw (Error (jsq "Schema must have `properties` object"))
    else Ok tt.

Definition schemaToJson (schema : jsval) : option jsstring :=
  JSON.stringify schema.

Definition parseSchemaJson (schemaJson : jsstring) : Res jsval :=
  match JSON.parse schemaJson with
  | None =>
      Throw (Error (js "Invalid JSON: " ++ JSON.syntax_error_message schemaJson))
  | Some schema =>
      match validateSchemaFormat schema with
      | Ok _ => Ok schema
      | Throw e => Throw e
      end
  end.

Definition field (type description : string) : jsval :=
  obj [ "type" :-> str type; "description" :-> str description ].

(** [commonFields] *)
Definition companyName := field "string" "Name of the company or organization".
Definition invoiceNumber := field "string" "Invoice or document number".
Definition date := field "string" "Date in YYYY-MM-DD format".
Definition totalAmount := field "number" "Total monetary amount".
Definition address := field "string" "Full address".
Definition email := field "string" "Email address".
Definition phone := field "string" "Phone number".
Definition items :=
  obj [ "type" :-> str "array";
        "description" :-> str "List of items";
        "items" :->
          obj [ "type" :-> str "object";
                "properties" :->
                  obj [ "name" :-> field "string" "Item name";
                        "quantity" :-> field "number" "Quantity";
                        "price" :-> field "number" "Unit price" ] ] ].

(** [commonSchemas] *)
Definition invoice :=
  createExtractionSchema
    (obj [ "company_name" :-> companyName;
           "invoice_number" :-> invoiceNumber;
           "invoice_date" :-> date;
           "total_amount" :-> totalAmount;
           "items" :-> items ]) None.

Definition receipt :=
  createExtractionSchema
    (obj [ "merchant_name" :-> companyName;
           "date" :-> date;
           "total_amount" :-> totalAmount;
           "items" :-> items ]) None.

Definition businessCard :=
  createExtractionSchema
    (obj [ "name" :-> field "string" "Person name";
           "company" :-> companyName;
           "title" :-> field "string" "Job title";
           "email" :-> email;
           "phone" :-> phone;
           "address" :-> address ]) None.

Definition contract :=
  createExtractionSchema
    (obj [ "contract_title" :-> field "string" "Title of the contract";
           "parties" :->
             obj [ "type" :-> str "array";
                   "description" :-> str "Parties involved in the contract";
                   "items" :->
                     obj [ "type" :-> str "object";
                           "properties" :->
                             obj [ "name" :-> field "string" "Party name";
                                   "role" :-> field "string" "Party role (e.g., client, vendor)" ] ] ];
           "start_date" :-> date;
           "end_date" :-> date;
           "value" :-> totalAmount ]) None.

End SchemaHelper.

(** ** The world of a call

    What a handler observes: the home directory, the files of the disk, the
    clock, the answers of the remote endpoint. What it does: outbound
    requests, back-off delays, directories and files written, progress
    notifications, lines on the error console. *)

Record File : Type := {
  f_size : N;            (* [stats.size], in bytes *)
  f_utf8 : jsstring;     (* the contents decoded as UTF-8 *)
  f_base64 : jsstring    (* the contents encoded in base64 *)
}.

Inductive Node : Type :=
| Regular (f : File)
| Directory (d_size : N)
| Unreadable (code : jsstring).   (* [fs.stat] fails with this code *)

Inductive Body : Type :=
| Multipart (files : list (jsstring * jsval)) (fields : list (jsstring * jsval))
| JsonBody (json : jsval)
| FormBody (fields : list (jsstring * jsval)).

Record Request : Type := {
  url : jsstring;
  headers : list (jsstring * jsstring);
  timeout : N;
  body : Body
}.

(** The outcome of [axios.post]. *)
Inductive Reply : Type :=
| Response (data : jsval)
| Failure (e : exn).

Record World : Type := {
  homedir : jsstring;
  disk : jsstring -> option Node;
  read_only : jsstring -> bool;       (* paths that cannot be created or written *)
  clock : nat -> jsstring;            (* successive values of [new Date().toISOString()] *)
  endpoint : nat -> Request -> Reply; (* the answer to the n-th outbound request *)
  ticks : nat;
  requests : list Request;            (* oldest first *)
  delays : list N;                    (* milliseconds, oldest first *)
  created : list jsstring;
  written : list (jsstring * jsstring);
  notified : list N;
  console : list jsstring
}.

(** ** Asynchronous code: state and exceptions *)

Definition M (A : Type) : Type := World -> Res A * World.

Definition ret {A} (a : A) : M A := fun w => (Ok a, w).

Definition throw {A} (e : exn) : M A := fun w => (Throw e, w).

Definition bind {A B} (m : M A) (k : A -> M B) : M B :=
  fun w =>
    match m w with
    | (Ok a, w') => k a w'
    | (Throw e, w') => (Throw e, w')
    end.

(** [try { m } catch (e) { h e }] *)
Definition try_catch {A} (m : M A) (h : exn -> M A) : M A :=
  fun w =>
    match m w with
    | (Ok a, w') => (Ok a, w')
    | (Throw e, w') => h e w'
    end.

Definition lift {A} (r : Res A) : M A := fun w => (r, w).

Notation "x <- m ;; k" := (bind m (fun x => k))
  (at level 61, m at next level, right associativity).
Notation "m ;; k" := (bind m (fun _ => k))
  (at level 61, right associativity).

(** *** What a call leaves in the world *)

Definition log_notified (p : N) (w : World) : World :=
  {| homedir := homedir w; disk := disk w; read_only := read_only w;
     clock := clock w; endpoint := endpoint w; ticks := ticks w;
     requests := requests w; delays := delays w; created := created w;
     written := written w; notified := notified w ++ [p];
     console := console w |}.

Definition log_console (line : jsstring) (w : World) : World :=
  {| homedir := homedir w; disk := disk w; read_only := read_only w;
     clock := clock w; endpoint := endpoint w; ticks := ticks w;
     requests := requests w; delays := delays w; created := created w;
     written := written w; notified := notified w;
     console := console w ++ [line] |}.

Definition log_delay (ms : N) (w : World) : World :=
  {| homedir := homedir w; disk := disk w; read_only := read_only w;
     clock := clock w; endpoint := endpoint w; ticks := ticks w;
     requests := requests w; delays := delays w ++ [ms]; created := created w;
     written := written w; notified := notified w;
     console := console w |}.

Definition log_request (r : Request) (w : World) : World :=
  {| homedir := homedir w; disk := disk w; read_only := read_only w;
     clock := clock w; endpoint := endpoint w; ticks := ticks w;
     requests := requests w ++ [r]; delays := delays w; created := created w;
     written := written w; notified := notified w;
     console := console w |}.

Definition log_created (path : jsstring) (w : World) : World :=
  {| homedir := homedir w; disk := disk w; read_only := read_only w;
     clock := clock w; endpoint := endpoint w; ticks := ticks w;
     requests := requests w; delays := delays w; created := created w ++ [path];
     written := written w; notified := notified w;
     console := console w |}.

Definition log_written (path text : jsstring) (w : World) : World :=
  {| homedir := homedir w; disk := disk w; read_only := read_only w;
     clock := clock w; endpoint := endpoint w; ticks := ticks w;
     requests := requests w; delays := delays w; created := created w;
     written := written w ++ [(path, text)]; notified := notified w;
     console := console w |}.

Definition tick (w : World) : World :=
  {| homedir := homedir w; disk := disk w; read_only := read_only w;
     clock := clock w; endpoint := endpoint w; ticks := S (ticks w);
     requests := requests w; delays := delays w; created := created w;
     written := written w; notified := notified w;
     console := console w |}.

(** A progress sink: what the callback does with a progress value, [None]
    when its promise resolves, [Some e] when it rejects with [e]. *)
Definition Sink : Type := N -> option exn.

(** [if (onProgress) { await onProgress({ progress: p, total: 100 }); }] *)
Definition report (onProgress : option Sink) (p : N) : M unit :=
  match onProgress with
  | None => ret tt
  | Some sink =>
      fun w =>
        match sink p with
        | None => (Ok tt, log_notified p w)
        | Some e => (Throw e, w)
        end
  end.

(** [console.error(line)] *)
Definition console_error (line : jsstring) : M unit :=
  fun w => (Ok tt, log_console line w).

(** A timer of [ms] milliseconds. *)
Definition sleep (ms : N) : M unit :=
  fun w => (Ok tt, log_delay ms w).

(** [new Date().toISOString()] *)
Definition now_iso : M jsstring :=
  fun w => (Ok (clock w (ticks w)), tick w).

(** [os.homedir()] *)
Definition os_homedir : M jsstring := fun w => (Ok (homedir w), w).

(** [axios.post]: the request leaves, the endpoint answers. *)
Definition axios_post (r : Request) : M jsval :=
  fun w =>
    match endpoint w (length (requests w)) r with
    | Response data => (Ok data, log_request r w)
    | Failure e => (Throw e, log_request r w)
    end.

(** *** fs *)

Record Stats : Type := { isFile : bool; st_size : N }.

Definition fs_error (code syscall path : jsstring) : exn :=
  SystemError code (code ++ js ": " ++ syscall ++ js " '" ++ path ++ js "'").

(** [error.code] *)
Definition code_of (e : exn) : option jsstring :=
  match e with
  | SystemError code _ => Some code
  | _ => None
  end.

(** [fs.stat(path)] *)
Definition fs_stat (path : jsstring) : M Stats :=
  fun w =>
    match disk w path with
    | None => (Throw (fs_error "ENOENT" "stat" path), w)
    | Some (Unreadable code) => (Throw (fs_error code "stat" path), w)
    | Some (Directory n) => (Ok {| isFile := false; st_size := n |}, w)
    | Some (Regular f) => (Ok {| isFile := true; st_size := f_size f |}, w)
    end.

Definition fs_read (path : jsstring) : M File :=
  fun w =>
    match disk w path with
    | None => (Throw (fs_error "ENOENT" "open" path), w)
    | Some (Unreadable code) => (Throw (fs_error code "open" path), w)
    | Some (Directory _) => (Throw (fs_error "EISDIR" "read" path), w)
    | Some (Regular f) => (Ok f, w)
    end.

(** [fs.mkdir(path, { recursive: true })] *)
Definition fs_mkdir (path : jsstring) : M unit :=
  fun w =>
    if read_only w path then (Throw (fs_error "EACCES" "mkdir" path), w)
    else (Ok tt, log_created path w).

(** [fs.writeFile(path, content, 'utf-8')]; [content] is [None] when the
    caller passes [undefined]. *)
Definition fs_writeFile (path : jsstring) (content : option jsstring) : M unit :=
  match content with
  | None =>
      throw (TypeError (jsq "The `data` argument must be of type string or an instance of Buffer, TypedArray, or DataView. Received undefined"))
  | Some text =>
      fun w =>
        if read_only w path then (Throw (fs_error "EACCES" "open" path), w)
        else (Ok tt, log_written path text w)
  end.

(** ** path (POSIX) *)

Module Path.

Definition slash : N := 47.
Definition dot : N := 46.

(** [path.slice(from, to)] for [0 <= from] *)
Definition slice (s : jsstring) (from to : nat) : jsstring :=
  firstn (to - from) (skipn from s).

(** The scan of [extname], from the last code unit to the first. *)
Record ExtScan : Type := {
  startDot : option nat;
  startPart : nat;
  end_ : option nat;
  matchedSlash : bool;
  preDotState : option bool   (* [None]: 0, [Some true]: 1, [Some false]: -1 *)
}.

(** [units] are the code units at the indices [i - 1], [i - 2], ..., [0]. *)
Fixpoint extname_scan (units : jsstring) (i : nat) (st : ExtScan) : ExtScan :=
  match units, i with
  | code :: units', S i' =>
      if N.eqb code slash then
        if negb (matchedSlash st) then
          {| startDot := startDot st; startPart := i' + 1; end_ := end_ st;
             matchedSlash := matchedSlash st; preDotState := preDotState st |}
        else extname_scan units' i' st
      else
        let st1 :=
          match end_ st with
          | None =>
              {| startDot := startDot st; startPart := startPart st;
                 end_ := Some (i' + 1); matchedSlash := false;
                 preDotState := preDotState st |}
          | Some _ => st
          end in
        let st2 :=
          if N.eqb code dot then
            match startDot st1 with
            | None =>
                {| startDot := Some i'; startPart := startPart st1; end_ := end_ st1;
                   matchedSlash := matchedSlash st1; preDotState := preDotState st1 |}
            | Some _ =>
                {| startDot := startDot st1; startPart := startPart st1;
                   end_ := end_ st1; matchedSlash := matchedSlash st1;
                   preDotState := Some true |}
            end
          else
            match startDot st1 with
            | Some _ =>
                {| startDot := startDot st1; startPart := startPart st1;
                   end_ := end_ st1; matchedSlash := matchedSlash st1;
                   preDotState := Some false |}
            | None => st1
            end in
        extname_scan units' i' st2
  | _, _ => st
  end.

(** [path.extname(path)] *)
Definition extname (path : jsstring) : jsstring :=
  let st :=
    extname_scan (rev path) (length path)
      {| startDot := None; startPart := 0; end_ := None;
         matchedSlash := true; preDotState := None |} in
  match startDot st, end_ st, preDotState st with
  | Some sd, Some e, Some pre =>
      if pre && Nat.eqb sd (e - 1) && Nat.eqb sd (startPart st + 1) then []
      else slice path sd e
  | _, _, _ => []
  end.

(** The last component of a path: the trailing separators are dropped, then
    what follows the last separator is kept. *)
Fixpoint drop_slashes (units : jsstring) : jsstring :=
  match units with
  | c :: r => if N.eqb c slash then drop_slashes r else units
  | [] => []
  end.

Fixpoint take_component (units : jsstring) : jsstring :=
  match units with
  | c :: r => if N.eqb c slash then [] else c :: take_component r
  | [] => []
  end.

Definition last_component (path : jsstring) : jsstring :=
  rev (take_component (drop_slashes (rev path))).

(** [path.basename(path)] and [path.basename(path, suffix)] for a suffix
    without separator: the suffix is removed from the last component when
    that component ends with it and is more than it. *)
Definition basename (path : jsstring) (suffix : option jsstring) : jsstring :=
  let name := last_component path in
  match suffix with
  | None => name
  | Some sfx =>
      if (Nat.eqb (length sfx) 0 || Nat.ltb (length path) (length sfx))%bool then name
      else if str_eqb sfx path then []
      else if (starts_with (rev sfx) (rev name) && negb (str_eqb sfx name))%bool
           then firstn (length name - length sfx) name
      else name
  end.

Fixpoint split_on (sep : N) (s : jsstring) : list jsstring :=
  match s with
  | [] => [[]]
  | c :: r =>
      if N.eqb c sep then [] :: split_on sep r
      else match split_on sep r with
           | seg :: segs => (c :: seg) :: segs
           | [] => [[c]]
           end
  end.

(** The segments of a normalized path, most recent first: [.] and empty
    segments are dropped, [..] removes the segment before it. *)
Fixpoint normalize_segments (allowAboveRoot : bool) (segs acc : list jsstring)
  : list jsstring :=
  match segs with
  | [] => acc
  | seg :: segs' =>
      if (str_eqb seg [] || str_eqb seg [dot])%bool then
        normalize_segments allowAboveRoot segs' acc
      else if str_eqb seg [dot; dot] then
        match acc with
        | last :: acc' =>
            if str_eqb last [dot; dot]
            then normalize_segments allowAboveRoot segs' (seg :: acc)
            else normalize_segments allowAboveRoot segs' acc'
        | [] =>
            if allowAboveRoot
            then normalize_segments allowAboveRoot segs' [seg]
            else normalize_segments allowAboveRoot segs' []
        end
      else normalize_segments allowAboveRoot segs' (seg :: acc)
  end.

(** [path.normalize(path)] *)
Definition normalize (path : jsstring) : jsstring :=
  match path with
  | [] => [dot]
  | c :: _ =>
      let isAbsolute := N.eqb c slash in
      let trailing := N.eqb (last path 0%N) slash in
      let body :=
        join [slash] (rev (normalize_segments (negb isAbsolute) (split_on slash path) [])) in
      match body with
      | [] =>
          if isAbsolute then [slash]
          else if trailing then [dot; slash] else [dot]
      | _ =>
          let body := if trailing then body ++ [slash] else body in
          if isAbsolute then slash :: body else body
      end
  end.

(** [path.join(...parts)] *)
Definition join_paths (parts : list jsstring) : jsstring :=
  match filter (fun p => negb (str_eqb p [])) parts with
  | [] => [dot]
  | kept => normalize (join [slash] kept)
  end.

End Path.

(** ** utils/constants *)

Module Constants.

Definition DOCUMENT_DIGITIZATION : jsstring :=
  "https://api.upstage.ai/v1/document-digitization".
Definition INFORMATION_EXTRACTION : jsstring :=
  "https://api.upstage.ai/v1/information-extraction".
Definition SCHEMA_GENERATION : jsstring :=
  "https://api.upstage.ai/v1/information-extraction/schema-generation".
Definition DOCUMENT_CLASSIFICATION : jsstring :=
  "https://api.upstage.ai/v1/document-classification".

Definition DOCUMENT_PARSING : list jsstring :=
  [js ".pdf"; js ".jpeg"; js ".jpg"; js ".png"; js ".tiff"; js ".tif"; js ".bmp";
   js ".gif"; js ".webp"].
Definition INFO_EXTRACTION : list jsstring :=
  [js ".jpeg"; js ".jpg"; js ".png"; js ".bmp"; js ".pdf"; js ".tiff"; js ".tif";
   js ".heic"; js ".docx"; js ".pptx"; js ".xlsx"].

Definition MAX_SIZE : N := 50 * 1024 * 1024.
Definition MAX_PAGES : N := 100.

Definition TIMEOUT : N := 5 * 60 * 1000.
Definition RETRY_ATTEMPTS : nat := 3.
Definition RETRY_DELAY : N := 1000.

End Constants.

(** ** utils/validators *)

Module Validators.
Import Constants.

Fixpoint pad_zeros (width : nat) (digits : jsstring) : jsstring :=
  match Nat.ltb (length digits) width, width with
  | true, S w => 48%N :: pad_zeros w digits
  | _, _ => digits
  end.

(** [(num / den).toFixed(d)] for a quotient the division computes exactly
    (here [den] is 2^20): the decimal with [d] digits nearest to the
    quotient, the larger one of two equally near. *)
Definition toFixed_ratio (num den : N) (d : nat) : jsstring :=
  let scale := (10 ^ N.of_nat d)%N in
  let n := ((2 * num * scale + den) / (2 * den))%N in
  match d with
  | O => N_to_dec n
  | S _ => N_to_dec (n / scale) ++ js "." ++ pad_zeros d (N_to_dec (n mod scale))
  end.

Definition validateFileExists (filePath : jsstring) : M unit :=
  try_catch
    (stats <- fs_stat filePath ;;
     if negb (isFile stats)
     then throw (Error (js "Path is not a file: " ++ filePath))
     else ret tt)
    (fun error =>
       match code_of error with
       | Some code =>
           if str_eqb code "ENOENT"
           then throw (Error (js "File not found: " ++ filePath))
           else throw error
       | None => throw error
       end).

Definition validateFileSize (filePath : jsstring) (maxSize : option N) : M unit :=
  let maxSize := match maxSize with Some m => m | None => MAX_SIZE end in
  stats <- fs_stat filePath ;;
  if N.ltb maxSize (st_size stats) then
    let sizeMB := toFixed_ratio (st_size stats) (1024 * 1024) 2 in
    let maxSizeMB := toFixed_ratio maxSize (1024 * 1024) 0 in
    throw (Error (js "File size (" ++ sizeMB ++ js "MB) exceeds maximum allowed size ("
                    ++ maxSizeMB ++ js "MB)"))
  else ret tt.

(** The error of a file whose extension is not in the list. *)
Definition unsupported_format (filePath : jsstring) (allowedExtensions : list jsstring)
  : exn :=
  let ext := toLowerCase (Path.extname filePath) in
  Error (js "Unsupported file format: " ++ ext ++ js ". Supported formats: "
           ++ join (js ", ") allowedExtensions).

Definition validateFileExtension (filePath : jsstring) (allowedExtensions : list jsstring)
  : Res unit :=
  let ext := toLowerCase (Path.extname filePath) in
  if negb (array_includes allowedExtensions ext) then
    Throw (unsupported_format filePath allowedExtensions)
  else Ok tt.

Definition validateDocumentFile (filePath : jsstring) : M unit :=
  validateFileExists filePath ;;
  lift (validateFileExtension filePath DOCUMENT_PARSING) ;;
  validateFileSize filePath None.

Definition validateExtractionFile (filePath : jsstring) : M unit :=
  validateFileExists filePath ;;
  lift (validateFileExtension filePath INFO_EXTRACTION) ;;
  validateFileSize filePath None.

End Validators.

(** ** utils/fileUtils *)

Module FileUtils.

Definition ensureDirectoryExists (dirPath : jsstring) : M unit :=
  fs_mkdir dirPath.

Definition saveJsonToFile (data : jsval) (filePath : jsstring) (indent : option nat)
  : M unit :=
  let indent := match indent with Some n => n | None => 2 end in
  let jsonContent := JSON.stringify_indent indent data in
  fs_writeFile filePath jsonContent.

Definition readJsonFile (filePath : jsstring) : M jsval :=
  content <- fs_read filePath ;;
  match JSON.parse (f_utf8 content) with
  | Some v => ret v
  | None => throw (SyntaxError (JSON.syntax_error_message (f_utf8 content)))
  end.

Definition readFileAsBase64 (filePath : jsstring) : M jsstring :=
  buffer <- fs_read filePath ;;
  ret (f_base64 buffer).

Definition mimeTypes : list (jsstring * jsstring) :=
  [ (js ".jpg", js "image/jpeg");
    (js ".jpeg", js "image/jpeg");
    (js ".png", js "image/png");
    (js ".bmp", js "image/bmp");
    (js ".gif", js "image/gif");
    (js ".tiff", js "image/tiff");
    (js ".tif", js "image/tiff");
    (js ".heic", js "image/heic");
    (js ".pdf", js "application/pdf");
    (js ".docx", js "application/vnd.openxmlformats-officedocument.wordprocessingml.document");
    (js ".xlsx", js "application/vnd.openxmlformats-officedocument.spreadsheetml.sheet");
    (js ".pptx", js "application/vnd.openxmlformats-officedocument.presentationml.presentation") ].

Fixpoint assoc (k : jsstring) (table : list (jsstring * jsstring)) : option jsstring :=
  match table with
  | [] => None
  | (k', v) :: table' => if str_eqb k k' then Some v else assoc k table'
  end.

Definition getMimeType (filePath : jsstring) : jsstring :=
  let ext := toLowerCase (Path.extname filePath) in
  match assoc ext mimeTypes with
  | Some mime => mime
  | None => js "application/octet-stream"
  end.

Definition getOutputDirectory (subDir : jsstring) : M jsstring :=
  home <- os_homedir ;;
  ret (Path.join_paths [home; js ".mcp-upstage"; js "outputs"; subDir]).

(** [s.replace(/[:.]/g, '-')] *)
Definition dash_colons_dots (s : jsstring) : jsstring :=
  map (fun c => if (N.eqb c 58 || N.eqb c 46)%bool then 45%N else c) s.

Definition generateTimestampedFilename (originalPath : jsstring) (suffix : option jsstring)
  : M jsstring :=
  let suffix := match suffix with Some s => s | None => js "upstage" end in
  iso <- now_iso ;;
  let replaced := dash_colons_dots iso in
  let timestamp := firstn (length replaced - 5) replaced in
  let baseName := Path.basename originalPath (Some (Path.extname originalPath)) in
  ret (baseName ++ js "_" ++ timestamp ++ js "_" ++ suffix ++ js ".json").

End FileUtils.

(** ** The [retry] package: [RetryOperation]

    The operation keeps the delays still to come and the errors of the
    attempts so far. [retry(err)] records the error and takes the next
    delay; without one it reports that no attempt is left. *)

Module Retry.

(** [retry.timeouts({ retries, factor, minTimeout, maxTimeout })], without
    randomization *)
Definition timeouts (retries : nat) (factor minTimeout maxTimeout : N) : list N :=
  map (fun i => N.min (N.max minTimeout 1 * factor ^ N.of_nat i) maxTimeout)
      (seq 0 retries).

Fixpoint count_message (m : jsstring) (errors : list exn) : nat :=
  match errors with
  | [] => 0
  | e :: errors' =>
      (if str_eqb (message_of e) m then 1 else 0) + count_message m errors'
  end.

(** The scan of [mainError]: [seen] are the errors already counted. *)
Fixpoint mainError_scan (seen errors : list exn) (main : option exn) (mainCount : nat)
  : option exn :=
  match errors with
  | [] => main
  | e :: errors' =>
      let count := count_message (message_of e) seen + 1 in
      if Nat.leb mainCount count
      then mainError_scan (seen ++ [e]) errors' (Some e) count
      else mainError_scan (seen ++ [e]) errors' main mainCount
  end.

(** [operation.mainError()]: the error whose message occurred most often,
    the last one with that message; [None] is [null]. The package counts
    the messages in an object literal, so a message that names a member of
    [Object.prototype] ([constructor], [toString] and the like) is never
    counted as a number there; the count below is the one of the package
    for every other message, which are those of the errors that the client
    records for a failed request ([<operation> failed: ...]). *)
Definition mainError (errors : list exn) : option exn :=
  mainError_scan [] errors None 0.

End Retry.

(** ** utils/apiClient *)

Module ApiClient.
Import Constants.

Record ApiRequestOptions : Type := {
  files : option (list (jsstring * jsval));
  data : option (list (jsstring * jsval));
  json : option jsval
}.

(** The headers of the client built for [apiKey]. *)
Definition client_headers (apiKey : jsstring) : list (jsstring * jsstring) :=
  [ (js "Authorization", js "Bearer " ++ apiKey);
    (js "x-upstage-client", js "mcp") ].

(** [typeof value === 'object' ? JSON.stringify(value) : value] *)
Definition form_value (value : jsval) : jsval :=
  if str_eqb (typeof value) "object" then
    match JSON.stringify value with
    | Some text => VStr text
    | None => value
    end
  else value.

Definition form_fields (data : option (list (jsstring * jsval))) : list (jsstring * jsval) :=
  match data with
  | Some entries => map (fun kv => (fst kv, form_value (snd kv))) entries
  | None => []
  end.

(** The request [sendRequest] builds. A string among [files] stands for
    the read stream opened on that path; the boundary that [form-data] draws
    for its content type is left out. *)
Definition build_request (apiKey url : jsstring) (options : ApiRequestOptions) : Request :=
  match files options with
  | Some fs =>
      {| url := url;
         headers := client_headers apiKey ++ [(js "content-type", js "multipart/form-data")];
         timeout := TIMEOUT;
         body := Multipart fs (form_fields (data options)) |}
  | None =>
      match json options with
      | Some payload =>
          {| url := url;
             headers := client_headers apiKey ++ [(js "Content-Type", js "application/json")];
             timeout := TIMEOUT;
             body := JsonBody payload |}
      | None =>
          {| url := url;
             headers := client_headers apiKey ++ [(js "content-type", js "multipart/form-data")];
             timeout := TIMEOUT;
             body := FormBody (form_fields (data options)) |}
      end
  end.

Definition sendRequest (apiKey url : jsstring) (options : ApiRequestOptions) : M jsval :=
  axios_post (build_request apiKey url options).

(** [status && status >= 400 && status < 500 && status !== 429] *)
Definition client_error (status : option N) : bool :=
  match status with
  | Some s => negb (N.eqb s 0) && N.leb 400 s && N.ltb s 500 && negb (N.eqb s 429)
  | None => false
  end.

(** [error.response?.data?.message || error.message] *)
Definition failure_message (data_message : option jsstring) (message : jsstring) : jsstring :=
  match data_message with
  | Some (c :: m) => c :: m
  | _ => message
  end.

(** [operation.mainError() || err] *)
Definition main_or (errors : list exn) (err : exn) : exn :=
  match Retry.mainError errors with
  | Some e => e
  | None => err
  end.

(** The failures after which another attempt is made: all but the client
    errors. *)
Definition retryable (error : exn) : bool :=
  match error with
  | AxiosError status _ _ => negb (client_error status)
  | _ => true
  end.

(** The error the operation records for a failure. *)
Definition recorded (operation : jsstring) (error : exn) : exn :=
  match error with
  | AxiosError _ data_message axios_message =>
      Error (operation ++ js " failed: " ++ failure_message data_message axios_message)
  | err => err
  end.

(** The answer of the endpoint to the request [r] made after [i] others. *)
Definition reply_at (w : World) (i : nat) (r : Request) : Reply :=
  endpoint w (length (requests w) + i) r.

(** The line written when an attempt failed and another one is scheduled;
    [retryOperation.attempts()] is the number of attempts made so far. *)
Definition attempt_line (operation : jsstring) (currentAttempt : nat) : jsstring :=
  operation ++ js " attempt " ++ N_to_dec (N.of_nat currentAttempt)
    ++ js " failed. " ++ N_to_dec (N.of_nat currentAttempt) ++ js " attempts left.".

(** The world after a failed attempt that is followed by another one. *)
Definition after_failure (operation : jsstring) (currentAttempt : nat) (error : exn)
           (delay : N) (r : Request) (w : World) : World :=
  log_delay delay
    (match error with
     | AxiosError _ _ _ => log_console (attempt_line operation currentAttempt) (log_request r w)
     | _ => log_request r w
     end).

(** The function given to [retryOperation.attempt], with the state of the
    operation: the delays left and the errors recorded so far. *)
Fixpoint attempt (operation : jsstring) (send : M jsval)
         (timeouts : list N) (errors : list exn) (currentAttempt : nat) : M jsval :=
  try_catch send
    (fun error =>
       match error with
       | AxiosError status data_message axios_message =>
           let message := failure_message data_message axios_message in
           if client_error status then
             throw (Error (operation ++ js " failed: " ++ message))
           else
             let retryError := Error (operation ++ js " failed: " ++ message) in
             match timeouts with
             | [] => throw (main_or (errors ++ [retryError]) retryError)
             | delay :: timeouts' =>
                 console_error (attempt_line operation currentAttempt) ;;
                 sleep delay ;;
                 attempt operation send timeouts' (errors ++ [retryError]) (S currentAttempt)
             end
       | err =>
           match timeouts with
           | [] => throw (main_or (errors ++ [err]) err)
           | delay :: timeouts' =>
               sleep delay ;;
               attempt operation send timeouts' (errors ++ [err]) (S currentAttempt)
           end
       end).

Definition makeRequest (apiKey url : jsstring) (options : ApiRequestOptions)
           (operation : option jsstring) : M jsval :=
  let operation := match operation with Some o => o | None => js "API request" end in
  attempt operation (sendRequest apiKey url options)
          (Retry.timeouts (RETRY_ATTEMPTS - 1) 2 RETRY_DELAY (RETRY_DELAY * 4)) [] 1.

Definition makeApiRequest (url apiKey : jsstring) (options : ApiRequestOptions)
           (operation : option jsstring) : M jsval :=
  makeRequest apiKey url options operation.

End ApiClient.

(** ** What the handlers share *)

(** [String(v)], as [JSON.parse] applies it to an argument that is not a
    string. *)
Fixpoint ToString (v : jsval) : jsstring :=
  match v with
  | VUndef => js "undefined"
  | VNull => js "null"
  | VBool true => js "true"
  | VBool false => js "false"
  | VNum lit => lit
  | VStr s => s
  | VArr l =>
      join [44%N]
        (map (fun x => match x with
                       | VUndef | VNull => []
                       | _ => ToString x
                       end) l)
  | VObj _ => js "[object Object]"
  end.

(** [JSON.parse(v)] *)
Definition JSON_parse (v : jsval) : M jsval :=
  match JSON.parse (ToString v) with
  | Some r => ret r
  | None => throw (SyntaxError (JSON.syntax_error_message (ToString v)))
  end.

(** [a || b] *)
Definition js_or (a b : jsval) : jsval := if truthy a then a else b.

(** A string option of a call: given when it is there and not empty
    ([if (schemaJson)]). *)
Definition given (o : option jsstring) : bool :=
  match o with
  | Some (_ :: _) => true
  | _ => false
  end.

Definition opt_str (o : option jsstring) : jsval :=
  match o with
  | Some s => VStr s
  | None => VUndef
  end.

(** The request in the format of a chat completion: the document as a data
    URI, and the response format when there is one. *)
Definition chat_request (model : string) (mimeType fileBase64 : jsstring)
           (response_format : option jsval) : jsval :=
  obj ([ "model" :-> str model;
         "messages" :->
           VArr [ obj [ "role" :-> str "user";
                        "content" :->
                          VArr [ obj [ "type" :-> str "image_url";
                                       "image_url" :->
                                         obj [ "url" :->
                                                 VStr (js "data:" ++ mimeType
                                                         ++ js ";base64," ++ fileBase64) ] ] ] ] ] ]
         ++ match response_format with
            | Some f => [ "response_format" :-> f ]
            | None => []
            end).

(** [!result.choices || result.choices.length === 0] and then
    [result.choices[0].message.content] *)
Definition first_choice_content (result : jsval) (api : string) : M jsval :=
  choices <- lift (get result "choices") ;;
  if negb (truthy choices) || is_zero (prop choices "length") then
    throw (Error (js "Invalid response from " ++ js api ++ js " API"))
  else
    choice <- lift (get choices "0") ;;
    message <- lift (get choice "message") ;;
    lift (get message "content").

Definition json_request (payload : jsval) : ApiClient.ApiRequestOptions :=
  {| ApiClient.files := None; ApiClient.data := None; ApiClient.json := Some payload |}.

(** ** tools/documentParser *)

Module DocumentParser.
Import Constants Validators FileUtils ApiClient.

Record ParseDocumentOptions : Type := {
  filePath : jsstring;
  apiKey : jsstring;
  outputFormats : option (list jsstring);
  onProgress : option Sink
}.

Definition parseDocument (options : ParseDocumentOptions) : M jsstring :=
  let filePath := filePath options in
  let onProgress := onProgress options in
  validateDocumentFile filePath ;;
  report onProgress 10 ;;
  let requestData :=
    [ "ocr" :-> str "force";
      "base64_encoding" :-> str "['table']";
      "model" :-> str "document-parse" ]
    ++ match outputFormats options with
       | Some (f :: fs) =>
           [ "output_formats" :-> opt_str (JSON.stringify (VArr (map VStr (f :: fs)))) ]
       | _ => []
       end in
  report onProgress 30 ;;
  result <- makeApiRequest DOCUMENT_DIGITIZATION (apiKey options)
              {| files := Some [ "document" :-> VStr filePath ];
                 data := Some (object_of requestData);
                 json := None |}
              (Some (js "Document parsing")) ;;
  report onProgress 80 ;;
  outputDir <- getOutputDirectory "document_parsing" ;;
  ensureDirectoryExists outputDir ;;
  outputFilename <- generateTimestampedFilename filePath None ;;
  let outputPath := Path.join_paths [outputDir; outputFilename] in
  saveJsonToFile result outputPath (Some 2) ;;
  report onProgress 100 ;;
  content0 <- lift (get result "content") ;;
  let content := js_or content0 (VObj []) in
  let responseText := ToString (opt_str (JSON.stringify content)) in
  ret (responseText ++ [10; 10]%N ++ js "The full response has been saved to "
         ++ outputPath ++ js " for your reference.").

Definition parseAndSaveDocument (filePath apiKey : jsstring)
           (outputFormats : option (list jsstring)) (onProgress : option Sink) : M jsstring :=
  parseDocument
    {| filePath := filePath; apiKey := apiKey;
       outputFormats := outputFormats; onProgress := onProgress |}.

End DocumentParser.

(** ** tools/informationExtractor *)

Module InformationExtractor.
Import Constants Validators FileUtils ApiClient.

Record ExtractInformationOptions : Type := {
  filePath : jsstring;
  apiKey : jsstring;
  schemaPath : option jsstring;
  schemaJson : option jsstring;
  autoGenerateSchema : option bool;
  onProgress : option Sink
}.

Definition generateSchema (filePath apiKey : jsstring) (onProgress : option Sink) : M jsval :=
  report onProgress 20 ;;
  let mimeType := getMimeType filePath in
  fileBase64 <- readFileAsBase64 filePath ;;
  let requestData := chat_request "information-extract" mimeType fileBase64 None in
  result <- makeApiRequest SCHEMA_GENERATION apiKey (json_request requestData)
              (Some (js "Schema generation")) ;;
  report onProgress 40 ;;
  content <- first_choice_content result "schema generation" ;;
  schema <- JSON_parse content ;;
  json_schema <- lift (get schema "json_schema") ;;
  if negb (truthy json_schema) then
    throw (Error "Invalid schema format returned")
  else
    schemaDir <- getOutputDirectory "information_extraction/schemas" ;;
    ensureDirectoryExists schemaDir ;;
    schemaFilename <- generateTimestampedFilename filePath (Some (js "schema")) ;;
    let schemaPath := Path.join_paths [schemaDir; schemaFilename] in
    saveJsonToFile json_schema schemaPath (Some 2) ;;
    ret json_schema.

(** The choice of the schema: the text, else the file, else the generation. *)
Definition resolveSchema (options : ExtractInformationOptions) : M jsval :=
  let onProgress := onProgress options in
  if given (schemaJson options) then
    schema <-
      match SchemaHelper.parseSchemaJson
              (match schemaJson options with Some s => s | None => [] end) with
      | Ok parsed => ret (prop parsed "json_schema")
      | Throw error => throw (Error (js "Invalid schema format: " ++ message_of error))
      end ;;
    report onProgress 20 ;;
    ret schema
  else if given (schemaPath options) then
    schema <- readJsonFile (match schemaPath options with Some p => p | None => [] end) ;;
    report onProgress 20 ;;
    ret schema
  else if match autoGenerateSchema options with Some b => b | None => true end then
    generateSchema (filePath options) (apiKey options) onProgress
  else ret VNull.

Definition extractInformation (options : ExtractInformationOptions) : M jsstring :=
  let filePath := filePath options in
  let onProgress := onProgress options in
  validateExtractionFile filePath ;;
  report onProgress 10 ;;
  schema <- resolveSchema options ;;
  if negb (truthy schema) then
    throw (Error "No schema provided or generated. Please provide a schema or enable auto_generate_schema.")
  else
    report onProgress 60 ;;
    let mimeType := getMimeType filePath in
    fileBase64 <- readFileAsBase64 filePath ;;
    let requestData :=
      chat_request "information-extract" mimeType fileBase64
        (Some (obj [ "type" :-> str "json_schema"; "json_schema" :-> schema ])) in
    result <- makeApiRequest INFORMATION_EXTRACTION (apiKey options)
                (json_request requestData) (Some (js "Information extraction")) ;;
    content <- first_choice_content result "information extraction" ;;
    extractedData <- JSON_parse content ;;
    report onProgress 90 ;;
    outputDir <- getOutputDirectory "information_extraction" ;;
    ensureDirectoryExists outputDir ;;
    outputFilename <- generateTimestampedFilename filePath (Some (js "extraction")) ;;
    let outputPath := Path.join_paths [outputDir; outputFilename] in
    let response :=
      obj [ "extracted_data" :-> extractedData;
            "metadata" :->
              obj [ "file" :-> VStr (Path.basename filePath None);
                    "result_saved_to" :-> VStr outputPath;
                    "schema_used" :->
                      (if given (schemaPath options) then opt_str (schemaPath options)
                       else str "auto-generated") ] ] in
    saveJsonToFile response outputPath (Some 2) ;;
    report onProgress 100 ;;
    ret (ToString (opt_str (JSON.stringify_indent 2 response))).

Definition extractInformationFromFile (filePath apiKey : jsstring)
           (schemaPath schemaJson : option jsstring) (autoGenerateSchema : option bool)
           (onProgress : option Sink) : M jsstring :=
  extractInformation
    {| filePath := filePath; apiKey := apiKey; schemaPath := schemaPath;
       schemaJson := schemaJson; autoGenerateSchema := autoGenerateSchema;
       onProgress := onProgress |}.

End InformationExtractor.

(** ** tools/schemaGenerator *)

Module SchemaGenerator.
Import Constants Validators FileUtils ApiClient.

Record GenerateSchemaOptions : Type := {
  filePath : jsstring;
  apiKey : jsstring;
  onProgress : option Sink
}.

Definition generateSchema (options : GenerateSchemaOptions) : M jsstring :=
  let filePath := filePath options in
  let onProgress := onProgress options in
  validateExtractionFile filePath ;;
  report onProgress 10 ;;
  let mimeType := getMimeType filePath in
  fileBase64 <- readFileAsBase64 filePath ;;
  report onProgress 30 ;;
  let requestData := chat_request "information-extract" mimeType fileBase64 None in
  report onProgress 50 ;;
  result <- makeApiRequest SCHEMA_GENERATION (apiKey options) (json_request requestData)
              (Some (js "Schema generation")) ;;
  report onProgress 80 ;;
  content <- first_choice_content result "schema generation" ;;
  schema <- JSON_parse content ;;
  json_schema <- lift (get schema "json_schema") ;;
  if negb (truthy json_schema) then
    throw (Error "Invalid schema format returned")
  else
    schemaDir <- getOutputDirectory "information_extraction/schemas" ;;
    ensureDirectoryExists schemaDir ;;
    schemaFilename <- generateTimestampedFilename filePath (Some (js "generated_schema")) ;;
    let schemaPath := Path.join_paths [schemaDir; schemaFilename] in
    generated_at <- now_iso ;;
    let schemaWithMetadata :=
      obj [ "generated_schema" :-> schema;
            "metadata" :->
              obj [ "source_file" :-> VStr (Path.basename filePath None);
                    "generated_at" :-> VStr generated_at;
                    "schema_saved_to" :-> VStr schemaPath ] ] in
    saveJsonToFile schemaWithMetadata schemaPath (Some 2) ;;
    report onProgress 100 ;;
    let response :=
      obj [ "schema" :-> schema;
            "schema_json" :-> opt_str (JSON.stringify schema);
            "metadata" :->
              obj [ "source_file" :-> VStr (Path.basename filePath None);
                    "schema_saved_to" :-> VStr schemaPath;
                    "usage_instructions" :->
                      str "Copy the 'schema_json' value to use with extract_information tool when auto_generate_schema is false" ] ] in
    ret (ToString (opt_str (JSON.stringify_indent 2 response))).

Definition generateSchemaFromFile (filePath apiKey : jsstring) (onProgress : option Sink)
  : M jsstring :=
  generateSchema {| filePath := filePath; apiKey := apiKey; onProgress := onProgress |}.

End SchemaGenerator.

(** ** tools/documentClassifier *)

Module DocumentClassifier.
Import Constants Validators FileUtils ApiClient.

Record ClassifyDocumentOptions : Type := {
  filePath : jsstring;
  apiKey : jsstring;
  schemaPath : option jsstring;
  schemaJson : option jsstring;
  onProgress : option Sink
}.

Definition category (const description : string) : jsval :=
  obj [ "const" :-> str const; "description" :-> str description ].

Definition DEFAULT_CLASSIFICATION_SCHEMA : jsval :=
  obj [ "type" :-> str "json_schema";
        "json_schema" :->
          obj [ "name" :-> str "document-classify";
                "schema" :->
                  obj [ "type" :-> str "string";
                        "oneOf" :->
                          VArr [ category "invoice" "Commercial invoice with itemized charges and billing information";
                                 category "receipt" "Receipt showing purchase transaction details";
                                 category "contract" "Legal agreement or contract document";
                                 category "cv" "Curriculum vitae or resume";
                                 category "bank_statement" "Bank account statement showing transactions";
                                 category "tax_document" "Tax forms or tax-related documents";
                                 category "insurance" "Insurance policy or claims document";
                                 category "business_card" "Business card with contact information";
                                 category "letter" "Formal or business letter";
                                 category "form" "Application form or survey form";
                                 category "certificate" "Certificate or diploma";
                                 category "report" "Business report or analytical document";
                                 category "others" "Other document types not listed above" ] ] ] ].

(** The response format: the custom schema of the text, else of the file,
    else the default one. *)
Definition resolveResponseFormat (options : ClassifyDocumentOptions) : M jsval :=
  let onProgress := onProgress options in
  let default :=
    obj [ "type" :-> str "json_schema";
          "json_schema" :-> prop DEFAULT_CLASSIFICATION_SCHEMA "json_schema" ] in
  if given (schemaJson options) then
    responseFormat <-
      match SchemaHelper.parseSchemaJson
              (match schemaJson options with Some s => s | None => [] end) with
      | Ok parsedSchema =>
          ret (obj [ "type" :-> str "json_schema";
                     "json_schema" :-> prop parsedSchema "json_schema" ])
      | Throw error =>
          throw (Error (js "Invalid classification schema format: " ++ message_of error))
      end ;;
    report onProgress 20 ;;
    ret responseFormat
  else if given (schemaPath options) then
    loadedSchema <- readJsonFile (match schemaPath options with Some p => p | None => [] end) ;;
    type <- lift (get loadedSchema "type") ;;
    let responseFormat :=
      if is_string type "json_schema" && truthy (prop loadedSchema "json_schema")
      then loadedSchema
      else obj [ "type" :-> str "json_schema"; "json_schema" :-> loadedSchema ] in
    report onProgress 20 ;;
    ret responseFormat
  else ret default.

(** [schemaPath || (schemaJson ? 'custom' : 'default')] *)
Definition schema_used (options : ClassifyDocumentOptions) : jsval :=
  if given (schemaPath options) then opt_str (schemaPath options)
  else if given (schemaJson options) then str "custom"
  else str "default".

(** What is written to the disk. *)
Definition saved_result (options : ClassifyDocumentOptions)
           (classificationResult result : jsval) (outputPath : jsstring) : jsval :=
  obj [ "classification" :-> classificationResult;
        "metadata" :->
          obj [ "file" :-> VStr (Path.basename (filePath options) None);
                "result_saved_to" :-> VStr outputPath;
                "schema_used" :-> schema_used options;
                "api_response" :-> result ] ].

(** What is returned. *)
Definition returned_result (options : ClassifyDocumentOptions)
           (classificationResult : jsval) (outputPath : jsstring) : jsval :=
  obj [ "classification" :-> classificationResult;
        "metadata" :->
          obj [ "file" :-> VStr (Path.basename (filePath options) None);
                "result_saved_to" :-> VStr outputPath;
                "schema_used" :-> schema_used options ] ].

Definition classifyDocument (options : ClassifyDocumentOptions) : M jsstring :=
  let filePath := filePath options in
  let onProgress := onProgress options in
  validateExtractionFile filePath ;;
  report onProgress 10 ;;
  responseFormat <- resolveResponseFormat options ;;
  let mimeType := getMimeType filePath in
  fileBase64 <- readFileAsBase64 filePath ;;
  report onProgress 40 ;;
  let requestData :=
    chat_request "document-classify" mimeType fileBase64 (Some responseFormat) in
  report onProgress 60 ;;
  result <- makeApiRequest DOCUMENT_CLASSIFICATION (apiKey options)
              (json_request requestData) (Some (js "Document classification")) ;;
  classificationResult <- first_choice_content result "document classification" ;;
  report onProgress 90 ;;
  outputDir <- getOutputDirectory "document_classification" ;;
  ensureDirectoryExists outputDir ;;
  outputFilename <- generateTimestampedFilename filePath (Some (js "classification")) ;;
  let outputPath := Path.join_paths [outputDir; outputFilename] in
  let response := saved_result options classificationResult result outputPath in
  saveJsonToFile response outputPath (Some 2) ;;
  report onProgress 100 ;;
  ret (ToString (opt_str (JSON.stringify_indent 2
                            (returned_result options classificationResult outputPath)))).

Definition classifyDocumentFromFile (filePath apiKey : jsstring)
           (schemaPath schemaJson : option jsstring) (onProgress : option Sink) : M jsstring :=
  classifyDocument
    {| filePath := filePath; apiKey := apiKey; schemaPath := schemaPath;
       schemaJson := schemaJson; onProgress := onProgress |}.

End DocumentClassifier.

(** ** server: the stdio dispatcher *)

Module Server.

(** *** The argument schemas (zod)

    The message of a [ZodError] is the JSON text of its list of issues; the
    text below stands for it. *)

Definition zod_issue (path expected : string) : exn :=
  ZodError (js "Invalid input at " ++ js path ++ js ": expected " ++ js expected).

Definition is_plain_object (v : jsval) : bool :=
  match v with
  | VObj _ => true
  | _ => false
  end.

(** [z.string()] *)
Definition zod_string (path : string) (v : jsval) : Res jsstring :=
  match v with
  | VStr s => Ok s
  | _ => Throw (zod_issue path "string")
  end.

(** [z.string().optional()] *)
Definition zod_optional_string (path : string) (v : jsval) : Res (option jsstring) :=
  match v with
  | VUndef => Ok None
  | VStr s => Ok (Some s)
  | _ => Throw (zod_issue path "string")
  end.

Fixpoint all_strings (l : list jsval) : option (list jsstring) :=
  match l with
  | [] => Some []
  | VStr s :: l' =>
      match all_strings l' with
      | Some r => Some (s :: r)
      | None => None
      end
  | _ :: _ => None
  end.

(** [z.array(z.string()).optional()] *)
Definition zod_optional_strings (path : string) (v : jsval) : Res (option (list jsstring)) :=
  match v with
  | VUndef => Ok None
  | VArr l =>
      match all_strings l with
      | Some r => Ok (Some r)
      | None => Throw (zod_issue path "string")
      end
  | _ => Throw (zod_issue path "array")
  end.

(** [z.boolean().default(true)] *)
Definition zod_boolean_default (path : string) (default : bool) (v : jsval) : Res bool :=
  match v with
  | VUndef => Ok default
  | VBool b => Ok b
  | _ => Throw (zod_issue path "boolean")
  end.

Definition res_bind {A B} (r : Res A) (k : A -> Res B) : Res B :=
  match r with
  | Ok a => k a
  | Throw e => Throw e
  end.

Definition zod_object (args : jsval) : Res unit :=
  if is_plain_object args then Ok tt else Throw (zod_issue "" "object").

Record ParseDocumentArgs : Type := {
  pd_file_path : jsstring;
  pd_output_formats : option (list jsstring)
}.

Definition ParseDocumentSchema (args : jsval) : Res ParseDocumentArgs :=
  res_bind (zod_object args) (fun _ =>
  res_bind (zod_string "file_path" (prop args "file_path")) (fun file_path =>
  res_bind (zod_optional_strings "output_formats" (prop args "output_formats")) (fun formats =>
  Ok {| pd_file_path := file_path; pd_output_formats := formats |}))).

Record ExtractInformationArgs : Type := {
  ei_file_path : jsstring;
  ei_schema_path : option jsstring;
  ei_schema_json : option jsstring;
  ei_auto_generate_schema : bool
}.

Definition ExtractInformationSchema (args : jsval) : Res ExtractInformationArgs :=
  res_bind (zod_object args) (fun _ =>
  res_bind (zod_string "file_path" (prop args "file_path")) (fun file_path =>
  res_bind (zod_optional_string "schema_path" (prop args "schema_path")) (fun schema_path =>
  res_bind (zod_optional_string "schema_json" (prop args "schema_json")) (fun schema_json =>
  res_bind (zod_boolean_default "auto_generate_schema" true
              (prop args "auto_generate_schema")) (fun auto =>
  Ok {| ei_file_path := file_path; ei_schema_path := schema_path;
        ei_schema_json := schema_json; ei_auto_generate_schema := auto |}))))).

Definition GenerateSchemaSchema (args : jsval) : Res jsstring :=
  res_bind (zod_object args) (fun _ =>
  zod_string "file_path" (prop args "file_path")).

Record ClassifyDocumentArgs : Type := {
  cd_file_path : jsstring;
  cd_schema_path : option jsstring;
  cd_schema_json : option jsstring
}.

Definition ClassifyDocumentSchema (args : jsval) : Res ClassifyDocumentArgs :=
  res_bind (zod_object args) (fun _ =>
  res_bind (zod_string "file_path" (prop args "file_path")) (fun file_path =>
  res_bind (zod_optional_string "schema_path" (prop args "schema_path")) (fun schema_path =>
  res_bind (zod_optional_string "schema_json" (prop args "schema_json")) (fun schema_json =>
  Ok {| cd_file_path := file_path; cd_schema_path := schema_path;
        cd_schema_json := schema_json |})))).

(** *** The tools *)

Definition string_type : jsval := obj [ "type" :-> str "string" ].

Definition tool (name : string) (description : jsstring) (properties : jsval) : jsval :=
  obj [ "name" :-> str name;
        "description" :-> VStr description;
        "inputSchema" :->
          obj [ "type" :-> str "object";
                "properties" :-> properties;
                "required" :-> VArr [ str "file_path" ] ] ].

Definition parse_document_description : jsstring :=
  jsq "Parse a document using Upstage AI's document digitization API.
    
This tool extracts the structure and content from various document types,
including PDFs, images, and Office files. It preserves the original formatting
and layout while converting the document into a structured format.

Supported file formats include: PDF, JPEG, PNG, TIFF, and other common document formats.".

Definition extract_information_description : jsstring :=
  jsq "Extract structured information from documents using Upstage Universal Information Extraction.
    
This tool can extract key information from any document type without pre-training.
You can either provide a schema defining what information to extract, or let the system
automatically generate an appropriate schema based on the document content.

Supported file formats: JPEG, PNG, BMP, PDF, TIFF, HEIC, DOCX, PPTX, XLSX
Max file size: 50MB
Max pages: 100

SCHEMA FORMAT: When auto_generate_schema is false, provide schema in this exact format:
{
  `type`: `json_schema`,
  `json_schema`: {
    `name`: `document_schema`,
    `schema`: {
      `type`: `object`, 
      `properties`: {
        `field_name`: {
          `type`: `string|number|array|object`,
          `description`: `What to extract`
        }
      }
    }
  }
}

Example schema_json:
{`type`:`json_schema`,`json_schema`:{`name`:`document_schema`,`schema`:{`type`:`object`,`properties`:{`company_name`:{`type`:`string`,`description`:`Company name`},`invoice_number`:{`type`:`string`,`description`:`Invoice number`},`total_amount`:{`type`:`number`,`description`:`Total amount`}}}}}".

Definition generate_schema_description : jsstring :=
  jsq "Generate an extraction schema for a document using Upstage AI's schema generation API.

This tool analyzes a document and automatically generates a JSON schema that defines the structure 
and fields that can be extracted from similar documents. The generated schema can then be used 
with the extract_information tool when auto_generate_schema is set to false.

This is useful when you want to:
- Create a reusable schema for multiple similar documents
- Have more control over the extraction fields
- Ensure consistent field naming and structure across extractions

Supported file formats: JPEG, PNG, BMP, PDF, TIFF, HEIC, DOCX, PPTX, XLSX
Max file size: 50MB
Max pages: 100

The tool returns both a readable schema object and a schema_json string that can be directly 
copied and used with the extract_information tool.".

Definition classify_document_description : jsstring :=
  jsq "Classify a document into predefined categories using Upstage AI's document classification API.

This tool analyzes a document and classifies it into one of several predefined categories such as 
invoice, receipt, contract, CV, bank statement, and others. You can use the default classification 
schema or provide your own custom classification categories.

Supported file formats: JPEG, PNG, BMP, PDF, TIFF, HEIC, DOCX, PPTX, XLSX
Max file size: 50MB
Max pages: 100

DEFAULT CATEGORIES:
- invoice: Commercial invoice with itemized charges and billing information
- receipt: Receipt showing purchase transaction details  
- contract: Legal agreement or contract document
- cv: Curriculum vitae or resume
- bank_statement: Bank account statement showing transactions
- tax_document: Tax forms or tax-related documents
- insurance: Insurance policy or claims document
- business_card: Business card with contact information
- letter: Formal or business letter
- form: Application form or survey form
- certificate: Certificate or diploma
- report: Business report or analytical document
- others: Other document types not listed above

CUSTOM SCHEMA FORMAT: For custom classification, provide schema in this exact format:
{
  `type`: `json_schema`,
  `json_schema`: {
    `name`: `document-classify`,
    `schema`: {
      `type`: `string`,
      `oneOf`: [
        {`const`: `category1`, `description`: `Description of category 1`},
        {`const`: `category2`, `description`: `Description of category 2`},
        {`const`: `others`, `description`: `Other`}
      ]
    }
  }
}

Example custom schema_json:
{`type`:`json_schema`,`json_schema`:{`name`:`document-classify`,`schema`:{`type`:`string`,`oneOf`:[{`const`:`medical`,`description`:`Medical records or health documents`},{`const`:`legal`,`description`:`Legal documents`},{`const`:`financial`,`description`:`Financial statements or reports`},{`const`:`others`,`description`:`Other`}]}}}".

Definition parse_document_properties : jsval :=
  obj [ "file_path" :-> string_type;
        "output_formats" :-> obj [ "type" :-> str "array"; "items" :-> string_type ] ].

Definition extract_information_properties : jsval :=
  obj [ "file_path" :-> string_type;
        "schema_path" :-> string_type;
        "schema_json" :-> string_type;
        "auto_generate_schema" :->
          obj [ "type" :-> str "boolean"; "default" :-> VBool true ] ].

Definition tools : list jsval :=
  [ tool "parse_document" parse_document_description parse_document_properties;
    tool "extract_information" extract_information_description
         extract_information_properties;
    tool "generate_schema" generate_schema_description
         (obj [ "file_path" :-> string_type ]);
    tool "classify_document" classify_document_description
         (obj [ "file_path" :-> string_type;
                "schema_path" :-> string_type;
                "schema_json" :-> string_type ]) ].

(** The sink the server gives to the handlers: it sends a notification and
    does not wait for it. *)
Definition notify : Sink := fun _ => None.

Definition text_content (text : jsstring) : jsval :=
  obj [ "content" :-> VArr [ obj [ "type" :-> str "text"; "text" :-> VStr text ] ] ].

Definition error_content (error : exn) : jsval :=
  obj [ "content" :->
          VArr [ obj [ "type" :-> str "text";
                       "text" :-> VStr (js "Error: " ++ message_of error) ] ];
        "isError" :-> VBool true ].

(** The handler of [ListToolsRequestSchema] *)
Definition listTools : M jsval := ret (obj [ "tools" :-> VArr tools ]).

(** The body of the [try] of the handler of [CallToolRequestSchema] *)
Definition runTool (API_KEY name : jsstring) (args : jsval) : M jsval :=
  if str_eqb name "parse_document" then
    validatedArgs <- lift (ParseDocumentSchema args) ;;
    result <- DocumentParser.parseAndSaveDocument
                (pd_file_path validatedArgs) API_KEY
                (pd_output_formats validatedArgs) (Some notify) ;;
    ret (text_content result)
  else if str_eqb name "extract_information" then
    validatedArgs <- lift (ExtractInformationSchema args) ;;
    result <- InformationExtractor.extractInformationFromFile
                (ei_file_path validatedArgs) API_KEY
                (ei_schema_path validatedArgs) (ei_schema_json validatedArgs)
                (Some (ei_auto_generate_schema validatedArgs)) (Some notify) ;;
    ret (text_content result)
  else if str_eqb name "generate_schema" then
    file_path <- lift (GenerateSchemaSchema args) ;;
    result <- SchemaGenerator.generateSchemaFromFile file_path API_KEY (Some notify) ;;
    ret (text_content result)
  else if str_eqb name "classify_document" then
    validatedArgs <- lift (ClassifyDocumentSchema args) ;;
    result <- DocumentClassifier.classifyDocumentFromFile
                (cd_file_path validatedArgs) API_KEY
                (cd_schema_path validatedArgs) (cd_schema_json validatedArgs)
                (Some notify) ;;
    ret (text_content result)
  else throw (Error (js "Unknown tool: " ++ name)).

(** The handler of [CallToolRequestSchema] *)
Definition callTool (API_KEY name : jsstring) (args : jsval) : M jsval :=
  try_catch (runTool API_KEY name args) (fun error => ret (error_content error)).

(** *** The routing of the requests

    The handlers that [createServer] registers, by method. The SDK parses a
    request with the schema of its method before it calls the handler
    ([ListToolsRequestSchema]: parameters that are absent or an object;
    [CallToolRequestSchema]: an object with a string [name] and with
    [arguments] that are absent or an object), and the refusal of the schema
    is an exception like one of the handler. The protocol layer of the SDK
    answers a method without handler with the error -32601. *)

Definition rpc_result (id result : jsval) : jsval :=
  obj [ "jsonrpc" :-> str "2.0"; "id" :-> id; "result" :-> result ].

Definition rpc_error (id : jsval) (code : string) (message : jsstring) : jsval :=
  obj [ "jsonrpc" :-> str "2.0"; "id" :-> id;
        "error" :-> obj [ "code" :-> VNum (js code); "message" :-> VStr message ] ].

Definition requestHandlers (API_KEY : jsstring) : list (jsstring * (jsval -> M jsval)) :=
  [ (js "tools/list",
     fun params =>
       match params with
       | VUndef | VObj _ => listTools
       | _ => throw (zod_issue "params" "object")
       end);
    (js "tools/call",
     fun params =>
       if negb (is_plain_object params) then throw (zod_issue "params" "object")
       else
         match prop params "name" with
         | VStr name =>
             match prop params "arguments" with
             | VUndef => callTool API_KEY name VUndef
             | VObj args => callTool API_KEY name (VObj args)
             | _ => throw (zod_issue "params.arguments" "object")
             end
         | _ => throw (zod_issue "params.name" "string")
         end) ].

Fixpoint handler_of (method : jsstring) (table : list (jsstring * (jsval -> M jsval)))
  : option (jsval -> M jsval) :=
  match table with
  | [] => None
  | (m, h) :: table' => if str_eqb method m then Some h else handler_of method table'
  end.

(** The answer of the stdio server to a request that the transport has
    decoded: its id, its method and its parameters. An exception of the
    handler (such as the refusal of the parameters by the request schema) is
    answered with the error -32603 and its message. *)
Definition respond (API_KEY : jsstring) (id : jsval) (method : jsstring) (params : jsval)
  : M jsval :=
  match handler_of method (requestHandlers API_KEY) with
  | Some handler =>
      try_catch
        (result <- handler params ;;
         ret (rpc_result id result))
        (fun error => ret (rpc_error id "-32603" (message_of error)))
  | None => ret (rpc_error id "-32601" (js "Method not found"))
  end.

End Server.

(** ** httpServer: the HTTP dispatcher *)

Module HttpServer.

Record HttpRequest : Type := {
  method : jsstring;
  path : jsstring;
  accept : option jsstring;
  origin : option jsstring;
  mcp_session_id : option jsstring;
  body : jsval                      (* [req.body], after the body parsers *)
}.

Inductive Payload : Type :=
| SendJson (v : jsval)
| SendText (text : jsstring)
| EventStream (chunks : list jsstring)
| ErrorPage        (* the HTML page of the final handler of the framework *)
| NoContent.       (* the headers only, as a [HEAD] request is answered *)

Record HttpResponse : Type := {
  status : N;
  headers : list (jsstring * jsstring);
  payload : Payload
}.

(** The headers of the CORS middleware *)
Definition cors (req : HttpRequest) : list (jsstring * jsstring) :=
  [ (js "Access-Control-Allow-Origin",
     if given (origin req) then match origin req with Some o => o | None => [] end
     else js "*");
    (js "Access-Control-Allow-Methods", js "GET, POST, OPTIONS");
    (js "Access-Control-Allow-Headers", js "Content-Type, Authorization, Accept, Mcp-Session-Id");
    (js "Access-Control-Expose-Headers", js "Mcp-Session-Id") ].

(** The tools the HTTP transport lists *)
Definition tools : list jsval :=
  [ obj [ "name" :-> str "parse_document";
          "description" :-> str "Parse a document using Upstage AI's document digitization API.";
          "inputSchema" :->
            obj [ "type" :-> str "object";
                  "properties" :->
                    obj [ "file_path" :-> obj [ "type" :-> str "string" ];
                          "output_formats" :->
                            obj [ "type" :-> str "array";
                                  "items" :-> obj [ "type" :-> str "string" ] ] ];
                  "required" :-> VArr [ str "file_path" ] ] ];
    obj [ "name" :-> str "extract_information";
          "description" :-> str "Extract structured information from documents using Upstage Universal Information Extraction.";
          "inputSchema" :->
            obj [ "type" :-> str "object";
                  "properties" :->
                    obj [ "file_path" :-> obj [ "type" :-> str "string" ];
                          "schema_path" :-> obj [ "type" :-> str "string" ];
                          "schema_json" :-> obj [ "type" :-> str "string" ];
                          "auto_generate_schema" :->
                            obj [ "type" :-> str "boolean"; "default" :-> VBool true ] ];
                  "required" :-> VArr [ str "file_path" ] ] ] ].

Definition json_type : (jsstring * jsstring) :=
  (js "Content-Type", js "application/json; charset=utf-8").

(** [acceptHeader && (acceptHeader.includes('application/json') ||
    acceptHeader.includes('text/event-stream'))] *)
Definition acceptable (accept : option jsstring) : bool :=
  match accept with
  | Some acceptHeader =>
      given (Some acceptHeader)
      && (includes acceptHeader "application/json"
          || includes acceptHeader "text/event-stream")
  | None => false
  end.

(** [app.post('/mcp', ...)] *)
Definition post_mcp (req : HttpRequest) : HttpResponse :=
  if negb (acceptable (accept req)) then
    {| status := 400;
       headers := cors req ++ [ (js "Content-Type", js "application/json; charset=utf-8") ];
       payload :=
         SendJson (obj [ "error" :-> str "Invalid Accept header. Must include application/json or text/event-stream" ]) |}
  else
    let session :=
      if given (mcp_session_id req)
      then [ (js "Mcp-Session-Id",
              match mcp_session_id req with Some s => s | None => [] end) ]
      else [] in
    let headers := cors req ++ [ json_type ] ++ session in
    let jsonRpcRequest := body req in
    if SchemaHelper.not_an_object jsonRpcRequest then
      {| status := 400; headers := headers;
         payload :=
           SendJson (obj [ "jsonrpc" :-> str "2.0";
                           "error" :-> obj [ "code" :-> VNum (js "-32600");
                                             "message" :-> str "Invalid Request" ];
                           "id" :-> VNull ]) |}
    else if is_string (prop jsonRpcRequest "method") "tools/list" then
      {| status := 200; headers := headers;
         payload :=
           SendJson (obj [ "jsonrpc" :-> str "2.0";
                           "result" :-> obj [ "tools" :-> VArr tools ];
                           "id" :-> prop jsonRpcRequest "id" ]) |}
    else
      {| status := 200; headers := headers;
         payload :=
           SendJson (obj [ "jsonrpc" :-> str "2.0";
                           "error" :-> obj [ "code" :-> VNum (js "-32601");
                                             "message" :-> str "Method not found" ];
                           "id" :-> prop jsonRpcRequest "id" ]) |}.

(** [app.get('/mcp', ...)] *)
Definition get_mcp (req : HttpRequest) : HttpResponse :=
  let acceptable :=
    match accept req with
    | Some acceptHeader => includes acceptHeader "text/event-stream"
    | None => false
    end in
  if negb acceptable then
    {| status := 400;
       headers := cors req ++ [ (js "Content-Type", js "application/json; charset=utf-8") ];
       payload :=
         SendJson (obj [ "error" :-> str "Invalid Accept header. Must include text/event-stream for SSE" ]) |}
  else
    {| status := 200;
       headers := cors req ++ [ (js "Content-Type", js "text/event-stream");
                                (js "Cache-Control", js "no-cache");
                                (js "Connection", js "keep-alive") ];
       payload :=
         EventStream [ js "event: connected" ++ [10%N];
                       jsq "data: {`type`:`connection`,`status`:`connected`}" ++ [10; 10]%N ] |}.

(** The routes are matched as the framework does by default: without regard
    to case, with or without a closing slash. *)
Definition route (path : jsstring) (pattern : string) : bool :=
  str_eqb (toLowerCase path) pattern || str_eqb (toLowerCase path) (js pattern ++ js "/").

(** [app.get('/health', ...)] *)
Definition get_health (req : HttpRequest) : HttpResponse :=
  {| status := 200;
     headers := cors req ++ [ json_type ];
     payload :=
       SendJson (obj [ "status" :-> str "ok"; "transport" :-> str "http";
                       "version" :-> str "0.2.0" ]) |}.

(** The headers that the final handler of the framework sets on its page,
    the answer to a request that no route takes and to an error that no
    middleware handles. *)
Definition error_page_headers : list (jsstring * jsstring) :=
  [ (js "Content-Security-Policy", js "default-src 'none'");
    (js "X-Content-Type-Options", js "nosniff");
    (js "Content-Type", js "text/html; charset=utf-8") ].

(** A [HEAD] request is answered as the [GET] request would be, without the
    body. *)
Definition headers_only (res : HttpResponse) : HttpResponse :=
  {| status := status res; headers := headers res; payload := NoContent |}.

(** What comes after the body parsers: the CORS middleware, then the routes.
    The router takes a [HEAD] request to the routes of [GET]; a request that
    no route takes gets the 404 of the framework. [body] is what the body
    parsers left in [req.body] (see [app] below). *)
Definition handle (req : HttpRequest) : HttpResponse :=
  if str_eqb (method req) "OPTIONS" then
    {| status := 200; headers := cors req; payload := SendText (js "OK") |}
  else if str_eqb (method req) "GET" && route (path req) "/health" then get_health req
  else if str_eqb (method req) "HEAD" && route (path req) "/health" then
    headers_only (get_health req)
  else if str_eqb (method req) "POST" && route (path req) "/mcp" then post_mcp req
  else if str_eqb (method req) "GET" && route (path req) "/mcp" then get_mcp req
  else if str_eqb (method req) "HEAD" && route (path req) "/mcp" then
    headers_only (get_mcp req)
  else
    {| status := 404; headers := cors req ++ error_page_headers;
       payload := if str_eqb (method req) "HEAD" then NoContent else ErrorPage |}.

(** *** The body parsers

    [express.json({ limit: '50mb' })] and [express.raw({ type:
    'application/octet-stream', limit: '50mb' })] are the first middleware
    of the application: they run before the CORS middleware, on every
    request. What a request brings them is one of four things. *)
Inductive Sent : Type :=
| NoBody                      (* no body, or one of a media type that neither parser takes *)
| JsonBody (text : jsstring)  (* a body of type [application/json], decoded to this text *)
| RawBody (bytes : list N)    (* a body of type [application/octet-stream] *)
| Unread (status : N).        (* a body of one of these two types that cannot be read:
                                 too large (413), in an unsupported charset or encoding
                                 (415), cut short (400) *)

(** The repository does not pin the major version of the framework, and the
    two differ in what [req.body] is when no parser took the body: an empty
    object with Express 4 (body-parser 1), [undefined] with Express 5
    (body-parser 2). *)
Inductive Framework : Type := Express4 | Express5.

Inductive Parsed : Type :=
| Body (v : jsval)        (* [req.body] *)
| Refused (status : N).   (* the parser passes an error with this status on *)

(** The parser of [express.json], strict by default: an empty body is an
    empty object; the first unit of the text after white space must open an
    object or an array; the rest is for [JSON.parse]. A [Buffer] is seen as
    the array of its bytes: the route reads its [method] and its [id] only,
    and it has neither. *)
Definition body_parsers (framework : Framework) (sent : Sent) : Parsed :=
  match sent with
  | NoBody =>
      match framework with
      | Express4 => Body (VObj [])
      | Express5 => Body VUndef
      end
  | JsonBody [] => Body (VObj [])
  | JsonBody text =>
      match JSON.skip_ws text with
      | c :: _ =>
          if (N.eqb c 123 || N.eqb c 91)%bool then
            match JSON.parse text with
            | Some v => Body v
            | None => Refused 400
            end
          else Refused 400
      | [] => Refused 400
      end
  | RawBody bytes => Body (VArr (map (fun b => VNum (N_to_dec b)) bytes))
  | Unread status => Refused status
  end.

(** A request as it arrives. *)
Record Incoming : Type := {
  in_method : jsstring;
  in_path : jsstring;
  in_accept : option jsstring;
  in_origin : option jsstring;
  in_mcp_session_id : option jsstring;
  in_sent : Sent
}.

Definition parsed_request (inc : Incoming) (body : jsval) : HttpRequest :=
  {| method := in_method inc; path := in_path inc; accept := in_accept inc;
     origin := in_origin inc; mcp_session_id := in_mcp_session_id inc; body := body |}.

(** The application of [startHttpServer]: the body parsers, then the CORS
    middleware and the routes. The error of a parser goes to the final
    handler of the framework, as no middleware handles errors: its page is
    sent with the status of the error, and the CORS middleware has not
    run. *)
Definition app (framework : Framework) (inc : Incoming) : HttpResponse :=
  match body_parsers framework (in_sent inc) with
  | Body body => handle (parsed_request inc body)
  | Refused status =>
      {| status := status; headers := error_page_headers;
         payload := if str_eqb (in_method inc) "HEAD" then NoContent else ErrorPage |}
  end.

(** The JSON-RPC error code of a response, if it carries one. *)
Definition error_code (res : HttpResponse) : option jsstring :=
  match payload res with
  | SendJson v =>
      match prop (prop v "error") "code" with
      | VNum code => Some code
      | _ => None
      end
  | _ => None
  end.

(** The tools of a response to [tools/list]. *)
Definition listed_tools (res : HttpResponse) : option (list jsval) :=
  match payload res with
  | SendJson v =>
      match prop (prop v "result") "tools" with
      | VArr l => Some l
      | _ => None
      end
  | _ => None
  end.

End HttpServer.

(** ** Worlds that differ by the notifications only *)

Definition same_but_notified (w1 w2 : World) : Prop :=
  homedir w1 = homedir w2 /\ disk w1 = disk w2 /\ read_only w1 = read_only w2 /\
  clock w1 = clock w2 /\ endpoint w1 = endpoint w2 /\ ticks w1 = ticks w2 /\
  requests w1 = requests w2 /\ delays w1 = delays w2 /\ created w1 = created w2 /\
  written w1 = written w2 /\ console w1 = console w2.

(** Two computations that, from such worlds, end with the same result in
    such worlds. *)
Definition sim {A} (m1 m2 : M A) : Prop :=
  forall w1 w2,
    same_but_notified w1 w2 ->
    fst (m1 w1) = fst (m2 w2) /\ same_but_notified (snd (m1 w1)) (snd (m2 w2)).

(** A computation that leaves the world as it was but for the
    notifications. *)
Definition quiet {A} (m : M A) : Prop :=
  forall w, same_but_notified w (snd (m w)).

(** ** The shapes of a schema

    [accepted_shape] is the shape [validateSchemaFormat] lets through;
    [documented_shape] is the shape as the specification words it: the
    discriminator, a string name, a schema of type object, and a mapping of
    properties that is not empty. *)

Definition is_object (v : jsval) : bool :=
  match v with
  | VArr _ | VObj _ => true
  | _ => false
  end.

Definition nonempty_string (v : jsval) : bool :=
  match v with
  | VStr (_ :: _) => true
  | _ => false
  end.

Definition accepted_shape (schema : jsval) : bool :=
  let jsonSchema := prop schema "json_schema" in
  is_object schema
  && is_string (prop schema "type") "json_schema"
  && is_object jsonSchema
  && nonempty_string (prop jsonSchema "name")
  && is_object (prop jsonSchema "schema")
  && is_string (prop (prop jsonSchema "schema") "type") "object"
  && is_object (prop (prop jsonSchema "schema") "properties").

Definition documented_shape (schema : jsval) : bool :=
  let jsonSchema := prop schema "json_schema" in
  is_object schema
  && is_string (prop schema "type") "json_schema"
  && is_object jsonSchema
  && match prop jsonSchema "name" with VStr _ => true | _ => false end
  && is_object (prop jsonSchema "schema")
  && is_string (prop (prop jsonSchema "schema") "type") "object"
  && match prop (prop jsonSchema "schema") "properties" with
     | VObj (_ :: _) => true
     | _ => false
     end.

(** The rejections of [validateSchemaFormat], in the order of its checks. *)
Definition rejections : list exn :=
  [ Error (js "Schema must be an object");
    Error (jsq "Schema must have type `json_schema`");
    Error (jsq "Schema must have `json_schema` property");
    Error (jsq "Schema must have a `name` property");
    Error (jsq "Schema must have a `schema` property");
    Error (jsq "Schema type must be `object`");
    Error (jsq "Schema must have `properties` object") ].

(** The envelope of a JSON-RPC request, as the specification words it: the
    [jsonrpc] version and a [method]. *)
Definition envelope_shape (body : jsval) : bool :=
  is_string (prop body "jsonrpc") "2.0"
  && str_eqb (typeof (prop body "method")) "string".

(** ** Scenarios: concrete worlds for the examples *)

Module Scenario.

Definition text_of (v : jsval) : jsstring :=
  match JSON.stringify v with
  | Some t => t
  | None => []
  end.

Definition pdf (size : N) : Node :=
  Regular {| f_size := size; f_utf8 := js "%PDF-1.4"; f_base64 := js "JVBERi0xLjQ=" |}.

Definition sample_disk (path : jsstring) : option Node :=
  if str_eqb path "/docs/invoice.pdf" then Some (pdf 10240)
  else if str_eqb path "/docs/limit.pdf" then Some (pdf 52428800)
  else if str_eqb path "/docs/big.pdf" then Some (pdf 52428801)
  else if str_eqb path "/docs/notes.txt" then
    Some (Regular {| f_size := 5; f_utf8 := js "hello"; f_base64 := js "aGVsbG8=" |})
  else if str_eqb path "/docs" then Some (Directory 4096)
  else if str_eqb path "/schemas/invoice.json" then
    Some (Regular {| f_size := 700;
                     f_utf8 := text_of (prop SchemaHelper.invoice "json_schema");
                     f_base64 := [] |})
  else None.

(** A world with nothing done yet, whose endpoint answers by [endpoint]. *)
Definition world (endpoint : nat -> Request -> Reply) : World :=
  {| homedir := js "/home/user";
     disk := sample_disk;
     read_only := fun _ => false;
     clock := fun _ => js "2024-01-15T10:30:45.123Z";
     endpoint := endpoint;
     ticks := 0;
     requests := [];
     delays := [];
     created := [];
     written := [];
     notified := [];
     console := [] |}.

(** An endpoint that gives the answers of a list, then the last one. *)
Definition scripted (replies : list Reply) (final : Reply) : nat -> Request -> Reply :=
  fun n _ => nth n replies final.

Definition status_failure (status : N) (message : string) : Reply :=
  Failure (AxiosError (Some status) None (js message)).

Definition chat_reply (content : jsstring) : jsval :=
  obj [ "id" :-> str "chatcmpl-1";
        "choices" :->
          VArr [ obj [ "index" :-> VNum (js "0");
                       "message" :-> obj [ "role" :-> str "assistant";
                                           "content" :-> VStr content ] ] ];
        "usage" :-> obj [ "total_tokens" :-> VNum (js "812") ] ].

Definition parse_reply : jsval :=
  obj [ "api" :-> str "2.0";
        "content" :-> obj [ "html" :-> str "<h1>Invoice</h1>"; "text" :-> str "Invoice" ];
        "usage" :-> obj [ "pages" :-> VNum (js "1") ] ].

Definition key : jsstring := js "up_test_key".

(** A sink whose promise always rejects. *)
Definition failing_sink : Sink := fun _ => Some (Error (js "progress channel closed")).

Definition post (body : jsval) : HttpServer.HttpRequest :=
  {| HttpServer.method := js "POST";
     HttpServer.path := js "/mcp";
     HttpServer.accept := Some (js "application/json, text/event-stream");
     HttpServer.origin := None;
     HttpServer.mcp_session_id := None;
     HttpServer.body := body |}.

(** A request to [POST /mcp] as it arrives, with a body of type
    [application/json]. *)
Definition post_json (text : jsstring) : HttpServer.Incoming :=
  {| HttpServer.in_method := js "POST";
     HttpServer.in_path := js "/mcp";
     HttpServer.in_accept := Some (js "application/json, text/event-stream");
     HttpServer.in_origin := None;
     HttpServer.in_mcp_session_id := Some (js "session-1");
     HttpServer.in_sent := HttpServer.JsonBody text |}.

Definition rpc (id : string) (method : string) (params : list (jsstring * jsval)) : jsval :=
  obj ([ "jsonrpc" :-> str "2.0"; "id" :-> VNum (js id); "method" :-> str method ]
         ++ match params with
            | [] => []
            | _ => [ "params" :-> obj params ]
            end).

Definition parse_call : jsval :=
  rpc "7" "tools/call"
      [ "name" :-> str "parse_document";
        "arguments" :-> obj [ "file_path" :-> str "/docs/invoice.pdf" ] ].

End Scenario.

(** ** Worlds that differ by the traffic only

    The traffic of a call: its outbound requests, its back-off delays and the
    lines on the error console. *)

Definition same_but_traffic (w1 w2 : World) : Prop :=
  homedir w1 = homedir w2 /\ disk w1 = disk w2 /\ read_only w1 = read_only w2 /\
  clock w1 = clock w2 /\ endpoint w1 = endpoint w2 /\ ticks w1 = ticks w2 /\
  created w1 = created w2 /\ written w1 = written w2 /\ notified w1 = notified w2.

(** ** What a handler may do

    [silent]: a computation that sends no request. [sends P n]: a
    computation that sends at most [n] requests, each of them with the
    property [P]. *)

Definition silent {A} (m : M A) : Prop :=
  forall w, requests (snd (m w)) = requests w.

Definition sends {A} (P : Request -> Prop) (n : nat) (m : M A) : Prop :=
  forall w,
    exists news,
      requests (snd (m w)) = requests w ++ news /\ length news <= n /\ Forall P news.

(** A request to one of the [endpoints], with the key of the caller. *)
Definition addressed (endpoints : list jsstring) (apiKey : jsstring) (r : Request) : Prop :=
  In (url r) endpoints /\
  In (js "Authorization", js "Bearer " ++ apiKey) (headers r) /\
  timeout r = 300000%N.

(** An endpoint that answers no request. *)
Definition unreachable (w : World) : Prop :=
  forall n r, exists e, endpoint w n r = Failure e.

(** With such an endpoint: a computation that saves nothing, and one that
    saves nothing and fails. *)
Definition harmless {A} (m : M A) : Prop :=
  forall w,
    unreachable w ->
    endpoint (snd (m w)) = endpoint w /\ created (snd (m w)) = created w /\
    written (snd (m w)) = written w.

Definition gives_up {A} (m : M A) : Prop :=
  harmless m /\ forall w, unreachable w -> exists e, fst (m w) = Throw e.

(** The request of [parse_document]: the document as a file of a multipart
    form, with the options of the parser as its fields. *)
Definition parse_document_request (o : DocumentParser.ParseDocumentOptions) : Request :=
  ApiClient.build_request (DocumentParser.apiKey o) Constants.DOCUMENT_DIGITIZATION
    {| ApiClient.files := Some [ "document" :-> VStr (DocumentParser.filePath o) ];
       ApiClient.data :=
         Some (object_of
                 ([ "ocr" :-> str "force";
                    "base64_encoding" :-> str "['table']";
                    "model" :-> str "document-parse" ]
                    ++ match DocumentParser.outputFormats o with
                       | Some (f :: fs) =>
                           [ "output_formats" :->
                               opt_str (JSON.stringify (VArr (map VStr (f :: fs)))) ]
                       | _ => []
                       end));
       ApiClient.json := None |}.

(** A computation that leaves one component of the world as it was. *)
Definition keeps {A X} (field : World -> X) (m : M A) : Prop :=
  forall w, field (snd (m w)) = field w.

(** ** JSON texts with indentation

    [JSON.stringify(v, null, n)] puts each element and each member on a line
    of its own, after the indentation of its depth. The definitions below
    name the parts of such a text and what the reader of [JSON.parse] meets
    between them. *)

(** A text of white space only. *)
Definition blank (s : jsstring) : bool := forallb JSON.is_ws s.

(** What follows a value in an indented text: the end, a comma, a closing
    bracket, or white space. *)
Definition follows (rest : jsstring) : bool :=
  match rest with
  | [] => true
  | c :: _ => N.eqb c 44 || N.eqb c 93 || N.eqb c 125 || JSON.is_ws c
  end.

(** What ends a number literal: no digit, sign, point or exponent mark. *)
Definition ends_number (rest : jsstring) : bool :=
  match rest with
  | [] => true
  | c :: _ =>
      negb (is_digit c || N.eqb c 43 || N.eqb c 45 || N.eqb c 46 || N.eqb c 69
            || N.eqb c 101)
  end.

(** A lexer that reads the same prefix when such a text is appended. *)
Definition steady (p : JSON.lexer) : Prop :=
  forall s a r rest,
    p s = Some (a, r) -> ends_number rest = true -> p (s ++ rest) = Some (a, r ++ rest).

(** The text of an element of an array, at the indentation [indent]. *)
Definition element_text_in (gap indent : jsstring) (x : jsval) : jsstring :=
  match JSON.serialize gap indent x with
  | Some t => t
  | None => js "null"
  end.

(** The texts of the members of an object, at the indentation [indent]. *)
Fixpoint member_texts_in (gap indent : jsstring) (o : list (jsstring * jsval))
  : list jsstring :=
  match o with
  | [] => []
  | (k, x) :: o' =>
      match JSON.serialize gap indent x with
      | Some t => (JSON.quote k ++ JSON.colon gap ++ t) :: member_texts_in gap indent o'
      | None => member_texts_in gap indent o'
      end
  end.

(** A value whose indented text is read back, at every indentation and with
    enough fuel, whatever follows it. *)
Definition reads_back_in (gap : jsstring) (v : jsval) : Prop :=
  JSON.json_value v = true ->
  forall indent,
    blank indent = true ->
    exists t,
      JSON.serialize gap indent v = Some t /\ JSON.starts_value t = true /\
      JSON.size v <= length t /\
      forall fuel rest,
        JSON.size v <= fuel -> follows rest = true ->
        JSON.parse_value fuel (t ++ rest) = Some (v, rest).

(** ** Plain paths

    A text without separator, and a segment of a path that [path.normalize]
    keeps as it is: not empty, neither [.] nor [..], without separator. *)

Definition no_slash (s : jsstring) : bool :=
  forallb (fun c => negb (N.eqb c Path.slash)) s.

Definition plain_segment (seg : jsstring) : bool :=
  negb (str_eqb seg []) && negb (str_eqb seg [Path.dot])
  && negb (str_eqb seg [Path.dot; Path.dot]) && no_slash seg.

(** The absolute path of the segments [segs]. *)
Definition rooted (segs : list jsstring) : jsstring :=
  Path.slash :: join [Path.slash] segs.

(** ** What [JSON.parse] returns

    A lexer looks one code unit ahead: it takes the same text from its input
    and from what it took followed by a text that starts as the rest did (or
    by nothing). *)

Definition starts_alike (r t : jsstring) : Prop :=
  t = [] \/ exists c r' t', r = c :: r' /\ t = c :: t'.

Definition looks_one_ahead (p : JSON.lexer) : Prop :=
  forall s a r t,
    p s = Some (a, r) -> starts_alike r t -> p (a ++ t) = Some (a, t).

(** The keys of an object in the order of an object, as a relation between
    a key and one that follows it. *)
Definition key_after (p k : jsstring) : Prop :=
  str_eqb k p = false /\ key_before k p = false.

(** A list of properties whose values are all JSON values. *)
Definition json_members (o : list (jsstring * jsval)) : bool :=
  forallb (fun kv => JSON.json_value (snd kv)) o.

(** Keys in the order of an object: each one after all those before it. *)
Fixpoint ordered (keys : list jsstring) : Prop :=
  match keys with
  | [] => True
  | p :: rest => Forall (key_after p) rest /\ ordered rest
  end.

(** ** Progress

    [climbs lo ps hi]: the progress values [ps] go up, one above the other,
    the first above [lo] and the last not above [hi]. [reports lo hi]: a
    computation that adds such values, and nothing else, to the progress
    that was notified. *)

Fixpoint climbs (lo : N) (ps : list N) (hi : N) : bool :=
  match ps with
  | [] => N.leb lo hi
  | p :: rest => N.ltb lo p && climbs p rest hi
  end.

Definition reports {A} (lo hi : N) (m : M A) : Prop :=
  forall w, exists ps, notified (snd (m w)) = notified w ++ ps /\ climbs lo ps hi = true.

(** ** The requests of [extract_information]

    The document goes into both requests as the base64 text of the file. *)

Definition file_base64 (w : World) (path : jsstring) : jsstring :=
  match disk w path with
  | Some (Regular f) => f_base64 f
  | _ => []
  end.

Definition schema_generation_request (w : World) (filePath apiKey : jsstring) : Request :=
  ApiClient.build_request apiKey Constants.SCHEMA_GENERATION
    (json_request
       (chat_request "information-extract" (FileUtils.getMimeType filePath)
          (file_base64 w filePath) None)).

Definition extraction_request (w : World) (filePath apiKey : jsstring) (schema : jsval)
  : Request :=
  ApiClient.build_request apiKey Constants.INFORMATION_EXTRACTION
    (json_request
       (chat_request "information-extract" (FileUtils.getMimeType filePath)
          (file_base64 w filePath)
          (Some (obj [ "type" :-> str "json_schema"; "json_schema" :-> schema ])))).

(** ** Texts and numbers on which the model is the engine

    [ascii]: a text of ASCII units; on these [toLowerCase] is the function
    of the engine. [plain_number]: the literal of an integer of at most
    fifteen digits as the engine writes it ([0], or an optional minus sign
    and digits that do not start with [0]); its double is that integer, and
    the engine writes it back as the same text. [plain_numbers]: a value
    whose numbers are all plain. *)

Definition ascii (s : jsstring) : bool := forallb (fun c => N.ltb c 128) s.

Definition plain_number (lit : jsstring) : bool :=
  let negative := match lit with c :: _ => N.eqb c 45 | [] => false end in
  let digits := if negative then tl lit else lit in
  match digits with
  | [] => false
  | c :: r =>
      forallb is_digit digits && Nat.leb (length digits) 15
      && (if N.eqb c 48 then match r with [] => negb negative | _ :: _ => false end
          else true)
  end.

Fixpoint plain_numbers (v : jsval) : bool :=
  match v with
  | VNum lit => plain_number lit
  | VArr l => forallb plain_numbers l
  | VObj o =>
      (fix all (o : list (jsstring * jsval)) : bool :=
         match o with
         | [] => true
         | (_, x) :: o' => plain_numbers x && all o'
         end) o
  | _ => true
  end.

(** * Properties *)

(** ** Strings *)

Lemma str_eqb_eq (a b : jsstring) : str_eqb a b = true <-> a = b.
Proof.
  revert b; induction a as [|x a IH]; intros [|y b]; simpl; split; try easy.
  - intros H. apply andb_true_iff in H as [Hx Hab].
    apply N.eqb_eq in Hx. apply IH in Hab. now subst.
  - intros H. injection H as -> ->. rewrite N.eqb_refl. now apply IH.
Qed.

Lemma str_eqb_refl (a : jsstring) : str_eqb a a = true.
Proof. now apply str_eqb_eq. Qed.

Lemma str_eqb_neq (a b : jsstring) : str_eqb a b = false <-> a <> b.
Proof.
  split.
  - intros H E. apply str_eqb_eq in E. congruence.
  - intros H. destruct (str_eqb a b) eqn:E; [|reflexivity].
    apply str_eqb_eq in E. contradiction.
Qed.

(** ** JSON: reading back what [JSON.stringify] writes *)

Ltac div_lia := zify; Z.to_euclidean_division_equations; lia.

Module JSONFacts.
Import JSON.

Lemma hex_value_digit (d : N) :
  (d < 16)%N -> hex_value (hex_digit d) = Some d.
Proof.
  intros H.
  assert (In d [0; 1; 2; 3; 4; 5; 6; 7; 8; 9; 10; 11; 12; 13; 14; 15]%N) as Hin.
  { simpl. lia. }
  simpl in Hin.
  repeat (destruct Hin as [<-|Hin]; [reflexivity|]). contradiction.
Qed.

Lemma hex4_escape (c : N) :
  (c < 65536)%N ->
  hex4 (hex_digit (c / 4096)) (hex_digit ((c / 256) mod 16))
       (hex_digit ((c / 16) mod 16)) (hex_digit (c mod 16)) = Some c.
Proof.
  intros H. unfold hex4.
  rewrite !hex_value_digit by div_lia.
  f_equal. div_lia.
Qed.

Lemma parse_chars_escape (c : N) (tail : jsstring) :
  (c < 65536)%N ->
  parse_chars (unicode_escape c ++ tail) = push_unit c (parse_chars tail).
Proof.
  intros H. unfold unicode_escape.
  cbn [app parse_chars]. rewrite hex4_escape by exact H. reflexivity.
Qed.

Lemma is_trail_bound (c : N) : is_trail c = true -> (c < 65536)%N.
Proof. unfold is_trail. intros H. apply andb_true_iff in H as [_ H]. apply N.leb_le in H. lia. Qed.

Lemma parse_chars_quote_unit (c : N) (tail : jsstring) :
  is_lead c = false ->
  parse_chars (quote_unit c ++ tail) = push_unit c (parse_chars tail).
Proof.
  intros Hlead. unfold quote_unit.
  destruct (N.eqb_spec c 8) as [->|H8]; [reflexivity|].
  destruct (N.eqb_spec c 9) as [->|H9]; [reflexivity|].
  destruct (N.eqb_spec c 10) as [->|H10]; [reflexivity|].
  destruct (N.eqb_spec c 12) as [->|H12]; [reflexivity|].
  destruct (N.eqb_spec c 13) as [->|H13]; [reflexivity|].
  destruct (N.eqb_spec c 34) as [->|H34]; [reflexivity|].
  destruct (N.eqb_spec c 92) as [->|H92]; [reflexivity|].
  rewrite Hlead, orb_false_r.
  destruct (N.ltb_spec c 32) as [Hlow|Hhigh]; cbn [orb].
  - apply parse_chars_escape. lia.
  - destruct (is_trail c) eqn:Htrail.
    + apply parse_chars_escape. now apply is_trail_bound.
    + cbn [app parse_chars].
      apply N.eqb_neq in H34, H92. rewrite H34, H92.
      apply N.ltb_ge in Hhigh. now rewrite Hhigh.
Qed.

Lemma is_lead_facts (c : N) :
  is_lead c = true ->
  (c < 65536)%N /\ N.eqb c 34 = false /\ N.eqb c 92 = false /\ N.ltb c 32 = false.
Proof.
  unfold is_lead. intros H. apply andb_true_iff in H as [H1 H2].
  apply N.leb_le in H1, H2.
  repeat split; try lia;
    [apply N.eqb_neq | apply N.eqb_neq | apply N.ltb_ge]; lia.
Qed.

Lemma is_trail_facts (c : N) :
  is_trail c = true ->
  N.eqb c 34 = false /\ N.eqb c 92 = false /\ N.ltb c 32 = false.
Proof.
  unfold is_trail. intros H. apply andb_true_iff in H as [H1 H2].
  apply N.leb_le in H1, H2.
  repeat split; [apply N.eqb_neq | apply N.eqb_neq | apply N.ltb_ge]; lia.
Qed.

(** The reader of string characters undoes QuoteJSONString. *)
Lemma parse_chars_quote_units (s rest : jsstring) :
  parse_chars (quote_units s ++ 34%N :: rest) = Some (s, rest).
Proof.
  remember (length s) as n eqn:Hn.
  assert (length s <= n) as Hle by lia. clear Hn.
  revert s Hle. induction n as [|n IH]; intros s Hle.
  - destruct s; [reflexivity | simpl in Hle; lia].
  - destruct s as [|c r]; [reflexivity|].
    cbn [quote_units]. destruct (is_lead c) eqn:Hlead.
    + destruct (is_lead_facts c Hlead) as (Hb & H34 & H92 & H32).
      destruct r as [|d r'].
      * rewrite parse_chars_escape by exact Hb. reflexivity.
      * destruct (is_trail d) eqn:Htrail.
        -- destruct (is_trail_facts d Htrail) as (D34 & D92 & D32).
           cbn [app parse_chars]. rewrite H34, H92, H32, D34, D92, D32.
           rewrite IH by (simpl in *; lia). reflexivity.
        -- rewrite <- app_assoc, parse_chars_escape by exact Hb.
           rewrite IH by (simpl in *; lia). reflexivity.
    + rewrite <- app_assoc, parse_chars_quote_unit by exact Hlead.
      rewrite IH by (simpl in *; lia). reflexivity.
Qed.

(** *** Numbers: a literal is read back whatever delimiter follows it *)

Lemma delimited_head (rest : jsstring) (P : N -> bool) :
  delimited rest = true ->
  P 44%N = false -> P 93%N = false -> P 125%N = false ->
  match rest with [] => true | c :: _ => negb (P c) end = true.
Proof.
  destruct rest as [|c rest]; [reflexivity|]. simpl. intros H H1 H2 H3.
  apply orb_true_iff in H as [H|H]; [apply orb_true_iff in H as [H|H]|];
    apply N.eqb_eq in H; subst c; now rewrite ?H1, ?H2, ?H3.
Qed.

Lemma span_digits_app (s d r rest : jsstring) :
  span_digits s = (d, r) -> delimited rest = true ->
  span_digits (s ++ rest) = (d, r ++ rest).
Proof.
  revert d r. induction s as [|c s IH]; intros d r H Hrest.
  - injection H as <- <-. simpl.
    pose proof (delimited_head rest is_digit Hrest eq_refl eq_refl eq_refl) as Hd.
    destruct rest as [|c rest]; [reflexivity|]. simpl.
    apply negb_true_iff in Hd. now rewrite Hd.
  - simpl in *. destruct (is_digit c).
    + destruct (span_digits s) as [d' r'] eqn:E. injection H as <- <-.
      now rewrite (IH d' r' eq_refl Hrest).
    + now injection H as <- <-.
Qed.

Lemma digits1_stable : stable digits1.
Proof.
  intros s a r rest H Hrest. unfold digits1 in *.
  destruct (span_digits s) as [d r'] eqn:E.
  rewrite (span_digits_app _ _ _ _ E Hrest).
  destruct d; [discriminate|]. now injection H as <- <-.
Qed.

Lemma then_stable (p q : lexer) : stable p -> stable q -> stable (then_ p q).
Proof.
  intros Hp Hq s a r rest H Hrest. unfold then_ in *.
  destruct (p s) as [[a1 r1]|] eqn:E1; [|discriminate].
  destruct (q r1) as [[a2 r2]|] eqn:E2; [|discriminate].
  injection H as <- <-.
  now rewrite (Hp _ _ _ _ E1 Hrest), (Hq _ _ _ _ E2 Hrest).
Qed.

Ltac head_of_rest rest Hrest P :=
  let Hd := fresh "Hd" in
  pose proof (delimited_head rest P Hrest eq_refl eq_refl eq_refl) as Hd;
  destruct rest; [reflexivity|]; simpl in Hd |- *;
  apply negb_true_iff in Hd; now rewrite Hd.

Lemma lex_sign_stable : stable lex_sign.
Proof.
  intros [|c s] a r rest H Hrest; unfold lex_sign in *.
  - injection H as <- <-. head_of_rest rest Hrest (fun c => N.eqb c 45).
  - simpl. destruct (N.eqb c 45); now injection H as <- <-.
Qed.

Lemma lex_int_stable : stable lex_int.
Proof.
  intros [|c s] a r rest H Hrest; unfold lex_int in *; [discriminate|].
  simpl. destruct (N.eqb c 48).
  - now injection H as <- <-.
  - now apply (digits1_stable (c :: s)).
Qed.

Lemma lex_frac_stable : stable lex_frac.
Proof.
  intros [|c s] a r rest H Hrest; unfold lex_frac in *.
  - injection H as <- <-. head_of_rest rest Hrest (fun c => N.eqb c 46).
  - simpl. destruct (N.eqb c 46).
    + destruct (digits1 s) as [[d r']|] eqn:E; [|discriminate].
      injection H as <- <-. now rewrite (digits1_stable _ _ _ _ E Hrest).
    + now injection H as <- <-.
Qed.

Lemma lex_exp_sign_stable : stable lex_exp_sign.
Proof.
  intros [|c s] a r rest H Hrest; unfold lex_exp_sign in *.
  - injection H as <- <-.
    head_of_rest rest Hrest (fun c => (N.eqb c 43 || N.eqb c 45)%bool).
  - simpl. destruct (N.eqb c 43 || N.eqb c 45)%bool; now injection H as <- <-.
Qed.

Lemma lex_exp_stable : stable lex_exp.
Proof.
  intros [|c s] a r rest H Hrest; unfold lex_exp in *.
  - injection H as <- <-.
    head_of_rest rest Hrest (fun c => (N.eqb c 101 || N.eqb c 69)%bool).
  - simpl. destruct (N.eqb c 101 || N.eqb c 69)%bool.
    + destruct (then_ lex_exp_sign digits1 s) as [[d r']|] eqn:E; [|discriminate].
      injection H as <- <-.
      now rewrite (then_stable _ _ lex_exp_sign_stable digits1_stable _ _ _ _ E Hrest).
    + now injection H as <- <-.
Qed.

Lemma lex_number_stable : stable lex_number.
Proof.
  unfold lex_number.
  repeat apply then_stable;
    auto using lex_sign_stable, lex_int_stable, lex_frac_stable, lex_exp_stable.
Qed.

Lemma span_digits_splits (s d r : jsstring) : span_digits s = (d, r) -> s = d ++ r.
Proof.
  revert d r. induction s as [|c s IH]; intros d r H; simpl in H.
  - now injection H as <- <-.
  - destruct (is_digit c).
    + destruct (span_digits s) as [d' r'] eqn:E. injection H as <- <-.
      simpl. f_equal. now apply IH.
    + now injection H as <- <-.
Qed.

Lemma digits1_splits : splits digits1.
Proof.
  intros s a r H. unfold digits1 in H.
  destruct (span_digits s) as [d r'] eqn:E. apply span_digits_splits in E.
  destruct d; [discriminate|]. now injection H as <- <-.
Qed.

Lemma then_splits (p q : lexer) : splits p -> splits q -> splits (then_ p q).
Proof.
  intros Hp Hq s a r H. unfold then_ in H.
  destruct (p s) as [[a1 r1]|] eqn:E1; [|discriminate].
  destruct (q r1) as [[a2 r2]|] eqn:E2; [|discriminate].
  injection H as <- <-. rewrite <- app_assoc.
  rewrite <- (Hq _ _ _ E2). now apply Hp.
Qed.

Lemma lex_number_splits : splits lex_number.
Proof.
  unfold lex_number. repeat apply then_splits.
  - intros [|c s] a r H; unfold lex_sign in H.
    + now injection H as <- <-.
    + destruct (N.eqb c 45); now injection H as <- <-.
  - intros [|c s] a r H; unfold lex_int in H; [discriminate|].
    destruct (N.eqb c 48); [now injection H as <- <- | now apply digits1_splits].
  - intros [|c s] a r H; unfold lex_frac in H.
    + now injection H as <- <-.
    + destruct (N.eqb c 46).
      * destruct (digits1 s) as [[d r']|] eqn:E; [|discriminate].
        injection H as <- <-. simpl. f_equal. now apply digits1_splits.
      * now injection H as <- <-.
  - intros [|c s] a r H; unfold lex_exp in H.
    + now injection H as <- <-.
    + destruct (N.eqb c 101 || N.eqb c 69)%bool.
      * destruct (then_ lex_exp_sign digits1 s) as [[d r']|] eqn:E; [|discriminate].
        injection H as <- <-. simpl. f_equal.
        revert E. apply then_splits; [|apply digits1_splits].
        intros [|c' s'] a' r'' H'; unfold lex_exp_sign in H'.
        -- now injection H' as <- <-.
        -- destruct (N.eqb c' 43 || N.eqb c' 45)%bool; now injection H' as <- <-.
      * now injection H as <- <-.
Qed.

Lemma lex_number_literal (lit rest : jsstring) :
  number_literal lit = true -> delimited rest = true ->
  lex_number (lit ++ rest) = Some (lit, rest).
Proof.
  unfold number_literal. intros H Hrest.
  destruct (lex_number lit) as [[a r]|] eqn:E; [|discriminate].
  destruct r; [|discriminate].
  pose proof (lex_number_splits _ _ _ E) as Hs. rewrite app_nil_r in Hs. subst a.
  now rewrite (lex_number_stable _ _ _ _ E Hrest).
Qed.

(** How a number literal starts. *)
Lemma number_literal_head (lit : jsstring) :
  number_literal lit = true ->
  exists c t, lit = c :: t /\ (N.eqb c 45 || is_digit c)%bool = true.
Proof.
  unfold number_literal, lex_number, then_. intros H.
  destruct lit as [|c t]; [discriminate|]. exists c, t. split; [reflexivity|].
  unfold lex_sign in H. destruct (N.eqb c 45) eqn:E45; [reflexivity|].
  unfold lex_int in H. destruct (N.eqb c 48) eqn:E48.
  - apply N.eqb_eq in E48. now subst.
  - unfold digits1 in H. simpl in H. simpl. destruct (is_digit c); [reflexivity|discriminate].
Qed.

(** *** Objects: the properties of an object are read back in their order *)

Lemma insert_prop_last (k : jsstring) (v : jsval) (o : list (jsstring * jsval)) :
  existsb (fun p => str_eqb k p || key_before k p) (map fst o) = false ->
  insert_prop k v o = o ++ [(k, v)].
Proof.
  induction o as [|[k' v'] o IH]; simpl; intros H; [reflexivity|].
  apply orb_false_iff in H as [H1 H2]. apply orb_false_iff in H1 as [_ H1].
  rewrite H1. f_equal. now apply IH.
Qed.

Lemma has_key_fresh (k : jsstring) (o : list (jsstring * jsval)) :
  existsb (fun p => str_eqb k p || key_before k p) (map fst o) = false ->
  has_key k o = false.
Proof.
  induction o as [|[k' v'] o IH]; simpl; intros H; [reflexivity|].
  apply orb_false_iff in H as [H1 H2]. apply orb_false_iff in H1 as [H1 _].
  rewrite H1. now apply IH.
Qed.

Lemma fold_set_prop (o acc : list (jsstring * jsval)) :
  keys_ok_from (map fst acc) (map fst o) = true ->
  fold_left (fun a kv => set_prop (fst kv) (snd kv) a) o acc = acc ++ o.
Proof.
  revert acc. induction o as [|[k v] o IH]; intros acc H; simpl in *.
  - now rewrite app_nil_r.
  - apply andb_true_iff in H as [H1 H2]. apply negb_true_iff in H1.
    unfold set_prop. rewrite (has_key_fresh _ _ H1), (insert_prop_last _ _ _ H1).
    rewrite IH.
    + now rewrite <- app_assoc.
    + now rewrite map_app.
Qed.

Lemma object_of_keys_ok (o : list (jsstring * jsval)) :
  keys_ok (map fst o) = true -> object_of o = o.
Proof. intros H. unfold object_of. now rewrite fold_set_prop. Qed.

(** *** Values *)

Lemma jsval_ind (P : jsval -> Prop) :
  P VUndef -> P VNull -> (forall b, P (VBool b)) ->
  (forall lit, P (VNum lit)) -> (forall s, P (VStr s)) ->
  (forall l, Forall P l -> P (VArr l)) ->
  (forall o, Forall (fun kv => P (snd kv)) o -> P (VObj o)) ->
  forall v, P v.
Proof.
  intros Hu Hn Hb Hnum Hs Ha Ho.
  fix IH 1.
  intros [| |b|lit|s|l|o];
    [exact Hu | exact Hn | apply Hb | apply Hnum | apply Hs | |].
  - apply Ha. induction l as [|x l IHl]; constructor; [apply IH | exact IHl].
  - apply Ho. induction o as [|[k x] o IHo]; constructor; [apply IH | exact IHo].
Qed.

Lemma serialize_array (l : list jsval) :
  serialize [] [] (VArr l) = Some (wrap [] 91 93 [] (map element_text l)).
Proof. reflexivity. Qed.

Lemma serialize_object (o : list (jsstring * jsval)) :
  serialize [] [] (VObj o) = Some (wrap [] 123 125 [] (member_texts o)).
Proof. reflexivity. Qed.

Lemma json_value_array (l : list jsval) :
  json_value (VArr l) = true -> Forall (fun x => json_value x = true) l.
Proof.
  cbn [json_value]. intros H. apply Forall_forall.
  now apply (proj1 (forallb_forall _ _)).
Qed.

Lemma json_value_object (o : list (jsstring * jsval)) :
  json_value (VObj o) = true ->
  keys_ok (map fst o) = true /\ Forall (fun kv => json_value (snd kv) = true) o.
Proof.
  cbn [json_value]. intros H. apply andb_true_iff in H as [H1 H2].
  split; [exact H1|]. clear H1.
  induction o as [|[k x] o IH]; constructor.
  - now apply andb_true_iff in H2 as [H2 _].
  - apply IH. now apply andb_true_iff in H2 as [_ H2].
Qed.

Lemma starts_value_inv (t : jsstring) :
  starts_value t = true ->
  exists c t', t = c :: t' /\ is_ws c = false /\ N.eqb c 93 = false /\ N.eqb c 125 = false.
Proof.
  destruct t as [|c t']; [discriminate|]. simpl. intros H.
  apply andb_true_iff in H as [H H3]. apply andb_true_iff in H as [H1 H2].
  apply negb_true_iff in H1, H2, H3. now exists c, t'.
Qed.

Lemma join_head (sep s : jsstring) (l : list jsstring) :
  exists u, join sep (s :: l) = s ++ u.
Proof.
  destruct l as [|s' l].
  - exists []. simpl. now rewrite app_nil_r.
  - now exists (sep ++ join sep (s' :: l)).
Qed.

Lemma join_cons (sep s s' : jsstring) (l : list jsstring) :
  join sep (s :: s' :: l) = s ++ sep ++ join sep (s' :: l).
Proof. reflexivity. Qed.

Lemma parse_value_S (f : nat) (s : jsstring) :
  parse_value (S f) s =
  match skip_ws s with
  | [] => None
  | c :: r =>
      if N.eqb c 123 then
        match skip_ws r with
        | c' :: r' =>
            if N.eqb c' 125 then Some (VObj [], r')
            else match parse_members f r with
                 | Some (o, rest) => Some (VObj (object_of o), rest)
                 | None => None
                 end
        | [] => None
        end
      else if N.eqb c 91 then
        match skip_ws r with
        | c' :: r' =>
            if N.eqb c' 93 then Some (VArr [], r')
            else match parse_elements f r with
                 | Some (l, rest) => Some (VArr l, rest)
                 | None => None
                 end
        | [] => None
        end
      else if N.eqb c 34 then
        match parse_chars r with
        | Some (str, rest) => Some (VStr str, rest)
        | None => None
        end
      else if N.eqb c 116 then
        match strip_prefix (js "true") (c :: r) with
        | Some rest => Some (VBool true, rest)
        | None => None
        end
      else if N.eqb c 102 then
        match strip_prefix (js "false") (c :: r) with
        | Some rest => Some (VBool false, rest)
        | None => None
        end
      else if N.eqb c 110 then
        match strip_prefix (js "null") (c :: r) with
        | Some rest => Some (VNull, rest)
        | None => None
        end
      else
        match lex_number (c :: r) with
        | Some (lit, rest) => Some (VNum lit, rest)
        | None => None
        end
  end.
Proof. reflexivity. Qed.

Lemma parse_elements_S (f : nat) (s : jsstring) :
  parse_elements (S f) s =
  match parse_value f s with
  | Some (v, r1) =>
      match skip_ws r1 with
      | d :: r2 =>
          if N.eqb d 44 then
            match parse_elements f r2 with
            | Some (l, rest) => Some (v :: l, rest)
            | None => None
            end
          else if N.eqb d 93 then Some ([v], r2)
          else None
      | [] => None
      end
  | None => None
  end.
Proof. reflexivity. Qed.

Lemma parse_members_quoted (f : nat) (k s : jsstring) :
  parse_members (S f) (quote k ++ 58%N :: s) =
  match parse_value f s with
  | Some (v, r3) =>
      match skip_ws r3 with
      | d :: r4 =>
          if N.eqb d 44 then
            match parse_members f r4 with
            | Some (o, rest) => Some ((k, v) :: o, rest)
            | None => None
            end
          else if N.eqb d 125 then Some ([(k, v)], r4)
          else None
      | [] => None
      end
  | None => None
  end.
Proof.
  unfold quote. cbn [app]. rewrite <- app_assoc. cbn [app].
  change (parse_members (S f) (34%N :: quote_units k ++ 34%N :: 58%N :: s))
    with (match parse_chars (quote_units k ++ 34%N :: 58%N :: s) with
          | Some (k, r1) =>
              match skip_ws r1 with
              | c :: r2 =>
                  if N.eqb c 58 then
                    match parse_value f r2 with
                    | Some (v, r3) =>
                        match skip_ws r3 with
                        | d :: r4 =>
                            if N.eqb d 44 then
                              match parse_members f r4 with
                              | Some (o, rest) => Some ((k, v) :: o, rest)
                              | None => None
                              end
                            else if N.eqb d 125 then Some ([(k, v)], r4)
                            else None
                        | [] => None
                        end
                    | None => None
                    end
                  else None
              | [] => None
              end
          | None => None
          end).
  now rewrite parse_chars_quote_units.
Qed.

Lemma parse_elements_texts (l : list jsval) :
  Forall reads_back l -> Forall (fun x => json_value x = true) l -> l <> [] ->
  forall fuel rest,
    size (VArr l) <= S fuel ->
    parse_elements fuel (join [44%N] (map element_text l) ++ 93%N :: rest) = Some (l, rest).
Proof.
  induction l as [|x l IH]; intros Hrb Hjv Hne fuel rest Hfuel; [contradiction|].
  inversion Hrb as [|? ? Hx Hrb']; subst. inversion Hjv as [|? ? Jx Hjv']; subst.
  destruct (Hx Jx) as (t & Ht & _ & Hp).
  assert (element_text x = t) as Et by (unfold element_text; now rewrite Ht).
  destruct fuel as [|f]; [simpl in Hfuel; lia|].
  rewrite parse_elements_S.
  destruct l as [|y l'].
  - cbn [map join]. rewrite Et, Hp by (simpl in Hfuel |- *; solve [lia | reflexivity]).
    reflexivity.
  - cbn [map join]. rewrite Et, <- app_assoc. cbn [app].
    rewrite Hp by (simpl in Hfuel |- *; solve [lia | reflexivity]).
    cbn [skip_ws is_ws N.eqb Pos.eqb orb].
    change (N.eqb 44 44) with true. cbv iota.
    change (element_text y :: map element_text l') with (map element_text (y :: l')).
    rewrite IH; [reflexivity | assumption | assumption | discriminate |].
    simpl in Hfuel |- *. lia.
Qed.

Lemma parse_members_texts (o : list (jsstring * jsval)) :
  Forall (fun kv => reads_back (snd kv)) o ->
  Forall (fun kv => json_value (snd kv) = true) o -> o <> [] ->
  forall fuel rest,
    size (VObj o) <= S fuel ->
    parse_members fuel (join [44%N] (member_texts o) ++ 125%N :: rest) = Some (o, rest).
Proof.
  induction o as [|[k x] o IH]; intros Hrb Hjv Hne fuel rest Hfuel; [contradiction|].
  inversion Hrb as [|? ? Hx Hrb']; subst. inversion Hjv as [|? ? Jx Hjv']; subst.
  cbn [snd] in Hx, Jx.
  destruct (Hx Jx) as (t & Ht & _ & Hp).
  destruct fuel as [|f]; [simpl in Hfuel; lia|].
  cbn [member_texts]. rewrite Ht. cbn [colon].
  destruct o as [|[k' y] o'].
  - cbn [member_texts join]. rewrite <- !app_assoc. cbn [app].
    rewrite parse_members_quoted.
    rewrite Hp by (simpl in Hfuel |- *; solve [lia | reflexivity]).
    reflexivity.
  - inversion Hjv' as [|? ? Jy _]; subst. cbn [snd] in Jy.
    inversion Hrb' as [|? ? Hy _]; subst. cbn [snd] in Hy.
    destruct (Hy Jy) as (ty & Hty & _ & _).
    assert (exists m ms, member_texts ((k', y) :: o') = m :: ms) as (m & ms & Em).
    { cbn [member_texts]. rewrite Hty. eauto. }
    specialize (IH Hrb' Hjv' ltac:(discriminate) f rest).
    rewrite Em in IH |- *. rewrite join_cons, <- !app_assoc. cbn [app].
    rewrite parse_members_quoted.
    rewrite Hp by (simpl in Hfuel |- *; solve [lia | reflexivity]).
    cbn [skip_ws is_ws N.eqb Pos.eqb orb].
    change (N.eqb 44 44) with true. cbv iota.
    rewrite IH; [reflexivity|]. simpl in Hfuel |- *. lia.
Qed.

Lemma member_texts_head (k : jsstring) (x : jsval) (o : list (jsstring * jsval)) :
  json_value x = true -> reads_back x ->
  exists u, join [44%N] (member_texts ((k, x) :: o)) = 34%N :: u.
Proof.
  intros Jx Hx. destruct (Hx Jx) as (t & Ht & _ & _).
  cbn [member_texts]. rewrite Ht.
  destruct (join_head [44%N] (quote k ++ colon [] ++ t) (member_texts o)) as [w Ew].
  eexists. rewrite Ew. unfold quote. cbn [app]. reflexivity.
Qed.

Ltac not_the_unit :=
  match goal with
  | H : (N.eqb ?c 45 || is_digit ?c)%bool = true |- _ =>
      unfold is_digit in H;
      apply orb_true_iff in H as [H|H];
      [ apply N.eqb_eq in H; subst c; reflexivity
      | apply andb_true_iff in H as [? H]; apply N.leb_le in H;
        match goal with H' : N.leb _ c = true |- _ => apply N.leb_le in H' end;
        unfold is_ws;
        repeat match goal with
               | |- context [N.eqb c ?k] =>
                   replace (N.eqb c k) with false by (symmetry; apply N.eqb_neq; lia)
               end;
        reflexivity ]
  end.

(** Every JSON value is read back from its text. *)
Lemma json_value_reads_back (v : jsval) : reads_back v.
Proof.
  induction v as [| |b|lit|s|l IH|o IH] using jsval_ind; intros Hjv.
  - discriminate.
  - exists (js "null"). repeat split.
    intros [|f] rest Hf _; [simpl in Hf; lia | reflexivity].
  - destruct b.
    + exists (js "true"). repeat split.
      intros [|f] rest Hf _; [simpl in Hf; lia | reflexivity].
    + exists (js "false"). repeat split.
      intros [|f] rest Hf _; [simpl in Hf; lia | reflexivity].
  - cbn [json_value] in Hjv. exists lit.
    destruct (number_literal_head lit Hjv) as (c & t & -> & Hc).
    split; [reflexivity|]. split.
    + cbn [starts_value]. not_the_unit.
    + intros [|f] rest Hf Hrest; [simpl in Hf; lia|].
      rewrite parse_value_S.
      assert (skip_ws ((c :: t) ++ rest) = (c :: t) ++ rest) as ->.
      { cbn [app skip_ws]. now replace (is_ws c) with false by (symmetry; not_the_unit). }
      cbn [app].
      replace (N.eqb c 123) with false by (symmetry; not_the_unit).
      replace (N.eqb c 91) with false by (symmetry; not_the_unit).
      replace (N.eqb c 34) with false by (symmetry; not_the_unit).
      replace (N.eqb c 116) with false by (symmetry; not_the_unit).
      replace (N.eqb c 102) with false by (symmetry; not_the_unit).
      replace (N.eqb c 110) with false by (symmetry; not_the_unit).
      change (c :: t ++ rest) with ((c :: t) ++ rest).
      now rewrite lex_number_literal.
  - exists (quote s). repeat split.
    intros [|f] rest Hf _; [simpl in Hf; lia|].
    rewrite parse_value_S. unfold quote. cbn [app skip_ws is_ws N.eqb Pos.eqb orb].
    rewrite <- app_assoc. cbn [app]. now rewrite parse_chars_quote_units.
  - rewrite serialize_array. eexists. split; [reflexivity|].
    pose proof (json_value_array l Hjv) as Hall.
    destruct l as [|x l].
    + split; [reflexivity|].
      intros [|f] rest Hf _; [simpl in Hf; lia | reflexivity].
    + split; [reflexivity|].
      intros [|f] rest Hf _; [simpl in Hf; lia|].
      pose proof (parse_elements_texts (x :: l) IH Hall ltac:(discriminate) f rest Hf) as Hel.
      cbn [map wrap]. cbn [app]. rewrite <- app_assoc. cbn [app].
      rewrite parse_value_S. cbn [skip_ws is_ws N.eqb Pos.eqb orb].
      inversion IH as [|? ? Hx _]; subst. inversion Hall as [|? ? Jx _]; subst.
      destruct (Hx Jx) as (t & Ht & Hst & _).
      destruct (starts_value_inv t Hst) as (c & t' & -> & Hws & H93 & _).
      destruct (join_head [44%N] (element_text x) (map element_text l)) as [u Eu].
      assert (element_text x = c :: t') as Ex by (unfold element_text; now rewrite Ht).
      revert Hel. cbn [map]. rewrite Eu, !Ex.
      cbn [app skip_ws]. rewrite Hws, H93. now intros ->.
  - rewrite serialize_object. eexists. split; [reflexivity|].
    destruct (json_value_object o Hjv) as [Hkeys Hall].
    destruct o as [|[k x] o].
    + split; [reflexivity|].
      intros [|f] rest Hf _; [simpl in Hf; lia | reflexivity].
    + inversion IH as [|? ? Hx _]; subst. inversion Hall as [|? ? Jx _]; subst.
      cbn [snd] in Hx, Jx.
      destruct (member_texts_head k x o Jx Hx) as [u Eu].
      assert (exists m ms, member_texts ((k, x) :: o) = m :: ms) as (m & ms & Em).
      { cbn [member_texts]. destruct (Hx Jx) as (t & -> & _). eauto. }
      split.
      * rewrite Em. cbn [wrap]. reflexivity.
      * intros [|f] rest Hf _; [simpl in Hf; lia|].
        pose proof (parse_members_texts ((k, x) :: o) IH Hall ltac:(discriminate) f rest Hf)
          as Hmem.
        revert Hmem. rewrite Em. cbn [wrap]. rewrite <- Em, Eu.
        cbn [app]. rewrite <- app_assoc. cbn [app].
        rewrite parse_value_S. cbn [skip_ws is_ws N.eqb Pos.eqb orb].
        intros ->. now rewrite object_of_keys_ok.
Qed.

(** The text of a value is at least as long as the fuel its reading takes. *)
Lemma size_elements (l : list jsval) :
  Forall (fun x => size x <= length (element_text x)) l -> l <> [] ->
  size (VArr l) <= length (join [44%N] (map element_text l)) + 2.
Proof.
  induction l as [|x l IH]; intros H Hne; [contradiction|].
  inversion H as [|? ? Hx Hl]; subst.
  destruct l as [|y l'].
  - simpl in *. lia.
  - specialize (IH Hl ltac:(discriminate)).
    cbn [map] in IH |- *. rewrite join_cons, !length_app.
    simpl in IH |- *. lia.
Qed.

Lemma size_members (o : list (jsstring * jsval)) :
  Forall (fun kv => exists t, serialize [] [] (snd kv) = Some t /\
                              size (snd kv) <= length t) o ->
  o <> [] ->
  size (VObj o) <= length (join [44%N] (member_texts o)) + 2.
Proof.
  induction o as [|[k x] o IH]; intros H Hne; [contradiction|].
  inversion H as [|? ? Hx Ho]; subst. cbn [snd] in Hx. destruct Hx as (t & Ht & Hx).
  cbn [member_texts]. rewrite Ht.
  destruct o as [|[k' y] o'].
  - cbn [member_texts join]. rewrite !length_app. simpl. lia.
  - specialize (IH Ho ltac:(discriminate)).
    inversion Ho as [|? ? Hy _]; subst. cbn [snd] in Hy. destruct Hy as (ty & Hty & _).
    assert (exists m ms, member_texts ((k', y) :: o') = m :: ms) as (m & ms & Em).
    { cbn [member_texts]. rewrite Hty. eauto. }
    rewrite Em in IH |- *. rewrite join_cons, !length_app.
    simpl in IH |- *. lia.
Qed.

Lemma size_le_length (v : jsval) :
  json_value v = true ->
  exists t, serialize [] [] v = Some t /\ size v <= length t.
Proof.
  induction v as [| |b|lit|s|l IH|o IH] using jsval_ind; intros Hjv.
  - discriminate.
  - eexists. split; [reflexivity|]. simpl. lia.
  - destruct b; eexists; (split; [reflexivity|]); simpl; lia.
  - cbn [json_value] in Hjv.
    destruct (number_literal_head lit Hjv) as (c & t & -> & _).
    eexists. split; [reflexivity|]. simpl. lia.
  - eexists. split; [reflexivity|]. simpl. lia.
  - rewrite serialize_array. eexists. split; [reflexivity|].
    pose proof (json_value_array l Hjv) as Hall.
    destruct l as [|x l]; [simpl; lia|].
    assert (Forall (fun x => size x <= length (element_text x)) (x :: l)) as Hs.
    { apply Forall_forall. intros y Hy.
      rewrite Forall_forall in IH, Hall.
      destruct (IH y Hy (Hall y Hy)) as (t & Ht & Hle).
      unfold element_text. now rewrite Ht. }
    pose proof (size_elements (x :: l) Hs ltac:(discriminate)) as Hsz.
    cbn [map] in Hsz |- *. cbn [wrap length]. rewrite length_app. cbn [length].
    lia.
  - rewrite serialize_object. eexists. split; [reflexivity|].
    destruct (json_value_object o Hjv) as [_ Hall].
    destruct o as [|[k x] o]; [simpl; lia|].
    assert (Forall (fun kv => exists t, serialize [] [] (snd kv) = Some t /\
                                        size (snd kv) <= length t) ((k, x) :: o)) as Hs.
    { apply Forall_forall. intros y Hy.
      rewrite Forall_forall in IH, Hall. exact (IH y Hy (Hall y Hy)). }
    pose proof (size_members ((k, x) :: o) Hs ltac:(discriminate)) as Hsz.
    assert (exists m ms, member_texts ((k, x) :: o) = m :: ms) as (m & ms & Em).
    { inversion Hs as [|? ? (t & Ht & _) _]; subst. cbn [snd] in Ht.
      cbn [member_texts]. rewrite Ht. eauto. }
    rewrite Em in Hsz |- *. cbn [wrap length]. rewrite length_app. cbn [length].
    lia.
Qed.

(** [JSON.parse] returns the value [JSON.stringify] was given. *)
Lemma parse_stringify (v : jsval) :
  json_value v = true ->
  exists t, stringify v = Some t /\ parse t = Some v.
Proof.
  intros Hjv. unfold stringify, parse.
  destruct (json_value_reads_back v Hjv) as (t & Ht & _ & Hp).
  destruct (size_le_length v Hjv) as (t' & Ht' & Hle).
  rewrite Ht in Ht'. injection Ht' as <-.
  exists t. split; [exact Ht|].
  specialize (Hp (S (length t)) [] ltac:(lia) eq_refl).
  rewrite app_nil_r in Hp. now rewrite Hp.
Qed.

End JSONFacts.




(** ** The monad *)

Lemma bind_ok {A B} (m : M A) (k : A -> M B) (w w' : World) (a : A) :
  m w = (Ok a, w') -> bind m k w = k a w'.
Proof. intros H. unfold bind. now rewrite H. Qed.

Lemma bind_throw {A B} (m : M A) (k : A -> M B) (w w' : World) (e : exn) :
  m w = (Throw e, w') -> bind m k w = (Throw e, w').
Proof. intros H. unfold bind. now rewrite H. Qed.

(** ** utils/validators: the size ceiling *)

Lemma fs_stat_regular (path : jsstring) (f : File) (w : World) :
  disk w path = Some (Regular f) ->
  fs_stat path w = (Ok {| isFile := true; st_size := f_size f |}, w).
Proof. intros H. unfold fs_stat. now rewrite H. Qed.

(** C10. The size check is strict at the boundary: a regular file of exactly
    50 MiB (52428800 bytes) passes [validateFileSize], a file passes exactly
    when its size is at most the ceiling, and a larger one is rejected with
    the too-large error, which reports both sizes in megabytes. *)
Theorem validateFileSize_boundary (path : jsstring) (f : File) (w : World) :
  disk w path = Some (Regular f) ->
  Constants.MAX_SIZE = 52428800%N /\
  (f_size f = 52428800%N -> Validators.validateFileSize path None w = (Ok tt, w)) /\
  (Validators.validateFileSize path None w = (Ok tt, w) <-> (f_size f <= 52428800)%N) /\
  ((52428800 < f_size f)%N ->
   Validators.validateFileSize path None w =
   (Throw (Error (js "File size (" ++ Validators.toFixed_ratio (f_size f) 1048576 2
                    ++ js "MB) exceeds maximum allowed size (50MB)")), w)).
Proof.
  intros Hdisk.
  assert (forall b : bool,
             N.ltb Constants.MAX_SIZE (f_size f) = b ->
             Validators.validateFileSize path None w =
             if b then
               (Throw (Error (js "File size (" ++ Validators.toFixed_ratio (f_size f) 1048576 2
                                ++ js "MB) exceeds maximum allowed size (50MB)")), w)
             else (Ok tt, w)) as Hrun.
  { intros b Hb. unfold Validators.validateFileSize.
    rewrite (bind_ok _ _ _ _ _ (fs_stat_regular path f w Hdisk)).
    cbn [st_size]. rewrite Hb. now destruct b. }
  change Constants.MAX_SIZE with 52428800%N in Hrun.
  split; [reflexivity|]. split; [|split].
  - intros Hsize. apply (Hrun false). apply N.ltb_ge. lia.
  - split.
    + intros Hok. destruct (N.ltb 52428800 (f_size f)) eqn:E.
      * rewrite (Hrun true eq_refl) in Hok. discriminate.
      * apply N.ltb_ge in E. exact E.
    + intros Hle. apply (Hrun false). now apply N.ltb_ge.
  - intros Hgt. apply (Hrun true). now apply N.ltb_lt.
Qed.

Lemma validateFileSize_boundary_witness :
  Validators.validateFileSize (js "/docs/limit.pdf") None
    (Scenario.world (fun _ _ => Response VNull))
  = (Ok tt, Scenario.world (fun _ _ => Response VNull)).
Proof.
  apply (proj1 (proj2 (validateFileSize_boundary
                         (js "/docs/limit.pdf")
                         {| f_size := 52428800; f_utf8 := js "%PDF-1.4";
                            f_base64 := js "JVBERi0xLjQ=" |}
                         (Scenario.world (fun _ _ => Response VNull))
                         eq_refl))).
  reflexivity.
Defined.

(** ** utils/schemaHelper: the shape of a schema *)

Lemma not_an_object_is_object (v : jsval) :
  SchemaHelper.not_an_object v = negb (is_object v).
Proof.
  unfold SchemaHelper.not_an_object.
  destruct v as [| |[|]|lit|s|l|o]; cbn; now rewrite ?orb_true_r.
Qed.

Lemma truthy_string (v : jsval) :
  negb (truthy v) || negb (str_eqb (typeof v) "string") = negb (nonempty_string v).
Proof.
  destruct v as [| |[|]|lit|s|l|o]; cbn; rewrite ?orb_true_r; try reflexivity.
  now destruct s.
Qed.

(** The counterexample to C4 as stated: a schema whose mapping of properties
    is empty is accepted, and a schema whose name is the empty string is
    rejected, so the accepted candidates are not those of the documented
    shape. *)
Lemma validateSchemaFormat_not_documented_shape :
  ~ (forall schema,
        SchemaHelper.validateSchemaFormat schema = Ok tt <-> documented_shape schema = true).
Proof.
  intros H.
  specialize (H (SchemaHelper.createExtractionSchema (VObj []) None)).
  destruct H as [H _]. specialize (H eq_refl). discriminate H.
Qed.

(** What [validateSchemaFormat] lets through. *)
Lemma validateSchemaFormat_ok (schema : jsval) :
  SchemaHelper.validateSchemaFormat schema = Ok tt <-> accepted_shape schema = true.
Proof.
  unfold SchemaHelper.validateSchemaFormat, accepted_shape.
  rewrite !not_an_object_is_object, truthy_string.
  destruct (is_object schema); cbn [negb andb]; [|easy].
  destruct (is_string (prop schema "type") "json_schema"); cbn [negb andb]; [|easy].
  destruct (is_object (prop schema "json_schema")); cbn [negb andb]; [|easy].
  destruct (nonempty_string (prop (prop schema "json_schema") "name"));
    cbn [negb andb]; [|easy].
  destruct (is_object (prop (prop schema "json_schema") "schema")); cbn [negb andb]; [|easy].
  destruct (is_string (prop (prop (prop schema "json_schema") "schema") "type") "object");
    cbn [negb andb]; [|easy].
  destruct (is_object (prop (prop (prop schema "json_schema") "schema") "properties"));
    cbn [negb andb]; easy.
Qed.

(** C4, amended. [validateSchemaFormat] accepts exactly the candidates that
    are objects with the discriminator [type == "json_schema"], a
    [json_schema] object carrying a name that is a string and not empty, and
    a [schema] object whose type is ["object"] and whose [properties] is an
    object (an empty mapping included). Every rejection is one of seven
    errors whose messages differ from one another, and each violation has its
    own: the missing discriminator, the missing name, the wrong schema type
    and the missing properties. *)
Theorem validateSchemaFormat_accepts_exactly (schema : jsval) :
  (SchemaHelper.validateSchemaFormat schema = Ok tt <-> accepted_shape schema = true) /\
  (forall e, SchemaHelper.validateSchemaFormat schema = Throw e -> In e rejections) /\
  NoDup (map message_of rejections) /\
  let jsonSchema := prop schema "json_schema" in
  (is_object schema = true ->
   is_string (prop schema "type") "json_schema" = false ->
   SchemaHelper.validateSchemaFormat schema
   = Throw (Error (jsq "Schema must have type `json_schema`"))) /\
  (is_object schema = true ->
   is_string (prop schema "type") "json_schema" = true ->
   is_object jsonSchema = true ->
   nonempty_string (prop jsonSchema "name") = false ->
   SchemaHelper.validateSchemaFormat schema
   = Throw (Error (jsq "Schema must have a `name` property"))) /\
  (is_object schema = true ->
   is_string (prop schema "type") "json_schema" = true ->
   is_object jsonSchema = true ->
   nonempty_string (prop jsonSchema "name") = true ->
   is_object (prop jsonSchema "schema") = true ->
   is_string (prop (prop jsonSchema "schema") "type") "object" = false ->
   SchemaHelper.validateSchemaFormat schema
   = Throw (Error (jsq "Schema type must be `object`"))) /\
  (is_object schema = true ->
   is_string (prop schema "type") "json_schema" = true ->
   is_object jsonSchema = true ->
   nonempty_string (prop jsonSchema "name") = true ->
   is_object (prop jsonSchema "schema") = true ->
   is_string (prop (prop jsonSchema "schema") "type") "object" = true ->
   is_object (prop (prop jsonSchema "schema") "properties") = false ->
   SchemaHelper.validateSchemaFormat schema
   = Throw (Error (jsq "Schema must have `properties` object"))).
Proof.
  split; [apply validateSchemaFormat_ok|].
  unfold SchemaHelper.validateSchemaFormat.
  rewrite !not_an_object_is_object, truthy_string.
  split; [|split].
  - intros e.
    repeat match goal with
           | |- context [if negb ?b then _ else _] => destruct b; cbn [negb]
           end;
      intros H; try discriminate H; injection H as <-; cbn [rejections In]; tauto.
  - cbn [map rejections message_of].
    repeat (constructor; [cbn [In]; intros Hin;
                          repeat (destruct Hin as [Hin|Hin]; [discriminate Hin|]); exact Hin|]).
    constructor.
  - cbn zeta.
    repeat split; intros;
      repeat match goal with
             | H : ?b = _ |- context [negb ?b] => rewrite H; cbn [negb]
             end; reflexivity.
Qed.

Lemma validateSchemaFormat_accepts_exactly_witness :
  SchemaHelper.validateSchemaFormat
    (obj [ "type" :-> str "json_schema";
           "json_schema" :-> obj [ "schema" :-> obj [ "type" :-> str "object" ] ] ])
  = Throw (Error (jsq "Schema must have a `name` property")).
Proof.
  apply (proj1 (proj2 (proj2 (proj2 (proj2
           (validateSchemaFormat_accepts_exactly
              (obj [ "type" :-> str "json_schema";
                     "json_schema" :->
                       obj [ "schema" :-> obj [ "type" :-> str "object" ] ] ])))))));
    reflexivity.
Defined.

(** ** utils/schemaHelper: the round trip of a schema *)

Import JSON.

Lemma createExtractionSchema_value (fields : jsval) (name : option jsstring) :
  SchemaHelper.createExtractionSchema fields name =
  VObj [ (js "type", VStr (js "json_schema"));
         (js "json_schema",
          VObj [ (js "name",
                  VStr (match name with Some n => n | None => SchemaHelper.default_name end));
                 (js "schema",
                  VObj [ (js "type", VStr (js "object"));
                         (js "properties", fields) ]) ]) ].
Proof. reflexivity. Qed.

Lemma createExtractionSchema_json_value (fields : jsval) (name : option jsstring) :
  json_value fields = true ->
  json_value (SchemaHelper.createExtractionSchema fields name) = true.
Proof.
  intros H. rewrite createExtractionSchema_value.
  cbn [json_value map fst].
  change (keys_ok [js "type"; js "json_schema"]) with true.
  change (keys_ok [js "name"; js "schema"]) with true.
  change (keys_ok [js "type"; js "properties"]) with true.
  now rewrite H.
Qed.

Lemma createExtractionSchema_accepted (fields : jsval) (name : option jsstring) :
  is_object fields = true -> name <> Some [] ->
  accepted_shape (SchemaHelper.createExtractionSchema fields name) = true.
Proof.
  intros Hobj Hname. rewrite createExtractionSchema_value.
  unfold accepted_shape.
  change (prop (VObj ?o) (js "json_schema")) with
    (VObj [ (js "name",
             VStr (match name with Some n => n | None => SchemaHelper.default_name end));
            (js "schema",
             VObj [ (js "type", VStr (js "object")); (js "properties", fields) ]) ]).
  cbn [is_object andb].
  change (is_string (prop _ (js "type")) (js "json_schema")) with true at 1.
  cbn [andb].
  change (prop (VObj _) (js "name")) with
    (VStr (match name with Some n => n | None => SchemaHelper.default_name end)).
  change (prop (VObj _) (js "schema")) with
    (VObj [ (js "type", VStr (js "object")); (js "properties", fields) ]).
  change (prop (VObj _) (js "type")) with (VStr (js "object")).
  change (prop (VObj _) (js "properties")) with fields.
  rewrite Hobj. cbn [is_object andb].
  change (is_string (VStr (js "object")) (js "object")) with true.
  destruct name as [[|c n]|]; [congruence | reflexivity | reflexivity].
Qed.

(** The round trip for a schema of any name that is not empty. *)
Lemma schema_round_trip_named (fields : jsval) (name : option jsstring) :
  json_value fields = true -> is_object fields = true -> name <> Some [] ->
  exists text,
    SchemaHelper.schemaToJson (SchemaHelper.createExtractionSchema fields name) = Some text /\
    SchemaHelper.parseSchemaJson text = Ok (SchemaHelper.createExtractionSchema fields name).
Proof.
  intros Hjson Hobj Hname.
  destruct (JSONFacts.parse_stringify _ (createExtractionSchema_json_value fields name Hjson))
    as (text & Htext & Hparse).
  exists text. split; [exact Htext|].
  unfold SchemaHelper.parseSchemaJson. rewrite Hparse.
  pose proof (createExtractionSchema_accepted fields name Hobj Hname) as Hacc.
  apply validateSchemaFormat_ok in Hacc.
  now rewrite Hacc.
Qed.

(** C8. For every well-formed mapping of fields (an object that is a JSON
    value), the schema built from it is serialized by [schemaToJson] to a
    text that [parseSchemaJson] parses, validates and returns as the very
    schema [createExtractionSchema] built. *)
Theorem schema_round_trip (fields : jsval) :
  json_value fields = true -> is_object fields = true ->
  exists text,
    SchemaHelper.schemaToJson (SchemaHelper.createExtractionSchema fields None) = Some text /\
    SchemaHelper.parseSchemaJson text = Ok (SchemaHelper.createExtractionSchema fields None).
Proof.
  intros Hjson Hobj. now apply schema_round_trip_named.
Qed.

Lemma schema_round_trip_witness :
  exists text,
    SchemaHelper.schemaToJson SchemaHelper.contract = Some text /\
    SchemaHelper.parseSchemaJson text = Ok SchemaHelper.contract.
Proof.
  apply (schema_round_trip
           (prop (prop (prop SchemaHelper.contract "json_schema") "schema") "properties"));
    vm_compute; reflexivity.
Defined.

(** ** httpServer: the error codes of [POST /mcp] *)

Lemma post_mcp_of_object (req : HttpServer.HttpRequest) :
  HttpServer.acceptable (HttpServer.accept req) = true ->
  is_object (HttpServer.body req) = true ->
  HttpServer.status (HttpServer.post_mcp req) = 200%N /\
  HttpServer.error_code (HttpServer.post_mcp req)
  = (if is_string (prop (HttpServer.body req) "method") "tools/list"
     then None else Some (js "-32601")) /\
  HttpServer.listed_tools (HttpServer.post_mcp req)
  = (if is_string (prop (HttpServer.body req) "method") "tools/list"
     then Some HttpServer.tools else None).
Proof.
  intros Hacc Hobj. unfold HttpServer.post_mcp. rewrite Hacc. cbn [negb].
  rewrite not_an_object_is_object, Hobj. cbn [negb].
  now destruct (is_string (prop (HttpServer.body req) "method") "tools/list").
Qed.

Lemma post_mcp_of_no_object (req : HttpServer.HttpRequest) :
  HttpServer.acceptable (HttpServer.accept req) = true ->
  is_object (HttpServer.body req) = false ->
  HttpServer.status (HttpServer.post_mcp req) = 400%N /\
  HttpServer.error_code (HttpServer.post_mcp req) = Some (js "-32600").
Proof.
  intros Hacc Hobj. unfold HttpServer.post_mcp. rewrite Hacc. cbn [negb].
  rewrite not_an_object_is_object, Hobj. now split.
Qed.

Lemma handle_post_mcp (req : HttpServer.HttpRequest) :
  HttpServer.method req = js "POST" -> HttpServer.path req = js "/mcp" ->
  HttpServer.handle req = HttpServer.post_mcp req.
Proof. intros Hm Hp. unfold HttpServer.handle. rewrite Hm, Hp. reflexivity. Qed.

(** The first unit of a JSON text, after white space, tells whether its
    value is an object or an array. *)
Lemma parse_first_unit (text : jsstring) (v : jsval) :
  JSON.parse text = Some v ->
  exists c r,
    JSON.skip_ws text = c :: r /\ is_object v = (N.eqb c 123 || N.eqb c 91)%bool.
Proof.
  unfold JSON.parse.
  destruct (JSON.parse_value (S (length text)) text) as [[x rest]|] eqn:E; [|discriminate].
  destruct (JSON.skip_ws rest); [|discriminate]. intros [= <-].
  rewrite JSONFacts.parse_value_S in E.
  destruct (JSON.skip_ws text) as [|c t]; [discriminate|]. exists c, t.
  split; [reflexivity|].
  destruct (N.eqb c 123).
  { destruct (JSON.skip_ws t) as [|c' t']; [discriminate|].
    destruct (N.eqb c' 125); [now injection E as <- _|].
    destruct (JSON.parse_members _ t) as [[o r1]|]; [|discriminate].
    now injection E as <- _. }
  destruct (N.eqb c 91).
  { destruct (JSON.skip_ws t) as [|c' t']; [discriminate|].
    destruct (N.eqb c' 93); [now injection E as <- _|].
    destruct (JSON.parse_elements _ t) as [[l r1]|]; [|discriminate].
    now injection E as <- _. }
  destruct (N.eqb c 34).
  { destruct (JSON.parse_chars t) as [[s r1]|]; [|discriminate]. now injection E as <- _. }
  destruct (N.eqb c 116).
  { destruct (JSON.strip_prefix _ _); [|discriminate]. now injection E as <- _. }
  destruct (N.eqb c 102).
  { destruct (JSON.strip_prefix _ _); [|discriminate]. now injection E as <- _. }
  destruct (N.eqb c 110).
  { destruct (JSON.strip_prefix _ _); [|discriminate]. now injection E as <- _. }
  destruct (JSON.lex_number (c :: t)) as [[lit r1]|]; [|discriminate].
  now injection E as <- _.
Qed.

(** What the parser of [express.json] makes of a text that is not empty. *)
Lemma body_parsers_json (framework : HttpServer.Framework) (text : jsstring) :
  text <> [] ->
  HttpServer.body_parsers framework (HttpServer.JsonBody text)
  = match JSON.parse text with
    | Some v => if is_object v then HttpServer.Body v else HttpServer.Refused 400
    | None => HttpServer.Refused 400
    end.
Proof.
  intros Hne. destruct text as [|u text]; [contradiction|].
  cbn [HttpServer.body_parsers].
  destruct (JSON.parse (u :: text)) as [v|] eqn:Hparse.
  - destruct (parse_first_unit _ _ Hparse) as (c & r & -> & ->).
    now destruct (N.eqb c 123 || N.eqb c 91)%bool.
  - destruct (JSON.skip_ws (u :: text)) as [|c r]; [reflexivity|].
    now destruct (N.eqb c 123 || N.eqb c 91)%bool.
Qed.

(** The counterexample to C6 as stated: the body [{}] has neither [jsonrpc]
    nor [method], and the answer carries the code -32601, not -32600,
    whatever the version of the framework. *)
Lemma post_mcp_empty_envelope_method_not_found :
  JSON.parse (js "{}") = Some (VObj []) /\
  envelope_shape (VObj []) = false /\
  (forall framework,
      HttpServer.error_code (HttpServer.app framework (Scenario.post_json (js "{}")))
      = Some (js "-32601")) /\
  (forall framework,
      HttpServer.error_code (HttpServer.app framework (Scenario.post_json (js "{}")))
      <> Some (js "-32600")).
Proof.
  split; [reflexivity|]. split; [reflexivity|].
  split; intros [|]; vm_compute; [reflexivity | reflexivity | discriminate | discriminate].
Qed.

(** C6, amended. For every [POST /mcp] request with an acceptable [Accept]
    header, as it arrives. A body of type JSON whose text denotes an object
    or an array is answered with the error -32601 unless its method is
    [tools/list] (a method that is unknown, and also one that is missing, as
    in a body without [jsonrpc] and [method]); so are an empty body of that
    type and a body of type [application/octet-stream]. A body of type JSON
    that denotes a string, a number, [true], [false] or [null], or that is
    no JSON text, never reaches the route: the body parser refuses it, and
    the answer is the error page of the framework with the status 400 and
    no JSON-RPC error. The error -32600 is the answer in one case only: a
    request without a body that a parser takes, when the framework leaves
    [req.body] undefined (Express 5; with Express 4 the body is an empty
    object and the answer is -32601). *)
Theorem post_mcp_error_codes (framework : HttpServer.Framework) (inc : HttpServer.Incoming) :
  HttpServer.in_method inc = js "POST" ->
  HttpServer.in_path inc = js "/mcp" ->
  HttpServer.acceptable (HttpServer.in_accept inc) = true ->
  let res := HttpServer.app framework inc in
  (HttpServer.error_code res = Some (js "-32600") <->
   framework = HttpServer.Express5 /\ HttpServer.in_sent inc = HttpServer.NoBody) /\
  (forall text v,
      HttpServer.in_sent inc = HttpServer.JsonBody text -> JSON.parse text = Some v ->
      if is_object v then
        HttpServer.status res = 200%N /\
        (is_string (prop v "method") "tools/list" = false ->
         HttpServer.error_code res = Some (js "-32601")) /\
        (is_string (prop v "method") "tools/list" = true ->
         HttpServer.listed_tools res = Some HttpServer.tools)
      else
        HttpServer.status res = 400%N /\ HttpServer.payload res = HttpServer.ErrorPage /\
        HttpServer.error_code res = None) /\
  (forall text,
      HttpServer.in_sent inc = HttpServer.JsonBody text -> text <> [] ->
      JSON.parse text = None ->
      HttpServer.status res = 400%N /\ HttpServer.payload res = HttpServer.ErrorPage /\
      HttpServer.error_code res = None) /\
  (HttpServer.in_sent inc = HttpServer.JsonBody []
   \/ (exists bytes, HttpServer.in_sent inc = HttpServer.RawBody bytes)
   \/ (HttpServer.in_sent inc = HttpServer.NoBody /\ framework = HttpServer.Express4) ->
   HttpServer.error_code res = Some (js "-32601")).
Proof.
  intros Hm Hp Hacc res.
  assert (forall body,
             HttpServer.handle (HttpServer.parsed_request inc body)
             = HttpServer.post_mcp (HttpServer.parsed_request inc body)) as Hroute.
  { intros body. now apply handle_post_mcp. }
  assert (forall body,
             is_object body = true ->
             HttpServer.status (HttpServer.handle (HttpServer.parsed_request inc body)) = 200%N /\
             HttpServer.error_code (HttpServer.handle (HttpServer.parsed_request inc body))
             = (if is_string (prop body "method") "tools/list"
                then None else Some (js "-32601")) /\
             HttpServer.listed_tools (HttpServer.handle (HttpServer.parsed_request inc body))
             = (if is_string (prop body "method") "tools/list"
                then Some HttpServer.tools else None)) as Hobject.
  { intros body Hobj. rewrite Hroute.
    exact (post_mcp_of_object (HttpServer.parsed_request inc body) Hacc Hobj). }
  assert (HttpServer.in_method inc <> js "HEAD") as Hhead by (rewrite Hm; discriminate).
  subst res. unfold HttpServer.app.
  assert (str_eqb (HttpServer.in_method inc) "HEAD" = false) as ->
      by (now apply str_eqb_neq).
  split; [|split; [|split]].
  - split.
    + destruct (HttpServer.in_sent inc) as [|text|bytes|status] eqn:Hsent.
      * destruct framework; cbn [HttpServer.body_parsers].
        -- destruct (Hobject (VObj []) eq_refl) as (_ & -> & _). discriminate.
        -- intros _. now split.
      * destruct text as [|u text].
        -- cbn [HttpServer.body_parsers].
           destruct (Hobject (VObj []) eq_refl) as (_ & -> & _). discriminate.
        -- rewrite body_parsers_json by discriminate.
           destruct (JSON.parse (u :: text)) as [v|]; [|discriminate].
           destruct (is_object v) eqn:Hobj; [|discriminate].
           destruct (Hobject v Hobj) as (_ & -> & _).
           destruct (is_string (prop v "method") "tools/list"); discriminate.
      * cbn [HttpServer.body_parsers].
        match goal with
        | |- context [HttpServer.parsed_request inc ?b] =>
            destruct (Hobject b eq_refl) as (_ & -> & _)
        end.
        match goal with |- context [if ?b then _ else _] => destruct b end; discriminate.
      * cbn [HttpServer.body_parsers]. discriminate.
    + intros [-> ->]. cbn [HttpServer.body_parsers]. rewrite Hroute.
      now destruct (post_mcp_of_no_object (HttpServer.parsed_request inc VUndef) Hacc eq_refl).
  - intros text v Hsent Hparse. rewrite Hsent.
    assert (text <> []) as Hne by (intros ->; discriminate Hparse).
    rewrite (body_parsers_json _ _ Hne), Hparse.
    destruct (is_object v) eqn:Hobj.
    + destruct (Hobject v Hobj) as (Hstatus & Hcode & Hlist).
      split; [exact Hstatus|]. split; intros E; [rewrite Hcode | rewrite Hlist]; now rewrite E.
    + now repeat split.
  - intros text Hsent Hne Hparse. rewrite Hsent, (body_parsers_json _ _ Hne), Hparse.
    now repeat split.
  - intros [Hsent|[[bytes Hsent]|[Hsent ->]]]; rewrite Hsent; cbn [HttpServer.body_parsers];
      match goal with
      | |- context [HttpServer.parsed_request inc ?b] =>
          destruct (Hobject b eq_refl) as (_ & -> & _)
      end; reflexivity.
Qed.

Lemma post_mcp_error_codes_witness :
  let bare :=
    {| HttpServer.in_method := js "POST";
       HttpServer.in_path := js "/mcp";
       HttpServer.in_accept := Some (js "application/json");
       HttpServer.in_origin := None;
       HttpServer.in_mcp_session_id := None;
       HttpServer.in_sent := HttpServer.NoBody |} in
  HttpServer.error_code
    (HttpServer.app HttpServer.Express4
       (Scenario.post_json (jsq "{`jsonrpc`:`2.0`,`id`:1,`method`:`nonexistent/thing`}")))
  = Some (js "-32601") /\
  HttpServer.status
    (HttpServer.app HttpServer.Express4 (Scenario.post_json (jsq "`tools/list`")))
  = 400%N /\
  HttpServer.error_code (HttpServer.app HttpServer.Express5 bare) = Some (js "-32600") /\
  HttpServer.error_code (HttpServer.app HttpServer.Express4 bare) = Some (js "-32601").
Proof.
  intros bare. split; [|split; [|split]].
  - pose proof (proj1 (proj2 (post_mcp_error_codes HttpServer.Express4
                                (Scenario.post_json
                                   (jsq "{`jsonrpc`:`2.0`,`id`:1,`method`:`nonexistent/thing`}"))
                                eq_refl eq_refl eq_refl))
                  _ _ eq_refl eq_refl) as H.
    cbv beta iota in H. exact (proj1 (proj2 H) eq_refl).
  - pose proof (proj1 (proj2 (post_mcp_error_codes HttpServer.Express4
                                (Scenario.post_json (jsq "`tools/list`"))
                                eq_refl eq_refl eq_refl))
                  _ _ eq_refl eq_refl) as H.
    cbv beta iota in H. exact (proj1 H).
  - exact (proj2 (proj1 (post_mcp_error_codes HttpServer.Express5 bare
                           eq_refl eq_refl eq_refl))
             (conj eq_refl eq_refl)).
  - exact (proj2 (proj2 (proj2 (post_mcp_error_codes HttpServer.Express4 bare
                                  eq_refl eq_refl eq_refl)))
             (or_intror (or_intror (conj eq_refl eq_refl)))).
Defined.

(** ** The two dispatchers *)

(** C1: the code at the failing inputs. To [tools/list] the HTTP dispatcher
    answers with two descriptors, the stdio dispatcher with four; to a
    [tools/call] of [parse_document] the HTTP dispatcher answers with the
    error -32601, while the stdio dispatcher runs the handler and returns its
    text. *)
Theorem http_dispatcher_differs_from_stdio :
  let w := Scenario.world (fun _ _ => Response Scenario.parse_reply) in
  let list_request := Scenario.rpc "1" "tools/list" [] in
  HttpServer.listed_tools (HttpServer.handle (Scenario.post list_request))
  = Some HttpServer.tools /\
  map (fun t => prop t "name") HttpServer.tools
  = [str "parse_document"; str "extract_information"] /\
  fst (Server.respond Scenario.key (VNum (js "1")) (js "tools/list") VUndef w)
  = Ok (Server.rpc_result (VNum (js "1")) (obj [ "tools" :-> VArr Server.tools ])) /\
  map (fun t => prop t "name") Server.tools
  = [str "parse_document"; str "extract_information"; str "generate_schema";
     str "classify_document"] /\
  HttpServer.error_code (HttpServer.handle (Scenario.post Scenario.parse_call))
  = Some (js "-32601") /\
  fst (Server.respond Scenario.key (VNum (js "7")) (js "tools/call")
         (prop Scenario.parse_call "params") w)
  = Ok (Server.rpc_result (VNum (js "7"))
          (Server.text_content
             (jsq "{`html`:`<h1>Invoice</h1>`,`text`:`Invoice`}" ++ [10; 10]%N
                ++ js "The full response has been saved to /home/user/.mcp-upstage/outputs/document_parsing/invoice_2024-01-15T10-30-45_upstage.json for your reference."))).
Proof. vm_compute. repeat split. Qed.

(** ** utils/apiClient: the retry policy *)

Section Attempts.

Variable operation : jsstring.
Variable r : Request.

Lemma attempt_response (ts : list N) (errs : list exn) (k : nat) (w : World) (d : jsval) :
  ApiClient.reply_at w 0 r = Response d ->
  ApiClient.attempt operation (axios_post r) ts errs k w = (Ok d, log_request r w).
Proof.
  unfold ApiClient.reply_at. rewrite Nat.add_0_r. intros H.
  destruct ts; cbn [ApiClient.attempt]; unfold try_catch, axios_post; now rewrite H.
Qed.

Lemma attempt_client_error (ts : list N) (errs : list exn) (k : nat) (w : World)
      (status : option N) (dm : option jsstring) (m : jsstring) :
  ApiClient.reply_at w 0 r = Failure (AxiosError status dm m) ->
  ApiClient.client_error status = true ->
  ApiClient.attempt operation (axios_post r) ts errs k w
  = (Throw (Error (operation ++ js " failed: " ++ ApiClient.failure_message dm m)),
     log_request r w).
Proof.
  unfold ApiClient.reply_at. rewrite Nat.add_0_r. intros H Hc.
  destruct ts; cbn [ApiClient.attempt]; unfold try_catch, axios_post;
    rewrite H, Hc; reflexivity.
Qed.

Lemma attempt_retry (t : N) (ts : list N) (errs : list exn) (k : nat) (w : World) (e : exn) :
  ApiClient.reply_at w 0 r = Failure e ->
  ApiClient.retryable e = true ->
  ApiClient.attempt operation (axios_post r) (t :: ts) errs k w
  = ApiClient.attempt operation (axios_post r) ts
      (errs ++ [ApiClient.recorded operation e]) (S k)
      (ApiClient.after_failure operation k e t r w).
Proof.
  unfold ApiClient.reply_at. rewrite Nat.add_0_r. intros H Hr.
  cbn [ApiClient.attempt]. unfold try_catch at 1, axios_post at 1. rewrite H.
  destruct e; cbn [ApiClient.retryable] in Hr;
    try (apply negb_true_iff in Hr; rewrite Hr); reflexivity.
Qed.

Lemma attempt_exhausted (errs : list exn) (k : nat) (w : World) (e : exn) :
  ApiClient.reply_at w 0 r = Failure e ->
  ApiClient.retryable e = true ->
  ApiClient.attempt operation (axios_post r) [] errs k w
  = (Throw (ApiClient.main_or (errs ++ [ApiClient.recorded operation e])
                              (ApiClient.recorded operation e)),
     log_request r w).
Proof.
  unfold ApiClient.reply_at. rewrite Nat.add_0_r. intros H Hr.
  cbn [ApiClient.attempt]. unfold try_catch, axios_post. rewrite H.
  destruct e; cbn [ApiClient.retryable] in Hr;
    try (apply negb_true_iff in Hr; rewrite Hr); reflexivity.
Qed.

Lemma after_failure_requests (k : nat) (e : exn) (t : N) (w : World) :
  requests (ApiClient.after_failure operation k e t r w) = requests w ++ [r].
Proof. now destruct e. Qed.

Lemma after_failure_delays (k : nat) (e : exn) (t : N) (w : World) :
  delays (ApiClient.after_failure operation k e t r w) = delays w ++ [t].
Proof. now destruct e. Qed.

Lemma after_failure_reply (k : nat) (e : exn) (t : N) (w : World) (i : nat) (r' : Request) :
  ApiClient.reply_at (ApiClient.after_failure operation k e t r w) i r'
  = ApiClient.reply_at w (S i) r'.
Proof.
  unfold ApiClient.reply_at. rewrite after_failure_requests, length_app.
  cbn [length]. replace (length (requests w) + 1 + i) with (length (requests w) + S i) by lia.
  now destruct e.
Qed.

End Attempts.

(** [mainError] after three failures: the last error, unless the first two
    have one message and the last one another. *)
Lemma mainError_three (a b c : exn) :
  Retry.mainError [a; b; c]
  = Some (if str_eqb (message_of a) (message_of b)
             && negb (str_eqb (message_of b) (message_of c))
          then b else c).
Proof.
  unfold Retry.mainError. cbn [Retry.mainError_scan Retry.count_message app].
  destruct (str_eqb (message_of a) (message_of b)) eqn:Eab;
    destruct (str_eqb (message_of b) (message_of c)) eqn:Ebc;
    destruct (str_eqb (message_of a) (message_of c)) eqn:Eac;
    try reflexivity.
  apply str_eqb_eq in Eab, Eac. apply str_eqb_neq in Ebc. congruence.
Qed.

(** The counterexample to C2 as stated: after two failures with status 500
    and a third with status 429, the client fails with the error of the
    status 500, which is not the last error. *)
Lemma makeRequest_surfaces_main_error :
  let w :=
    Scenario.world
      (Scenario.scripted
         [ Scenario.status_failure 500 "Request failed with status code 500";
           Scenario.status_failure 500 "Request failed with status code 500" ]
         (Scenario.status_failure 429 "Request failed with status code 429")) in
  let run :=
    ApiClient.makeRequest Scenario.key Constants.DOCUMENT_CLASSIFICATION
      (json_request (VObj [])) None w in
  length (requests (snd run)) = 3 /\
  fst run = Throw (Error (js "API request failed: Request failed with status code 500")) /\
  fst run <> Throw (Error (js "API request failed: Request failed with status code 429")).
Proof. vm_compute. repeat split. discriminate. Qed.

(** C2, amended. For every invocation of the client, with [r] the request it
    sends: a failure with a 4xx status other than 429 ends the call at once,
    after exactly one attempt and no delay when it is the first attempt that
    fails so (and after two or three attempts when it is the second or the
    third); three failures that are
    retryable (429, 5xx, a network error, any other exception) make exactly
    three attempts, with delays of 1000 and 2000 ms, and the call fails with
    the main error of the operation, which is the last error unless the first
    two errors have one message and the last one a different message (then it
    is the second error); a success on the first, second or third attempt
    after retryable failures returns its payload. *)
Theorem makeRequest_retry_policy
        (apiKey url : jsstring) (options : ApiClient.ApiRequestOptions)
        (operation : option jsstring) (w : World) :
  let r := ApiClient.build_request apiKey url options in
  let op := match operation with Some o => o | None => js "API request" end in
  let run := ApiClient.makeRequest apiKey url options operation w in
  (forall status dm m,
      ApiClient.reply_at w 0 r = Failure (AxiosError status dm m) ->
      ApiClient.client_error status = true ->
      fst run = Throw (Error (op ++ js " failed: " ++ ApiClient.failure_message dm m)) /\
      requests (snd run) = requests w ++ [r] /\
      delays (snd run) = delays w) /\
  (forall e1 status dm m,
      ApiClient.reply_at w 0 r = Failure e1 -> ApiClient.retryable e1 = true ->
      ApiClient.reply_at w 1 r = Failure (AxiosError status dm m) ->
      ApiClient.client_error status = true ->
      fst run = Throw (Error (op ++ js " failed: " ++ ApiClient.failure_message dm m)) /\
      requests (snd run) = requests w ++ [r; r] /\
      delays (snd run) = delays w ++ [1000]%N) /\
  (forall e1 e2 status dm m,
      ApiClient.reply_at w 0 r = Failure e1 -> ApiClient.retryable e1 = true ->
      ApiClient.reply_at w 1 r = Failure e2 -> ApiClient.retryable e2 = true ->
      ApiClient.reply_at w 2 r = Failure (AxiosError status dm m) ->
      ApiClient.client_error status = true ->
      fst run = Throw (Error (op ++ js " failed: " ++ ApiClient.failure_message dm m)) /\
      requests (snd run) = requests w ++ [r; r; r] /\
      delays (snd run) = delays w ++ [1000; 2000]%N) /\
  (forall e1 e2 e3,
      ApiClient.reply_at w 0 r = Failure e1 -> ApiClient.retryable e1 = true ->
      ApiClient.reply_at w 1 r = Failure e2 -> ApiClient.retryable e2 = true ->
      ApiClient.reply_at w 2 r = Failure e3 -> ApiClient.retryable e3 = true ->
      let r1 := ApiClient.recorded op e1 in
      let r2 := ApiClient.recorded op e2 in
      let r3 := ApiClient.recorded op e3 in
      fst run = Throw (if str_eqb (message_of r1) (message_of r2)
                          && negb (str_eqb (message_of r2) (message_of r3))
                       then r2 else r3) /\
      requests (snd run) = requests w ++ [r; r; r] /\
      delays (snd run) = delays w ++ [1000; 2000]%N) /\
  (forall d,
      ApiClient.reply_at w 0 r = Response d ->
      fst run = Ok d /\ requests (snd run) = requests w ++ [r] /\
      delays (snd run) = delays w) /\
  (forall e1 d,
      ApiClient.reply_at w 0 r = Failure e1 -> ApiClient.retryable e1 = true ->
      ApiClient.reply_at w 1 r = Response d ->
      fst run = Ok d /\ requests (snd run) = requests w ++ [r; r] /\
      delays (snd run) = delays w ++ [1000]%N) /\
  (forall e1 e2 d,
      ApiClient.reply_at w 0 r = Failure e1 -> ApiClient.retryable e1 = true ->
      ApiClient.reply_at w 1 r = Failure e2 -> ApiClient.retryable e2 = true ->
      ApiClient.reply_at w 2 r = Response d ->
      fst run = Ok d /\ requests (snd run) = requests w ++ [r; r; r] /\
      delays (snd run) = delays w ++ [1000; 2000]%N).
Proof.
  intros r op run. subst run. unfold ApiClient.makeRequest, ApiClient.sendRequest.
  fold r. fold op.
  change (Retry.timeouts (Constants.RETRY_ATTEMPTS - 1) 2 Constants.RETRY_DELAY
            (Constants.RETRY_DELAY * 4)) with [1000; 2000]%N.
  assert (forall e1 e2 i,
             ApiClient.reply_at w (S (S i)) r
             = ApiClient.reply_at
                 (ApiClient.after_failure op 2 e2 2000 r
                    (ApiClient.after_failure op 1 e1 1000 r w)) i r) as Third.
  { intros e1 e2 i. now rewrite !after_failure_reply. }
  assert (forall e1 i,
             ApiClient.reply_at w (S i) r
             = ApiClient.reply_at (ApiClient.after_failure op 1 e1 1000 r w) i r) as Second.
  { intros e1 i. now rewrite after_failure_reply. }
  repeat apply conj.
  - intros status dm m Hfirst Hclient.
    now rewrite (attempt_client_error op r _ _ _ _ _ _ _ Hfirst Hclient).
  - intros e1 status dm m H1 R1 H2 Hclient.
    rewrite (Second e1) in H2.
    rewrite (attempt_retry op r _ _ _ _ _ _ H1 R1),
      (attempt_client_error op r _ _ _ _ _ _ _ H2 Hclient).
    cbn [fst snd].
    change (requests (log_request r ?x)) with (requests x ++ [r]).
    change (delays (log_request r ?x)) with (delays x).
    rewrite !after_failure_requests, !after_failure_delays, <- !app_assoc.
    repeat split.
  - intros e1 e2 status dm m H1 R1 H2 R2 H3 Hclient.
    rewrite (Second e1) in H2. rewrite (Third e1 e2) in H3.
    rewrite (attempt_retry op r _ _ _ _ _ _ H1 R1),
      (attempt_retry op r _ _ _ _ _ _ H2 R2),
      (attempt_client_error op r _ _ _ _ _ _ _ H3 Hclient).
    cbn [fst snd].
    change (requests (log_request r ?x)) with (requests x ++ [r]).
    change (delays (log_request r ?x)) with (delays x).
    rewrite !after_failure_requests, !after_failure_delays, <- !app_assoc.
    repeat split.
  - intros e1 e2 e3 H1 R1 H2 R2 H3 R3.
    rewrite (Second e1) in H2. rewrite (Third e1 e2) in H3.
    rewrite (attempt_retry op r _ _ _ _ _ _ H1 R1),
      (attempt_retry op r _ _ _ _ _ _ H2 R2), (attempt_exhausted op r _ _ _ _ H3 R3).
    cbn [fst snd app]. unfold ApiClient.main_or. rewrite mainError_three.
    change (requests (log_request r ?x)) with (requests x ++ [r]).
    change (delays (log_request r ?x)) with (delays x).
    rewrite !after_failure_requests, !after_failure_delays, <- !app_assoc.
    repeat split.
  - intros d H1. now rewrite (attempt_response op r _ _ _ _ _ H1).
  - intros e1 d H1 R1 H2.
    rewrite (Second e1) in H2.
    rewrite (attempt_retry op r _ _ _ _ _ _ H1 R1), (attempt_response op r _ _ _ _ _ H2).
    cbn [fst snd].
    change (requests (log_request r ?x)) with (requests x ++ [r]).
    change (delays (log_request r ?x)) with (delays x).
    rewrite !after_failure_requests, !after_failure_delays, <- !app_assoc.
    repeat split.
  - intros e1 e2 d H1 R1 H2 R2 H3.
    rewrite (Second e1) in H2. rewrite (Third e1 e2) in H3.
    rewrite (attempt_retry op r _ _ _ _ _ _ H1 R1),
      (attempt_retry op r _ _ _ _ _ _ H2 R2), (attempt_response op r _ _ _ _ _ H3).
    cbn [fst snd].
    change (requests (log_request r ?x)) with (requests x ++ [r]).
    change (delays (log_request r ?x)) with (delays x).
    rewrite !after_failure_requests, !after_failure_delays, <- !app_assoc.
    repeat split.
Qed.

Lemma makeRequest_retry_policy_witness :
  let w :=
    Scenario.world
      (Scenario.scripted
         [ Scenario.status_failure 500 "Request failed with status code 500";
           Scenario.status_failure 500 "Request failed with status code 500" ]
         (Response (Scenario.chat_reply (js "invoice")))) in
  let r :=
    ApiClient.build_request Scenario.key Constants.DOCUMENT_CLASSIFICATION
      (json_request (VObj [])) in
  let run :=
    ApiClient.makeRequest Scenario.key Constants.DOCUMENT_CLASSIFICATION
      (json_request (VObj [])) None w in
  fst run = Ok (Scenario.chat_reply (js "invoice")) /\
  requests (snd run) = requests w ++ [r; r; r] /\
  delays (snd run) = delays w ++ [1000; 2000]%N.
Proof.
  intros w r run.
  apply (proj2 (proj2 (proj2 (proj2 (proj2 (proj2
           (makeRequest_retry_policy Scenario.key Constants.DOCUMENT_CLASSIFICATION
              (json_request (VObj [])) None w))))))
           (AxiosError (Some 500%N) None (js "Request failed with status code 500"))
           (AxiosError (Some 500%N) None (js "Request failed with status code 500"))
           (Scenario.chat_reply (js "invoice")));
    reflexivity.
Defined.

(** The scenarios of the specification: a 404 fails after one attempt; three
    429 fail after three attempts with the last error. *)
Example makeRequest_404_once :
  let run :=
    ApiClient.makeRequest Scenario.key Constants.DOCUMENT_DIGITIZATION
      (json_request (VObj [])) (Some (js "Document parsing"))
      (Scenario.world (fun _ _ => Scenario.status_failure 404 "Not Found")) in
  fst run = Throw (Error (js "Document parsing failed: Not Found")) /\
  length (requests (snd run)) = 1 /\ delays (snd run) = [].
Proof. vm_compute. repeat split. Qed.

Example makeRequest_429_three_times :
  let run :=
    ApiClient.makeRequest Scenario.key Constants.DOCUMENT_DIGITIZATION
      (json_request (VObj [])) (Some (js "Document parsing"))
      (Scenario.world (fun _ _ => Scenario.status_failure 429 "Too Many Requests")) in
  fst run = Throw (Error (js "Document parsing failed: Too Many Requests")) /\
  length (requests (snd run)) = 3 /\ delays (snd run) = [1000; 2000]%N.
Proof. vm_compute. repeat split. Qed.

(** ** utils/validators: a failure comes before any request *)

Lemma validateFileExists_world (path : jsstring) (w : World) :
  snd (Validators.validateFileExists path w) = w.
Proof.
  unfold Validators.validateFileExists, try_catch, bind, fs_stat.
  destruct (disk w path) as [[f|n|code]|]; cbn; try reflexivity.
  match goal with |- context [if ?b then _ else _] => destruct b end; reflexivity.
Qed.

Lemma validateFileSize_world (path : jsstring) (maxSize : option N) (w : World) :
  snd (Validators.validateFileSize path maxSize w) = w.
Proof.
  unfold Validators.validateFileSize, bind, fs_stat.
  destruct (disk w path) as [[f|n|code]|]; cbn; try reflexivity;
    match goal with |- context [N.ltb ?a ?b] => destruct (N.ltb a b) end; reflexivity.
Qed.

(** The validation of a file reads the disk and leaves the world as it is. *)
Lemma validate_world (path : jsstring) (allowed : list jsstring) (w : World) :
  snd ((Validators.validateFileExists path ;;
        lift (Validators.validateFileExtension path allowed) ;;
        Validators.validateFileSize path None) w) = w.
Proof.
  unfold bind at 1.
  pose proof (validateFileExists_world path w) as H1.
  destruct (Validators.validateFileExists path w) as [[[]|e] w1]; cbn [snd] in H1; subst w1;
    [|reflexivity].
  unfold bind, lift.
  destruct (Validators.validateFileExtension path allowed) as [[]|e]; [|reflexivity].
  apply validateFileSize_world.
Qed.

Lemma validateDocumentFile_world (path : jsstring) (w : World) :
  snd (Validators.validateDocumentFile path w) = w.
Proof. apply validate_world. Qed.

Lemma validateExtractionFile_world (path : jsstring) (w : World) :
  snd (Validators.validateExtractionFile path w) = w.
Proof. apply validate_world. Qed.

Lemma validateFileExists_regular (path : jsstring) (f : File) (w : World) :
  disk w path = Some (Regular f) ->
  Validators.validateFileExists path w = (Ok tt, w).
Proof.
  intros H. unfold Validators.validateFileExists, try_catch, bind, fs_stat.
  now rewrite H.
Qed.

Lemma validate_unsupported (path : jsstring) (allowed : list jsstring) (f : File) (w : World) :
  disk w path = Some (Regular f) ->
  array_includes allowed (toLowerCase (Path.extname path)) = false ->
  (Validators.validateFileExists path ;;
   lift (Validators.validateFileExtension path allowed) ;;
   Validators.validateFileSize path None) w
  = (Throw (Validators.unsupported_format path allowed), w).
Proof.
  intros Hdisk Hext.
  rewrite (bind_ok _ _ _ _ _ (validateFileExists_regular path f w Hdisk)).
  unfold bind, lift, Validators.validateFileExtension. now rewrite Hext.
Qed.

Lemma throws_first {A B} (m : M A) (k : A -> M B) (w : World) (e : exn) :
  fst (m w) = Throw e -> snd (m w) = w -> bind m k w = (Throw e, w).
Proof.
  intros H1 H2. apply bind_throw.
  destruct (m w) as [x w1]. cbn in H1, H2. now subst.
Qed.

(** C7. For every tool call on a regular file whose lower-cased extension
    is outside the allow-list of the tool (the parsing list for
    [parse_document], the extraction list for the three others), the handler
    fails with the unsupported-format error and leaves the world as it was:
    no outbound request. And whenever the validation of the file fails, for
    whichever reason (not found, not a file, unsupported format, too large),
    the handler fails with that error, again with no outbound request. *)
Theorem validation_failure_before_any_request :
  (forall (o : DocumentParser.ParseDocumentOptions) (w : World) (f : File),
      disk w (DocumentParser.filePath o) = Some (Regular f) ->
      array_includes Constants.DOCUMENT_PARSING
        (toLowerCase (Path.extname (DocumentParser.filePath o))) = false ->
      DocumentParser.parseDocument o w
      = (Throw (Validators.unsupported_format (DocumentParser.filePath o)
                  Constants.DOCUMENT_PARSING), w)) /\
  (forall (o : InformationExtractor.ExtractInformationOptions) (w : World) (f : File),
      disk w (InformationExtractor.filePath o) = Some (Regular f) ->
      array_includes Constants.INFO_EXTRACTION
        (toLowerCase (Path.extname (InformationExtractor.filePath o))) = false ->
      InformationExtractor.extractInformation o w
      = (Throw (Validators.unsupported_format (InformationExtractor.filePath o)
                  Constants.INFO_EXTRACTION), w)) /\
  (forall (o : SchemaGenerator.GenerateSchemaOptions) (w : World) (f : File),
      disk w (SchemaGenerator.filePath o) = Some (Regular f) ->
      array_includes Constants.INFO_EXTRACTION
        (toLowerCase (Path.extname (SchemaGenerator.filePath o))) = false ->
      SchemaGenerator.generateSchema o w
      = (Throw (Validators.unsupported_format (SchemaGenerator.filePath o)
                  Constants.INFO_EXTRACTION), w)) /\
  (forall (o : DocumentClassifier.ClassifyDocumentOptions) (w : World) (f : File),
      disk w (DocumentClassifier.filePath o) = Some (Regular f) ->
      array_includes Constants.INFO_EXTRACTION
        (toLowerCase (Path.extname (DocumentClassifier.filePath o))) = false ->
      DocumentClassifier.classifyDocument o w
      = (Throw (Validators.unsupported_format (DocumentClassifier.filePath o)
                  Constants.INFO_EXTRACTION), w)) /\
  (forall (o : DocumentParser.ParseDocumentOptions) (w : World) (e : exn),
      fst (Validators.validateDocumentFile (DocumentParser.filePath o) w) = Throw e ->
      DocumentParser.parseDocument o w = (Throw e, w) /\
      requests (snd (DocumentParser.parseDocument o w)) = requests w) /\
  (forall (o : InformationExtractor.ExtractInformationOptions) (w : World) (e : exn),
      fst (Validators.validateExtractionFile (InformationExtractor.filePath o) w) = Throw e ->
      InformationExtractor.extractInformation o w = (Throw e, w) /\
      requests (snd (InformationExtractor.extractInformation o w)) = requests w) /\
  (forall (o : SchemaGenerator.GenerateSchemaOptions) (w : World) (e : exn),
      fst (Validators.validateExtractionFile (SchemaGenerator.filePath o) w) = Throw e ->
      SchemaGenerator.generateSchema o w = (Throw e, w) /\
      requests (snd (SchemaGenerator.generateSchema o w)) = requests w) /\
  (forall (o : DocumentClassifier.ClassifyDocumentOptions) (w : World) (e : exn),
      fst (Validators.validateExtractionFile (DocumentClassifier.filePath o) w) = Throw e ->
      DocumentClassifier.classifyDocument o w = (Throw e, w) /\
      requests (snd (DocumentClassifier.classifyDocument o w)) = requests w).
Proof.
  repeat apply conj.
  - intros o w f Hdisk Hext. unfold DocumentParser.parseDocument.
    apply bind_throw. exact (validate_unsupported _ _ f w Hdisk Hext).
  - intros o w f Hdisk Hext. unfold InformationExtractor.extractInformation.
    apply bind_throw. exact (validate_unsupported _ _ f w Hdisk Hext).
  - intros o w f Hdisk Hext. unfold SchemaGenerator.generateSchema.
    apply bind_throw. exact (validate_unsupported _ _ f w Hdisk Hext).
  - intros o w f Hdisk Hext. unfold DocumentClassifier.classifyDocument.
    apply bind_throw. exact (validate_unsupported _ _ f w Hdisk Hext).
  - intros o w e He.
    assert (DocumentParser.parseDocument o w = (Throw e, w)) as ->; [|now split].
    apply throws_first; [exact He | apply validateDocumentFile_world].
  - intros o w e He.
    assert (InformationExtractor.extractInformation o w = (Throw e, w)) as ->; [|now split].
    apply throws_first; [exact He | apply validateExtractionFile_world].
  - intros o w e He.
    assert (SchemaGenerator.generateSchema o w = (Throw e, w)) as ->; [|now split].
    apply throws_first; [exact He | apply validateExtractionFile_world].
  - intros o w e He.
    assert (DocumentClassifier.classifyDocument o w = (Throw e, w)) as ->; [|now split].
    apply throws_first; [exact He | apply validateExtractionFile_world].
Qed.

Lemma validation_failure_before_any_request_witness :
  let o :=
    {| DocumentParser.filePath := js "/docs/notes.txt";
       DocumentParser.apiKey := Scenario.key;
       DocumentParser.outputFormats := None;
       DocumentParser.onProgress := Some Server.notify |} in
  let w := Scenario.world (fun _ _ => Response Scenario.parse_reply) in
  DocumentParser.parseDocument o w
  = (Throw (Validators.unsupported_format (js "/docs/notes.txt") Constants.DOCUMENT_PARSING),
     w).
Proof.
  intros o w.
  apply (proj1 validation_failure_before_any_request o w
           {| f_size := 5; f_utf8 := js "hello"; f_base64 := js "aGVsbG8=" |});
    reflexivity.
Defined.

(** ** The progress sink

    A sink that resolves leaves a trace in [notified] and nowhere else; the
    handlers never read it. *)

Lemma same_refl (w : World) : same_but_notified w w.
Proof. unfold same_but_notified. repeat split. Qed.

Ltac sim_prim :=
  let H := fresh "H" in
  intros ? ? H;
  destruct H as (Hhome & Hdisk & Hro & Hclock & Hend & Hticks & Hreq & Hdel & Hcre & Hwri
                 & Hcon);
  unfold same_but_notified; cbn;
  rewrite ?Hhome, ?Hdisk, ?Hro, ?Hclock, ?Hend, ?Hticks, ?Hreq, ?Hdel, ?Hcre, ?Hwri, ?Hcon;
  repeat match goal with
         | |- context [match ?x with _ => _ end] => destruct x; cbn
         end;
  repeat split; congruence.

Lemma sim_ret {A} (a : A) : sim (ret a) (ret a).
Proof. intros w1 w2 H. now split. Qed.

Lemma sim_throw {A} (e : exn) : sim (@throw A e) (throw e).
Proof. intros w1 w2 H. now split. Qed.

Lemma sim_lift {A} (r : Res A) : sim (lift r) (lift r).
Proof. intros w1 w2 H. now split. Qed.

Lemma sim_bind {A B} (m1 m2 : M A) (k1 k2 : A -> M B) :
  sim m1 m2 -> (forall a, sim (k1 a) (k2 a)) -> sim (bind m1 k1) (bind m2 k2).
Proof.
  intros Hm Hk w1 w2 H. unfold bind.
  destruct (Hm w1 w2 H) as [Hr Hw].
  destruct (m1 w1) as [[a1|e1] v1], (m2 w2) as [[a2|e2] v2]; cbn in Hr, Hw;
    try discriminate Hr; injection Hr as <-.
  - now apply Hk.
  - now split.
Qed.

Lemma sim_try_catch {A} (m1 m2 : M A) (h1 h2 : exn -> M A) :
  sim m1 m2 -> (forall e, sim (h1 e) (h2 e)) -> sim (try_catch m1 h1) (try_catch m2 h2).
Proof.
  intros Hm Hh w1 w2 H. unfold try_catch.
  destruct (Hm w1 w2 H) as [Hr Hw].
  destruct (m1 w1) as [[a1|e1] v1], (m2 w2) as [[a2|e2] v2]; cbn in Hr, Hw;
    try discriminate Hr; injection Hr as <-.
  - now split.
  - now apply Hh.
Qed.

Lemma sim_report_silent (sink : Sink) (p : N) :
  sink p = None -> sim (report (Some sink) p) (report None p).
Proof. intros Hs. unfold report. rewrite Hs. sim_prim. Qed.

Lemma sim_report (onProgress : option Sink) (p : N) :
  sim (report onProgress p) (report onProgress p).
Proof. unfold report. destruct onProgress as [sink|]; [destruct (sink p)|]; sim_prim. Qed.

Lemma sim_console_error (line : jsstring) : sim (console_error line) (console_error line).
Proof. unfold console_error. sim_prim. Qed.

Lemma sim_sleep (ms : N) : sim (sleep ms) (sleep ms).
Proof. unfold sleep. sim_prim. Qed.

Lemma sim_now_iso : sim now_iso now_iso.
Proof. unfold now_iso. sim_prim. Qed.

Lemma sim_os_homedir : sim os_homedir os_homedir.
Proof. unfold os_homedir. sim_prim. Qed.

Lemma sim_axios_post (r : Request) : sim (axios_post r) (axios_post r).
Proof. unfold axios_post. sim_prim. Qed.

Lemma sim_fs_stat (path : jsstring) : sim (fs_stat path) (fs_stat path).
Proof. unfold fs_stat. sim_prim. Qed.

Lemma sim_fs_read (path : jsstring) : sim (fs_read path) (fs_read path).
Proof. unfold fs_read. sim_prim. Qed.

Lemma sim_fs_mkdir (path : jsstring) : sim (fs_mkdir path) (fs_mkdir path).
Proof. unfold fs_mkdir. sim_prim. Qed.

Lemma sim_fs_writeFile (path : jsstring) (content : option jsstring) :
  sim (fs_writeFile path content) (fs_writeFile path content).
Proof. unfold fs_writeFile. destruct content; [sim_prim | apply sim_throw]. Qed.

Create HintDb sim.
#[local] Hint Resolve sim_ret sim_throw sim_lift sim_report sim_console_error sim_sleep
  sim_now_iso sim_os_homedir sim_axios_post sim_fs_stat sim_fs_read sim_fs_mkdir
  sim_fs_writeFile : sim.

(** One step through two computations of the same shape. *)
Ltac sim_step :=
  first
    [ solve [auto with sim]
    | match goal with
      | |- sim (bind _ _) (bind _ _) => apply sim_bind; [|intros ?]
      | |- sim (try_catch _ _) (try_catch _ _) => apply sim_try_catch; [|intros ?]
      end
    | match goal with
      | |- sim (if ?b then _ else _) (if ?b then _ else _) => destruct b
      | |- sim (match ?x with _ => _ end) (match ?x with _ => _ end) => destruct x
      end ].

Ltac sim_steps := cbv zeta; repeat sim_step.

Lemma sim_validateFileExists (path : jsstring) :
  sim (Validators.validateFileExists path) (Validators.validateFileExists path).
Proof. unfold Validators.validateFileExists. sim_steps. Qed.

Lemma sim_validateFileSize (path : jsstring) (maxSize : option N) :
  sim (Validators.validateFileSize path maxSize) (Validators.validateFileSize path maxSize).
Proof. unfold Validators.validateFileSize. sim_steps. Qed.

#[local] Hint Resolve sim_validateFileExists sim_validateFileSize : sim.

Lemma sim_validateDocumentFile (path : jsstring) :
  sim (Validators.validateDocumentFile path) (Validators.validateDocumentFile path).
Proof. unfold Validators.validateDocumentFile. sim_steps. Qed.

Lemma sim_validateExtractionFile (path : jsstring) :
  sim (Validators.validateExtractionFile path) (Validators.validateExtractionFile path).
Proof. unfold Validators.validateExtractionFile. sim_steps. Qed.

Lemma sim_saveJsonToFile (data : jsval) (path : jsstring) (indent : option nat) :
  sim (FileUtils.saveJsonToFile data path indent) (FileUtils.saveJsonToFile data path indent).
Proof. unfold FileUtils.saveJsonToFile. sim_steps. Qed.

Lemma sim_readJsonFile (path : jsstring) :
  sim (FileUtils.readJsonFile path) (FileUtils.readJsonFile path).
Proof. unfold FileUtils.readJsonFile. sim_steps. Qed.

Lemma sim_readFileAsBase64 (path : jsstring) :
  sim (FileUtils.readFileAsBase64 path) (FileUtils.readFileAsBase64 path).
Proof. unfold FileUtils.readFileAsBase64. sim_steps. Qed.

Lemma sim_getOutputDirectory (subDir : jsstring) :
  sim (FileUtils.getOutputDirectory subDir) (FileUtils.getOutputDirectory subDir).
Proof. unfold FileUtils.getOutputDirectory. sim_steps. Qed.

Lemma sim_ensureDirectoryExists (path : jsstring) :
  sim (FileUtils.ensureDirectoryExists path) (FileUtils.ensureDirectoryExists path).
Proof. unfold FileUtils.ensureDirectoryExists. sim_steps. Qed.

Lemma sim_generateTimestampedFilename (path : jsstring) (suffix : option jsstring) :
  sim (FileUtils.generateTimestampedFilename path suffix)
      (FileUtils.generateTimestampedFilename path suffix).
Proof. unfold FileUtils.generateTimestampedFilename. sim_steps. Qed.

Lemma sim_attempt (operation : jsstring) (send : M jsval) (ts : list N) :
  sim send send ->
  forall errs k,
    sim (ApiClient.attempt operation send ts errs k)
        (ApiClient.attempt operation send ts errs k).
Proof.
  intros Hsend. induction ts as [|t ts IH]; intros errs k; cbn [ApiClient.attempt];
    (apply sim_try_catch; [exact Hsend|]); intros e; destruct e; sim_steps; apply IH.
Qed.

Lemma sim_makeApiRequest (url apiKey : jsstring) (options : ApiClient.ApiRequestOptions)
      (operation : option jsstring) :
  sim (ApiClient.makeApiRequest url apiKey options operation)
      (ApiClient.makeApiRequest url apiKey options operation).
Proof.
  unfold ApiClient.makeApiRequest, ApiClient.makeRequest, ApiClient.sendRequest.
  apply sim_attempt. apply sim_axios_post.
Qed.

Lemma sim_first_choice_content (result : jsval) (api : string) :
  sim (first_choice_content result api) (first_choice_content result api).
Proof. unfold first_choice_content. sim_steps. Qed.

Lemma sim_JSON_parse (v : jsval) : sim (JSON_parse v) (JSON_parse v).
Proof. unfold JSON_parse. sim_steps. Qed.

#[local] Hint Resolve sim_validateDocumentFile sim_validateExtractionFile sim_saveJsonToFile
  sim_readJsonFile sim_readFileAsBase64 sim_getOutputDirectory sim_ensureDirectoryExists
  sim_generateTimestampedFilename sim_makeApiRequest sim_first_choice_content
  sim_JSON_parse sim_report_silent : sim.

Section SilentSink.

Variable sink : Sink.
Hypothesis silent : forall p, sink p = None.

Lemma sim_parseDocument (filePath apiKey : jsstring) (outputFormats : option (list jsstring)) :
  sim (DocumentParser.parseAndSaveDocument filePath apiKey outputFormats (Some sink))
      (DocumentParser.parseAndSaveDocument filePath apiKey outputFormats None).
Proof.
  unfold DocumentParser.parseAndSaveDocument, DocumentParser.parseDocument.
  cbn [DocumentParser.filePath DocumentParser.apiKey DocumentParser.outputFormats
       DocumentParser.onProgress].
  sim_steps.
Qed.

Lemma sim_generateSchema (filePath apiKey : jsstring) :
  sim (InformationExtractor.generateSchema filePath apiKey (Some sink))
      (InformationExtractor.generateSchema filePath apiKey None).
Proof. unfold InformationExtractor.generateSchema. sim_steps. Qed.

Lemma sim_extractInformation (filePath apiKey : jsstring)
      (schemaPath schemaJson : option jsstring) (autoGenerateSchema : option bool) :
  sim (InformationExtractor.extractInformationFromFile filePath apiKey schemaPath schemaJson
         autoGenerateSchema (Some sink))
      (InformationExtractor.extractInformationFromFile filePath apiKey schemaPath schemaJson
         autoGenerateSchema None).
Proof.
  unfold InformationExtractor.extractInformationFromFile,
    InformationExtractor.extractInformation, InformationExtractor.resolveSchema.
  cbn [InformationExtractor.filePath InformationExtractor.apiKey
       InformationExtractor.schemaPath InformationExtractor.schemaJson
       InformationExtractor.autoGenerateSchema InformationExtractor.onProgress].
  pose proof sim_generateSchema.
  sim_steps.
Qed.

Lemma sim_generateSchemaFromFile (filePath apiKey : jsstring) :
  sim (SchemaGenerator.generateSchemaFromFile filePath apiKey (Some sink))
      (SchemaGenerator.generateSchemaFromFile filePath apiKey None).
Proof.
  unfold SchemaGenerator.generateSchemaFromFile, SchemaGenerator.generateSchema.
  cbn [SchemaGenerator.filePath SchemaGenerator.apiKey SchemaGenerator.onProgress].
  sim_steps.
Qed.

Lemma sim_classifyDocument (filePath apiKey : jsstring)
      (schemaPath schemaJson : option jsstring) :
  sim (DocumentClassifier.classifyDocumentFromFile filePath apiKey schemaPath schemaJson
         (Some sink))
      (DocumentClassifier.classifyDocumentFromFile filePath apiKey schemaPath schemaJson None).
Proof.
  unfold DocumentClassifier.classifyDocumentFromFile, DocumentClassifier.classifyDocument,
    DocumentClassifier.resolveResponseFormat.
  cbn [DocumentClassifier.filePath DocumentClassifier.apiKey
       DocumentClassifier.schemaPath DocumentClassifier.schemaJson
       DocumentClassifier.onProgress].
  sim_steps.
Qed.

End SilentSink.

(** The counterexample to C5 as stated: with a sink that rejects,
    [parse_document] fails with the error of the sink; with no sink the same
    call in the same world returns its text. *)
Lemma failing_sink_changes_result :
  let w := Scenario.world (fun _ _ => Response Scenario.parse_reply) in
  let with_sink :=
    DocumentParser.parseAndSaveDocument (js "/docs/invoice.pdf") Scenario.key None
      (Some Scenario.failing_sink) w in
  let without_sink :=
    DocumentParser.parseAndSaveDocument (js "/docs/invoice.pdf") Scenario.key None None w in
  fst with_sink = Throw (Error (js "progress channel closed")) /\
  (exists text, fst without_sink = Ok text) /\
  fst with_sink <> fst without_sink.
Proof.
  vm_compute. split; [reflexivity|]. split; [eexists; reflexivity | discriminate].
Qed.

Lemma report_fails (sink : Sink) (p : N) (e : exn) (w : World) :
  sink p = Some e -> report (Some sink) p w = (Throw e, w).
Proof. intros H. unfold report. now rewrite H. Qed.

(** C5, amended. For every handler invocation with a progress sink that
    never fails, the handler returns exactly what it returns with an absent
    sink, and leaves the same world but for the notifications. A failure of
    the sink is not caught by any of the four handlers: when the sink fails
    at the first checkpoint (progress 10, after the validation of the file),
    [parse_document], [extract_information], [generate_schema] and
    [classify_document] each fail with the error of the sink, in the world
    they started in: before any request, file or notification. *)
Theorem sink_and_result (sink : Sink) :
  ((forall p, sink p = None) ->
   (forall filePath apiKey outputFormats w,
       fst (DocumentParser.parseAndSaveDocument filePath apiKey outputFormats (Some sink) w)
       = fst (DocumentParser.parseAndSaveDocument filePath apiKey outputFormats None w) /\
       same_but_notified
         (snd (DocumentParser.parseAndSaveDocument filePath apiKey outputFormats (Some sink) w))
         (snd (DocumentParser.parseAndSaveDocument filePath apiKey outputFormats None w))) /\
   (forall filePath apiKey schemaPath schemaJson auto w,
       fst (InformationExtractor.extractInformationFromFile filePath apiKey schemaPath
              schemaJson auto (Some sink) w)
       = fst (InformationExtractor.extractInformationFromFile filePath apiKey schemaPath
                schemaJson auto None w) /\
       same_but_notified
         (snd (InformationExtractor.extractInformationFromFile filePath apiKey schemaPath
                 schemaJson auto (Some sink) w))
         (snd (InformationExtractor.extractInformationFromFile filePath apiKey schemaPath
                 schemaJson auto None w))) /\
   (forall filePath apiKey w,
       fst (SchemaGenerator.generateSchemaFromFile filePath apiKey (Some sink) w)
       = fst (SchemaGenerator.generateSchemaFromFile filePath apiKey None w) /\
       same_but_notified
         (snd (SchemaGenerator.generateSchemaFromFile filePath apiKey (Some sink) w))
         (snd (SchemaGenerator.generateSchemaFromFile filePath apiKey None w))) /\
   (forall filePath apiKey schemaPath schemaJson w,
       fst (DocumentClassifier.classifyDocumentFromFile filePath apiKey schemaPath schemaJson
              (Some sink) w)
       = fst (DocumentClassifier.classifyDocumentFromFile filePath apiKey schemaPath
                schemaJson None w) /\
       same_but_notified
         (snd (DocumentClassifier.classifyDocumentFromFile filePath apiKey schemaPath
                 schemaJson (Some sink) w))
         (snd (DocumentClassifier.classifyDocumentFromFile filePath apiKey schemaPath
                 schemaJson None w)))) /\
  (forall e,
      sink 10%N = Some e ->
      (forall filePath apiKey outputFormats w,
          Validators.validateDocumentFile filePath w = (Ok tt, w) ->
          DocumentParser.parseAndSaveDocument filePath apiKey outputFormats (Some sink) w
          = (Throw e, w)) /\
      (forall filePath apiKey schemaPath schemaJson auto w,
          Validators.validateExtractionFile filePath w = (Ok tt, w) ->
          InformationExtractor.extractInformationFromFile filePath apiKey schemaPath
            schemaJson auto (Some sink) w
          = (Throw e, w)) /\
      (forall filePath apiKey w,
          Validators.validateExtractionFile filePath w = (Ok tt, w) ->
          SchemaGenerator.generateSchemaFromFile filePath apiKey (Some sink) w
          = (Throw e, w)) /\
      (forall filePath apiKey schemaPath schemaJson w,
          Validators.validateExtractionFile filePath w = (Ok tt, w) ->
          DocumentClassifier.classifyDocumentFromFile filePath apiKey schemaPath schemaJson
            (Some sink) w
          = (Throw e, w))).
Proof.
  split.
  - intros silent. repeat apply conj; intros.
    + apply (sim_parseDocument sink silent). apply same_refl.
    + apply (sim_extractInformation sink silent). apply same_refl.
    + apply (sim_generateSchemaFromFile sink silent). apply same_refl.
    + apply (sim_classifyDocument sink silent). apply same_refl.
  - intros e He. repeat apply conj; intros.
    + unfold DocumentParser.parseAndSaveDocument, DocumentParser.parseDocument.
      cbn [DocumentParser.filePath DocumentParser.onProgress].
      rewrite (bind_ok _ _ _ _ _ H).
      apply bind_throw. now apply report_fails.
    + unfold InformationExtractor.extractInformationFromFile,
        InformationExtractor.extractInformation.
      cbn [InformationExtractor.filePath InformationExtractor.onProgress].
      rewrite (bind_ok _ _ _ _ _ H).
      apply bind_throw. now apply report_fails.
    + unfold SchemaGenerator.generateSchemaFromFile, SchemaGenerator.generateSchema.
      cbn [SchemaGenerator.filePath SchemaGenerator.onProgress].
      rewrite (bind_ok _ _ _ _ _ H).
      apply bind_throw. now apply report_fails.
    + unfold DocumentClassifier.classifyDocumentFromFile, DocumentClassifier.classifyDocument.
      cbn [DocumentClassifier.filePath DocumentClassifier.onProgress].
      rewrite (bind_ok _ _ _ _ _ H).
      apply bind_throw. now apply report_fails.
Qed.

Lemma sink_and_result_witness :
  let w := Scenario.world (fun _ _ => Response Scenario.parse_reply) in
  fst (DocumentParser.parseAndSaveDocument (js "/docs/invoice.pdf") Scenario.key None
         (Some Server.notify) w)
  = fst (DocumentParser.parseAndSaveDocument (js "/docs/invoice.pdf") Scenario.key None
           None w) /\
  DocumentClassifier.classifyDocumentFromFile (js "/docs/invoice.pdf") Scenario.key None None
    (Some Scenario.failing_sink) w
  = (Throw (Error (js "progress channel closed")), w).
Proof.
  intros w. split.
  - apply (proj1 (proj1 (sink_and_result Server.notify) (fun p => eq_refl))
             (js "/docs/invoice.pdf") Scenario.key None w).
  - apply (proj2 (proj2 (proj2 (proj2 (sink_and_result Scenario.failing_sink)
                                   (Error (js "progress channel closed")) eq_refl)))
             (js "/docs/invoice.pdf") Scenario.key None None w).
    vm_compute. reflexivity.
Defined.

(** ** tools/informationExtractor: where the schema comes from *)

Lemma report_requests (onProgress : option Sink) (p : N) (w : World) :
  requests (snd (report onProgress p w)) = requests w.
Proof.
  unfold report. destruct onProgress as [sink|]; [|reflexivity].
  now destruct (sink p).
Qed.

(** ** tools/documentClassifier: what is saved and what is returned *)

Lemma Ok_inj {A} (a b : A) : Ok a = Ok b -> a = b.
Proof. now intros [= ->]. Qed.

Lemma bind_ok_inv {A B} (m : M A) (k : A -> M B) (w w' : World) (b : B) :
  bind m k w = (Ok b, w') ->
  exists a w1, m w = (Ok a, w1) /\ k a w1 = (Ok b, w').
Proof.
  unfold bind. destruct (m w) as [[a|e] w1]; intros H; [|discriminate].
  now exists a, w1.
Qed.

Lemma same_trans (w1 w2 w3 : World) :
  same_but_notified w1 w2 -> same_but_notified w2 w3 -> same_but_notified w1 w3.
Proof.
  unfold same_but_notified.
  intros (?&?&?&?&?&?&?&?&?&?&?) (?&?&?&?&?&?&?&?&?&?&?). repeat split; congruence.
Qed.

Lemma quiet_ret {A} (a : A) : quiet (ret a).
Proof. intros w. apply same_refl. Qed.

Lemma quiet_throw {A} (e : exn) : quiet (@throw A e).
Proof. intros w. apply same_refl. Qed.

Lemma quiet_lift {A} (r : Res A) : quiet (lift r).
Proof. intros w. apply same_refl. Qed.

Lemma quiet_bind {A B} (m : M A) (k : A -> M B) :
  quiet m -> (forall a, quiet (k a)) -> quiet (bind m k).
Proof.
  intros Hm Hk w. unfold bind. specialize (Hm w).
  destruct (m w) as [[a|e] w1]; cbn [snd] in Hm |- *; [|exact Hm].
  exact (same_trans _ _ _ Hm (Hk a w1)).
Qed.

Lemma quiet_report (onProgress : option Sink) (p : N) : quiet (report onProgress p).
Proof.
  intros w. unfold report. destruct onProgress as [sink|]; [|apply same_refl].
  destruct (sink p); cbn [snd]; [apply same_refl|].
  unfold same_but_notified. repeat split.
Qed.

Lemma quiet_fs_read (path : jsstring) : quiet (fs_read path).
Proof.
  intros w. unfold fs_read. destruct (disk w path) as [[f|n|code]|]; apply same_refl.
Qed.

Lemma quiet_validateExtractionFile (path : jsstring) :
  quiet (Validators.validateExtractionFile path).
Proof. intros w. rewrite validateExtractionFile_world. apply same_refl. Qed.

Create HintDb quiet.
#[local] Hint Resolve quiet_ret quiet_throw quiet_lift quiet_report quiet_fs_read
  quiet_validateExtractionFile : quiet.

Ltac quiet_steps :=
  cbv zeta;
  repeat first
    [ solve [auto with quiet]
    | match goal with
      | |- quiet (bind _ _) => apply quiet_bind; [|intros ?]
      | |- quiet (if ?b then _ else _) => destruct b
      | |- quiet (match ?x with _ => _ end) => destruct x
      end ].

Lemma quiet_readJsonFile (path : jsstring) : quiet (FileUtils.readJsonFile path).
Proof. unfold FileUtils.readJsonFile. quiet_steps. Qed.

Lemma quiet_readFileAsBase64 (path : jsstring) : quiet (FileUtils.readFileAsBase64 path).
Proof. unfold FileUtils.readFileAsBase64. quiet_steps. Qed.

#[local] Hint Resolve quiet_readJsonFile quiet_readFileAsBase64 : quiet.

Lemma quiet_resolveResponseFormat (o : DocumentClassifier.ClassifyDocumentOptions) :
  quiet (DocumentClassifier.resolveResponseFormat o).
Proof. unfold DocumentClassifier.resolveResponseFormat. quiet_steps. Qed.

(** The payload a successful call of the client returns is an answer of the
    endpoint to its request. *)
Lemma attempt_ok_reply (operation : jsstring) (r : Request) (ts : list N) :
  forall errs k w d w',
    ApiClient.attempt operation (axios_post r) ts errs k w = (Ok d, w') ->
    exists i, ApiClient.reply_at w i r = Response d.
Proof.
  induction ts as [|t ts IH]; intros errs k w d w' H;
    destruct (ApiClient.reply_at w 0 r) as [d0|e] eqn:E.
  - rewrite (attempt_response operation r _ _ _ _ _ E) in H. injection H as <- _. eauto.
  - destruct (ApiClient.retryable e) eqn:Er.
    + rewrite (attempt_exhausted operation r _ _ _ _ E Er) in H. discriminate.
    + destruct e; try discriminate Er. cbn in Er. apply negb_false_iff in Er.
      rewrite (attempt_client_error operation r _ _ _ _ _ _ _ E Er) in H. discriminate.
  - rewrite (attempt_response operation r _ _ _ _ _ E) in H. injection H as <- _. eauto.
  - destruct (ApiClient.retryable e) eqn:Er.
    + rewrite (attempt_retry operation r _ _ _ _ _ _ E Er) in H.
      destruct (IH _ _ _ _ _ H) as [i Hi].
      rewrite after_failure_reply in Hi. eauto.
    + destruct e; try discriminate Er. cbn in Er. apply negb_false_iff in Er.
      rewrite (attempt_client_error operation r _ _ _ _ _ _ _ E Er) in H. discriminate.
Qed.

Lemma makeApiRequest_ok_reply (url apiKey : jsstring) (options : ApiClient.ApiRequestOptions)
      (operation : option jsstring) (w w' : World) (d : jsval) :
  ApiClient.makeApiRequest url apiKey options operation w = (Ok d, w') ->
  exists i, ApiClient.reply_at w i (ApiClient.build_request apiKey url options) = Response d.
Proof.
  unfold ApiClient.makeApiRequest, ApiClient.makeRequest, ApiClient.sendRequest.
  apply attempt_ok_reply.
Qed.

Lemma reply_at_same (w1 w2 : World) (i : nat) (r : Request) :
  same_but_notified w1 w2 -> ApiClient.reply_at w1 i r = ApiClient.reply_at w2 i r.
Proof.
  intros (?&?&?&?&He&?&Hr&?). unfold ApiClient.reply_at. now rewrite He, Hr.
Qed.

(** Reading the first choice of a response does not touch the world. *)
Lemma first_choice_content_pure (result : jsval) (api : string) (w w0 : World) :
  first_choice_content result api w0
  = (fst (first_choice_content result api w), w0).
Proof.
  unfold first_choice_content, bind, lift, throw.
  destruct (get result "choices") as [choices|e]; [|reflexivity].
  destruct (negb (truthy choices) || is_zero (prop choices "length")); [reflexivity|].
  destruct (get choices "0") as [choice|e]; [|reflexivity].
  destruct (get choice "message") as [message|e]; [|reflexivity].
  now destruct (get message "content").
Qed.

Lemma saveJsonToFile_ok (data : jsval) (path : jsstring) (n : nat) (w w' : World) :
  FileUtils.saveJsonToFile data path (Some n) w = (Ok tt, w') ->
  exists content,
    JSON.stringify_indent n data = Some content /\ w' = log_written path content w.
Proof.
  unfold FileUtils.saveJsonToFile, fs_writeFile.
  destruct (stringify_indent n data) as [content|]; [|discriminate].
  destruct (read_only w path); [discriminate|].
  intros H. injection H as <-. now exists content.
Qed.

Lemma report_written (onProgress : option Sink) (p : N) (w : World) :
  written (snd (report onProgress p w)) = written w.
Proof.
  unfold report. destruct onProgress as [sink|]; [|reflexivity]. now destruct (sink p).
Qed.

(** ** utils/validators: which paths pass *)

(** X1. [validateFileExists] reads the disk and changes nothing. It succeeds
    on a regular file and on nothing else. A path that does not exist fails
    with [File not found]; a directory fails with [Path is not a file], an
    error that is thrown inside the [try] block and that the [catch] clause
    lets through as it is; any other failure of [fs.stat] (a permission that
    is missing, say) is thrown again unchanged. *)
Theorem validateFileExists_outcomes (path : jsstring) (w : World) :
  let run := Validators.validateFileExists path w in
  snd run = w /\
  (fst run = Ok tt <-> exists f, disk w path = Some (Regular f)) /\
  (disk w path = None -> fst run = Throw (Error (js "File not found: " ++ path))) /\
  (forall n, disk w path = Some (Directory n) ->
             fst run = Throw (Error (js "Path is not a file: " ++ path))) /\
  (forall code, disk w path = Some (Unreadable code) -> code <> js "ENOENT" ->
                fst run = Throw (fs_error code "stat" path)).
Proof.
  intros run. subst run. split; [apply validateFileExists_world|].
  unfold Validators.validateFileExists, try_catch, bind, fs_stat.
  destruct (disk w path) as [[f|n|code]|] eqn:E; cbn [fst snd isFile negb throw ret code_of fs_error].
  - repeat split; try discriminate; eauto.
  - repeat split; try discriminate.
    + intros [f Hf]. discriminate Hf.
  - destruct (str_eqb code (js "ENOENT")) eqn:Ecode; cbn [fst throw].
    + apply str_eqb_eq in Ecode. repeat split; try discriminate.
      * intros [f Hf]. discriminate Hf.
      * intros code' [= <-] Hne. contradiction.
    + repeat split; try discriminate.
      * intros [f Hf]. discriminate Hf.
      * now intros code' [= <-] _.
  - change (str_eqb (js "ENOENT") (js "ENOENT")) with true. cbn [fst throw].
    repeat split; try discriminate.
    intros [f Hf]. discriminate Hf.
Qed.

Lemma validateFileExists_outcomes_witness :
  fst (Validators.validateFileExists (js "/docs")
         (Scenario.world (fun _ _ => Response VNull)))
  = Throw (Error (js "Path is not a file: /docs")).
Proof.
  apply (proj1 (proj2 (proj2 (proj2
           (validateFileExists_outcomes (js "/docs")
              (Scenario.world (fun _ _ => Response VNull))))))
           4096%N).
  reflexivity.
Defined.

Lemma validateFileSize_regular (path : jsstring) (f : File) (w : World) :
  disk w path = Some (Regular f) ->
  fst (Validators.validateFileSize path None w) = Ok tt <-> (f_size f <= Constants.MAX_SIZE)%N.
Proof.
  intros Hdisk. unfold Validators.validateFileSize.
  rewrite (bind_ok _ _ _ _ _ (fs_stat_regular path f w Hdisk)). cbn [st_size].
  destruct (N.ltb_spec Constants.MAX_SIZE (f_size f)) as [H|H]; cbn [fst throw ret];
    split; intros H1; try discriminate; try reflexivity; lia.
Qed.

Lemma validate_ok_iff (path : jsstring) (allowed : list jsstring) (w : World) :
  fst ((Validators.validateFileExists path ;;
        lift (Validators.validateFileExtension path allowed) ;;
        Validators.validateFileSize path None) w) = Ok tt <->
  exists f, disk w path = Some (Regular f) /\
            array_includes allowed (toLowerCase (Path.extname path)) = true /\
            (f_size f <= Constants.MAX_SIZE)%N.
Proof.
  destruct (disk w path) as [[f|n|code]|] eqn:Hdisk.
  - rewrite (bind_ok _ _ _ _ _ (validateFileExists_regular path f w Hdisk)).
    unfold bind at 1, lift, Validators.validateFileExtension.
    destruct (array_includes allowed (toLowerCase (Path.extname path))) eqn:Hext; cbn [negb].
    + rewrite (validateFileSize_regular path f w Hdisk). split.
      * intros H. now exists f.
      * intros (f' & [= <-] & _ & H). exact H.
    + cbn [fst]. split; [discriminate|]. intros (f' & _ & H & _). discriminate H.
  - split.
    + intros H. exfalso. revert H.
      unfold bind at 1, Validators.validateFileExists, try_catch, bind, fs_stat.
      rewrite Hdisk. cbn. discriminate.
    + intros (f & H & _). discriminate H.
  - split.
    + intros H. exfalso. revert H.
      unfold bind at 1, Validators.validateFileExists, try_catch, bind, fs_stat.
      rewrite Hdisk. cbn [fst snd code_of fs_error].
      destruct (str_eqb code (js "ENOENT")); cbn; discriminate.
    + intros (f & H & _). discriminate H.
  - split.
    + intros H. exfalso. revert H.
      unfold bind at 1, Validators.validateFileExists, try_catch, bind, fs_stat.
      rewrite Hdisk. cbn. discriminate.
    + intros (f & H & _). discriminate H.
Qed.

(** X2. The validation of an input file succeeds exactly when the path is a
    regular file, its extension, in lower case, is in the allow-list of the
    tool (the parsing list for [validateDocumentFile], the extraction list
    for [validateExtractionFile]) and its size is at most 50 MiB. *)
Theorem validated_files (path : jsstring) (w : World) :
  (fst (Validators.validateDocumentFile path w) = Ok tt <->
   exists f, disk w path = Some (Regular f) /\
             array_includes Constants.DOCUMENT_PARSING (toLowerCase (Path.extname path)) = true /\
             (f_size f <= 52428800)%N) /\
  (fst (Validators.validateExtractionFile path w) = Ok tt <->
   exists f, disk w path = Some (Regular f) /\
             array_includes Constants.INFO_EXTRACTION (toLowerCase (Path.extname path)) = true /\
             (f_size f <= 52428800)%N).
Proof. split; apply validate_ok_iff. Qed.

Lemma validated_files_witness :
  fst (Validators.validateExtractionFile (js "/docs/limit.pdf")
         (Scenario.world (fun _ _ => Response VNull))) = Ok tt.
Proof.
  apply (proj2 (validated_files (js "/docs/limit.pdf")
                  (Scenario.world (fun _ _ => Response VNull)))).
  exists {| f_size := 52428800; f_utf8 := js "%PDF-1.4"; f_base64 := js "JVBERi0xLjQ=" |}.
  repeat split. vm_compute. discriminate.
Defined.

(** ** The extension of a file, whatever its case *)

Lemma extname_scan_map (f : N -> N) :
  (forall c, N.eqb (f c) Path.slash = N.eqb c Path.slash) ->
  (forall c, N.eqb (f c) Path.dot = N.eqb c Path.dot) ->
  forall units i st, Path.extname_scan (map f units) i st = Path.extname_scan units i st.
Proof.
  intros Hslash Hdot. induction units as [|c units IH]; intros i st; [reflexivity|].
  destruct i as [|i]; [reflexivity|].
  cbn [map Path.extname_scan]. rewrite Hslash, Hdot, !IH. reflexivity.
Qed.

Lemma extname_map (f : N -> N) (path : jsstring) :
  (forall c, N.eqb (f c) Path.slash = N.eqb c Path.slash) ->
  (forall c, N.eqb (f c) Path.dot = N.eqb c Path.dot) ->
  Path.extname (map f path) = map f (Path.extname path).
Proof.
  intros Hslash Hdot. unfold Path.extname.
  rewrite <- map_rev, length_map, (extname_scan_map f Hslash Hdot).
  destruct (Path.startDot _) as [sd|]; [|reflexivity].
  destruct (Path.end_ _) as [e|]; [|reflexivity].
  destruct (Path.preDotState _) as [pre|]; [|reflexivity].
  match goal with |- context [if ?b then _ else _] => destruct b end; [reflexivity|].
  unfold Path.slice. now rewrite skipn_map, firstn_map.
Qed.

Lemma lower_unit_keeps (c k : N) :
  (k < 65 \/ 122 < k)%N -> N.eqb (lower_unit c) k = N.eqb c k.
Proof.
  intros Hk. unfold lower_unit.
  destruct (N.leb_spec 65 c); destruct (N.leb_spec c 90); cbn [andb]; try reflexivity.
  destruct (N.eqb_spec (c + 32) k); destruct (N.eqb_spec c k); try reflexivity; lia.
Qed.

(** The lowering of the ASCII letters goes through [path.extname]. *)
Lemma extname_toLowerCase (path : jsstring) :
  Path.extname (toLowerCase path) = toLowerCase (Path.extname path).
Proof.
  apply extname_map; intros c; apply lower_unit_keeps; unfold Path.slash, Path.dot; lia.
Qed.

Lemma lower_unit_idem (c : N) : lower_unit (lower_unit c) = lower_unit c.
Proof.
  unfold lower_unit.
  destruct (N.leb_spec 65 c); destruct (N.leb_spec c 90); cbn [andb];
    destruct (N.leb_spec 65 (c + 32)); destruct (N.leb_spec (c + 32) 90); cbn [andb];
    try reflexivity; try lia;
    destruct (N.leb_spec 65 c); destruct (N.leb_spec c 90); cbn [andb]; try reflexivity; lia.
Qed.

Lemma toLowerCase_idem (s : jsstring) : toLowerCase (toLowerCase s) = toLowerCase s.
Proof.
  unfold toLowerCase. rewrite map_map. apply map_ext. apply lower_unit_idem.
Qed.

Lemma lowered_extension (p q : jsstring) :
  toLowerCase p = toLowerCase q ->
  toLowerCase (Path.extname p) = toLowerCase (Path.extname q).
Proof. intros H. now rewrite <- !extname_toLowerCase, H. Qed.

(** X3. The case of the ASCII letters of a path plays no part in the checks
    on its extension: two ASCII paths that are equal once in lower case get
    the same verdict from [validateFileExtension], with the same error
    message, and the same MIME type from [getMimeType]. (Beyond ASCII the
    lowering of the engine depends on the letters around, and the statement
    is not made.) *)
Theorem extension_checks_ignore_case (p q : jsstring) (allowedExtensions : list jsstring) :
  ascii p = true -> ascii q = true ->
  toLowerCase p = toLowerCase q ->
  Validators.validateFileExtension p allowedExtensions
  = Validators.validateFileExtension q allowedExtensions /\
  FileUtils.getMimeType p = FileUtils.getMimeType q.
Proof.
  intros _ _ H. apply lowered_extension in H.
  unfold Validators.validateFileExtension, Validators.unsupported_format, FileUtils.getMimeType.
  now rewrite H.
Qed.

Lemma extension_checks_ignore_case_witness :
  Validators.validateFileExtension (js "/Docs/SCAN.Pdf") Constants.DOCUMENT_PARSING
  = Validators.validateFileExtension (js "/docs/scan.pdf") Constants.DOCUMENT_PARSING /\
  FileUtils.getMimeType (js "/Docs/SCAN.Pdf") = FileUtils.getMimeType (js "/docs/scan.pdf").
Proof.
  apply (extension_checks_ignore_case (js "/Docs/SCAN.Pdf") (js "/docs/scan.pdf")
           Constants.DOCUMENT_PARSING); reflexivity.
Defined.

(** X4. Every file that passes the extension check of the extraction tools
    has a MIME type of its own in the table of [getMimeType]: the data URI
    built for a validated file never carries the fallback type
    [application/octet-stream]. *)
Theorem extraction_formats_have_mime_types (path : jsstring) :
  Validators.validateFileExtension path Constants.INFO_EXTRACTION = Ok tt ->
  exists mime,
    FileUtils.assoc (toLowerCase (Path.extname path)) FileUtils.mimeTypes = Some mime /\
    FileUtils.getMimeType path = mime /\
    mime <> js "application/octet-stream".
Proof.
  unfold Validators.validateFileExtension, FileUtils.getMimeType.
  destruct (array_includes Constants.INFO_EXTRACTION (toLowerCase (Path.extname path)))
    eqn:Hin; [|discriminate]. intros _.
  unfold array_includes in Hin. apply existsb_exists in Hin as (x & Hin & Hx).
  apply str_eqb_eq in Hx. rewrite Hx.
  unfold Constants.INFO_EXTRACTION in Hin. cbn [In] in Hin.
  repeat (destruct Hin as [<-|Hin];
          [eexists; split; [reflexivity|]; split; [reflexivity | discriminate]|]).
  contradiction.
Qed.

Lemma extraction_formats_have_mime_types_witness :
  exists mime,
    FileUtils.getMimeType (js "/docs/Report.DOCX") = mime /\
    mime <> js "application/octet-stream".
Proof.
  destruct (extraction_formats_have_mime_types (js "/docs/Report.DOCX") eq_refl)
    as (mime & _ & H1 & H2).
  exists mime. now split.
Defined.

(** ** utils/apiClient: what a call of the client leaves behind *)

Lemma traffic_refl (w : World) : same_but_traffic w w.
Proof. unfold same_but_traffic. repeat split. Qed.

Lemma traffic_trans (w1 w2 w3 : World) :
  same_but_traffic w1 w2 -> same_but_traffic w2 w3 -> same_but_traffic w1 w3.
Proof.
  unfold same_but_traffic.
  intros (?&?&?&?&?&?&?&?&?) (?&?&?&?&?&?&?&?&?). repeat split; congruence.
Qed.

Lemma traffic_log_request (r : Request) (w : World) : same_but_traffic w (log_request r w).
Proof. unfold same_but_traffic. repeat split. Qed.

Lemma traffic_after_failure (operation : jsstring) (k : nat) (e : exn) (t : N) (r : Request)
      (w : World) :
  same_but_traffic w (ApiClient.after_failure operation k e t r w).
Proof. unfold same_but_traffic. destruct e; repeat split. Qed.

(** The attempts of an operation with the delays [ts] still to come. *)
Lemma attempt_footprint (operation : jsstring) (r : Request) (ts : list N) :
  forall errs k w,
    exists n,
      1 <= n <= S (length ts) /\
      requests (snd (ApiClient.attempt operation (axios_post r) ts errs k w))
      = requests w ++ repeat r n /\
      delays (snd (ApiClient.attempt operation (axios_post r) ts errs k w))
      = delays w ++ firstn (n - 1) ts /\
      same_but_traffic w (snd (ApiClient.attempt operation (axios_post r) ts errs k w)).
Proof.
  assert (forall w, requests (log_request r w) = requests w ++ repeat r 1) as Hone
      by reflexivity.
  assert (forall (w : World) l, delays (log_request r w) = delays w ++ firstn (1 - 1) l)
    as Hnone by (intros w l; cbn; now rewrite app_nil_r).
  induction ts as [|t ts IH]; intros errs k w;
    destruct (ApiClient.reply_at w 0 r) as [d|e] eqn:E.
  - rewrite (attempt_response operation r _ _ _ _ _ E). exists 1. cbn [snd length].
    split; [lia|]. split; [apply Hone|]. split; [apply Hnone | apply traffic_log_request].
  - destruct (ApiClient.retryable e) eqn:Er.
    + rewrite (attempt_exhausted operation r _ _ _ _ E Er). exists 1. cbn [snd length].
      split; [lia|]. split; [apply Hone|]. split; [apply Hnone | apply traffic_log_request].
    + destruct e; try discriminate Er. cbn in Er. apply negb_false_iff in Er.
      rewrite (attempt_client_error operation r _ _ _ _ _ _ _ E Er). exists 1.
      cbn [snd length].
      split; [lia|]. split; [apply Hone|]. split; [apply Hnone | apply traffic_log_request].
  - rewrite (attempt_response operation r _ _ _ _ _ E). exists 1. cbn [snd length].
    split; [lia|]. split; [apply Hone|]. split; [apply Hnone | apply traffic_log_request].
  - destruct (ApiClient.retryable e) eqn:Er.
    + rewrite (attempt_retry operation r _ _ _ _ _ _ E Er).
      destruct (IH (errs ++ [ApiClient.recorded operation e]) (S k)
                   (ApiClient.after_failure operation k e t r w))
        as (n & Hn & Hreq & Hdel & Hsame).
      exists (S n). cbn [length]. split; [lia|]. split; [|split].
      * rewrite Hreq, after_failure_requests, <- app_assoc. reflexivity.
      * rewrite Hdel, after_failure_delays, <- app_assoc.
        destruct n as [|n]; [lia|]. cbn [firstn app Nat.sub]. now rewrite Nat.sub_0_r.
      * exact (traffic_trans _ _ _ (traffic_after_failure operation k e t r w) Hsame).
    + destruct e; try discriminate Er. cbn in Er. apply negb_false_iff in Er.
      rewrite (attempt_client_error operation r _ _ _ _ _ _ _ E Er). exists 1.
      cbn [snd length].
      split; [lia|]. split; [apply Hone|]. split; [apply Hnone | apply traffic_log_request].
Qed.

(** X5. Whatever the endpoint answers, one call of the client sends its
    request at least once and at most three times, always the same request;
    it waits 1000 ms before the second attempt and 2000 ms before the third,
    and never after the last one; and it touches nothing else: no file, no
    directory, no notification. *)
Theorem makeRequest_footprint
        (apiKey url : jsstring) (options : ApiClient.ApiRequestOptions)
        (operation : option jsstring) (w : World) :
  let r := ApiClient.build_request apiKey url options in
  let w' := snd (ApiClient.makeRequest apiKey url options operation w) in
  exists n,
    1 <= n <= 3 /\
    requests w' = requests w ++ repeat r n /\
    delays w' = delays w ++ firstn (n - 1) [1000; 2000]%N /\
    same_but_traffic w w'.
Proof.
  cbv zeta. unfold ApiClient.makeRequest, ApiClient.sendRequest.
  change (Retry.timeouts (Constants.RETRY_ATTEMPTS - 1) 2 Constants.RETRY_DELAY
            (Constants.RETRY_DELAY * 4)) with [1000; 2000]%N.
  exact (attempt_footprint _ (ApiClient.build_request apiKey url options) [1000; 2000]%N
           [] 1 w).
Qed.

(** ** utils/apiClient: the error of a failed call *)

Lemma mainError_scan_in (errors : list exn) :
  forall seen main count e,
    Retry.mainError_scan seen errors main count = Some e -> In e errors \/ main = Some e.
Proof.
  induction errors as [|x errors IH]; intros seen main count e H; cbn in H.
  - now right.
  - destruct (Nat.leb count (Retry.count_message (message_of x) seen + 1)).
    + destruct (IH _ _ _ _ H) as [Hin|[= ->]]; left; [now right | now left].
    + destruct (IH _ _ _ _ H) as [Hin|Hmain]; [left; now right | now right].
Qed.

Lemma main_or_in (errors : list exn) (err : exn) :
  In (ApiClient.main_or (errors ++ [err]) err) (errors ++ [err]).
Proof.
  unfold ApiClient.main_or, Retry.mainError.
  destruct (Retry.mainError_scan [] (errors ++ [err]) None 0) as [e|] eqn:E.
  - destruct (mainError_scan_in _ _ _ _ _ E) as [H|H]; [exact H | discriminate H].
  - apply in_or_app. right. now left.
Qed.

Lemma attempt_error (operation : jsstring) (r : Request) (ts : list N) :
  forall errs k w e,
    fst (ApiClient.attempt operation (axios_post r) ts errs k w) = Throw e ->
    In e errs \/
    exists i e0,
      i <= length ts /\ ApiClient.reply_at w i r = Failure e0 /\
      e = ApiClient.recorded operation e0.
Proof.
  induction ts as [|t ts IH]; intros errs k w e H;
    destruct (ApiClient.reply_at w 0 r) as [d|e1] eqn:E.
  - rewrite (attempt_response operation r _ _ _ _ _ E) in H. discriminate H.
  - destruct (ApiClient.retryable e1) eqn:Er.
    + rewrite (attempt_exhausted operation r _ _ _ _ E Er) in H. injection H as <-.
      destruct (in_app_or _ _ _ (main_or_in errs (ApiClient.recorded operation e1)))
        as [Hin|[Heq|[]]]; [now left|].
      right. exists 0, e1. cbn [length]. split; [lia|]. split; [exact E | now symmetry].
    + destruct e1; try discriminate Er. cbn in Er. apply negb_false_iff in Er.
      rewrite (attempt_client_error operation r _ _ _ _ _ _ _ E Er) in H. injection H as <-.
      right. eexists 0, _. split; [cbn; lia|]. split; [exact E | reflexivity].
  - rewrite (attempt_response operation r _ _ _ _ _ E) in H. discriminate H.
  - destruct (ApiClient.retryable e1) eqn:Er.
    + rewrite (attempt_retry operation r _ _ _ _ _ _ E Er) in H.
      destruct (IH _ _ _ _ H) as [Hin|(i & e0 & Hi & Hrep & He)].
      * destruct (in_app_or _ _ _ Hin) as [Hin'|[Heq|[]]]; [now left|].
        right. exists 0, e1. split; [cbn; lia|]. split; [exact E | now symmetry].
      * rewrite after_failure_reply in Hrep.
        right. exists (S i), e0. split; [cbn; lia|]. split; [exact Hrep | exact He].
    + destruct e1; try discriminate Er. cbn in Er. apply negb_false_iff in Er.
      rewrite (attempt_client_error operation r _ _ _ _ _ _ _ E Er) in H. injection H as <-.
      right. eexists 0, _. split; [cbn; lia|]. split; [exact E | reflexivity].
Qed.

(** X6. A call of the client that fails, fails with the error recorded for
    one of its own attempts, at most three: for a failure of the HTTP
    exchange, an [Error] whose message is the operation name, [ failed: ] and
    the message of the response body when it has one, else the message of the
    exchange; for any other exception, that exception. *)
Theorem makeRequest_error_of_an_attempt
        (apiKey url : jsstring) (options : ApiClient.ApiRequestOptions)
        (operation : option jsstring) (w : World) (e : exn) :
  let r := ApiClient.build_request apiKey url options in
  let op := match operation with Some o => o | None => js "API request" end in
  fst (ApiClient.makeRequest apiKey url options operation w) = Throw e ->
  exists i e0,
    i < 3 /\ ApiClient.reply_at w i r = Failure e0 /\
    e = match e0 with
        | AxiosError _ data_message message =>
            Error (op ++ js " failed: "
                     ++ match data_message with
                        | Some (c :: m) => c :: m
                        | _ => message
                        end)
        | _ => e0
        end.
Proof.
  cbv zeta. unfold ApiClient.makeRequest, ApiClient.sendRequest.
  change (Retry.timeouts (Constants.RETRY_ATTEMPTS - 1) 2 Constants.RETRY_DELAY
            (Constants.RETRY_DELAY * 4)) with [1000; 2000]%N.
  intros H. destruct (attempt_error _ _ _ _ _ _ _ H) as [[]|(i & e0 & Hi & Hrep & He)].
  exists i, e0. cbn [length] in Hi. split; [lia|]. split; [exact Hrep|].
  rewrite He. now destruct e0.
Qed.

Lemma makeRequest_error_of_an_attempt_witness :
  let w :=
    Scenario.world
      (Scenario.scripted
         [ Scenario.status_failure 500 "Request failed with status code 500";
           Scenario.status_failure 500 "Request failed with status code 500" ]
         (Scenario.status_failure 429 "Request failed with status code 429")) in
  exists i e0,
    i < 3 /\
    ApiClient.reply_at w i
      (ApiClient.build_request Scenario.key Constants.DOCUMENT_CLASSIFICATION
         (json_request (VObj []))) = Failure e0 /\
    Error (js "API request failed: Request failed with status code 500")
    = match e0 with
      | AxiosError _ data_message message =>
          Error (js "API request" ++ js " failed: "
                   ++ match data_message with
                      | Some (c :: m) => c :: m
                      | _ => message
                      end)
      | _ => e0
      end.
Proof.
  intros w.
  apply (makeRequest_error_of_an_attempt Scenario.key Constants.DOCUMENT_CLASSIFICATION
           (json_request (VObj [])) None w).
  reflexivity.
Defined.

(** ** utils/schemaHelper: what the helpers build and accept *)

(** X7. [createExtractionSchema] does not check its arguments: the schema it
    builds passes [validateSchemaFormat] exactly when the mapping of fields
    is an object and the name, when one is given, is not the empty string. *)
Theorem createExtractionSchema_valid_iff (fields : jsval) (name : option jsstring) :
  SchemaHelper.validateSchemaFormat (SchemaHelper.createExtractionSchema fields name) = Ok tt
  <-> is_object fields = true /\ name <> Some [].
Proof.
  rewrite validateSchemaFormat_ok. split.
  - intros H. split.
    + destruct fields; try reflexivity; exfalso; revert H;
        destruct name as [[|c n]|]; vm_compute; discriminate.
    + intros ->. revert H. destruct fields; vm_compute; discriminate.
  - intros [Hobj Hname]. now apply createExtractionSchema_accepted.
Qed.

Lemma createExtractionSchema_valid_iff_witness :
  SchemaHelper.validateSchemaFormat
    (SchemaHelper.createExtractionSchema
       (obj [ "total" :-> SchemaHelper.totalAmount ]) (Some (js "receipt_total")))
  = Ok tt.
Proof.
  apply (proj2 (createExtractionSchema_valid_iff
                  (obj [ "total" :-> SchemaHelper.totalAmount ])
                  (Some (js "receipt_total")))).
  split; [reflexivity | discriminate].
Defined.

Lemma rejections_not_invalid_json (e : exn) (m : jsstring) :
  In e rejections -> e <> Error (js "Invalid JSON: " ++ m).
Proof.
  cbn [rejections In].
  intros H; repeat (destruct H as [<-|H]; [discriminate|]); contradiction.
Qed.

Lemma validateSchemaFormat_rejections (schema : jsval) (e : exn) :
  SchemaHelper.validateSchemaFormat schema = Throw e -> In e rejections.
Proof.
  unfold SchemaHelper.validateSchemaFormat.
  repeat match goal with
         | |- context [if ?b then _ else _] => destruct b
         end;
    intros H; try discriminate H; injection H as <-; cbn [rejections In]; tauto.
Qed.

(** X8. [parseSchemaJson] returns a schema exactly when the text is JSON and
    the value it denotes has the shape [validateSchemaFormat] accepts; the
    schema returned is that value. Its error starts with [Invalid JSON: ]
    exactly when the text is not JSON; for a text that is JSON, the error is
    the one of [validateSchemaFormat], passed on as it is. *)
Theorem parseSchemaJson_outcomes (schemaJson : jsstring) :
  (forall schema,
      SchemaHelper.parseSchemaJson schemaJson = Ok schema <->
      JSON.parse schemaJson = Some schema /\ accepted_shape schema = true) /\
  (JSON.parse schemaJson = None <->
   exists m, SchemaHelper.parseSchemaJson schemaJson = Throw (Error (js "Invalid JSON: " ++ m))) /\
  (forall schema e,
      JSON.parse schemaJson = Some schema ->
      SchemaHelper.parseSchemaJson schemaJson = Throw e ->
      SchemaHelper.validateSchemaFormat schema = Throw e /\ In e rejections).
Proof.
  unfold SchemaHelper.parseSchemaJson.
  destruct (JSON.parse schemaJson) as [v|] eqn:Hparse.
  - destruct (SchemaHelper.validateSchemaFormat v) as [[]|e0] eqn:Hv.
    + pose proof (proj1 (validateSchemaFormat_ok v) Hv) as Hacc.
      split; [|split].
      * intros schema. split.
        -- intros [= <-]. now split.
        -- intros [[= <-] _]. reflexivity.
      * split; [discriminate | intros [m Hm]; discriminate Hm].
      * intros schema e _ He. discriminate He.
    + split; [|split].
      * intros schema. split; [discriminate|].
        intros [[= <-] Hacc]. apply validateSchemaFormat_ok in Hacc. congruence.
      * split; [discriminate|]. intros [m [= Hm]].
        exfalso. exact (rejections_not_invalid_json _ m (validateSchemaFormat_rejections v _ Hv) Hm).
      * intros schema e [= <-] [= <-]. split; [exact Hv|].
        exact (validateSchemaFormat_rejections v _ Hv).
  - split; [|split].
    + intros schema. split; [discriminate | intros [H _]; discriminate H].
    + split; [eauto | reflexivity].
    + intros schema e H. discriminate H.
Qed.

Lemma parseSchemaJson_outcomes_witness :
  SchemaHelper.validateSchemaFormat (VObj []) = Throw (Error (jsq "Schema must have type `json_schema`"))
  /\ In (Error (jsq "Schema must have type `json_schema`")) rejections.
Proof.
  apply (proj2 (proj2 (parseSchemaJson_outcomes (js "{}"))) (VObj [])); reflexivity.
Defined.

(** X9. Each of the four pre-built schemas of [commonSchemas] (invoice,
    receipt, business card, contract) passes [validateSchemaFormat], and the
    text [schemaToJson] gives for it is parsed back by [parseSchemaJson] to
    the same schema. *)
Theorem commonSchemas_are_valid :
  Forall (fun schema =>
            SchemaHelper.validateSchemaFormat schema = Ok tt /\
            exists text,
              SchemaHelper.schemaToJson schema = Some text /\
              SchemaHelper.parseSchemaJson text = Ok schema)
         [ SchemaHelper.invoice; SchemaHelper.receipt; SchemaHelper.businessCard;
           SchemaHelper.contract ].
Proof.
  repeat (apply Forall_cons;
          [split;
           [vm_compute; reflexivity
           |match goal with
            | |- exists text, SchemaHelper.schemaToJson ?s = _ /\ _ =>
                exists (Scenario.text_of s); split; vm_compute; reflexivity
            end]|]).
  apply Forall_nil.
Qed.

(** ** server: the tools the dispatcher handles *)

Lemma listed_tool_names :
  map (fun t => prop t "name") Server.tools
  = [str "parse_document"; str "extract_information"; str "generate_schema";
     str "classify_document"].
Proof. vm_compute. reflexivity. Qed.

Lemma zod_file_path_refused (args : jsval) :
  Server.is_plain_object args = false \/ (forall s, prop args "file_path" <> VStr s) ->
  exists m,
    Server.res_bind (Server.zod_object args)
      (fun _ => Server.zod_string "file_path" (prop args "file_path")) = Throw (ZodError m).
Proof.
  intros H. unfold Server.res_bind, Server.zod_object.
  destruct (Server.is_plain_object args) eqn:Hobj.
  - destruct H as [H|H]; [discriminate H|].
    unfold Server.zod_string. destruct (prop args "file_path") eqn:Hp;
      try (eexists; reflexivity). exfalso. now apply (H s).
  - eexists. reflexivity.
Qed.

(** X10. The dispatcher of [tools/call] handles exactly the tools that
    [tools/list] advertises. A call that names any other tool is answered in
    band, with a result marked [isError] whose text is [Error: Unknown tool: ]
    and the name, and has no effect. A call that names an advertised tool
    reaches the argument schema of that tool: arguments that are not an
    object, or whose [file_path] is not a string, are refused by the schema,
    again in band and before anything is read, sent or written. *)
Theorem callTool_handles_the_listed_tools
        (API_KEY name : jsstring) (args : jsval) (w : World) :
  let listed := In (VStr name) (map (fun t => prop t "name") Server.tools) in
  (~ listed ->
   Server.callTool API_KEY name args w
   = (Ok (Server.error_content (Error (js "Unknown tool: " ++ name))), w)) /\
  (listed ->
   Server.is_plain_object args = false \/ (forall s, prop args "file_path" <> VStr s) ->
   exists m, Server.callTool API_KEY name args w = (Ok (Server.error_content (ZodError m)), w)).
Proof.
  cbv zeta. rewrite listed_tool_names. unfold str. cbn [In]. split.
  - intros H. unfold Server.callTool, Server.runTool, try_catch.
    assert (forall s, str_eqb name (js s) = true -> VStr (js s) = VStr name) as Hs.
    { intros s E. apply str_eqb_eq in E. now subst. }
    destruct (str_eqb name (js "parse_document")) eqn:E1; [exfalso; apply H; auto|].
    destruct (str_eqb name (js "extract_information")) eqn:E2; [exfalso; apply H; auto|].
    destruct (str_eqb name (js "generate_schema")) eqn:E3; [exfalso; apply H; auto|].
    destruct (str_eqb name (js "classify_document")) eqn:E4; [exfalso; apply H; auto 6|].
    reflexivity.
  - intros H Hargs. destruct (zod_file_path_refused args Hargs) as [m Hm].
    unfold Server.res_bind in Hm.
    unfold Server.callTool, Server.runTool, try_catch, bind, lift,
      Server.ParseDocumentSchema, Server.ExtractInformationSchema,
      Server.GenerateSchemaSchema, Server.ClassifyDocumentSchema, Server.res_bind.
    destruct H as [[= <-]|[[= <-]|[[= <-]|[[= <-]|[]]]]];
      match goal with
      | |- context [str_eqb (js ?a) (js ?a)] =>
          repeat match goal with
                 | |- context [str_eqb (js ?x) (js ?y)] =>
                     let b := eval vm_compute in (str_eqb (js x) (js y)) in
                     change (str_eqb (js x) (js y)) with b
                 end
      end;
      cbv iota;
      destruct (Server.zod_object args) as [[]|e0];
      try (injection Hm as ->; exists m; reflexivity);
      destruct (Server.zod_string "file_path" (prop args "file_path")) as [s|e1];
      try discriminate Hm; injection Hm as ->; exists m; reflexivity.
Qed.

Lemma callTool_handles_the_listed_tools_witness :
  Server.callTool Scenario.key (js "translate_document") (VObj [])
    (Scenario.world (fun _ _ => Response VNull))
  = (Ok (Server.error_content (Error (js "Unknown tool: translate_document"))),
     Scenario.world (fun _ _ => Response VNull)).
Proof.
  apply (proj1 (callTool_handles_the_listed_tools Scenario.key (js "translate_document")
                  (VObj []) (Scenario.world (fun _ _ => Response VNull)))).
  vm_compute. intros H.
  repeat (destruct H as [H|H]; [discriminate H|]). exact H.
Defined.

(** ** httpServer: the middleware and the gates of the routes *)

Lemma cors_origin (req : HttpServer.HttpRequest) :
  FileUtils.assoc (js "Access-Control-Allow-Origin") (HttpServer.cors req)
  = Some (match HttpServer.origin req with
          | Some (c :: o) => c :: o
          | _ => js "*"
          end).
Proof.
  unfold HttpServer.cors. cbn [FileUtils.assoc].
  change (str_eqb (js "Access-Control-Allow-Origin") (js "Access-Control-Allow-Origin"))
    with true.
  cbv iota. unfold given. now destruct (HttpServer.origin req) as [[|c o]|].
Qed.

Lemma assoc_app (k : jsstring) (a b : list (jsstring * jsstring)) (v : jsstring) :
  FileUtils.assoc k a = Some v -> FileUtils.assoc k (a ++ b) = Some v.
Proof.
  induction a as [|[k' v'] a IH]; cbn [FileUtils.assoc app]; [discriminate|].
  destruct (str_eqb k k'); [easy | exact IH].
Qed.

Lemma handle_carries_cors (req : HttpServer.HttpRequest) :
  exists rest, HttpServer.headers (HttpServer.handle req) = HttpServer.cors req ++ rest.
Proof.
  unfold HttpServer.handle, HttpServer.post_mcp, HttpServer.get_mcp, HttpServer.get_health,
    HttpServer.headers_only.
  repeat match goal with
         | |- context [if ?b then _ else _] => destruct b
         end;
    cbn [HttpServer.headers]; eexists; reflexivity.
Qed.

(** X11. The CORS headers of the HTTP application. The body parsers come
    before the CORS middleware. A request whose body they accept gets a
    response with the four CORS headers, whatever its method, its route and
    the outcome: the answer of a route, its refusal, the 404 of an unknown
    path. [Access-Control-Allow-Origin] repeats the [Origin] of the request,
    and is [*] when the request has none or an empty one; a request of
    method [OPTIONS] is answered with the status 200 by the middleware
    itself, whatever its path. A request whose body the parsers refuse (such
    as a JSON text that denotes a string, a number, [true], [false] or
    [null]) gets the error page of the framework, with the status of the
    refusal and without any CORS header. *)
Theorem every_response_carries_cors
        (framework : HttpServer.Framework) (inc : HttpServer.Incoming) :
  let res := HttpServer.app framework inc in
  match HttpServer.body_parsers framework (HttpServer.in_sent inc) with
  | HttpServer.Body body =>
      incl (HttpServer.cors (HttpServer.parsed_request inc body)) (HttpServer.headers res) /\
      FileUtils.assoc (js "Access-Control-Allow-Origin") (HttpServer.headers res)
      = Some (match HttpServer.in_origin inc with
              | Some (c :: o) => c :: o
              | _ => js "*"
              end) /\
      (HttpServer.in_method inc = js "OPTIONS" ->
       HttpServer.status res = 200%N /\ HttpServer.payload res = HttpServer.SendText (js "OK"))
  | HttpServer.Refused status =>
      HttpServer.status res = status /\
      HttpServer.headers res = HttpServer.error_page_headers /\
      forall name value,
        In (name, value) (HttpServer.cors (HttpServer.parsed_request inc VUndef)) ->
        FileUtils.assoc name (HttpServer.headers res) = None
  end /\
  (forall text v,
      HttpServer.in_sent inc = HttpServer.JsonBody text ->
      JSON.parse text = Some v -> is_object v = false ->
      HttpServer.body_parsers framework (HttpServer.in_sent inc) = HttpServer.Refused 400).
Proof.
  intros res. subst res. unfold HttpServer.app. split.
  - destruct (HttpServer.body_parsers framework (HttpServer.in_sent inc)) as [body|status].
    + destruct (handle_carries_cors (HttpServer.parsed_request inc body)) as [rest Hrest].
      split; [|split].
      * rewrite Hrest. apply incl_appl, incl_refl.
      * rewrite Hrest. apply assoc_app.
        exact (cors_origin (HttpServer.parsed_request inc body)).
      * intros Hm. unfold HttpServer.handle.
        cbn [HttpServer.parsed_request HttpServer.method]. rewrite Hm.
        change (str_eqb (js "OPTIONS") (js "OPTIONS")) with true. now split.
    + cbn [HttpServer.status HttpServer.headers]. split; [reflexivity|].
      split; [reflexivity|].
      intros name value Hin. unfold HttpServer.cors in Hin. cbn [In] in Hin.
      repeat (destruct Hin as [[= <- _]|Hin]; [reflexivity|]). contradiction.
  - intros text v Hsent Hparse Hobj. rewrite Hsent.
    assert (text <> []) as Hne by (intros ->; discriminate Hparse).
    now rewrite (body_parsers_json _ _ Hne), Hparse, Hobj.
Qed.

Lemma every_response_carries_cors_witness :
  let inc :=
    {| HttpServer.in_method := js "OPTIONS";
       HttpServer.in_path := js "/anything";
       HttpServer.in_accept := None;
       HttpServer.in_origin := Some (js "https://client.example");
       HttpServer.in_mcp_session_id := None;
       HttpServer.in_sent := HttpServer.NoBody |} in
  HttpServer.status (HttpServer.app HttpServer.Express5 inc) = 200%N /\
  HttpServer.payload (HttpServer.app HttpServer.Express5 inc) = HttpServer.SendText (js "OK") /\
  HttpServer.body_parsers HttpServer.Express5 (HttpServer.JsonBody (jsq "`tools/list`"))
  = HttpServer.Refused 400.
Proof.
  intros inc.
  pose proof (proj1 (every_response_carries_cors HttpServer.Express5 inc)) as H.
  cbv beta iota zeta in H.
  destruct (proj2 (proj2 H) eq_refl) as [H1 H2].
  split; [exact H1|]. split; [exact H2|].
  exact (proj2 (every_response_carries_cors HttpServer.Express5
                  (Scenario.post_json (jsq "`tools/list`")))
           _ _ eq_refl eq_refl eq_refl).
Defined.

Lemma starts_with_spec (p s : jsstring) :
  starts_with p s = true <-> exists b, s = p ++ b.
Proof.
  revert s. induction p as [|x p IH]; intros s; cbn [starts_with].
  - split; [intros _; now exists s | reflexivity].
  - destruct s as [|y s].
    + split; [discriminate | intros [b Hb]; discriminate Hb].
    + split.
      * intros H. apply andb_true_iff in H as [Hx Hp]. apply N.eqb_eq in Hx. subst y.
        apply IH in Hp as [b ->]. now exists b.
      * intros [b [= -> ->]]. rewrite N.eqb_refl. apply IH. now exists b.
Qed.

Lemma includes_spec (s sub : jsstring) :
  includes s sub = true <-> exists a b, s = a ++ sub ++ b.
Proof.
  induction s as [|c s IH].
  - cbn [includes]. rewrite orb_false_r, starts_with_spec. split.
    + intros [b Hb]. now exists [], b.
    + intros (a & b & H). destruct a as [|x a]; [|discriminate H]. now exists b.
  - cbn [includes]. rewrite orb_true_iff, starts_with_spec, IH. split.
    + intros [[b Hb]|(a & b & ->)]; [now exists [], b | now exists (c :: a), b].
    + intros (a & b & H). destruct a as [|x a].
      * left. now exists b.
      * injection H as -> ->. right. now exists a, b.
Qed.

(** X12. The gate of [POST /mcp] on the [Accept] header is a search for a
    substring: the request passes exactly when the header holds
    [application/json] or [text/event-stream] somewhere in its text, and is
    refused, with the status 400 and an error that is no JSON-RPC response,
    in every other case: no header, or a header such as [*/*] that names
    neither. The gate of [GET /mcp] asks for [text/event-stream]: a header
    that passes it passes the gate of [POST /mcp] too. *)
Theorem accept_gate (req : HttpServer.HttpRequest) :
  let names h token := exists a b : jsstring, h = a ++ js token ++ b in
  let passes :=
    exists h, HttpServer.accept req = Some h /\
              (names h "application/json" \/ names h "text/event-stream") in
  let refusal :=
    HttpServer.SendJson
      (obj [ "error" :-> str "Invalid Accept header. Must include application/json or text/event-stream" ]) in
  (passes -> HttpServer.payload (HttpServer.post_mcp req) <> refusal) /\
  (~ passes ->
   HttpServer.status (HttpServer.post_mcp req) = 400%N /\
   HttpServer.payload (HttpServer.post_mcp req) = refusal) /\
  (HttpServer.status (HttpServer.get_mcp req) = 200%N ->
   exists h, HttpServer.accept req = Some h /\ names h "text/event-stream").
Proof.
  cbv zeta.
  assert (HttpServer.acceptable (HttpServer.accept req) = true <->
          exists h, HttpServer.accept req = Some h /\
                    ((exists a b : jsstring, h = a ++ js "application/json" ++ b) \/
                     (exists a b : jsstring, h = a ++ js "text/event-stream" ++ b))) as Hacc.
  { unfold HttpServer.acceptable. destruct (HttpServer.accept req) as [h|].
    - rewrite andb_true_iff, orb_true_iff, !includes_spec. split.
      + intros [_ H]. now exists h.
      + intros (h' & [= <-] & H). split; [|exact H].
        destruct h as [|c h]; [|reflexivity].
        destruct H as [(a & b & H)|(a & b & H)]; destruct a; discriminate H.
    - split; [discriminate | intros (h & H & _); discriminate H]. }
  split; [|split].
  - intros H. apply Hacc in H. unfold HttpServer.post_mcp. rewrite H. cbn [negb].
    repeat match goal with
           | |- context [if ?b then _ else _] => destruct b
           end;
      cbn [HttpServer.payload]; intros [= E]; revert E; vm_compute; discriminate.
  - intros H. unfold HttpServer.post_mcp.
    destruct (HttpServer.acceptable (HttpServer.accept req)) eqn:E.
    + exfalso. apply H. now apply Hacc.
    + now split.
  - unfold HttpServer.get_mcp. destruct (HttpServer.accept req) as [h|].
    + destruct (includes h (js "text/event-stream")) eqn:E; cbn [negb HttpServer.status].
      * intros _. exists h. split; [reflexivity|]. now apply includes_spec.
      * discriminate.
    + cbn [negb HttpServer.status]. discriminate.
Qed.

Lemma accept_gate_witness :
  let req :=
    {| HttpServer.method := js "POST";
       HttpServer.path := js "/mcp";
       HttpServer.accept := Some (js "*/*");
       HttpServer.origin := None;
       HttpServer.mcp_session_id := None;
       HttpServer.body := Scenario.rpc "1" "tools/list" [] |} in
  HttpServer.status (HttpServer.post_mcp req) = 400%N.
Proof.
  intros req.
  apply (proj1 (proj2 (accept_gate req))).
  intros (h & [= <-] & H).
  assert (includes (js "*/*") (js "application/json") = true \/
          includes (js "*/*") (js "text/event-stream") = true) as [E|E].
  { destruct H as [H|H]; [left | right]; now apply includes_spec. }
  - discriminate E.
  - discriminate E.
Defined.

(** ** The handlers: what they send *)

Lemma silent_ret {A} (a : A) : silent (ret a).
Proof. intros w. reflexivity. Qed.

Lemma silent_throw {A} (e : exn) : silent (@throw A e).
Proof. intros w. reflexivity. Qed.

Lemma silent_lift {A} (r : Res A) : silent (lift r).
Proof. intros w. reflexivity. Qed.

Lemma silent_bind {A B} (m : M A) (k : A -> M B) :
  silent m -> (forall a, silent (k a)) -> silent (bind m k).
Proof.
  intros Hm Hk w. unfold bind. specialize (Hm w).
  destruct (m w) as [[a|e] w1]; cbn [snd] in Hm |- *; [|exact Hm].
  now rewrite Hk.
Qed.

Lemma silent_try_catch {A} (m : M A) (h : exn -> M A) :
  silent m -> (forall e, silent (h e)) -> silent (try_catch m h).
Proof.
  intros Hm Hh w. unfold try_catch. specialize (Hm w).
  destruct (m w) as [[a|e] w1]; cbn [snd] in Hm |- *; [exact Hm|].
  now rewrite Hh.
Qed.

Lemma silent_quiet {A} (m : M A) : quiet m -> silent m.
Proof. intros H w. destruct (H w) as (_&_&_&_&_&_&Hr&_). now symmetry. Qed.

Lemma silent_fs_mkdir (path : jsstring) : silent (fs_mkdir path).
Proof. intros w. unfold fs_mkdir. now destruct (read_only w path). Qed.

Lemma silent_fs_writeFile (path : jsstring) (content : option jsstring) :
  silent (fs_writeFile path content).
Proof.
  intros w. unfold fs_writeFile. destruct content; [|reflexivity].
  now destruct (read_only w path).
Qed.

Lemma silent_now_iso : silent now_iso.
Proof. intros w. reflexivity. Qed.

Lemma silent_os_homedir : silent os_homedir.
Proof. intros w. reflexivity. Qed.

Lemma silent_report (onProgress : option Sink) (p : N) : silent (report onProgress p).
Proof. intros w. apply report_requests. Qed.

Lemma silent_fs_read (path : jsstring) : silent (fs_read path).
Proof. apply silent_quiet, quiet_fs_read. Qed.

Lemma quiet_validateDocumentFile (path : jsstring) :
  quiet (Validators.validateDocumentFile path).
Proof. intros w. rewrite validateDocumentFile_world. apply same_refl. Qed.

Lemma silent_validateDocumentFile (path : jsstring) :
  silent (Validators.validateDocumentFile path).
Proof. apply silent_quiet, quiet_validateDocumentFile. Qed.

Lemma silent_validateExtractionFile (path : jsstring) :
  silent (Validators.validateExtractionFile path).
Proof. apply silent_quiet, quiet_validateExtractionFile. Qed.

Create HintDb silent.
#[local] Hint Resolve silent_ret silent_throw silent_lift silent_fs_mkdir silent_fs_writeFile
  silent_now_iso silent_os_homedir silent_report silent_fs_read silent_validateDocumentFile
  silent_validateExtractionFile : silent.

Ltac silent_steps :=
  cbv zeta;
  repeat first
    [ solve [auto with silent]
    | match goal with
      | |- silent (bind _ _) => apply silent_bind; [|intros ?]
      | |- silent (try_catch _ _) => apply silent_try_catch; [|intros ?]
      | |- silent (if ?b then _ else _) => destruct b
      | |- silent (match ?x with _ => _ end) => destruct x
      end ].

Lemma silent_saveJsonToFile (data : jsval) (path : jsstring) (indent : option nat) :
  silent (FileUtils.saveJsonToFile data path indent).
Proof. unfold FileUtils.saveJsonToFile. silent_steps. Qed.

Lemma silent_readJsonFile (path : jsstring) : silent (FileUtils.readJsonFile path).
Proof. unfold FileUtils.readJsonFile. silent_steps. Qed.

Lemma silent_readFileAsBase64 (path : jsstring) : silent (FileUtils.readFileAsBase64 path).
Proof. unfold FileUtils.readFileAsBase64. silent_steps. Qed.

Lemma silent_getOutputDirectory (subDir : jsstring) :
  silent (FileUtils.getOutputDirectory subDir).
Proof. unfold FileUtils.getOutputDirectory. silent_steps. Qed.

Lemma silent_ensureDirectoryExists (path : jsstring) :
  silent (FileUtils.ensureDirectoryExists path).
Proof. unfold FileUtils.ensureDirectoryExists. silent_steps. Qed.

Lemma silent_generateTimestampedFilename (path : jsstring) (suffix : option jsstring) :
  silent (FileUtils.generateTimestampedFilename path suffix).
Proof. unfold FileUtils.generateTimestampedFilename. silent_steps. Qed.

Lemma silent_first_choice_content (result : jsval) (api : string) :
  silent (first_choice_content result api).
Proof. unfold first_choice_content. silent_steps. Qed.

Lemma silent_JSON_parse (v : jsval) : silent (JSON_parse v).
Proof. unfold JSON_parse. silent_steps. Qed.

#[local] Hint Resolve silent_saveJsonToFile silent_readJsonFile silent_readFileAsBase64
  silent_getOutputDirectory silent_ensureDirectoryExists silent_generateTimestampedFilename
  silent_first_choice_content silent_JSON_parse : silent.

Lemma silent_resolveResponseFormat (o : DocumentClassifier.ClassifyDocumentOptions) :
  silent (DocumentClassifier.resolveResponseFormat o).
Proof. apply silent_quiet, quiet_resolveResponseFormat. Qed.

Lemma sends_silent {A} (P : Request -> Prop) (n : nat) (m : M A) : silent m -> sends P n m.
Proof.
  intros H w. exists []. rewrite app_nil_r. split; [apply H|]. split; [cbn; lia | constructor].
Qed.

Lemma sends_bind {A B} (P : Request -> Prop) (a b : nat) (m : M A) (k : A -> M B) :
  sends P a m -> (forall x, sends P b (k x)) -> sends P (a + b) (bind m k).
Proof.
  intros Hm Hk w. unfold bind. destruct (Hm w) as (n1 & H1 & L1 & F1).
  destruct (m w) as [[x|e] w1]; cbn [snd] in H1 |- *.
  - destruct (Hk x w1) as (n2 & H2 & L2 & F2).
    exists (n1 ++ n2). rewrite H2, H1, <- app_assoc. split; [reflexivity|].
    split; [rewrite length_app; lia | now apply Forall_app].
  - exists n1. split; [exact H1|]. split; [lia | exact F1].
Qed.

Lemma sends_after_silent {A B} (P : Request -> Prop) (n : nat) (m : M A) (k : A -> M B) :
  silent m -> (forall x, sends P n (k x)) -> sends P n (bind m k).
Proof. intros Hm Hk. apply (sends_bind P 0 n); [now apply sends_silent | exact Hk]. Qed.

Lemma sends_then_silent {A B} (P : Request -> Prop) (n : nat) (m : M A) (k : A -> M B) :
  sends P n m -> (forall x, silent (k x)) -> sends P n (bind m k).
Proof.
  intros Hm Hk. rewrite <- (Nat.add_0_r n).
  apply sends_bind; [exact Hm | intros x; now apply sends_silent].
Qed.

Lemma sends_more {A} (P : Request -> Prop) (a b : nat) (m : M A) :
  a <= b -> sends P a m -> sends P b m.
Proof.
  intros Hab H w. destruct (H w) as (news & H1 & L & F). exists news.
  split; [exact H1|]. split; [lia | exact F].
Qed.

Lemma sends_weaker {A} (P Q : Request -> Prop) (n : nat) (m : M A) :
  (forall r, P r -> Q r) -> sends P n m -> sends Q n m.
Proof.
  intros HPQ H w. destruct (H w) as (news & H1 & L & F). exists news.
  split; [exact H1|]. split; [exact L|]. revert F. apply Forall_impl. exact HPQ.
Qed.

Lemma build_request_addressed (apiKey endpoint : jsstring)
      (options : ApiClient.ApiRequestOptions) :
  addressed [endpoint] apiKey (ApiClient.build_request apiKey endpoint options).
Proof.
  unfold addressed, ApiClient.build_request.
  destruct (ApiClient.files options); [|destruct (ApiClient.json options)];
    cbn [url headers timeout]; (split; [now left|]); (split; [now left | reflexivity]).
Qed.

Lemma sends_makeApiRequest (url apiKey : jsstring) (options : ApiClient.ApiRequestOptions)
      (operation : option jsstring) :
  sends (addressed [url] apiKey) 3 (ApiClient.makeApiRequest url apiKey options operation).
Proof.
  intros w. unfold ApiClient.makeApiRequest, ApiClient.makeRequest, ApiClient.sendRequest.
  change (Retry.timeouts (Constants.RETRY_ATTEMPTS - 1) 2 Constants.RETRY_DELAY
            (Constants.RETRY_DELAY * 4)) with [1000; 2000]%N.
  destruct (attempt_footprint
              (match operation with Some o => o | None => js "API request" end)
              (ApiClient.build_request apiKey url options) [1000; 2000]%N [] 1 w)
    as (n & Hn & Hreq & _).
  exists (repeat (ApiClient.build_request apiKey url options) n).
  split; [exact Hreq|]. split; [rewrite repeat_length; cbn [length] in Hn; lia|].
  apply Forall_forall. intros r Hr. apply repeat_spec in Hr. subst r.
  apply build_request_addressed.
Qed.

Lemma addressed_among (endpoints : list jsstring) (url apiKey : jsstring) (r : Request) :
  In url endpoints -> addressed [url] apiKey r -> addressed endpoints apiKey r.
Proof.
  intros Hin ([H|[]] & Hh & Ht). unfold addressed. rewrite <- H. now repeat split.
Qed.

(** A handler that makes one call of the client, with silent steps before
    and after it. *)
Ltac one_call :=
  cbv zeta;
  repeat first
    [ match goal with
      | |- sends _ _ (bind (ApiClient.makeApiRequest _ _ _ _) _) =>
          apply sends_then_silent;
          [ eapply sends_weaker; [|apply sends_makeApiRequest];
            intros r; apply addressed_among; cbn [In]; tauto
          | intros ?; silent_steps ]
      | |- sends _ _ (bind _ _) => apply sends_after_silent; [solve [silent_steps]|intros ?]
      | |- sends _ _ (if ?b then _ else _) => destruct b
      | |- sends _ _ (throw _) => apply sends_silent, silent_throw
      | |- sends _ _ (ret _) => apply sends_silent, silent_ret
      end ].

Lemma sends_generateSchema (filePath apiKey : jsstring) (onProgress : option Sink) :
  sends (addressed [Constants.SCHEMA_GENERATION; Constants.INFORMATION_EXTRACTION] apiKey) 3
        (InformationExtractor.generateSchema filePath apiKey onProgress).
Proof. unfold InformationExtractor.generateSchema. one_call. Qed.

Lemma sends_resolveSchema (o : InformationExtractor.ExtractInformationOptions) :
  sends (addressed [Constants.SCHEMA_GENERATION; Constants.INFORMATION_EXTRACTION]
           (InformationExtractor.apiKey o)) 3
        (InformationExtractor.resolveSchema o).
Proof.
  unfold InformationExtractor.resolveSchema. cbv zeta.
  destruct (given (InformationExtractor.schemaJson o)).
  - apply sends_silent. silent_steps.
  - destruct (given (InformationExtractor.schemaPath o)).
    + apply sends_silent. silent_steps.
    + destruct (match InformationExtractor.autoGenerateSchema o with
                | Some b => b
                | None => true
                end).
      * apply sends_generateSchema.
      * apply sends_silent, silent_ret.
Qed.

(** X13. The requests of a call of a tool, whatever happens in it: at most
    three (six for [extract_information], which may have its schema generated
    first), each of them to the endpoint of the tool
    ([document-digitization] for [parse_document], [schema-generation] and
    [information-extraction] for [extract_information], [schema-generation]
    for [generate_schema], [document-classification] for
    [classify_document]), each with the key of the caller as bearer token and
    the timeout of five minutes. *)
Theorem handlers_network_footprint :
  (forall o,
      sends (addressed [Constants.DOCUMENT_DIGITIZATION] (DocumentParser.apiKey o)) 3
            (DocumentParser.parseDocument o)) /\
  (forall o,
      sends (addressed [Constants.SCHEMA_GENERATION; Constants.INFORMATION_EXTRACTION]
               (InformationExtractor.apiKey o)) 6
            (InformationExtractor.extractInformation o)) /\
  (forall o,
      sends (addressed [Constants.SCHEMA_GENERATION] (SchemaGenerator.apiKey o)) 3
            (SchemaGenerator.generateSchema o)) /\
  (forall o,
      sends (addressed [Constants.DOCUMENT_CLASSIFICATION] (DocumentClassifier.apiKey o)) 3
            (DocumentClassifier.classifyDocument o)).
Proof.
  repeat apply conj; intros o.
  - unfold DocumentParser.parseDocument. one_call.
  - unfold InformationExtractor.extractInformation. cbv zeta.
    apply sends_after_silent; [silent_steps|intros ?].
    apply sends_after_silent; [silent_steps|intros ?].
    apply (sends_bind _ 3 3); [apply sends_resolveSchema|intros schema].
    one_call.
  - unfold SchemaGenerator.generateSchema. one_call.
  - unfold DocumentClassifier.classifyDocument. cbv zeta.
    apply sends_after_silent; [silent_steps|intros ?].
    apply sends_after_silent; [silent_steps|intros ?].
    apply sends_after_silent; [apply silent_resolveResponseFormat|intros ?].
    one_call.
Qed.

(** ** The handlers: nothing is saved before the endpoint has answered *)

Lemma harmless_quiet {A} (m : M A) : quiet m -> harmless m.
Proof.
  intros H w _. destruct (H w) as (_&_&_&_&He&_&_&_&Hc&Hw&_). now repeat split.
Qed.

Lemma unreachable_same (w w' : World) :
  endpoint w' = endpoint w -> unreachable w -> unreachable w'.
Proof. intros H Hw n r. rewrite H. apply Hw. Qed.

Lemma harmless_bind {A B} (m : M A) (k : A -> M B) :
  harmless m -> (forall a, harmless (k a)) -> harmless (bind m k).
Proof.
  intros Hm Hk w Hw. unfold bind. destruct (Hm w Hw) as (He & Hc & Hwr).
  destruct (m w) as [[a|e] w1]; cbn [snd] in He, Hc, Hwr |- *; [|now repeat split].
  destruct (Hk a w1 (unreachable_same _ _ He Hw)) as (He' & Hc' & Hwr').
  repeat split; congruence.
Qed.

Lemma gives_up_harmless {A} (m : M A) : gives_up m -> harmless m.
Proof. now intros [H _]. Qed.

Lemma gives_up_throw {A} (e : exn) : gives_up (@throw A e).
Proof.
  split.
  - intros w _. now repeat split.
  - intros w _. now exists e.
Qed.

Lemma gives_up_first {A B} (m : M A) (k : A -> M B) : gives_up m -> gives_up (bind m k).
Proof.
  intros [Hm Hthrow]. split.
  - intros w Hw. unfold bind. destruct (Hm w Hw) as (He & Hc & Hwr).
    destruct (Hthrow w Hw) as [e E].
    destruct (m w) as [[a|e'] w1]; cbn [fst snd] in *; [discriminate E | now repeat split].
  - intros w Hw. unfold bind. destruct (Hthrow w Hw) as [e E].
    destruct (m w) as [[a|e'] w1]; cbn [fst] in *; [discriminate E | now exists e'].
Qed.

Lemma gives_up_later {A B} (m : M A) (k : A -> M B) :
  harmless m -> (forall a, gives_up (k a)) -> gives_up (bind m k).
Proof.
  intros Hm Hk. split.
  - apply harmless_bind; [exact Hm | intros a; apply gives_up_harmless, Hk].
  - intros w Hw. unfold bind. destruct (Hm w Hw) as (He & _).
    destruct (m w) as [[a|e] w1]; cbn [fst snd] in *; [|now exists e].
    apply (Hk a). exact (unreachable_same _ _ He Hw).
Qed.

Lemma attempt_gives_up (operation : jsstring) (r : Request) (ts : list N) :
  forall errs k w,
    unreachable w ->
    exists e, fst (ApiClient.attempt operation (axios_post r) ts errs k w) = Throw e.
Proof.
  induction ts as [|t ts IH]; intros errs k w Hw;
    (destruct (Hw (length (requests w) + 0) r) as [e E]);
    change (ApiClient.reply_at w 0 r = Failure e) in E;
    destruct (ApiClient.retryable e) eqn:Er.
  - rewrite (attempt_exhausted operation r _ _ _ _ E Er). eexists. reflexivity.
  - destruct e; try discriminate Er. cbn in Er. apply negb_false_iff in Er.
    rewrite (attempt_client_error operation r _ _ _ _ _ _ _ E Er). eexists. reflexivity.
  - rewrite (attempt_retry operation r _ _ _ _ _ _ E Er). apply IH.
    destruct (traffic_after_failure operation k e t r w) as (_&_&_&_&He&_).
    exact (unreachable_same _ _ (eq_sym He) Hw).
  - destruct e; try discriminate Er. cbn in Er. apply negb_false_iff in Er.
    rewrite (attempt_client_error operation r _ _ _ _ _ _ _ E Er). eexists. reflexivity.
Qed.

Lemma gives_up_makeApiRequest (url apiKey : jsstring) (options : ApiClient.ApiRequestOptions)
      (operation : option jsstring) :
  gives_up (ApiClient.makeApiRequest url apiKey options operation).
Proof.
  unfold ApiClient.makeApiRequest, ApiClient.makeRequest, ApiClient.sendRequest.
  split.
  - intros w _.
    destruct (attempt_footprint
                (match operation with Some o => o | None => js "API request" end)
                (ApiClient.build_request apiKey url options)
                (Retry.timeouts (Constants.RETRY_ATTEMPTS - 1) 2 Constants.RETRY_DELAY
                   (Constants.RETRY_DELAY * 4)) [] 1 w)
      as (n & _ & _ & _ & (_&_&_&_&He&_&Hc&Hwr&_)).
    now repeat split.
  - intros w Hw. now apply attempt_gives_up.
Qed.

Create HintDb offline.
#[local] Hint Resolve harmless_quiet gives_up_throw gives_up_harmless : offline.

Ltac offline_steps :=
  cbv zeta;
  repeat first
    [ match goal with
      | |- gives_up (bind (ApiClient.makeApiRequest _ _ _ _) _) =>
          apply gives_up_first, gives_up_makeApiRequest
      | |- gives_up (bind _ _) => apply gives_up_later; [|intros ?]
      | |- gives_up (throw _) => apply gives_up_throw
      | |- harmless (bind _ _) => apply harmless_bind; [|intros ?]
      | |- harmless (if ?b then _ else _) => destruct b
      | |- gives_up (if ?b then _ else _) => destruct b
      | |- harmless (match ?x with _ => _ end) => destruct x
      | |- harmless _ => solve [apply harmless_quiet; auto with quiet]
      end ].

Lemma gives_up_generateSchema (filePath apiKey : jsstring) (onProgress : option Sink) :
  gives_up (InformationExtractor.generateSchema filePath apiKey onProgress).
Proof. unfold InformationExtractor.generateSchema. offline_steps. Qed.

Lemma harmless_resolveSchema (o : InformationExtractor.ExtractInformationOptions) :
  harmless (InformationExtractor.resolveSchema o).
Proof.
  unfold InformationExtractor.resolveSchema. cbv zeta.
  destruct (given (InformationExtractor.schemaJson o)); [offline_steps|].
  destruct (given (InformationExtractor.schemaPath o)); [offline_steps|].
  destruct (match InformationExtractor.autoGenerateSchema o with
            | Some b => b
            | None => true
            end).
  - apply gives_up_harmless, gives_up_generateSchema.
  - apply harmless_quiet, quiet_ret.
Qed.

Lemma gives_up_parseDocument (o : DocumentParser.ParseDocumentOptions) :
  gives_up (DocumentParser.parseDocument o).
Proof.
  unfold DocumentParser.parseDocument. cbv zeta.
  apply gives_up_later; [apply harmless_quiet, quiet_validateDocumentFile|intros ?].
  offline_steps.
Qed.

Lemma gives_up_extractInformation (o : InformationExtractor.ExtractInformationOptions) :
  gives_up (InformationExtractor.extractInformation o).
Proof.
  unfold InformationExtractor.extractInformation. cbv zeta.
  apply gives_up_later; [apply harmless_quiet, quiet_validateExtractionFile|intros ?].
  apply gives_up_later; [apply harmless_quiet, quiet_report|intros ?].
  apply gives_up_later; [apply harmless_resolveSchema|intros schema].
  offline_steps.
Qed.

Lemma gives_up_SchemaGenerator (o : SchemaGenerator.GenerateSchemaOptions) :
  gives_up (SchemaGenerator.generateSchema o).
Proof.
  unfold SchemaGenerator.generateSchema. cbv zeta.
  apply gives_up_later; [apply harmless_quiet, quiet_validateExtractionFile|intros ?].
  offline_steps.
Qed.

Lemma gives_up_classifyDocument (o : DocumentClassifier.ClassifyDocumentOptions) :
  gives_up (DocumentClassifier.classifyDocument o).
Proof.
  unfold DocumentClassifier.classifyDocument. cbv zeta.
  apply gives_up_later; [apply harmless_quiet, quiet_validateExtractionFile|intros ?].
  apply gives_up_later; [apply harmless_quiet, quiet_report|intros ?].
  apply gives_up_later; [apply harmless_quiet, quiet_resolveResponseFormat|intros ?].
  offline_steps.
Qed.

(** X14. While the endpoint answers no request (every exchange fails,
    whatever the failure), a call of any of the four tools fails and saves
    nothing: no output directory is created and no file is written. The
    handlers save only once the endpoint has answered. *)
Theorem nothing_saved_without_an_answer (w : World) :
  unreachable w ->
  (forall o,
      (exists e, fst (DocumentParser.parseDocument o w) = Throw e) /\
      created (snd (DocumentParser.parseDocument o w)) = created w /\
      written (snd (DocumentParser.parseDocument o w)) = written w) /\
  (forall o,
      (exists e, fst (InformationExtractor.extractInformation o w) = Throw e) /\
      created (snd (InformationExtractor.extractInformation o w)) = created w /\
      written (snd (InformationExtractor.extractInformation o w)) = written w) /\
  (forall o,
      (exists e, fst (SchemaGenerator.generateSchema o w) = Throw e) /\
      created (snd (SchemaGenerator.generateSchema o w)) = created w /\
      written (snd (SchemaGenerator.generateSchema o w)) = written w) /\
  (forall o,
      (exists e, fst (DocumentClassifier.classifyDocument o w) = Throw e) /\
      created (snd (DocumentClassifier.classifyDocument o w)) = created w /\
      written (snd (DocumentClassifier.classifyDocument o w)) = written w).
Proof.
  intros Hw. repeat apply conj; intros o.
  - destruct (gives_up_parseDocument o) as [H1 H2].
    destruct (H1 w Hw) as (_ & Hc & Hwr). split; [apply H2, Hw | now split].
  - destruct (gives_up_extractInformation o) as [H1 H2].
    destruct (H1 w Hw) as (_ & Hc & Hwr). split; [apply H2, Hw | now split].
  - destruct (gives_up_SchemaGenerator o) as [H1 H2].
    destruct (H1 w Hw) as (_ & Hc & Hwr). split; [apply H2, Hw | now split].
  - destruct (gives_up_classifyDocument o) as [H1 H2].
    destruct (H1 w Hw) as (_ & Hc & Hwr). split; [apply H2, Hw | now split].
Qed.

Lemma nothing_saved_without_an_answer_witness :
  let w := Scenario.world (fun _ _ => Scenario.status_failure 503 "Service Unavailable") in
  let o :=
    {| DocumentClassifier.filePath := js "/docs/invoice.pdf";
       DocumentClassifier.apiKey := Scenario.key;
       DocumentClassifier.schemaPath := None;
       DocumentClassifier.schemaJson := None;
       DocumentClassifier.onProgress := Some Server.notify |} in
  (exists e, fst (DocumentClassifier.classifyDocument o w) = Throw e) /\
  created (snd (DocumentClassifier.classifyDocument o w)) = created w /\
  written (snd (DocumentClassifier.classifyDocument o w)) = written w.
Proof.
  intros w o.
  apply (proj2 (proj2 (proj2 (nothing_saved_without_an_answer w
                                (fun n r => ex_intro _ _ eq_refl))))).
Defined.

(** ** tools/documentParser: what is sent, saved and returned *)

Lemma keeps_bind {A B X} (field : World -> X) (m : M A) (k : A -> M B) :
  keeps field m -> (forall a, keeps field (k a)) -> keeps field (bind m k).
Proof.
  intros Hm Hk w. unfold bind. specialize (Hm w).
  destruct (m w) as [[a|e] w1]; cbn [snd] in Hm |- *; [|exact Hm].
  now rewrite Hk.
Qed.

Lemma keeps_written_quiet {A} (m : M A) : quiet m -> keeps written m.
Proof. intros H w. destruct (H w) as (_&_&_&_&_&_&_&_&_&Hw&_). now symmetry. Qed.

Lemma keeps_written_makeApiRequest (url apiKey : jsstring)
      (options : ApiClient.ApiRequestOptions) (operation : option jsstring) :
  keeps written (ApiClient.makeApiRequest url apiKey options operation).
Proof.
  intros w. unfold ApiClient.makeApiRequest, ApiClient.makeRequest, ApiClient.sendRequest.
  destruct (attempt_footprint
              (match operation with Some o => o | None => js "API request" end)
              (ApiClient.build_request apiKey url options)
              (Retry.timeouts (Constants.RETRY_ATTEMPTS - 1) 2 Constants.RETRY_DELAY
                 (Constants.RETRY_DELAY * 4)) [] 1 w)
    as (n & _ & _ & _ & (_&_&_&_&_&_&_&Hwr&_)).
  now symmetry.
Qed.

Lemma keeps_written_getOutputDirectory (subDir : jsstring) :
  keeps written (FileUtils.getOutputDirectory subDir).
Proof. intros w. reflexivity. Qed.

Lemma keeps_written_ensureDirectoryExists (path : jsstring) :
  keeps written (FileUtils.ensureDirectoryExists path).
Proof.
  intros w. unfold FileUtils.ensureDirectoryExists, fs_mkdir.
  now destruct (read_only w path).
Qed.

Lemma keeps_written_generateTimestampedFilename (path : jsstring) (suffix : option jsstring) :
  keeps written (FileUtils.generateTimestampedFilename path suffix).
Proof. intros w. reflexivity. Qed.

Lemma keeps_written_report (onProgress : option Sink) (p : N) :
  keeps written (report onProgress p).
Proof. intros w. apply report_written. Qed.

Lemma makeApiRequest_requests (url apiKey : jsstring) (options : ApiClient.ApiRequestOptions)
      (operation : option jsstring) (w w' : World) (r : Res jsval) :
  ApiClient.makeApiRequest url apiKey options operation w = (r, w') ->
  exists n,
    1 <= n <= 3 /\
    requests w' = requests w ++ repeat (ApiClient.build_request apiKey url options) n.
Proof.
  unfold ApiClient.makeApiRequest, ApiClient.makeRequest, ApiClient.sendRequest. intros E.
  destruct (attempt_footprint
              (match operation with Some o => o | None => js "API request" end)
              (ApiClient.build_request apiKey url options)
              (Retry.timeouts (Constants.RETRY_ATTEMPTS - 1) 2 Constants.RETRY_DELAY
                 (Constants.RETRY_DELAY * 4)) [] 1 w)
    as (n & Hn & Hreq & _).
  rewrite E in Hreq. cbn [snd] in Hreq. exists n. split; [exact Hn | exact Hreq].
Qed.

(** The setting of a call: the home directory and the clock. *)
Lemma keeps_setting_quiet {A} (m : M A) :
  quiet m -> keeps (fun w => (homedir w, clock w, ticks w)) m.
Proof.
  intros H w. destruct (H w) as (Hh&_&_&Hc&_&Ht&_). now rewrite <- Hh, <- Hc, <- Ht.
Qed.

Lemma keeps_setting_makeApiRequest (url apiKey : jsstring)
      (options : ApiClient.ApiRequestOptions) (operation : option jsstring) :
  keeps (fun w => (homedir w, clock w, ticks w))
        (ApiClient.makeApiRequest url apiKey options operation).
Proof.
  intros w. unfold ApiClient.makeApiRequest, ApiClient.makeRequest, ApiClient.sendRequest.
  destruct (attempt_footprint
              (match operation with Some o => o | None => js "API request" end)
              (ApiClient.build_request apiKey url options)
              (Retry.timeouts (Constants.RETRY_ATTEMPTS - 1) 2 Constants.RETRY_DELAY
                 (Constants.RETRY_DELAY * 4)) [] 1 w)
    as (n & _ & _ & _ & (Hh&_&_&Hc&_&Ht&_)).
  now rewrite <- Hh, <- Hc, <- Ht.
Qed.

Lemma keeps_setting_ensureDirectoryExists (path : jsstring) :
  keeps (fun w => (homedir w, clock w, ticks w)) (FileUtils.ensureDirectoryExists path).
Proof.
  intros w. unfold FileUtils.ensureDirectoryExists, fs_mkdir.
  now destruct (read_only w path).
Qed.

(** What a step did to a component of the world it keeps. *)
Lemma kept {A X} (field : World -> X) (m : M A) (w w' : World) (r : Res A) :
  keeps field m -> m w = (r, w') -> field w' = field w.
Proof. intros H E. specialize (H w). now rewrite E in H. Qed.

Lemma stringify_truthy (v : jsval) :
  truthy v = true -> exists t, JSON.stringify v = Some t.
Proof.
  unfold JSON.stringify. destruct v as [| |[|]|lit|s|l|o]; try discriminate; intros _;
    cbn [JSON.serialize]; eexists; reflexivity.
Qed.

(** X15. For every successful [parse_document] call: the response is an
    answer of the endpoint to the request of the call (the document as a
    file of a multipart form), a request sent at most three times and the
    only one sent; exactly one file is written, at the output
    path, and it holds the whole response as JSON text indented by two; the
    text returned is the compact JSON text of the [content] of the response
    (of an empty object when the response has no [content], or one that is
    falsy), followed by a sentence that names the same output path. This path
    is what [path.join] makes of the output directory of [document_parsing]
    and of the time-stamped name of the document, both as the world was
    when the call began. *)
Theorem parsed_document_saved_and_returned
        (o : DocumentParser.ParseDocumentOptions) (w w' : World) (text : jsstring) :
  DocumentParser.parseDocument o w = (Ok text, w') ->
  exists result outputPath saved shown i n,
    ApiClient.reply_at w i (parse_document_request o) = Response result /\
    1 <= n <= 3 /\
    requests w' = requests w ++ repeat (parse_document_request o) n /\
    written w' = written w ++ [(outputPath, saved)] /\
    JSON.stringify_indent 2 result = Some saved /\
    JSON.stringify (if truthy (prop result "content") then prop result "content" else VObj [])
    = Some shown /\
    text = shown ++ [10; 10]%N ++ js "The full response has been saved to "
             ++ outputPath ++ js " for your reference." /\
    exists outputDir outputFilename,
      FileUtils.getOutputDirectory (js "document_parsing") w = (Ok outputDir, w) /\
      fst (FileUtils.generateTimestampedFilename (DocumentParser.filePath o) None w)
      = Ok outputFilename /\
      outputPath = Path.join_paths [outputDir; outputFilename].
Proof.
  intros H. unfold DocumentParser.parseDocument in H. cbv zeta in H.
  apply bind_ok_inv in H as (x1 & w1 & H1 & H).
  apply bind_ok_inv in H as (x2 & w2 & H2 & H).
  apply bind_ok_inv in H as (x3 & w3 & H3 & H).
  apply bind_ok_inv in H as (result & w4 & H4 & H).
  apply bind_ok_inv in H as (x5 & w5 & H5 & H).
  apply bind_ok_inv in H as (outputDir & w6 & H6 & H).
  apply bind_ok_inv in H as (x7 & w7 & H7 & H).
  apply bind_ok_inv in H as (outputFilename & w8 & H8 & H).
  apply bind_ok_inv in H as (x9 & w9 & H9 & H).
  apply bind_ok_inv in H as (x10 & w10 & H10 & H).
  apply bind_ok_inv in H as (content0 & w11 & H11 & H).
  pose proof (f_equal snd H) as Hw'. pose proof (f_equal fst H) as Htext.
  cbn [fst snd ret] in Hw', Htext. subst w11. apply Ok_inj in Htext. clear H.
  destruct x9.
  destruct (saveJsonToFile_ok _ _ _ _ _ H9) as (saved & Hsaved & ->).
  destruct (makeApiRequest_ok_reply _ _ _ _ _ _ _ H4) as [i Hi].
  assert (content0 = prop result "content" /\ w10 = w') as [-> ->].
  { unfold lift, get in H11. destruct result; try discriminate H11;
      injection H11 as <- <-; now split. }
  destruct (stringify_truthy (js_or (prop result "content") (VObj []))) as [shown Hshown].
  { unfold js_or. now destruct (truthy (prop result "content")) eqn:E. }
  destruct (makeApiRequest_requests _ _ _ _ _ _ _ H4) as (n & Hn & Hreq).
  exists result, (Path.join_paths [outputDir; outputFilename]), saved, shown, i, n.
  assert (same_but_notified w w3) as Hsame.
  { pose proof (quiet_validateDocumentFile (DocumentParser.filePath o) w) as S1.
    rewrite H1 in S1.
    pose proof (quiet_report (DocumentParser.onProgress o) 10 w1) as S2. rewrite H2 in S2.
    pose proof (quiet_report (DocumentParser.onProgress o) 30 w2) as S3. rewrite H3 in S3.
    cbn [snd] in S1, S2, S3.
    exact (same_trans _ _ _ S1 (same_trans _ _ _ S2 S3)). }
  assert ((homedir w7, clock w7, ticks w7) = (homedir w, clock w, ticks w)) as Hsetting.
  { rewrite (kept _ _ _ _ _ (keeps_setting_ensureDirectoryExists _) H7).
    assert (w6 = w5) as -> by (now injection H6 as _ <-).
    rewrite (kept _ _ _ _ _ (keeps_setting_quiet _ (quiet_report _ _)) H5),
      (kept _ _ _ _ _ (keeps_setting_makeApiRequest _ _ _ _) H4).
    destruct Hsame as (Hh&_&_&Hc&_&Ht&_). now rewrite Hh, Hc, Ht. }
  assert (homedir w5 = homedir w) as Hhome.
  { pose proof (kept _ _ _ _ _ (keeps_setting_quiet _ (quiet_report _ _)) H5) as E5.
    pose proof (kept _ _ _ _ _ (keeps_setting_makeApiRequest _ _ _ _) H4) as E4.
    destruct Hsame as (Hh&_). injection E5 as -> _ _. injection E4 as -> _ _.
    now symmetry. }
  injection Hsetting as _ Hclock Hticks.
  split; [|split; [exact Hn|split; [|split; [|split; [exact Hsaved|split; [exact Hshown|split]]]]]].
  - rewrite (reply_at_same _ _ _ _ Hsame). exact Hi.
  - rewrite (kept requests _ _ _ _ (silent_report _ _) H10).
    change (requests (log_written ?p ?c ?x)) with (requests x).
    rewrite (kept requests _ _ _ _ (silent_generateTimestampedFilename _ _) H8),
      (kept requests _ _ _ _ (silent_ensureDirectoryExists _) H7),
      (kept requests _ _ _ _ (silent_getOutputDirectory _) H6),
      (kept requests _ _ _ _ (silent_report _ _) H5), Hreq.
    destruct Hsame as (_&_&_&_&_&_&Hr&_). now rewrite Hr.
  - rewrite (kept written _ _ _ _ (keeps_written_report _ _) H10).
    cbn [written log_written]. f_equal.
    rewrite (kept written _ _ _ _ (keeps_written_generateTimestampedFilename _ _) H8),
      (kept written _ _ _ _ (keeps_written_ensureDirectoryExists _) H7),
      (kept written _ _ _ _ (keeps_written_getOutputDirectory _) H6),
      (kept written _ _ _ _ (keeps_written_report _ _) H5),
      (kept written _ _ _ _ (keeps_written_makeApiRequest _ _ _ _) H4).
    destruct Hsame as (_&_&_&_&_&_&_&_&_&Hwr&_). now symmetry.
  - rewrite <- Htext. unfold js_or in Hshown |- *. rewrite Hshown. reflexivity.
  - exists outputDir, outputFilename. split; [|split; [|reflexivity]].
    + unfold FileUtils.getOutputDirectory, bind, os_homedir, ret in H6 |- *.
      injection H6 as <- _. now rewrite Hhome.
    + unfold FileUtils.generateTimestampedFilename, bind, now_iso, ret in H8 |- *.
      cbn [fst]. injection H8 as <- _. now rewrite Hclock, Hticks.
Qed.

Lemma parsed_document_saved_and_returned_witness :
  let o :=
    {| DocumentParser.filePath := js "/docs/invoice.pdf";
       DocumentParser.apiKey := Scenario.key;
       DocumentParser.outputFormats := Some [js "html"; js "text"];
       DocumentParser.onProgress := Some Server.notify |} in
  let w := Scenario.world (fun _ _ => Response Scenario.parse_reply) in
  exists outputPath saved,
    written (snd (DocumentParser.parseDocument o w)) = written w ++ [(outputPath, saved)] /\
    JSON.stringify_indent 2 Scenario.parse_reply = Some saved.
Proof.
  intros o w.
  destruct (DocumentParser.parseDocument o w) as [[text|e] w'] eqn:Hrun.
  - destruct (parsed_document_saved_and_returned o w w' text Hrun)
      as (result & path & saved & shown & i & n & Hreply & _ & _ & Hwritten & Hsaved & _).
    exists path, saved. split; [exact Hwritten|].
    rewrite <- Hsaved. f_equal.
    assert (forall n, ApiClient.reply_at w n (parse_document_request o)
                      = Response Scenario.parse_reply) as Hall by reflexivity.
    rewrite Hall in Hreply. now injection Hreply as <-.
  - exfalso. vm_compute in Hrun. discriminate Hrun.
Defined.

(** X16. The form that [parse_document] sends. Its only file is the
    document, under the name [document]. Its fields are [ocr],
    [base64_encoding] and [model], with the values [force], [['table']] and
    [document-parse], and nothing else when no output format is asked for
    (no list, or an empty one). When formats are asked for, one more field,
    [output_formats], holds them as the text of a JSON array, which
    [JSON.parse] reads back as the list of these formats; the client sends
    this text as it is, without encoding it again. *)
Theorem parse_document_form (o : DocumentParser.ParseDocumentOptions) :
  let fixed :=
    [ (js "ocr", str "force"); (js "base64_encoding", str "['table']");
      (js "model", str "document-parse") ] in
  url (parse_document_request o) = js "https://api.upstage.ai/v1/document-digitization" /\
  match DocumentParser.outputFormats o with
  | Some (f :: fs) =>
      exists text,
        body (parse_document_request o)
        = Multipart [ (js "document", VStr (DocumentParser.filePath o)) ]
                    (fixed ++ [ (js "output_formats", VStr text) ]) /\
        JSON.parse text = Some (VArr (map VStr (f :: fs)))
  | _ =>
      body (parse_document_request o)
      = Multipart [ (js "document", VStr (DocumentParser.filePath o)) ] fixed
  end.
Proof.
  cbv zeta. split; [reflexivity|].
  unfold parse_document_request.
  destruct (DocumentParser.outputFormats o) as [[|f fs]|]; [reflexivity | | reflexivity].
  assert (json_value (VArr (map VStr (f :: fs))) = true) as Hjv.
  { cbn [json_value]. apply forallb_forall. intros x Hx.
    apply in_map_iff in Hx as (s & <- & _). reflexivity. }
  destruct (JSONFacts.parse_stringify _ Hjv) as (text & Htext & Hparse).
  exists text. split; [|exact Hparse].
  rewrite Htext. reflexivity.
Qed.

(** ** tools/documentClassifier: where the response format comes from *)

Lemma is_string_eq (v : jsval) (s : jsstring) : is_string v s = true -> v = VStr s.
Proof.
  destruct v; try discriminate. cbn. intros H. apply str_eqb_eq in H. now subst.
Qed.

Lemma rejections_are_errors (e : exn) : In e rejections -> exists m, e = Error m.
Proof.
  cbn [rejections In].
  intros H; repeat (destruct H as [<-|H]; [eexists; reflexivity|]); contradiction.
Qed.

Lemma schema_of_type_refused (s : jsstring) (parsed : jsval) :
  JSON.parse s = Some parsed ->
  is_string (prop (prop (prop parsed "json_schema") "schema") "type") "object" = false ->
  exists m, In (Error m) rejections /\ SchemaHelper.parseSchemaJson s = Throw (Error m).
Proof.
  intros Hparse Htype. unfold SchemaHelper.parseSchemaJson. rewrite Hparse.
  destruct (SchemaHelper.validateSchemaFormat parsed) as [[]|e] eqn:Hv.
  - apply validateSchemaFormat_ok in Hv. unfold accepted_shape in Hv.
    rewrite Htype in Hv. rewrite !andb_false_r in Hv. cbn in Hv.
    rewrite ?andb_false_r in Hv. discriminate Hv.
  - pose proof (validateSchemaFormat_rejections _ _ Hv) as Hin.
    destruct (rejections_are_errors e Hin) as [m ->]. now exists m.
Qed.

Lemma resolveResponseFormat_refused (o : DocumentClassifier.ClassifyDocumentOptions)
      (s m : jsstring) (w : World) :
  DocumentClassifier.schemaJson o = Some s -> s <> [] ->
  SchemaHelper.parseSchemaJson s = Throw (Error m) ->
  DocumentClassifier.resolveResponseFormat o w
  = (Throw (Error (js "Invalid classification schema format: " ++ m)), w).
Proof.
  intros Hs Hne Hparse. unfold DocumentClassifier.resolveResponseFormat. cbv zeta.
  rewrite Hs. destruct s as [|c s]; [congruence|]. cbn [given].
  rewrite Hparse. reflexivity.
Qed.

(** X18. The response format of a [classify_document] call. Whatever its
    source, its [type] is [json_schema]. A schema given as [schema_json] goes
    through [parseSchemaJson], the validator of the extraction schemas: a
    text whose schema is not of type [object] is refused with [Invalid
    classification schema format: ] and the message of the validator, so the
    call sends no request and, once its file is validated, fails with this
    error; this is the fate of a classification schema of type [string], the
    default schema of the tool itself included. A schema read from
    [schema_path] is not validated at all: any value the file holds, other
    than [null], is sent, as it is when it is an object of type [json_schema]
    with a [json_schema] member that is truthy, and else as the [json_schema]
    member of a format made for it. *)
Theorem classification_schema_sources
        (o : DocumentClassifier.ClassifyDocumentOptions) (w : World) :
  (forall responseFormat w',
      DocumentClassifier.resolveResponseFormat o w = (Ok responseFormat, w') ->
      prop responseFormat "type" = str "json_schema") /\
  (forall s parsed,
      DocumentClassifier.schemaJson o = Some s -> s <> [] ->
      JSON.parse s = Some parsed ->
      is_string (prop (prop (prop parsed "json_schema") "schema") "type") "object" = false ->
      exists m,
        In (Error m) rejections /\
        DocumentClassifier.resolveResponseFormat o w
        = (Throw (Error (js "Invalid classification schema format: " ++ m)), w) /\
        requests (snd (DocumentClassifier.classifyDocument o w)) = requests w /\
        (Validators.validateExtractionFile (DocumentClassifier.filePath o) w = (Ok tt, w) ->
         fst (report (DocumentClassifier.onProgress o) 10 w) = Ok tt ->
         fst (DocumentClassifier.classifyDocument o w)
         = Throw (Error (js "Invalid classification schema format: " ++ m)))) /\
  (forall p loaded,
      given (DocumentClassifier.schemaJson o) = false ->
      DocumentClassifier.schemaPath o = Some p -> p <> [] ->
      FileUtils.readJsonFile p w = (Ok loaded, w) -> loaded <> VNull -> loaded <> VUndef ->
      DocumentClassifier.resolveResponseFormat o w
      = (report (DocumentClassifier.onProgress o) 20 ;;
         ret (if is_string (prop loaded "type") "json_schema"
                 && truthy (prop loaded "json_schema")
              then loaded
              else obj [ "type" :-> str "json_schema"; "json_schema" :-> loaded ])) w).
Proof.
  split; [|split].
  - intros rf w' H. unfold DocumentClassifier.resolveResponseFormat in H. cbv zeta in H.
    destruct (given (DocumentClassifier.schemaJson o)).
    + apply bind_ok_inv in H as (rf0 & w1 & H1 & H).
      apply bind_ok_inv in H as (x & w2 & _ & H). injection H as <- _.
      destruct (SchemaHelper.parseSchemaJson _) as [parsed|error]; [|discriminate H1].
      injection H1 as <- _. reflexivity.
    + destruct (given (DocumentClassifier.schemaPath o)).
      * apply bind_ok_inv in H as (loaded & w1 & H1 & H).
        apply bind_ok_inv in H as (type & w2 & H2 & H).
        apply bind_ok_inv in H as (x & w3 & _ & H). injection H as <- _.
        assert (type = prop loaded "type") as ->.
        { unfold lift, get in H2. destruct loaded; try discriminate H2;
            now injection H2 as <- _. }
        destruct (is_string (prop loaded "type") "json_schema") eqn:E; cbn [andb].
        -- destruct (truthy (prop loaded "json_schema")); [|reflexivity].
           now apply is_string_eq in E.
        -- reflexivity.
      * injection H as <- _. reflexivity.
  - intros s parsed Hs Hne Hparse Htype.
    destruct (schema_of_type_refused s parsed Hparse Htype) as (m & Hin & Hm).
    exists m. split; [exact Hin|].
    split; [exact (resolveResponseFormat_refused o s m w Hs Hne Hm)|].
    assert (DocumentClassifier.classifyDocument o w
            = match Validators.validateExtractionFile (DocumentClassifier.filePath o) w with
              | (Ok _, w1) =>
                  match report (DocumentClassifier.onProgress o) 10 w1 with
                  | (Ok _, w2) =>
                      (Throw (Error (js "Invalid classification schema format: " ++ m)), w2)
                  | (Throw e, w2) => (Throw e, w2)
                  end
              | (Throw e, w1) => (Throw e, w1)
              end) as ->.
    { unfold DocumentClassifier.classifyDocument. cbv zeta. unfold bind at 1.
      destruct (Validators.validateExtractionFile (DocumentClassifier.filePath o) w)
        as [[[]|e] w1]; [|reflexivity].
      unfold bind at 1.
      destruct (report (DocumentClassifier.onProgress o) 10 w1) as [[[]|e] w2]; [|reflexivity].
      unfold bind at 1.
      now rewrite (resolveResponseFormat_refused o s m w2 Hs Hne Hm). }
    pose proof (validateExtractionFile_world (DocumentClassifier.filePath o) w) as Hv.
    pose proof (report_requests (DocumentClassifier.onProgress o) 10 w) as Hr.
    destruct (Validators.validateExtractionFile (DocumentClassifier.filePath o) w)
      as [[[]|e] w1]; cbn [snd] in Hv; subst w1.
    + destruct (report (DocumentClassifier.onProgress o) 10 w) as [[[]|e] w1];
        cbn [snd fst] in Hr |- *.
      * split; [exact Hr | reflexivity].
      * split; [exact Hr | discriminate].
    + split; [reflexivity | discriminate].
  - intros p loaded Hsj Hsp Hne Hread Hnull Hundef.
    unfold DocumentClassifier.resolveResponseFormat. cbv zeta.
    rewrite Hsj, Hsp. destruct p as [|c p]; [congruence|]. cbn [given].
    rewrite (bind_ok _ _ _ _ _ Hread).
    assert (lift (get loaded "type") w = (Ok (prop loaded "type"), w)) as Hget.
    { unfold lift, get. destruct loaded; try reflexivity; congruence. }
    rewrite (bind_ok _ _ _ _ _ Hget). reflexivity.
Qed.

Lemma classification_schema_sources_witness :
  let o :=
    {| DocumentClassifier.filePath := js "/docs/invoice.pdf";
       DocumentClassifier.apiKey := Scenario.key;
       DocumentClassifier.schemaPath := None;
       DocumentClassifier.schemaJson :=
         Some (Scenario.text_of DocumentClassifier.DEFAULT_CLASSIFICATION_SCHEMA);
       DocumentClassifier.onProgress := None |} in
  let w := Scenario.world (fun _ _ => Response (Scenario.chat_reply (js "invoice"))) in
  exists m,
    In (Error m) rejections /\
    DocumentClassifier.resolveResponseFormat o w
    = (Throw (Error (js "Invalid classification schema format: " ++ m)), w) /\
    requests (snd (DocumentClassifier.classifyDocument o w)) = requests w /\
    (Validators.validateExtractionFile (DocumentClassifier.filePath o) w = (Ok tt, w) ->
     fst (report (DocumentClassifier.onProgress o) 10 w) = Ok tt ->
     fst (DocumentClassifier.classifyDocument o w)
     = Throw (Error (js "Invalid classification schema format: " ++ m))).
Proof.
  intros o w.
  apply (proj1 (proj2 (classification_schema_sources o w))
           (Scenario.text_of DocumentClassifier.DEFAULT_CLASSIFICATION_SCHEMA)
           DocumentClassifier.DEFAULT_CLASSIFICATION_SCHEMA).
  - reflexivity.
  - vm_compute. discriminate.
  - vm_compute. reflexivity.
  - vm_compute. reflexivity.
Defined.

(** ** JSON: reading back an indented text *)

Module IndentFacts.
Import JSON.

Lemma ends_number_head (rest : jsstring) :
  ends_number rest = true ->
  rest = [] \/
  exists c r,
    rest = c :: r /\ is_digit c = false /\ N.eqb c 43 = false /\ N.eqb c 45 = false /\
    N.eqb c 46 = false /\ N.eqb c 69 = false /\ N.eqb c 101 = false.
Proof.
  destruct rest as [|c r]; [now left|]. cbn [ends_number]. intros H. right.
  apply negb_true_iff in H. repeat (apply orb_false_iff in H as [H ?]).
  exists c, r. now repeat split.
Qed.

Lemma follows_ends_number (rest : jsstring) :
  follows rest = true -> ends_number rest = true.
Proof.
  destruct rest as [|c r]; [reflexivity|]. cbn [follows ends_number]. unfold is_ws.
  intros H. repeat (apply orb_true_iff in H as [H|H]);
    apply N.eqb_eq in H; subst c; reflexivity.
Qed.

Lemma span_digits_steady (s d r rest : jsstring) :
  span_digits s = (d, r) -> ends_number rest = true ->
  span_digits (s ++ rest) = (d, r ++ rest).
Proof.
  revert d r. induction s as [|c s IH]; intros d r H Hrest.
  - injection H as <- <-. cbn [app].
    destruct (ends_number_head rest Hrest) as [->|(c & r & -> & Hd & _)]; [reflexivity|].
    cbn [span_digits]. now rewrite Hd.
  - cbn [app span_digits] in *. destruct (is_digit c).
    + destruct (span_digits s) as [d' r'] eqn:E. injection H as <- <-.
      now rewrite (IH d' r' eq_refl Hrest).
    + now injection H as <- <-.
Qed.

Lemma digits1_steady : steady digits1.
Proof.
  intros s a r rest H Hrest. unfold digits1 in *.
  destruct (span_digits s) as [d r'] eqn:E.
  rewrite (span_digits_steady _ _ _ _ E Hrest).
  destruct d; [discriminate|]. now injection H as <- <-.
Qed.

Lemma then_steady (p q : lexer) : steady p -> steady q -> steady (then_ p q).
Proof.
  intros Hp Hq s a r rest H Hrest. unfold then_ in *.
  destruct (p s) as [[a1 r1]|] eqn:E1; [|discriminate].
  destruct (q r1) as [[a2 r2]|] eqn:E2; [|discriminate].
  injection H as <- <-.
  now rewrite (Hp _ _ _ _ E1 Hrest), (Hq _ _ _ _ E2 Hrest).
Qed.

(** A lexer that looks at one code unit which no end of a number is. *)
Ltac at_the_end Hrest :=
  let c := fresh "c" in
  let r := fresh "r" in
  let H43 := fresh "H43" in
  let H45 := fresh "H45" in
  let H46 := fresh "H46" in
  let H69 := fresh "H69" in
  let H101 := fresh "H101" in
  destruct (ends_number_head _ Hrest) as [->|(c & r & -> & _ & H43 & H45 & H46 & H69 & H101)];
  [reflexivity | cbn [app]; rewrite ?H43, ?H45, ?H46, ?H69, ?H101; reflexivity].

Lemma lex_sign_steady : steady lex_sign.
Proof.
  intros [|c s] a r rest H Hrest; unfold lex_sign in *.
  - injection H as <- <-. at_the_end Hrest.
  - cbn [app]. destruct (N.eqb c 45); now injection H as <- <-.
Qed.

Lemma lex_int_steady : steady lex_int.
Proof.
  intros [|c s] a r rest H Hrest; unfold lex_int in *; [discriminate|].
  cbn [app]. destruct (N.eqb c 48).
  - now injection H as <- <-.
  - now apply (digits1_steady (c :: s)).
Qed.

Lemma lex_frac_steady : steady lex_frac.
Proof.
  intros [|c s] a r rest H Hrest; unfold lex_frac in *.
  - injection H as <- <-. at_the_end Hrest.
  - cbn [app]. destruct (N.eqb c 46).
    + destruct (digits1 s) as [[d r']|] eqn:E; [|discriminate].
      injection H as <- <-. now rewrite (digits1_steady _ _ _ _ E Hrest).
    + now injection H as <- <-.
Qed.

Lemma lex_exp_sign_steady : steady lex_exp_sign.
Proof.
  intros [|c s] a r rest H Hrest; unfold lex_exp_sign in *.
  - injection H as <- <-. at_the_end Hrest.
  - cbn [app]. destruct (N.eqb c 43 || N.eqb c 45)%bool; now injection H as <- <-.
Qed.

Lemma lex_exp_steady : steady lex_exp.
Proof.
  intros [|c s] a r rest H Hrest; unfold lex_exp in *.
  - injection H as <- <-. at_the_end Hrest.
  - cbn [app]. destruct (N.eqb c 101 || N.eqb c 69)%bool.
    + destruct (then_ lex_exp_sign digits1 s) as [[d r']|] eqn:E; [|discriminate].
      injection H as <- <-.
      now rewrite (then_steady _ _ lex_exp_sign_steady digits1_steady _ _ _ _ E Hrest).
    + now injection H as <- <-.
Qed.

Lemma lex_number_steady : steady lex_number.
Proof.
  unfold lex_number.
  repeat apply then_steady;
    auto using lex_sign_steady, lex_int_steady, lex_frac_steady, lex_exp_steady.
Qed.

Lemma lex_number_followed (lit rest : jsstring) :
  number_literal lit = true -> follows rest = true ->
  lex_number (lit ++ rest) = Some (lit, rest).
Proof.
  unfold number_literal. intros H Hrest.
  destruct (lex_number lit) as [[a r]|] eqn:E; [|discriminate].
  destruct r; [|discriminate].
  pose proof (JSONFacts.lex_number_splits _ _ _ E) as Hs. rewrite app_nil_r in Hs. subst a.
  now rewrite (lex_number_steady _ _ _ _ E (follows_ends_number _ Hrest)).
Qed.

Lemma skip_ws_blank (ws s : jsstring) : blank ws = true -> skip_ws (ws ++ s) = skip_ws s.
Proof.
  induction ws as [|c ws IH]; [reflexivity|]. cbn [blank forallb app skip_ws].
  intros H. apply andb_true_iff in H as [Hc Hws]. rewrite Hc. now apply IH.
Qed.

Lemma skip_ws_start (c : N) (s : jsstring) : is_ws c = false -> skip_ws (c :: s) = c :: s.
Proof. intros H. cbn [skip_ws]. now rewrite H. Qed.

Lemma parse_value_blank (ws s : jsstring) (fuel : nat) :
  blank ws = true -> parse_value fuel (ws ++ s) = parse_value fuel s.
Proof.
  intros H. destruct fuel as [|f]; [reflexivity|].
  rewrite !JSONFacts.parse_value_S. now rewrite (skip_ws_blank ws s H).
Qed.

Lemma parse_elements_blank (ws s : jsstring) (fuel : nat) :
  blank ws = true -> parse_elements fuel (ws ++ s) = parse_elements fuel s.
Proof.
  intros H. destruct fuel as [|f]; [reflexivity|].
  rewrite !JSONFacts.parse_elements_S. now rewrite (parse_value_blank ws s f H).
Qed.

Lemma parse_members_S (f : nat) (s : jsstring) :
  parse_members (S f) s =
  match skip_ws s with
  | q :: r =>
      if N.eqb q 34 then
        match parse_chars r with
        | Some (k, r1) =>
            match skip_ws r1 with
            | c :: r2 =>
                if N.eqb c 58 then
                  match parse_value f r2 with
                  | Some (v, r3) =>
                      match skip_ws r3 with
                      | d :: r4 =>
                          if N.eqb d 44 then
                            match parse_members f r4 with
                            | Some (o, rest) => Some ((k, v) :: o, rest)
                            | None => None
                            end
                          else if N.eqb d 125 then Some ([(k, v)], r4)
                          else None
                      | [] => None
                      end
                  | None => None
                  end
                else None
            | [] => None
            end
        | None => None
        end
      else None
  | [] => None
  end.
Proof. reflexivity. Qed.

Lemma parse_members_blank (ws s : jsstring) (fuel : nat) :
  blank ws = true -> parse_members fuel (ws ++ s) = parse_members fuel s.
Proof.
  intros H. destruct fuel as [|f]; [reflexivity|].
  rewrite !parse_members_S. now rewrite (skip_ws_blank ws s H).
Qed.

(** A member of an object in an indented text: the key, a colon, a space
    and the value. *)
Lemma parse_members_spaced (f : nat) (k s : jsstring) :
  parse_members (S f) (quote k ++ 58%N :: 32%N :: s) =
  match parse_value f s with
  | Some (v, r3) =>
      match skip_ws r3 with
      | d :: r4 =>
          if N.eqb d 44 then
            match parse_members f r4 with
            | Some (o, rest) => Some ((k, v) :: o, rest)
            | None => None
            end
          else if N.eqb d 125 then Some ([(k, v)], r4)
          else None
      | [] => None
      end
  | None => None
  end.
Proof.
  rewrite JSONFacts.parse_members_quoted.
  change (32%N :: s) with ([32%N] ++ s).
  now rewrite (parse_value_blank [32%N] s f eq_refl).
Qed.

Lemma follows_comma (s : jsstring) : follows (44%N :: s) = true.
Proof. reflexivity. Qed.

Lemma follows_line (s : jsstring) : follows (10%N :: s) = true.
Proof. reflexivity. Qed.

Lemma skip_ws_closing (ws rest : jsstring) (close : N) :
  blank ws = true -> is_ws close = false ->
  skip_ws (10%N :: ws ++ close :: rest) = close :: rest.
Proof.
  intros Hws Hc.
  change (10%N :: ws ++ close :: rest) with ((10%N :: ws) ++ close :: rest).
  rewrite skip_ws_blank by (cbn [blank forallb]; exact Hws).
  now apply skip_ws_start.
Qed.

Lemma serialize_array_in (gap indent : jsstring) (l : list jsval) :
  serialize gap indent (VArr l)
  = Some (wrap gap 91 93 indent (map (element_text_in gap (indent ++ gap)) l)).
Proof. reflexivity. Qed.

Lemma serialize_object_in (gap indent : jsstring) (o : list (jsstring * jsval)) :
  serialize gap indent (VObj o)
  = Some (wrap gap 123 125 indent (member_texts_in gap (indent ++ gap) o)).
Proof.
  cbn [serialize]. f_equal. f_equal.
  induction o as [|[k x] o IH]; [reflexivity|]. cbn [member_texts_in].
  destruct (serialize gap (indent ++ gap) x); now rewrite IH.
Qed.

(** The text of an array or object that is not empty, with what follows it:
    the bracket, then each part on a line of its own, then the closing
    bracket on a line of its own. *)
Lemma wrap_lines (gap indent rest m : jsstring) (ms : list jsstring) (open close : N) :
  gap <> [] ->
  wrap gap open close indent (m :: ms) ++ rest
  = open :: (10%N :: indent ++ gap)
      ++ (join (44%N :: 10%N :: indent ++ gap) (m :: ms) ++ 10%N :: indent ++ close :: rest).
Proof.
  intros Hgap. destruct gap as [|g gap]; [contradiction|].
  cbn [wrap app]. f_equal. f_equal. rewrite <- !app_assoc. f_equal. f_equal.
  cbn [app]. f_equal. now rewrite <- app_assoc.
Qed.

Lemma wrap_lines_length (gap indent m : jsstring) (ms : list jsstring) (open close : N) :
  gap <> [] ->
  length (join (44%N :: 10%N :: indent ++ gap) (m :: ms)) + 2
  <= length (wrap gap open close indent (m :: ms)).
Proof.
  intros Hgap. rewrite <- (app_nil_r (wrap _ _ _ _ _)), (wrap_lines _ _ _ _ _ _ _ Hgap).
  cbn [length]. rewrite !length_app. cbn [length]. rewrite !length_app. cbn [length]. lia.
Qed.

Lemma blank_app (a b : jsstring) : blank a = true -> blank b = true -> blank (a ++ b) = true.
Proof. unfold blank. intros Ha Hb. now rewrite forallb_app, Ha, Hb. Qed.

Lemma size_elements_lines (sep : jsstring) (f : jsval -> jsstring) (l : list jsval) :
  Forall (fun x => size x <= length (f x)) l -> l <> [] -> sep <> [] ->
  size (VArr l) <= length (join sep (map f l)) + 2.
Proof.
  intros H Hne Hsep. induction l as [|x l IH]; [contradiction|].
  inversion H as [|? ? Hx Hl]; subst.
  destruct l as [|y l'].
  - simpl in *. lia.
  - specialize (IH Hl ltac:(discriminate)).
    cbn [map] in IH |- *. rewrite JSONFacts.join_cons, !length_app.
    destruct sep as [|c sep]; [contradiction|].
    simpl in IH |- *. lia.
Qed.

Section Lines.

Variable gap : jsstring.
Hypothesis gap_blank : blank gap = true.
Hypothesis gap_some : gap <> [].

Lemma colon_spaced : colon gap = [58; 32]%N.
Proof. unfold colon. destruct gap; [contradiction | reflexivity]. Qed.

Lemma parse_elements_lines (l : list jsval) :
  Forall (reads_back_in gap) l -> Forall (fun x => json_value x = true) l -> l <> [] ->
  forall indent ws,
    blank indent = true -> blank ws = true ->
    forall fuel rest,
      size (VArr l) <= S fuel ->
      parse_elements fuel
        (join (44%N :: 10%N :: indent) (map (element_text_in gap indent) l)
           ++ 10%N :: ws ++ 93%N :: rest)
      = Some (l, rest).
Proof.
  induction l as [|x l IH]; intros Hrb Hjv Hne indent ws Hind Hws fuel rest Hfuel;
    [contradiction|].
  inversion Hrb as [|? ? Hx Hrb']; subst. inversion Hjv as [|? ? Jx Hjv']; subst.
  destruct (Hx Jx indent Hind) as (t & Ht & _ & _ & Hp).
  assert (element_text_in gap indent x = t) as Et by (unfold element_text_in; now rewrite Ht).
  destruct fuel as [|f]; [simpl in Hfuel; lia|].
  rewrite JSONFacts.parse_elements_S.
  destruct l as [|y l'].
  - cbn [map join]. rewrite Et.
    rewrite Hp by (simpl in Hfuel |- *; solve [lia | reflexivity]).
    rewrite (skip_ws_closing ws rest 93 Hws eq_refl). reflexivity.
  - cbn [map]. rewrite JSONFacts.join_cons, Et, <- !app_assoc. cbn [app].
    rewrite Hp by (simpl in Hfuel |- *; solve [lia | reflexivity]).
    rewrite skip_ws_start by reflexivity.
    change (N.eqb 44 44) with true. cbv iota.
    change (10%N :: indent ++ ?s) with ((10%N :: indent) ++ s).
    rewrite parse_elements_blank by (cbn [blank forallb]; exact Hind).
    change (element_text_in gap indent y :: map (element_text_in gap indent) l')
      with (map (element_text_in gap indent) (y :: l')).
    rewrite (IH Hrb' Hjv' ltac:(discriminate) indent ws Hind Hws f rest);
      [reflexivity|]. simpl in Hfuel |- *. lia.
Qed.

Lemma member_text_in_head (indent k : jsstring) (x : jsval) (o : list (jsstring * jsval)) :
  json_value x = true -> reads_back_in gap x -> blank indent = true ->
  exists t ms,
    serialize gap indent x = Some t /\
    member_texts_in gap indent ((k, x) :: o) = (quote k ++ 58%N :: 32%N :: t) :: ms /\
    ms = member_texts_in gap indent o.
Proof.
  intros Jx Hx Hind. destruct (Hx Jx indent Hind) as (t & Ht & _).
  exists t, (member_texts_in gap indent o). cbn [member_texts_in].
  rewrite Ht, colon_spaced. now repeat split.
Qed.

Lemma parse_members_lines (o : list (jsstring * jsval)) :
  Forall (fun kv => reads_back_in gap (snd kv)) o ->
  Forall (fun kv => json_value (snd kv) = true) o -> o <> [] ->
  forall indent ws,
    blank indent = true -> blank ws = true ->
    forall fuel rest,
      size (VObj o) <= S fuel ->
      parse_members fuel
        (join (44%N :: 10%N :: indent) (member_texts_in gap indent o)
           ++ 10%N :: ws ++ 125%N :: rest)
      = Some (o, rest).
Proof.
  induction o as [|[k x] o IH]; intros Hrb Hjv Hne indent ws Hind Hws fuel rest Hfuel;
    [contradiction|].
  inversion Hrb as [|? ? Hx Hrb']; subst. inversion Hjv as [|? ? Jx Hjv']; subst.
  cbn [snd] in Hx, Jx.
  destruct (Hx Jx indent Hind) as (t & Ht & _ & _ & Hp).
  destruct (member_text_in_head indent k x o Jx Hx Hind) as (t' & ms & Ht' & Em & Ems).
  rewrite Ht in Ht'. injection Ht' as <-.
  destruct fuel as [|f]; [simpl in Hfuel; lia|].
  rewrite Em.
  destruct o as [|[k' y] o'].
  - cbn [member_texts_in] in Ems. subst ms. cbn [join].
    rewrite <- !app_assoc. cbn [app].
    rewrite parse_members_spaced.
    rewrite Hp by (simpl in Hfuel |- *; solve [lia | reflexivity]).
    rewrite (skip_ws_closing ws rest 125 Hws eq_refl). reflexivity.
  - inversion Hjv' as [|? ? Jy _]; subst. cbn [snd] in Jy.
    inversion Hrb' as [|? ? Hy _]; subst. cbn [snd] in Hy.
    destruct (member_text_in_head indent k' y o' Jy Hy Hind) as (ty & ms' & _ & Em' & _).
    specialize (IH Hrb' Hjv' ltac:(discriminate) indent ws Hind Hws f rest).
    rewrite Em' in IH |- *. rewrite JSONFacts.join_cons, <- !app_assoc. cbn [app].
    rewrite parse_members_spaced.
    rewrite Hp by (simpl in Hfuel |- *; solve [lia | reflexivity]).
    rewrite skip_ws_start by reflexivity.
    change (N.eqb 44 44) with true. cbv iota.
    change (10%N :: indent ++ ?s) with ((10%N :: indent) ++ s).
    rewrite parse_members_blank by (cbn [blank forallb]; exact Hind).
    rewrite IH; [reflexivity|]. simpl in Hfuel |- *. lia.
Qed.

Lemma size_members_lines (sep indent : jsstring) (o : list (jsstring * jsval)) :
  Forall (fun kv => exists t, serialize gap indent (snd kv) = Some t /\
                              size (snd kv) <= length t) o ->
  o <> [] -> sep <> [] ->
  size (VObj o) <= length (join sep (member_texts_in gap indent o)) + 2.
Proof.
  intros H Hne Hsep. induction o as [|[k x] o IH]; [contradiction|].
  inversion H as [|? ? Hx Ho]; subst. cbn [snd] in Hx. destruct Hx as (t & Ht & Hx).
  cbn [member_texts_in]. rewrite Ht.
  destruct o as [|[k' y] o'].
  - cbn [member_texts_in join]. rewrite !length_app. simpl. lia.
  - specialize (IH Ho ltac:(discriminate)).
    inversion Ho as [|? ? Hy _]; subst. cbn [snd] in Hy. destruct Hy as (ty & Hty & _).
    assert (exists m ms, member_texts_in gap indent ((k', y) :: o') = m :: ms)
      as (m & ms & Em).
    { cbn [member_texts_in]. rewrite Hty. eauto. }
    rewrite Em in IH |- *. rewrite JSONFacts.join_cons, !length_app.
    destruct sep as [|c sep]; [contradiction|].
    simpl in IH |- *. lia.
Qed.

(** Every JSON value is read back from its indented text. *)
Lemma json_value_reads_back_in (v : jsval) : reads_back_in gap v.
Proof.
  induction v as [| |b|lit|s|l IH|o IH] using JSONFacts.jsval_ind; intros Hjv indent Hind.
  - discriminate.
  - exists (js "null"). split; [reflexivity|]. split; [reflexivity|].
    split; [cbn; lia|].
    intros [|f] rest Hf _; [simpl in Hf; lia | reflexivity].
  - destruct b.
    + exists (js "true"). split; [reflexivity|]. split; [reflexivity|].
      split; [cbn; lia|].
      intros [|f] rest Hf _; [simpl in Hf; lia | reflexivity].
    + exists (js "false"). split; [reflexivity|]. split; [reflexivity|].
      split; [cbn; lia|].
      intros [|f] rest Hf _; [simpl in Hf; lia | reflexivity].
  - cbn [json_value] in Hjv. exists lit.
    destruct (JSONFacts.number_literal_head lit Hjv) as (c & t & -> & Hc).
    split; [reflexivity|]. split; [|split; [cbn; lia|]].
    + cbn [starts_value]. JSONFacts.not_the_unit.
    + intros [|f] rest Hf Hrest; [simpl in Hf; lia|].
      rewrite JSONFacts.parse_value_S.
      assert (skip_ws ((c :: t) ++ rest) = (c :: t) ++ rest) as ->.
      { cbn [app skip_ws].
        now replace (is_ws c) with false by (symmetry; JSONFacts.not_the_unit). }
      cbn [app].
      replace (N.eqb c 123) with false by (symmetry; JSONFacts.not_the_unit).
      replace (N.eqb c 91) with false by (symmetry; JSONFacts.not_the_unit).
      replace (N.eqb c 34) with false by (symmetry; JSONFacts.not_the_unit).
      replace (N.eqb c 116) with false by (symmetry; JSONFacts.not_the_unit).
      replace (N.eqb c 102) with false by (symmetry; JSONFacts.not_the_unit).
      replace (N.eqb c 110) with false by (symmetry; JSONFacts.not_the_unit).
      change (c :: t ++ rest) with ((c :: t) ++ rest).
      now rewrite lex_number_followed.
  - exists (quote s). split; [reflexivity|]. split; [reflexivity|].
    split; [unfold quote; cbn [size length]; lia|].
    intros [|f] rest Hf _; [simpl in Hf; lia|].
    rewrite JSONFacts.parse_value_S. unfold quote. cbn [app skip_ws is_ws N.eqb Pos.eqb orb].
    rewrite <- app_assoc. cbn [app]. now rewrite JSONFacts.parse_chars_quote_units.
  - rewrite serialize_array_in. eexists. split; [reflexivity|].
    pose proof (JSONFacts.json_value_array l Hjv) as Hall.
    destruct l as [|x l].
    + split; [reflexivity|]. split; [cbn; lia|].
      intros [|f] rest Hf _; [simpl in Hf; lia | reflexivity].
    + assert (blank (indent ++ gap) = true) as Hind' by now apply blank_app.
      inversion IH as [|? ? Hx _]; subst. inversion Hall as [|? ? Jx _]; subst.
      destruct (Hx Jx (indent ++ gap) Hind') as (t & Ht & Hst & _).
      destruct (JSONFacts.starts_value_inv t Hst) as (c & t' & -> & Hws & H93 & _).
      assert (element_text_in gap (indent ++ gap) x = c :: t') as Ex
          by (unfold element_text_in; now rewrite Ht).
      cbn [map]. split; [|split].
      * destruct gap; [contradiction | reflexivity].
      * assert (Forall (fun y => size y <= length (element_text_in gap (indent ++ gap) y))
                       (x :: l)) as Hs.
        { apply Forall_forall. intros y Hy.
          rewrite Forall_forall in IH, Hall.
          destruct (IH y Hy (Hall y Hy) (indent ++ gap) Hind') as (ty & Hty & _ & Hle & _).
          unfold element_text_in. now rewrite Hty. }
        pose proof (size_elements_lines (44%N :: 10%N :: indent ++ gap) _ (x :: l) Hs
                      ltac:(discriminate) ltac:(discriminate)) as Hsz.
        pose proof (wrap_lines_length gap indent (element_text_in gap (indent ++ gap) x)
                      (map (element_text_in gap (indent ++ gap)) l) 91 93 gap_some) as Hlen.
        cbn [map] in Hsz. lia.
      * intros [|f] rest Hf _; [simpl in Hf; lia|].
        rewrite (wrap_lines _ _ _ _ _ _ _ gap_some).
        rewrite JSONFacts.parse_value_S, skip_ws_start by reflexivity.
        change (N.eqb 91 123) with false. change (N.eqb 91 91) with true. cbv iota.
        rewrite skip_ws_blank by (cbn [blank forallb]; exact Hind').
        match goal with
        | |- context [skip_ws ?b] => assert (exists u', skip_ws b = c :: u') as [u' Hskip]
        end.
        { destruct (JSONFacts.join_head (44%N :: 10%N :: indent ++ gap)
                      (element_text_in gap (indent ++ gap) x)
                      (map (element_text_in gap (indent ++ gap)) l)) as [u Eu].
          rewrite Eu, Ex, <- !app_assoc. cbn [app].
          rewrite skip_ws_start by exact Hws. eauto. }
        rewrite Hskip, H93.
        rewrite parse_elements_blank by (cbn [blank forallb]; exact Hind').
        change (element_text_in gap (indent ++ gap) x
                  :: map (element_text_in gap (indent ++ gap)) l)
          with (map (element_text_in gap (indent ++ gap)) (x :: l)).
        now rewrite (parse_elements_lines (x :: l) IH Hall ltac:(discriminate)
                       (indent ++ gap) indent Hind' Hind f rest Hf).
  - rewrite serialize_object_in. eexists. split; [reflexivity|].
    destruct (JSONFacts.json_value_object o Hjv) as [Hkeys Hall].
    destruct o as [|[k x] o].
    + split; [reflexivity|]. split; [cbn; lia|].
      intros [|f] rest Hf _; [simpl in Hf; lia | reflexivity].
    + assert (blank (indent ++ gap) = true) as Hind' by now apply blank_app.
      inversion IH as [|? ? Hx _]; subst. inversion Hall as [|? ? Jx _]; subst.
      cbn [snd] in Hx, Jx.
      destruct (member_text_in_head (indent ++ gap) k x o Jx Hx Hind')
        as (t & ms & Ht & Em & Ems).
      split; [|split].
      * rewrite Em. destruct gap; [contradiction | reflexivity].
      * assert (Forall (fun kv => exists t, serialize gap (indent ++ gap) (snd kv) = Some t /\
                                            size (snd kv) <= length t) ((k, x) :: o)) as Hs.
        { apply Forall_forall. intros y Hy.
          rewrite Forall_forall in IH, Hall.
          destruct (IH y Hy (Hall y Hy) (indent ++ gap) Hind') as (ty & Hty & _ & Hle & _).
          now exists ty. }
        pose proof (size_members_lines (44%N :: 10%N :: indent ++ gap) (indent ++ gap)
                      ((k, x) :: o) Hs ltac:(discriminate) ltac:(discriminate)) as Hsz.
        rewrite Em in Hsz |- *.
        pose proof (wrap_lines_length gap indent (quote k ++ 58%N :: 32%N :: t) ms 123 125
                      gap_some) as Hlen.
        lia.
      * intros [|f] rest Hf _; [simpl in Hf; lia|].
        pose proof (parse_members_lines ((k, x) :: o) IH Hall ltac:(discriminate)
                      (indent ++ gap) indent Hind' Hind f rest Hf) as Hmem.
        rewrite Em in Hmem |- *.
        rewrite (wrap_lines _ _ _ _ _ _ _ gap_some).
        rewrite JSONFacts.parse_value_S, skip_ws_start by reflexivity.
        change (N.eqb 123 123) with true. cbv iota.
        rewrite skip_ws_blank by (cbn [blank forallb]; exact Hind').
        match goal with
        | |- context [skip_ws ?b] => assert (exists u', skip_ws b = 34%N :: u') as [u' Hskip]
        end.
        { destruct (JSONFacts.join_head (44%N :: 10%N :: indent ++ gap)
                      (quote k ++ 58%N :: 32%N :: t) ms) as [u Eu].
          rewrite Eu. unfold quote. rewrite <- !app_assoc. cbn [app].
          rewrite skip_ws_start by reflexivity. eauto. }
        rewrite Hskip.
        change (N.eqb 34 125) with false. cbv iota.
        rewrite parse_members_blank by (cbn [blank forallb]; exact Hind').
        rewrite Hmem. now rewrite JSONFacts.object_of_keys_ok.
Qed.

End Lines.

Lemma blank_spaces (n : nat) : blank (repeat 32%N n) = true.
Proof. induction n as [|n IH]; [reflexivity|]. cbn [repeat blank forallb]. exact IH. Qed.

(** [JSON.parse] returns the value [JSON.stringify] was given, whatever the
    indentation asked for. *)
Lemma parse_stringify_indent (n : nat) (v : jsval) :
  json_value v = true ->
  exists t, stringify_indent n v = Some t /\ parse t = Some v.
Proof.
  intros Hjv. destruct n as [|n].
  - exact (JSONFacts.parse_stringify v Hjv).
  - unfold stringify_indent, parse.
    destruct (json_value_reads_back_in (repeat 32%N (S n)) (blank_spaces (S n))
                ltac:(discriminate) v Hjv [] eq_refl) as (t & Ht & _ & Hle & Hp).
    exists t. split; [exact Ht|].
    specialize (Hp (S (length t)) [] ltac:(lia) eq_refl).
    rewrite app_nil_r in Hp. now rewrite Hp.
Qed.

End IndentFacts.

(** ** utils/fileUtils: a saved file is read back *)

(** X19. [saveJsonToFile] writes one file, with the JSON text of the data,
    or fails and leaves the world as it was (the path cannot be written, or
    the data is [undefined], which has no JSON text). For data that is a
    JSON value and an indentation of at most ten (two when none is given),
    the text written is read back by [readJsonFile], from any disk that
    holds it at that path, as the data that was saved. *)
Theorem saved_json_is_read_back
        (data : jsval) (filePath : jsstring) (indent : option nat) (w : World) :
  (forall e w1, FileUtils.saveJsonToFile data filePath indent w = (Throw e, w1) -> w1 = w) /\
  FileUtils.saveJsonToFile VUndef filePath indent w
  = (Throw (TypeError (jsq "The `data` argument must be of type string or an instance of Buffer, TypedArray, or DataView. Received undefined")), w) /\
  (JSON.json_value data = true ->
   match indent with Some n => n <= 10 | None => True end ->
   forall w1,
     FileUtils.saveJsonToFile data filePath indent w = (Ok tt, w1) ->
     exists text,
       written w1 = written w ++ [(filePath, text)] /\
       forall (w2 : World) (f : File),
         disk w2 filePath = Some (Regular f) -> f_utf8 f = text ->
         FileUtils.readJsonFile filePath w2 = (Ok data, w2)).
Proof.
  split; [|split].
  - intros e w1. unfold FileUtils.saveJsonToFile, fs_writeFile.
    destruct (JSON.stringify_indent _ data) as [text|]; [|now intros [= _ <-]].
    destruct (read_only w filePath); [now intros [= _ <-] | discriminate].
  - reflexivity.
  - intros Hjv _ w1 Hsave.
    set (n := match indent with Some n => n | None => 2 end).
    destruct (IndentFacts.parse_stringify_indent n data Hjv) as (text & Htext & Hparse).
    unfold FileUtils.saveJsonToFile, fs_writeFile in Hsave. fold n in Hsave.
    rewrite Htext in Hsave.
    destruct (read_only w filePath); [discriminate Hsave|]. injection Hsave as <-.
    exists text. split; [reflexivity|].
    intros w2 f Hdisk Hf. unfold FileUtils.readJsonFile, bind, fs_read.
    rewrite Hdisk, Hf, Hparse. reflexivity.
Qed.

Lemma saved_json_is_read_back_witness :
  let w := Scenario.world (fun _ _ => Response VNull) in
  exists text,
    written (snd (FileUtils.saveJsonToFile SchemaHelper.receipt (js "/tmp/receipt.json")
                    None w))
    = written w ++ [(js "/tmp/receipt.json", text)] /\
    forall (w2 : World) (f : File),
      disk w2 (js "/tmp/receipt.json") = Some (Regular f) -> f_utf8 f = text ->
      FileUtils.readJsonFile (js "/tmp/receipt.json") w2 = (Ok SchemaHelper.receipt, w2).
Proof.
  intros w.
  destruct (FileUtils.saveJsonToFile SchemaHelper.receipt (js "/tmp/receipt.json") None w)
    as [[[]|e] w1] eqn:Hsave.
  - exact (proj2 (proj2 (saved_json_is_read_back SchemaHelper.receipt
                           (js "/tmp/receipt.json") None w))
             eq_refl I w1 Hsave).
  - exfalso. vm_compute in Hsave. discriminate Hsave.
Defined.

(** ** utils/fileUtils: where the results are saved *)

Module PathFacts.
Import Path.

Lemma join_app (sep : jsstring) (l1 l2 : list jsstring) :
  l1 <> [] -> l2 <> [] -> join sep (l1 ++ l2) = join sep l1 ++ sep ++ join sep l2.
Proof.
  intros H1 H2. induction l1 as [|a l1 IH]; [contradiction|].
  destruct l1 as [|b l1].
  - cbn [app]. destruct l2 as [|c l2]; [contradiction | reflexivity].
  - change ((a :: b :: l1) ++ l2) with (a :: (b :: l1) ++ l2).
    change (join sep (a :: (b :: l1) ++ l2))
      with (a ++ sep ++ join sep ((b :: l1) ++ l2)).
    rewrite IH by discriminate.
    rewrite JSONFacts.join_cons. now rewrite <- !app_assoc.
Qed.

Lemma split_on_no_slash (s : jsstring) : no_slash s = true -> split_on slash s = [s].
Proof.
  induction s as [|c s IH]; [reflexivity|]. cbn [no_slash forallb split_on].
  intros H. apply andb_true_iff in H as [Hc Hs]. apply negb_true_iff in Hc.
  rewrite Hc. unfold no_slash in IH. now rewrite (IH Hs).
Qed.

Lemma split_on_segment (a b : jsstring) :
  no_slash a = true -> split_on slash (a ++ slash :: b) = a :: split_on slash b.
Proof.
  induction a as [|c a IH]; intros H.
  - cbn [app split_on]. now rewrite N.eqb_refl.
  - cbn [no_slash forallb] in H. apply andb_true_iff in H as [Hc Ha].
    apply negb_true_iff in Hc. cbn [app split_on]. rewrite Hc.
    unfold no_slash in IH. now rewrite (IH Ha).
Qed.

Lemma split_on_join (segs : list jsstring) :
  forallb no_slash segs = true -> segs <> [] -> split_on slash (join [slash] segs) = segs.
Proof.
  induction segs as [|a segs IH]; intros H Hne; [contradiction|].
  cbn [forallb] in H. apply andb_true_iff in H as [Ha Hs].
  destruct segs as [|b segs].
  - cbn [join]. now apply split_on_no_slash.
  - rewrite JSONFacts.join_cons. cbn [app].
    rewrite (split_on_segment a _ Ha). f_equal. apply IH; [exact Hs | discriminate].
Qed.

Lemma plain_segment_inv (seg : jsstring) :
  plain_segment seg = true ->
  str_eqb seg [] = false /\ str_eqb seg [dot] = false /\ str_eqb seg [dot; dot] = false /\
  no_slash seg = true.
Proof.
  unfold plain_segment. intros H.
  apply andb_true_iff in H as [H H4]. apply andb_true_iff in H as [H H3].
  apply andb_true_iff in H as [H1 H2].
  apply negb_true_iff in H1, H2, H3. now repeat split.
Qed.

Lemma plain_no_slash (segs : list jsstring) :
  forallb plain_segment segs = true -> forallb no_slash segs = true.
Proof.
  induction segs as [|a segs IH]; [reflexivity|]. cbn [forallb]. intros H.
  apply andb_true_iff in H as [Ha Hs].
  destruct (plain_segment_inv a Ha) as (_ & _ & _ & Hn). now rewrite Hn, IH.
Qed.

Lemma normalize_segments_plain (allowAboveRoot : bool) (segs acc : list jsstring) :
  forallb plain_segment segs = true ->
  normalize_segments allowAboveRoot segs acc = rev segs ++ acc.
Proof.
  revert acc. induction segs as [|a segs IH]; intros acc H; [reflexivity|].
  cbn [forallb] in H. apply andb_true_iff in H as [Ha Hs].
  destruct (plain_segment_inv a Ha) as (H1 & H2 & H3 & _).
  cbn [normalize_segments rev]. rewrite H1, H2, H3. cbn [orb].
  rewrite IH by exact Hs. now rewrite <- app_assoc.
Qed.

Lemma last_app_unit (a : jsstring) (c d : N) : last (a ++ [c]) d = c.
Proof.
  induction a as [|x a IH]; [reflexivity|].
  cbn [app]. destruct (a ++ [c]) eqn:E; [now destruct a | exact IH].
Qed.

Lemma last_no_slash (s : jsstring) (d : N) :
  s <> [] -> no_slash s = true -> N.eqb (last s d) slash = false.
Proof.
  intros Hne H. destruct (exists_last Hne) as (a & c & ->).
  rewrite last_app_unit. unfold no_slash in H. rewrite forallb_app in H.
  apply andb_true_iff in H as [_ H]. cbn [forallb] in H.
  apply andb_true_iff in H as [H _]. now apply negb_true_iff in H.
Qed.

Lemma last_of_join (segs : list jsstring) (prefix : jsstring) (d : N) :
  forallb plain_segment segs = true -> segs <> [] ->
  N.eqb (last (prefix ++ join [slash] segs) d) slash = false.
Proof.
  revert prefix. induction segs as [|a segs IH]; intros prefix H Hne; [contradiction|].
  cbn [forallb] in H. apply andb_true_iff in H as [Ha Hs].
  destruct (plain_segment_inv a Ha) as (H1 & _ & _ & Hn).
  destruct segs as [|b segs].
  - cbn [join]. destruct a as [|c a]; [discriminate H1|].
    destruct (exists_last (l:=c :: a) ltac:(discriminate)) as (a' & z & E).
    rewrite E, app_assoc, last_app_unit.
    rewrite E in Hn. unfold no_slash in Hn. rewrite forallb_app in Hn.
    apply andb_true_iff in Hn as [_ Hn]. cbn [forallb] in Hn.
    apply andb_true_iff in Hn as [Hn _]. now apply negb_true_iff in Hn.
  - rewrite JSONFacts.join_cons, !app_assoc. apply IH; [exact Hs | discriminate].
Qed.

Lemma join_not_empty (segs : list jsstring) :
  forallb plain_segment segs = true -> segs <> [] -> join [slash] segs <> [].
Proof.
  intros H Hne. destruct segs as [|a segs]; [contradiction|].
  cbn [forallb] in H. apply andb_true_iff in H as [Ha _].
  destruct (plain_segment_inv a Ha) as (H1 & _).
  destruct a as [|c a]; [discriminate H1|].
  destruct segs; discriminate.
Qed.

(** An absolute path of plain segments is in normal form. *)
Lemma normalize_rooted (segs : list jsstring) :
  forallb plain_segment segs = true -> segs <> [] ->
  normalize (rooted segs) = rooted segs.
Proof.
  intros H Hne. unfold rooted.
  assert (N.eqb (last (slash :: join [slash] segs) 0%N) slash = false) as Hlast
      by exact (last_of_join segs [slash] 0%N H Hne).
  assert (split_on slash (slash :: join [slash] segs) = [] :: segs) as Hsplit.
  { change (slash :: join [slash] segs) with ([] ++ slash :: join [slash] segs).
    now rewrite (split_on_segment [] _ eq_refl), (split_on_join segs (plain_no_slash _ H) Hne). }
  unfold normalize. cbv zeta. rewrite Hlast, Hsplit, N.eqb_refl.
  cbn [negb normalize_segments str_eqb orb].
  rewrite (normalize_segments_plain false segs [] H), app_nil_r, rev_involutive.
  pose proof (join_not_empty segs H Hne) as Hbody.
  destruct (join [slash] segs); [contradiction | reflexivity].
Qed.

Lemma rooted_app (segs more : list jsstring) :
  segs <> [] -> more <> [] ->
  rooted (segs ++ more) = rooted segs ++ slash :: join [slash] more.
Proof.
  intros H1 H2. unfold rooted. rewrite (join_app [slash] segs more H1 H2). reflexivity.
Qed.

(** [path.join] of such a path and of plain segments puts a separator between
    them, and nothing else. *)
Lemma join_paths_rooted (segs more : list jsstring) :
  forallb plain_segment segs = true -> segs <> [] ->
  forallb plain_segment more = true -> more <> [] ->
  join_paths (rooted segs :: more) = rooted (segs ++ more).
Proof.
  intros Hs Hne Hm Hme. unfold join_paths.
  assert (filter (fun p => negb (str_eqb p [])) (rooted segs :: more) = rooted segs :: more)
    as ->.
  { cbn [filter]. change (str_eqb (rooted segs) []) with false. cbn [negb]. f_equal.
    clear Hme. induction more as [|a more IH]; [reflexivity|].
    cbn [forallb] in Hm. apply andb_true_iff in Hm as [Ha Hm].
    destruct (plain_segment_inv a Ha) as (H1 & _).
    cbn [filter]. rewrite H1. cbn [negb]. now rewrite IH. }
  destruct more as [|m more]; [contradiction|].
  rewrite JSONFacts.join_cons.
  change (rooted segs ++ [slash] ++ join [slash] (m :: more))
    with (rooted segs ++ slash :: join [slash] (m :: more)).
  rewrite <- (rooted_app segs (m :: more) Hne ltac:(discriminate)).
  apply normalize_rooted.
  - now rewrite forallb_app, Hs, Hm.
  - destruct segs; [contradiction | discriminate].
Qed.

Lemma take_component_no_slash (units : jsstring) : no_slash (take_component units) = true.
Proof.
  induction units as [|c units IH]; [reflexivity|]. cbn [take_component].
  destruct (N.eqb c slash) eqn:E; [reflexivity|].
  cbn [no_slash forallb]. rewrite E. exact IH.
Qed.

Lemma no_slash_rev (s : jsstring) : no_slash s = true -> no_slash (rev s) = true.
Proof.
  unfold no_slash. intros H. apply forallb_forall. intros c Hc.
  apply in_rev in Hc. exact (proj1 (forallb_forall _ _) H c Hc).
Qed.

Lemma no_slash_firstn (n : nat) (s : jsstring) : no_slash s = true -> no_slash (firstn n s) = true.
Proof.
  unfold no_slash. revert n. induction s as [|c s IH]; intros [|n] H; try reflexivity.
  cbn [firstn forallb] in *. apply andb_true_iff in H as [Hc Hs]. now rewrite Hc, IH.
Qed.

Lemma no_slash_app (a b : jsstring) :
  no_slash (a ++ b) = no_slash a && no_slash b.
Proof. apply forallb_app. Qed.

(** The name of a file, with or without its extension, holds no separator. *)
Lemma basename_no_slash (path : jsstring) (suffix : option jsstring) :
  no_slash (basename path suffix) = true.
Proof.
  assert (no_slash (last_component path) = true) as Hname.
  { unfold last_component. apply no_slash_rev, take_component_no_slash. }
  unfold basename. destruct suffix as [sfx|]; [|exact Hname].
  repeat match goal with
         | |- context [if ?b then _ else _] => destruct b
         end; try exact Hname; [reflexivity | now apply no_slash_firstn].
Qed.

End PathFacts.

Lemma no_slash_dashes (s : jsstring) :
  no_slash s = true -> no_slash (FileUtils.dash_colons_dots s) = true.
Proof.
  unfold no_slash, FileUtils.dash_colons_dots.
  induction s as [|c s IH]; [reflexivity|]. cbn [map forallb]. intros H.
  apply andb_true_iff in H as [Hc Hs]. rewrite (IH Hs), andb_true_r.
  destruct (N.eqb c 58 || N.eqb c 46)%bool; [reflexivity | exact Hc].
Qed.

Lemma dashes_firstn (s : jsstring) (n : nat) :
  forallb (fun c => negb (N.eqb c 58 || N.eqb c 46)) (firstn n (FileUtils.dash_colons_dots s))
  = true.
Proof.
  unfold FileUtils.dash_colons_dots. revert n.
  induction s as [|c s IH]; intros [|n]; try reflexivity.
  cbn [map firstn forallb]. rewrite IH, andb_true_r.
  destruct (N.eqb c 58 || N.eqb c 46)%bool eqn:E; [reflexivity | now rewrite E].
Qed.

(** X20. Where a tool saves. For a home directory that is an absolute path
    of plain segments (not empty, neither [.] nor [..]), and a sub-directory
    of plain segments too: [getOutputDirectory] gives the home directory
    followed by [/.mcp-upstage/outputs/] and the sub-directory. The name
    [generateTimestampedFilename] gives is the name of the original file,
    without its directories and its extension, then [_], the time stamp, [_],
    the suffix and [.json]; the time stamp is as long as the text of the
    clock less five and holds neither colon nor dot; the name holds no
    separator, whatever the original path
    is, as long as the suffix and the text of the clock hold none. So
    [path.join] of the two, the output path of the tools, is the directory,
    a separator and the name: a file directly in the output directory. *)
Theorem output_files_location
        (w : World) (home sub : list jsstring) (originalPath : jsstring)
        (suffix : option jsstring) :
  forallb plain_segment home = true -> home <> [] -> homedir w = rooted home ->
  forallb plain_segment sub = true -> sub <> [] ->
  no_slash (clock w (ticks w)) = true ->
  no_slash (match suffix with Some s => s | None => js "upstage" end) = true ->
  let outputDir := homedir w ++ js "/.mcp-upstage/outputs/" ++ join (js "/") sub in
  exists name stamp,
    FileUtils.getOutputDirectory (join (js "/") sub) w = (Ok outputDir, w) /\
    fst (FileUtils.generateTimestampedFilename originalPath suffix w) = Ok name /\
    name = Path.basename originalPath (Some (Path.extname originalPath))
             ++ js "_" ++ stamp ++ js "_"
             ++ match suffix with Some s => s | None => js "upstage" end ++ js ".json" /\
    length stamp = length (clock w (ticks w)) - 5 /\
    forallb (fun c => negb (N.eqb c 58 || N.eqb c 46)) stamp = true /\
    no_slash name = true /\
    Path.join_paths [outputDir; name] = outputDir ++ js "/" ++ name.
Proof.
  intros Hhome Hne Hw Hsub Hsne Hclock Hsuffix outputDir.
  set (sfx := match suffix with Some s => s | None => js "upstage" end) in *.
  set (stamp := firstn (length (FileUtils.dash_colons_dots (clock w (ticks w))) - 5)
                       (FileUtils.dash_colons_dots (clock w (ticks w)))).
  set (base := Path.basename originalPath (Some (Path.extname originalPath))).
  set (name := base ++ js "_" ++ stamp ++ js "_" ++ sfx ++ js ".json").
  assert (forallb plain_segment (home ++ [js ".mcp-upstage"; js "outputs"] ++ sub) = true)
    as Hall.
  { rewrite !forallb_app, Hhome, Hsub. reflexivity. }
  assert (outputDir = rooted (home ++ [js ".mcp-upstage"; js "outputs"] ++ sub)) as Hdir.
  { unfold outputDir. rewrite Hw.
    rewrite (PathFacts.rooted_app home ([js ".mcp-upstage"; js "outputs"] ++ sub) Hne
               ltac:(cbn [app]; discriminate)).
    rewrite (PathFacts.join_app [Path.slash] [js ".mcp-upstage"; js "outputs"] sub
               ltac:(discriminate) Hsne).
    reflexivity. }
  assert (no_slash name = true) as Hname.
  { unfold name. rewrite !PathFacts.no_slash_app.
    unfold base. rewrite PathFacts.basename_no_slash.
    unfold stamp. rewrite (PathFacts.no_slash_firstn _ _ (no_slash_dashes _ Hclock)).
    fold sfx. rewrite Hsuffix. reflexivity. }
  assert (plain_segment name = true) as Hplain.
  { unfold plain_segment. rewrite Hname.
    assert (exists a, name = a ++ js ".json") as [a Ha].
    { exists (base ++ js "_" ++ stamp ++ js "_" ++ sfx). unfold name.
      now rewrite <- !app_assoc. }
    assert (7 <= length name) as Hlen.
    { unfold name. rewrite !length_app. cbn [length js map list_ascii_of_string]. lia. }
    destruct name as [|c1 [|c2 [|c3 rest]]]; cbn [length] in Hlen; try lia.
    cbn [str_eqb]. rewrite !andb_false_r. reflexivity. }
  exists name, stamp.
  split; [|split; [reflexivity|split; [reflexivity|split; [|split;
    [apply dashes_firstn|split; [exact Hname|]]]]]].
  - unfold FileUtils.getOutputDirectory, bind, os_homedir, ret. f_equal. f_equal.
    rewrite Hdir, Hw.
    change [rooted home; js ".mcp-upstage"; js "outputs"; join (js "/") sub]
      with (rooted home :: [js ".mcp-upstage"; js "outputs"] ++ [join (js "/") sub]).
    unfold Path.join_paths.
    assert (str_eqb (join (js "/") sub) [] = false) as Hsubne.
    { apply str_eqb_neq. exact (PathFacts.join_not_empty sub Hsub Hsne). }
    cbn [filter app]. change (str_eqb (rooted home) []) with false.
    change (str_eqb (js ".mcp-upstage") []) with false.
    change (str_eqb (js "outputs") []) with false. rewrite Hsubne. cbn [negb].
    assert (join [Path.slash]
              [rooted home; js ".mcp-upstage"; js "outputs"; join (js "/") sub]
            = rooted (home ++ [js ".mcp-upstage"; js "outputs"] ++ sub)) as ->.
    { rewrite (PathFacts.rooted_app home ([js ".mcp-upstage"; js "outputs"] ++ sub) Hne
                 ltac:(cbn [app]; discriminate)).
      rewrite (PathFacts.join_app [Path.slash] [js ".mcp-upstage"; js "outputs"] sub
                 ltac:(discriminate) Hsne).
      reflexivity. }
    apply PathFacts.normalize_rooted; [exact Hall|].
    destruct home; [contradiction | discriminate].
  - unfold stamp. rewrite length_firstn. unfold FileUtils.dash_colons_dots.
    rewrite length_map. lia.
  - assert (home ++ [js ".mcp-upstage"; js "outputs"] ++ sub <> []) as Hsegs
        by (destruct home; [contradiction | discriminate]).
    assert (forallb plain_segment [name] = true) as Hnames
        by (cbn [forallb]; now rewrite Hplain).
    rewrite Hdir.
    rewrite (PathFacts.join_paths_rooted _ [name] Hall Hsegs Hnames ltac:(discriminate)).
    rewrite (PathFacts.rooted_app _ [name] Hsegs ltac:(discriminate)).
    reflexivity.
Qed.

Lemma output_files_location_witness :
  let w := Scenario.world (fun _ _ => Response VNull) in
  exists name stamp,
    FileUtils.getOutputDirectory (js "information_extraction/schemas") w
    = (Ok (js "/home/user/.mcp-upstage/outputs/information_extraction/schemas"), w) /\
    fst (FileUtils.generateTimestampedFilename (js "/docs/../docs/invoice.pdf")
           (Some (js "schema")) w) = Ok name /\
    name = Path.basename (js "/docs/../docs/invoice.pdf")
             (Some (Path.extname (js "/docs/../docs/invoice.pdf")))
             ++ js "_" ++ stamp ++ js "_" ++ js "schema" ++ js ".json" /\
    length stamp = length (clock w (ticks w)) - 5 /\
    forallb (fun c => negb (N.eqb c 58 || N.eqb c 46)) stamp = true /\
    no_slash name = true /\
    Path.join_paths [js "/home/user/.mcp-upstage/outputs/information_extraction/schemas"; name]
    = js "/home/user/.mcp-upstage/outputs/information_extraction/schemas" ++ js "/" ++ name.
Proof.
  intros w.
  exact (output_files_location w [js "home"; js "user"]
           [js "information_extraction"; js "schemas"] (js "/docs/../docs/invoice.pdf")
           (Some (js "schema")) eq_refl ltac:(discriminate) eq_refl eq_refl
           ltac:(discriminate) eq_refl eq_refl).
Defined.

(** ** [JSON.parse] returns JSON values

    The value of a text that [JSON.parse] accepts is a JSON value: its
    numbers are literals, its objects hold their properties in the order of
    an object, each key once. So what was parsed is written and read back as
    the same value. *)

Module ParseFacts.
Import JSON.

Lemma starts_alike_nil (t : jsstring) : starts_alike [] t -> t = [].
Proof. intros [H|(c & r' & t' & H & _)]; [exact H | discriminate H]. Qed.

Lemma starts_alike_app (a r t : jsstring) :
  starts_alike r t -> starts_alike (a ++ r) (a ++ t).
Proof.
  intros H. destruct a as [|c a]; [exact H|].
  right. exists c, (a ++ r), (a ++ t). now split.
Qed.

Lemma starts_alike_head (c : N) (r t : jsstring) (P : N -> bool) :
  starts_alike (c :: r) t -> P c = false ->
  match t with [] => true | d :: _ => negb (P d) end = true.
Proof.
  intros [->|(c' & r' & t' & Hr & ->)] Hc; [reflexivity|].
  injection Hr as <- _. now rewrite Hc.
Qed.

Lemma span_digits_ahead (s d r t : jsstring) :
  span_digits s = (d, r) -> starts_alike r t -> span_digits (d ++ t) = (d, t).
Proof.
  revert d r. induction s as [|c s IH]; intros d r H Ht; cbn [span_digits] in H.
  - injection H as <- <-. now rewrite (starts_alike_nil _ Ht).
  - destruct (is_digit c) eqn:Ec.
    + destruct (span_digits s) as [d' r'] eqn:E. injection H as <- <-.
      cbn [app span_digits]. rewrite Ec. now rewrite (IH d' r' eq_refl Ht).
    + injection H as <- <-. cbn [app].
      pose proof (starts_alike_head c s t is_digit Ht Ec) as Hd.
      destruct t as [|e t]; [reflexivity|]. cbn [span_digits].
      apply negb_true_iff in Hd. now rewrite Hd.
Qed.

Lemma digits1_ahead : looks_one_ahead digits1.
Proof.
  intros s a r t H Ht. unfold digits1 in *.
  destruct (span_digits s) as [d r'] eqn:E.
  destruct d as [|c d]; [discriminate|]. injection H as <- <-.
  now rewrite (span_digits_ahead _ _ _ _ E Ht).
Qed.

Lemma then_ahead (p q : lexer) :
  looks_one_ahead p -> looks_one_ahead q -> JSON.splits q ->
  looks_one_ahead (then_ p q).
Proof.
  intros Hp Hq Hs s a r t H Ht. unfold then_ in *.
  destruct (p s) as [[a1 r1]|] eqn:E1; [|discriminate].
  destruct (q r1) as [[a2 r2]|] eqn:E2; [|discriminate].
  injection H as <- <-. rewrite <- app_assoc.
  rewrite (Hp _ _ _ (a2 ++ t) E1).
  - now rewrite (Hq _ _ _ t E2 Ht).
  - rewrite (Hs _ _ _ E2). now apply starts_alike_app.
Qed.

Ltac stops_at t Ht E P :=
  let Hd := fresh "Hd" in
  pose proof (starts_alike_head _ _ t P Ht E) as Hd;
  destruct t; [reflexivity|]; cbn [app] in Hd |- *;
  apply negb_true_iff in Hd; now rewrite Hd.

Lemma lex_sign_ahead : looks_one_ahead lex_sign.
Proof.
  intros [|c s] a r t H Ht; unfold lex_sign in *.
  - injection H as <- <-. now rewrite (starts_alike_nil _ Ht).
  - destruct (N.eqb c 45) eqn:E; injection H as <- <-.
    + cbn [app]. now rewrite E.
    + cbn [app]. stops_at t Ht E (fun c => N.eqb c 45).
Qed.

Lemma lex_int_ahead : looks_one_ahead lex_int.
Proof.
  intros [|c s] a r t H Ht; unfold lex_int in H; [discriminate|].
  destruct (N.eqb c 48) eqn:E.
  - injection H as <- <-. unfold lex_int. cbn [app]. now rewrite E.
  - pose proof (digits1_ahead _ _ _ _ H Ht) as Hd.
    pose proof H as H'. unfold digits1 in H'. cbn [span_digits] in H'.
    destruct (is_digit c) eqn:Ec; [|discriminate].
    destruct (span_digits s) as [d r']. injection H' as <- <-.
    unfold lex_int. cbn [app] in Hd |- *. now rewrite E.
Qed.

Lemma lex_frac_ahead : looks_one_ahead lex_frac.
Proof.
  intros [|c s] a r t H Ht; unfold lex_frac in H.
  - injection H as <- <-. now rewrite (starts_alike_nil _ Ht).
  - destruct (N.eqb c 46) eqn:E.
    + destruct (digits1 s) as [[d r']|] eqn:Ed; [|discriminate].
      injection H as <- <-. unfold lex_frac. cbn [app]. rewrite E.
      now rewrite (digits1_ahead _ _ _ _ Ed Ht).
    + injection H as <- <-. unfold lex_frac. cbn [app]. stops_at t Ht E (fun c => N.eqb c 46).
Qed.

Lemma lex_exp_sign_ahead : looks_one_ahead lex_exp_sign.
Proof.
  intros [|c s] a r t H Ht; unfold lex_exp_sign in *.
  - injection H as <- <-. now rewrite (starts_alike_nil _ Ht).
  - destruct (N.eqb c 43 || N.eqb c 45)%bool eqn:E; injection H as <- <-.
    + cbn [app]. now rewrite E.
    + cbn [app]. stops_at t Ht E (fun c => (N.eqb c 43 || N.eqb c 45)%bool).
Qed.

Lemma lex_exp_ahead : looks_one_ahead lex_exp.
Proof.
  intros [|c s] a r t H Ht; unfold lex_exp in H.
  - injection H as <- <-. now rewrite (starts_alike_nil _ Ht).
  - destruct (N.eqb c 101 || N.eqb c 69)%bool eqn:E.
    + destruct (then_ lex_exp_sign digits1 s) as [[d r']|] eqn:Ed; [|discriminate].
      injection H as <- <-. unfold lex_exp. cbn [app]. rewrite E.
      now rewrite (then_ahead _ _ lex_exp_sign_ahead digits1_ahead
                     JSONFacts.digits1_splits _ _ _ _ Ed Ht).
    + injection H as <- <-. unfold lex_exp. cbn [app]. stops_at t Ht E (fun c => (N.eqb c 101 || N.eqb c 69)%bool).
Qed.

Lemma lex_frac_splits : JSON.splits lex_frac.
Proof.
  intros [|c s] a r H; unfold lex_frac in H.
  - now injection H as <- <-.
  - destruct (N.eqb c 46).
    + destruct (digits1 s) as [[d r']|] eqn:E; [|discriminate].
      injection H as <- <-. cbn [app]. f_equal. now apply JSONFacts.digits1_splits.
    + now injection H as <- <-.
Qed.

Lemma lex_exp_sign_splits : JSON.splits lex_exp_sign.
Proof.
  intros [|c s] a r H; unfold lex_exp_sign in H.
  - now injection H as <- <-.
  - destruct (N.eqb c 43 || N.eqb c 45)%bool; now injection H as <- <-.
Qed.

Lemma lex_exp_splits : JSON.splits lex_exp.
Proof.
  intros [|c s] a r H; unfold lex_exp in H.
  - now injection H as <- <-.
  - destruct (N.eqb c 101 || N.eqb c 69)%bool.
    + destruct (then_ lex_exp_sign digits1 s) as [[d r']|] eqn:E; [|discriminate].
      injection H as <- <-. cbn [app]. f_equal.
      exact (JSONFacts.then_splits _ _ lex_exp_sign_splits JSONFacts.digits1_splits _ _ _ E).
    + now injection H as <- <-.
Qed.

Lemma lex_int_splits : JSON.splits lex_int.
Proof.
  intros [|c s] a r H; unfold lex_int in H; [discriminate|].
  destruct (N.eqb c 48); [now injection H as <- <- | now apply JSONFacts.digits1_splits].
Qed.

Lemma lex_number_ahead : looks_one_ahead lex_number.
Proof.
  unfold lex_number.
  apply then_ahead; [apply lex_sign_ahead | |].
  - apply then_ahead; [apply lex_int_ahead | |].
    + apply then_ahead; [apply lex_frac_ahead | apply lex_exp_ahead | apply lex_exp_splits].
    + apply JSONFacts.then_splits; [apply lex_frac_splits | apply lex_exp_splits].
  - apply JSONFacts.then_splits; [apply lex_int_splits|].
    apply JSONFacts.then_splits; [apply lex_frac_splits | apply lex_exp_splits].
Qed.

(** What the lexer of numbers takes is a number literal. *)
Lemma lexed_number_literal (s lit rest : jsstring) :
  lex_number s = Some (lit, rest) -> number_literal lit = true.
Proof.
  intros H. unfold number_literal.
  pose proof (lex_number_ahead s lit rest [] H (or_introl eq_refl)) as E.
  rewrite app_nil_r in E. now rewrite E.
Qed.

(** *** Objects: assignments keep the order of an object *)

Lemma str_eqb_sym (a b : jsstring) : str_eqb a b = str_eqb b a.
Proof.
  destruct (str_eqb b a) eqn:E.
  - apply str_eqb_eq in E. subst. apply str_eqb_refl.
  - apply str_eqb_neq in E. apply str_eqb_neq. congruence.
Qed.

Lemma key_before_asym (k k' : jsstring) :
  key_before k k' = true -> key_before k' k = false.
Proof.
  unfold key_before.
  destruct (array_index k) as [a|], (array_index k') as [b|]; try easy.
  intros H. apply N.ltb_lt in H. apply N.ltb_ge. lia.
Qed.

Lemma key_before_left (k k' q : jsstring) :
  key_before k k' = true -> key_before q k' = false -> key_before q k = false.
Proof.
  unfold key_before.
  destruct (array_index k) as [a|], (array_index k') as [b|], (array_index q) as [c|];
    try easy.
  intros H1 H2. apply N.ltb_lt in H1. apply N.ltb_ge in H2. apply N.ltb_ge. lia.
Qed.

Lemma ordered_keys_ok_from (seen keys : list jsstring) :
  Forall (fun k => Forall (fun p => key_after p k) seen) keys -> ordered keys ->
  keys_ok_from seen keys = true.
Proof.
  revert seen. induction keys as [|k keys IH]; intros seen Hseen Hord; [reflexivity|].
  cbn [keys_ok_from]. inversion Hseen as [|? ? Hk Hrest]; subst.
  destruct Hord as [Hafter Hord]. apply andb_true_iff. split.
  - apply negb_true_iff. clear - Hk.
    induction seen as [|p seen IHs]; [reflexivity|]. cbn [existsb].
    inversion Hk as [|? ? [H1 H2] Hk']; subst. rewrite H1, H2. cbn [orb].
    now apply IHs.
  - apply IH; [|exact Hord].
    clear - Hrest Hafter. induction keys as [|k' keys IHk]; [constructor|].
    inversion Hrest; subst. inversion Hafter; subst.
    constructor; [|now apply IHk].
    apply Forall_app. split; [assumption|]. now constructor.
Qed.

Lemma ordered_keys_ok (keys : list jsstring) : ordered keys -> keys_ok keys = true.
Proof.
  intros H. apply ordered_keys_ok_from; [|exact H].
  clear H. induction keys; constructor; [constructor | assumption].
Qed.

Lemma replace_prop_keys (k : jsstring) (v : jsval) (o : list (jsstring * jsval)) :
  map fst (replace_prop k v o) = map fst o.
Proof.
  induction o as [|[k' v'] o IH]; [reflexivity|]. cbn [replace_prop].
  destruct (str_eqb k k'); cbn [map fst]; [reflexivity | now rewrite IH].
Qed.

Lemma insert_prop_keys (P : jsstring -> Prop) (k : jsstring) (v : jsval)
      (o : list (jsstring * jsval)) :
  P k -> Forall P (map fst o) -> Forall P (map fst (insert_prop k v o)).
Proof.
  intros Hk. induction o as [|[k' v'] o IH]; intros Ho; cbn [insert_prop].
  - now constructor.
  - destruct (key_before k k'); cbn [map fst] in *.
    + now constructor.
    + inversion Ho; subst. constructor; [assumption | now apply IH].
Qed.

Lemma has_key_none (k : jsstring) (o : list (jsstring * jsval)) :
  has_key k o = false -> Forall (fun q => str_eqb q k = false) (map fst o).
Proof.
  induction o as [|[k' v'] o IH]; intros H; [constructor|]. cbn [has_key] in H.
  apply orb_false_iff in H as [H1 H2]. cbn [map fst].
  constructor; [now rewrite str_eqb_sym | now apply IH].
Qed.

Lemma insert_prop_ordered (k : jsstring) (v : jsval) (o : list (jsstring * jsval)) :
  has_key k o = false -> ordered (map fst o) -> ordered (map fst (insert_prop k v o)).
Proof.
  induction o as [|[k' v'] o IH]; intros Hnew Hord; cbn [insert_prop].
  - cbn [map fst ordered]. split; [constructor | exact I].
  - cbn [has_key] in Hnew. apply orb_false_iff in Hnew as [Hkk' Hnew].
    cbn [map fst ordered] in Hord. destruct Hord as [Hafter Hord].
    destruct (key_before k k') eqn:Eb; cbn [map fst ordered].
    + split; [|split; assumption].
      constructor.
      * split; [now rewrite str_eqb_sym | now apply key_before_asym].
      * pose proof (has_key_none _ _ Hnew) as Hne.
        clear - Hne Hafter Eb. induction (map fst o) as [|q l IHl]; [constructor|].
        inversion Hne; subst. inversion Hafter as [|? ? [_ Hq] ?]; subst.
        constructor; [|now apply IHl].
        split; [assumption | exact (key_before_left _ _ _ Eb Hq)].
    + split; [|now apply IH].
      apply insert_prop_keys; [|exact Hafter]. now split.
Qed.

Lemma set_prop_ordered (k : jsstring) (v : jsval) (o : list (jsstring * jsval)) :
  ordered (map fst o) -> ordered (map fst (set_prop k v o)).
Proof.
  intros H. unfold set_prop. destruct (has_key k o) eqn:E.
  - now rewrite replace_prop_keys.
  - now apply insert_prop_ordered.
Qed.

Lemma set_prop_members (k : jsstring) (v : jsval) (o : list (jsstring * jsval)) :
  json_value v = true -> json_members o = true -> json_members (set_prop k v o) = true.
Proof.
  intros Hv. unfold set_prop, json_members. destruct (has_key k o).
  - induction o as [|[k' v'] o IH]; intros H; [reflexivity|].
    cbn [forallb snd] in H. apply andb_true_iff in H as [H1 H2]. cbn [replace_prop].
    destruct (str_eqb k k'); cbn [forallb snd].
    + now rewrite Hv, H2.
    + now rewrite H1, IH.
  - induction o as [|[k' v'] o IH]; intros H; cbn [insert_prop].
    + cbn [forallb snd]. now rewrite Hv.
    + cbn [forallb snd] in H. apply andb_true_iff in H as [H1 H2].
      destruct (key_before k k'); cbn [forallb snd].
      * now rewrite Hv, H1, H2.
      * now rewrite H1, IH.
Qed.

Lemma object_of_from (entries acc : list (jsstring * jsval)) :
  json_members entries = true -> json_members acc = true -> ordered (map fst acc) ->
  let o := fold_left (fun o kv => set_prop (fst kv) (snd kv) o) entries acc in
  json_members o = true /\ ordered (map fst o).
Proof.
  revert acc. induction entries as [|[k v] entries IH]; intros acc He Ha Ho; cbn [fold_left].
  - now split.
  - cbn [json_members forallb snd] in He. apply andb_true_iff in He as [Hv He].
    apply IH; [exact He | now apply set_prop_members | now apply set_prop_ordered].
Qed.

Lemma json_value_of_object (o : list (jsstring * jsval)) :
  json_value (VObj o) = (keys_ok (map fst o) && json_members o)%bool.
Proof.
  cbn [json_value]. f_equal. unfold json_members.
  induction o as [|[k v] o IH]; [reflexivity|]. cbn [forallb snd]. now rewrite IH.
Qed.

(** The object built from entries that are JSON values is a JSON value,
    whatever their keys and their order. *)
Lemma object_of_json_value (entries : list (jsstring * jsval)) :
  json_members entries = true -> json_value (VObj (object_of entries)) = true.
Proof.
  intros H. rewrite json_value_of_object. unfold object_of.
  destruct (object_of_from entries [] H eq_refl I) as [Hm Ho].
  now rewrite Hm, (ordered_keys_ok _ Ho).
Qed.

(** *** The reader *)

Lemma parse_gives_json_values (fuel : nat) :
  (forall s v r, parse_value fuel s = Some (v, r) -> json_value v = true) /\
  (forall s o r, parse_members fuel s = Some (o, r) -> json_members o = true) /\
  (forall s l r, parse_elements fuel s = Some (l, r) -> forallb json_value l = true).
Proof.
  induction fuel as [|f (IHv & IHm & IHe)]; [repeat split; discriminate|].
  split; [|split].
  - intros s v r. rewrite JSONFacts.parse_value_S.
    destruct (skip_ws s) as [|c t]; [discriminate|].
    repeat match goal with
           | |- context [if ?b then _ else _] => destruct b
           end.
    + destruct (skip_ws t) as [|c' t']; [discriminate|].
      destruct (N.eqb c' 125); [now intros [= <- _]|].
      destruct (parse_members f t) as [[o rest]|] eqn:E; [|discriminate].
      intros [= <- _]. apply object_of_json_value. exact (IHm _ _ _ E).
    + destruct (skip_ws t) as [|c' t']; [discriminate|].
      destruct (N.eqb c' 93); [now intros [= <- _]|].
      destruct (parse_elements f t) as [[l rest]|] eqn:E; [|discriminate].
      intros [= <- _]. cbn [json_value]. exact (IHe _ _ _ E).
    + destruct (parse_chars t) as [[str rest]|]; [|discriminate]. now intros [= <- _].
    + destruct (strip_prefix _ _); [|discriminate]. now intros [= <- _].
    + destruct (strip_prefix _ _); [|discriminate]. now intros [= <- _].
    + destruct (strip_prefix _ _); [|discriminate]. now intros [= <- _].
    + destruct (lex_number (c :: t)) as [[lit rest]|] eqn:E; [|discriminate].
      intros [= <- _]. cbn [json_value]. exact (lexed_number_literal _ _ _ E).
  - intros s o r. rewrite IndentFacts.parse_members_S.
    destruct (skip_ws s) as [|q t]; [discriminate|].
    destruct (N.eqb q 34); [|discriminate].
    destruct (parse_chars t) as [[k r1]|]; [|discriminate].
    destruct (skip_ws r1) as [|c r2]; [discriminate|].
    destruct (N.eqb c 58); [|discriminate].
    destruct (parse_value f r2) as [[v r3]|] eqn:Ev; [|discriminate].
    destruct (skip_ws r3) as [|d r4]; [discriminate|].
    destruct (N.eqb d 44).
    + destruct (parse_members f r4) as [[o' rest]|] eqn:Em; [|discriminate].
      intros [= <- _]. cbn [json_members forallb snd].
      rewrite (IHv _ _ _ Ev). exact (IHm _ _ _ Em).
    + destruct (N.eqb d 125); [|discriminate].
      intros [= <- _]. cbn [json_members forallb snd]. now rewrite (IHv _ _ _ Ev).
  - intros s l r. rewrite JSONFacts.parse_elements_S.
    destruct (parse_value f s) as [[v r1]|] eqn:Ev; [|discriminate].
    destruct (skip_ws r1) as [|d r2]; [discriminate|].
    destruct (N.eqb d 44).
    + destruct (parse_elements f r2) as [[l' rest]|] eqn:Ee; [|discriminate].
      intros [= <- _]. cbn [forallb]. rewrite (IHv _ _ _ Ev). exact (IHe _ _ _ Ee).
    + destruct (N.eqb d 93); [|discriminate].
      intros [= <- _]. cbn [forallb]. now rewrite (IHv _ _ _ Ev).
Qed.

(** What [JSON.parse] returns is a JSON value. *)
Lemma parse_json_value (text : jsstring) (v : jsval) :
  parse text = Some v -> json_value v = true.
Proof.
  unfold parse. destruct (parse_value (S (length text)) text) as [[x rest]|] eqn:E;
    [|discriminate].
  destruct (skip_ws rest); [|discriminate]. intros [= <-].
  exact (proj1 (parse_gives_json_values _) _ _ _ E).
Qed.

End ParseFacts.

(** ** tools/schemaGenerator: the schema that is handed out *)

Lemma keeps_written_pure_steps (result content : jsval) (api : string) (k : jsstring) :
  keeps written (first_choice_content result api) /\
  keeps written (JSON_parse content) /\
  keeps written (lift (get content k)) /\
  keeps written now_iso.
Proof.
  split; [|split; [|split]].
  - intros w. now rewrite (first_choice_content_pure result api w w).
  - intros w. unfold JSON_parse. now destruct (JSON.parse (ToString content)).
  - intros w. reflexivity.
  - intros w. reflexivity.
Qed.

Lemma JSON_parse_ok (content schema : jsval) (w w' : World) :
  JSON_parse content w = (Ok schema, w') ->
  JSON.parse (ToString content) = Some schema.
Proof.
  unfold JSON_parse. destruct (JSON.parse (ToString content)) as [v|]; [|discriminate].
  now intros [= <- _].
Qed.

(** An object literal of JSON values, once written with an indentation of
    at most ten, is read back. *)
Lemma literal_reads_back (n : nat) (entries : list (jsstring * jsval)) :
  json_members entries = true ->
  exists t,
    JSON.stringify_indent n (obj entries) = Some t /\ JSON.parse t = Some (obj entries).
Proof.
  intros H. apply IndentFacts.parse_stringify_indent.
  now apply ParseFacts.object_of_json_value.
Qed.

(** X21. For every successful [generate_schema] call. The schema is what
    [JSON.parse] makes of the content of the first choice of the response,
    an answer of the endpoint to the request of the call, and its
    [json_schema] is truthy. One file is written, at the schema path. When
    the numbers of the schema are plain: the text returned is JSON, and it
    is read back as an object with this schema, with [schema_json], the
    compact text of the schema, and with the metadata, which name the file
    saved; [schema_json] is read back as the schema, so [parseSchemaJson],
    to which [extract_information] hands a [schema_json], accepts it exactly
    when [validateSchemaFormat] accepts the schema and refuses it with the
    error of the validator otherwise; the file written is the JSON text of
    the schema under [generated_schema], with metadata of its own. (A
    number that is not plain, such as [1e999] or [1.0], is written by the
    engine in another form than it was read in, and the statement on the
    texts is not made for these.) *)
Theorem generated_schema_handed_out
        (o : SchemaGenerator.GenerateSchemaOptions) (w w' : World) (text : jsstring) :
  SchemaGenerator.generateSchema o w = (Ok text, w') ->
  exists result content fileBase64 i schema schemaPath generated_at saved,
    let request :=
      ApiClient.build_request (SchemaGenerator.apiKey o) Constants.SCHEMA_GENERATION
        (json_request
           (chat_request "information-extract"
              (FileUtils.getMimeType (SchemaGenerator.filePath o)) fileBase64 None)) in
    let source_file := VStr (Path.basename (SchemaGenerator.filePath o) None) in
    let response schema_json :=
      obj [ "schema" :-> schema;
            "schema_json" :-> VStr schema_json;
            "metadata" :->
              obj [ "source_file" :-> source_file;
                    "schema_saved_to" :-> VStr schemaPath;
                    "usage_instructions" :->
                      str "Copy the 'schema_json' value to use with extract_information tool when auto_generate_schema is false" ] ] in
    let file :=
      obj [ "generated_schema" :-> schema;
            "metadata" :->
              obj [ "source_file" :-> source_file;
                    "generated_at" :-> VStr generated_at;
                    "schema_saved_to" :-> VStr schemaPath ] ] in
    ApiClient.reply_at w i request = Response result /\
    fst (first_choice_content result "schema generation" w) = Ok content /\
    JSON.parse (ToString content) = Some schema /\
    truthy (prop schema "json_schema") = true /\
    written w' = written w ++ [(schemaPath, saved)] /\
    (plain_numbers schema = true ->
     exists schema_json,
       JSON.stringify schema = Some schema_json /\
       JSON.parse schema_json = Some schema /\
       SchemaHelper.parseSchemaJson schema_json
       = match SchemaHelper.validateSchemaFormat schema with
         | Ok _ => Ok schema
         | Throw e => Throw e
         end /\
       JSON.parse text = Some (response schema_json) /\
       JSON.parse saved = Some file).
Proof.
  intros H. unfold SchemaGenerator.generateSchema in H. cbv zeta in H.
  apply bind_ok_inv in H as (x1 & w1 & H1 & H).
  apply bind_ok_inv in H as (x2 & w2 & H2 & H).
  apply bind_ok_inv in H as (fileBase64 & w3 & H3 & H).
  apply bind_ok_inv in H as (x4 & w4 & H4 & H).
  apply bind_ok_inv in H as (x5 & w5 & H5 & H).
  apply bind_ok_inv in H as (result & w6 & H6 & H).
  apply bind_ok_inv in H as (x7 & w7 & H7 & H).
  apply bind_ok_inv in H as (content & w8 & H8 & H).
  apply bind_ok_inv in H as (schema & w9 & H9 & H).
  apply bind_ok_inv in H as (json_schema & w10 & H10 & H).
  destruct (truthy json_schema) eqn:Htruthy; cbn [negb] in H; [|discriminate H].
  apply bind_ok_inv in H as (schemaDir & w11 & H11 & H).
  apply bind_ok_inv in H as (x12 & w12 & H12 & H).
  apply bind_ok_inv in H as (schemaFilename & w13 & H13 & H).
  apply bind_ok_inv in H as (generated_at & w14 & H14 & H).
  apply bind_ok_inv in H as (x15 & w15 & H15 & H).
  apply bind_ok_inv in H as (x16 & w16 & H16 & H).
  pose proof (f_equal snd H) as Hw'. pose proof (f_equal fst H) as Htext.
  cbn [fst snd ret] in Hw', Htext. subst w16. apply Ok_inj in Htext. clear H.
  destruct x15.
  destruct (saveJsonToFile_ok _ _ _ _ _ H15) as (saved & Hsaved & ->).
  pose proof (ParseFacts.parse_json_value _ _ (JSON_parse_ok _ _ _ _ H9)) as Hjv.
  destruct (JSONFacts.parse_stringify schema Hjv) as (schema_json & Hjson & Hback).
  assert (json_schema = prop schema "json_schema") as ->.
  { unfold lift, get in H10. destruct schema; try discriminate H10;
      now injection H10 as <- _. }
  set (schemaPath := Path.join_paths [schemaDir; schemaFilename]) in *.
  rewrite Hjson in Htext. cbn [opt_str] in Htext.
  destruct (makeApiRequest_ok_reply _ _ _ _ _ _ _ H6) as [i Hi].
  assert (same_but_notified w w5) as Hsame.
  { pose proof (quiet_validateExtractionFile (SchemaGenerator.filePath o) w) as S1.
    rewrite H1 in S1.
    pose proof (quiet_report (SchemaGenerator.onProgress o) 10 w1) as S2. rewrite H2 in S2.
    pose proof (quiet_readFileAsBase64 (SchemaGenerator.filePath o) w2) as S3.
    rewrite H3 in S3.
    pose proof (quiet_report (SchemaGenerator.onProgress o) 30 w3) as S4. rewrite H4 in S4.
    pose proof (quiet_report (SchemaGenerator.onProgress o) 50 w4) as S5. rewrite H5 in S5.
    cbn [snd] in S1, S2, S3, S4, S5.
    exact (same_trans _ _ _ S1 (same_trans _ _ _ S2 (same_trans _ _ _ S3
             (same_trans _ _ _ S4 S5)))). }
  exists result, content, fileBase64, i, schema, schemaPath, generated_at, saved.
  cbv zeta.
  split; [rewrite (reply_at_same _ _ _ _ Hsame); exact Hi|].
  split.
  { rewrite (first_choice_content_pure result "schema generation" w w7) in H8.
    now injection H8 as -> _. }
  split; [exact (JSON_parse_ok _ _ _ _ H9)|].
  split; [exact Htruthy|].
  split.
  { destruct (keeps_written_pure_steps result content "schema generation" "json_schema")
      as (K8 & K9 & _ & K14).
    rewrite (kept written _ _ _ _ (keeps_written_report _ _) H16).
    cbn [written log_written]. f_equal.
    rewrite (kept written _ _ _ _ K14 H14),
      (kept written _ _ _ _ (keeps_written_generateTimestampedFilename _ _) H13),
      (kept written _ _ _ _ (keeps_written_ensureDirectoryExists _) H12),
      (kept written _ _ _ _ (keeps_written_getOutputDirectory _) H11).
    assert (w10 = w9) as ->.
    { unfold lift in H10. now injection H10 as _ <-. }
    rewrite (kept written _ _ _ _ K9 H9), (kept written _ _ _ _ K8 H8),
      (kept written _ _ _ _ (keeps_written_report _ _) H7),
      (kept written _ _ _ _ (keeps_written_makeApiRequest _ _ _ _) H6),
      (kept written _ _ _ _ (keeps_written_report _ _) H5),
      (kept written _ _ _ _ (keeps_written_report _ _) H4),
      (kept written _ _ _ _ (keeps_written_quiet _ (quiet_readFileAsBase64 _)) H3),
      (kept written _ _ _ _ (keeps_written_report _ _) H2),
      (kept written _ _ _ _ (keeps_written_quiet _ (quiet_validateExtractionFile _)) H1).
    reflexivity. }
  intros _. exists schema_json.
  split; [exact Hjson|]. split; [exact Hback|].
  split; [|split].
  - unfold SchemaHelper.parseSchemaJson. now rewrite Hback.
  - match type of Htext with
    | ToString (opt_str (JSON.stringify_indent 2 (obj ?entries))) = _ =>
        destruct (literal_reads_back 2 entries) as (t & Ht & Hparse)
    end.
    { unfold json_members. cbn [forallb snd]. rewrite Hjv. reflexivity. }
    rewrite Ht in Htext. cbn [opt_str ToString] in Htext. now subst t.
  - match type of Hsaved with
    | JSON.stringify_indent 2 (obj ?entries) = _ =>
        destruct (literal_reads_back 2 entries) as (t & Ht & Hparse)
    end.
    { unfold json_members. cbn [forallb snd]. rewrite Hjv. reflexivity. }
    rewrite Ht in Hsaved. injection Hsaved as <-. exact Hparse.
Qed.

Lemma generated_schema_handed_out_witness :
  let o :=
    {| SchemaGenerator.filePath := js "/docs/invoice.pdf";
       SchemaGenerator.apiKey := Scenario.key;
       SchemaGenerator.onProgress := Some Server.notify |} in
  let w :=
    Scenario.world
      (fun _ _ => Response (Scenario.chat_reply (jsq "{`json_schema`: {`name`: `invoice`}}"))) in
  let schema := obj [ "json_schema" :-> obj [ "name" :-> str "invoice" ] ] in
  exists schema_json schemaPath saved,
    JSON.parse schema_json = Some schema /\
    SchemaHelper.parseSchemaJson schema_json
    = match SchemaHelper.validateSchemaFormat schema with
      | Ok _ => Ok schema
      | Throw e => Throw e
      end /\
    written (snd (SchemaGenerator.generateSchema o w)) = written w ++ [(schemaPath, saved)].
Proof.
  intros o w schema.
  destruct (SchemaGenerator.generateSchema o w) as [[text|e] w'] eqn:Hrun.
  - destruct (generated_schema_handed_out o w w' text Hrun)
      as (result & content & b64 & i & schema' & path & at_ & saved
          & Hreply & Hcontent & Hschema & _ & Hwritten & Hplain).
    assert (result
            = Scenario.chat_reply (jsq "{`json_schema`: {`name`: `invoice`}}")) as ->.
    { unfold ApiClient.reply_at in Hreply. cbn [endpoint w Scenario.world] in Hreply.
      now injection Hreply as <-. }
    vm_compute in Hcontent. injection Hcontent as <-.
    vm_compute in Hschema. injection Hschema as <-.
    destruct (Hplain eq_refl) as (schema_json & _ & Hback & Hparse & _).
    exists schema_json, path, saved.
    split; [exact Hback|]. split; [exact Hparse | exact Hwritten].
  - exfalso. vm_compute in Hrun. discriminate Hrun.
Defined.

(** ** tools/informationExtractor: the schema file of a generation *)

Lemma lookup_json_value (k : jsstring) (o : list (jsstring * jsval)) (x : jsval) :
  json_members o = true -> lookup k o = Some x -> JSON.json_value x = true.
Proof.
  unfold json_members.
  induction o as [|[k' v'] o IH]; cbn [lookup forallb snd]; [discriminate|].
  intros H. apply andb_true_iff in H as [Hv Ho].
  destruct (str_eqb k k'); [now intros [= <-] | now apply IH].
Qed.

(** The [json_schema] of a JSON value is a JSON value when it is truthy. *)
Lemma json_schema_of_json_value (v : jsval) :
  JSON.json_value v = true -> truthy (prop v "json_schema") = true ->
  JSON.json_value (prop v "json_schema") = true.
Proof.
  destruct v as [| |b|lit|s|l|o];
    try (intros _ H; exfalso; vm_compute in H; discriminate H).
  - rewrite ParseFacts.json_value_of_object. intros H. apply andb_true_iff in H as [_ Hm].
    cbn [prop]. destruct (lookup (js "json_schema") o) as [x|] eqn:E; [|discriminate].
    intros _. exact (lookup_json_value _ _ _ Hm E).
Qed.

Lemma readJsonFile_of_text (path : jsstring) (w : World) (f : File) (v : jsval) :
  disk w path = Some (Regular f) -> JSON.parse (f_utf8 f) = Some v ->
  FileUtils.readJsonFile path w = (Ok v, w).
Proof.
  intros Hdisk Hparse. unfold FileUtils.readJsonFile, bind, fs_read.
  now rewrite Hdisk, Hparse.
Qed.

(** X22. The schema file of [extract_information]. When the generation of a
    schema succeeds, the schema it returns is truthy, and one file is
    written, the schema file. When the numbers of the schema are plain, the
    file holds the JSON text of this schema, indented by two, and it is
    read back by [readJsonFile] as the schema returned, from any disk that
    holds it at its path: a call that names it as [schema_path] (without
    [schema_json], and whose report of progress is accepted) resolves to
    the schema that the generation gave. (A number that is not plain is
    written by the engine in another form than it was read in, and the
    statement on the text is not made for these.) *)
Theorem generated_schema_file_is_reusable
        (filePath apiKey : jsstring) (onProgress : option Sink) (w w' : World)
        (schema : jsval) :
  InformationExtractor.generateSchema filePath apiKey onProgress w = (Ok schema, w') ->
  exists schemaPath text,
    truthy schema = true /\
    written w' = written w ++ [(schemaPath, text)] /\
    (plain_numbers schema = true ->
     JSON.stringify_indent 2 schema = Some text /\
     forall (w2 : World) (f : File),
      disk w2 schemaPath = Some (Regular f) -> f_utf8 f = text ->
      FileUtils.readJsonFile schemaPath w2 = (Ok schema, w2) /\
      forall o : InformationExtractor.ExtractInformationOptions,
        given (InformationExtractor.schemaJson o) = false ->
        InformationExtractor.schemaPath o = Some schemaPath ->
        given (InformationExtractor.schemaPath o) = true ->
        match InformationExtractor.onProgress o with
        | Some sink => sink 20%N = None
        | None => True
        end ->
        fst (InformationExtractor.resolveSchema o w2) = Ok schema).
Proof.
  intros H. unfold InformationExtractor.generateSchema in H. cbv zeta in H.
  apply bind_ok_inv in H as (x1 & w1 & H1 & H).
  apply bind_ok_inv in H as (fileBase64 & w2 & H2 & H).
  apply bind_ok_inv in H as (result & w3 & H3 & H).
  apply bind_ok_inv in H as (x4 & w4 & H4 & H).
  apply bind_ok_inv in H as (content & w5 & H5 & H).
  apply bind_ok_inv in H as (parsed & w6 & H6 & H).
  apply bind_ok_inv in H as (json_schema & w7 & H7 & H).
  destruct (truthy json_schema) eqn:Htruthy; cbn [negb] in H; [|discriminate H].
  apply bind_ok_inv in H as (schemaDir & w8 & H8 & H).
  apply bind_ok_inv in H as (x9 & w9 & H9 & H).
  apply bind_ok_inv in H as (schemaFilename & w10 & H10 & H).
  apply bind_ok_inv in H as (x11 & w11 & H11 & H).
  injection H as <- <-. destruct x11.
  destruct (saveJsonToFile_ok _ _ _ _ _ H11) as (text & Htext & ->).
  pose proof (ParseFacts.parse_json_value _ _ (JSON_parse_ok _ _ _ _ H6)) as Hjv.
  assert (json_schema = prop parsed "json_schema" /\ w7 = w6) as [-> ->].
  { unfold lift, get in H7. destruct parsed; try discriminate H7;
      now injection H7 as <- <-. }
  pose proof (json_schema_of_json_value parsed Hjv Htruthy) as Hschema.
  destruct (IndentFacts.parse_stringify_indent 2 _ Hschema) as (t & Ht & Hparse).
  rewrite Htext in Ht. injection Ht as <-.
  exists (Path.join_paths [schemaDir; schemaFilename]), text.
  split; [exact Htruthy|]. split; [|intros _; split; [exact Htext|]].
  - destruct (keeps_written_pure_steps result content "schema generation" "json_schema")
      as (K5 & K6 & _ & _).
    cbn [written log_written]. f_equal.
    rewrite (kept written _ _ _ _ (keeps_written_generateTimestampedFilename _ _) H10),
      (kept written _ _ _ _ (keeps_written_ensureDirectoryExists _) H9),
      (kept written _ _ _ _ (keeps_written_getOutputDirectory _) H8),
      (kept written _ _ _ _ K6 H6), (kept written _ _ _ _ K5 H5),
      (kept written _ _ _ _ (keeps_written_report _ _) H4),
      (kept written _ _ _ _ (keeps_written_makeApiRequest _ _ _ _) H3),
      (kept written _ _ _ _ (keeps_written_quiet _ (quiet_readFileAsBase64 _)) H2),
      (kept written _ _ _ _ (keeps_written_report _ _) H1).
    reflexivity.
  - intros v2 f Hdisk Hf. rewrite <- Hf in Hparse.
    pose proof (readJsonFile_of_text _ _ _ _ Hdisk Hparse) as Hread.
    split; [exact Hread|].
    intros o Hjson Hpath Hgiven Hsink.
    unfold InformationExtractor.resolveSchema. cbv zeta.
    rewrite Hjson, Hgiven, Hpath. unfold bind at 1. rewrite Hread.
    unfold bind, report, ret.
    destruct (InformationExtractor.onProgress o) as [sink|]; [|reflexivity].
    now rewrite Hsink.
Qed.

Lemma generated_schema_file_is_reusable_witness :
  let w :=
    Scenario.world
      (fun _ _ => Response (Scenario.chat_reply (Scenario.text_of SchemaHelper.receipt))) in
  let run :=
    InformationExtractor.generateSchema (js "/docs/invoice.pdf") Scenario.key None w in
  exists schemaPath text,
    fst run = Ok (prop SchemaHelper.receipt "json_schema") /\
    written (snd run) = written w ++ [(schemaPath, text)] /\
    forall (w2 : World) (f : File),
      disk w2 schemaPath = Some (Regular f) -> f_utf8 f = text ->
      FileUtils.readJsonFile schemaPath w2
      = (Ok (prop SchemaHelper.receipt "json_schema"), w2).
Proof.
  intros w run.
  destruct run as [[schema|e] w'] eqn:Hrun.
  - destruct (generated_schema_file_is_reusable _ _ _ w w' schema Hrun)
      as (path & text & _ & Hwritten & Hplain).
    assert (schema = prop SchemaHelper.receipt "json_schema") as Hschema.
    { assert (fst run = Ok schema) as E by (now rewrite Hrun).
      vm_compute in E. injection E as <-. vm_compute. reflexivity. }
    assert (plain_numbers schema = true) as Hp by (rewrite Hschema; vm_compute; reflexivity).
    destruct (Hplain Hp) as [_ Hread].
    exists path, text. split; [now rewrite Hschema|]. split; [exact Hwritten|].
    intros w2 f Hdisk Hf. rewrite <- Hschema. exact (proj1 (Hread w2 f Hdisk Hf)).
  - exfalso. vm_compute in Hrun. discriminate Hrun.
Defined.

(** ** tools/informationExtractor: what is sent, saved and returned *)

Lemma quiet_given_schema (o : InformationExtractor.ExtractInformationOptions) :
  given (InformationExtractor.schemaJson o) = true
  \/ given (InformationExtractor.schemaPath o) = true ->
  quiet (InformationExtractor.resolveSchema o).
Proof.
  intros H. unfold InformationExtractor.resolveSchema. cbv zeta.
  destruct (given (InformationExtractor.schemaJson o)); [quiet_steps|].
  destruct (given (InformationExtractor.schemaPath o)); [quiet_steps|].
  destruct H; discriminate.
Qed.

(** The endpoint is the same all along a call. *)
Lemma keeps_endpoint_quiet {A} (m : M A) : quiet m -> keeps endpoint m.
Proof. intros H w. destruct (H w) as (_&_&_&_&He&_). now symmetry. Qed.

Lemma keeps_endpoint_makeApiRequest (url apiKey : jsstring)
      (options : ApiClient.ApiRequestOptions) (operation : option jsstring) :
  keeps endpoint (ApiClient.makeApiRequest url apiKey options operation).
Proof.
  intros w. unfold ApiClient.makeApiRequest, ApiClient.makeRequest, ApiClient.sendRequest.
  destruct (attempt_footprint
              (match operation with Some o => o | None => js "API request" end)
              (ApiClient.build_request apiKey url options)
              (Retry.timeouts (Constants.RETRY_ATTEMPTS - 1) 2 Constants.RETRY_DELAY
                 (Constants.RETRY_DELAY * 4)) [] 1 w)
    as (n & _ & _ & _ & (_&_&_&_&He&_)).
  now symmetry.
Qed.

Lemma keeps_endpoint_first_choice_content (result : jsval) (api : string) :
  keeps endpoint (first_choice_content result api).
Proof. intros w. now rewrite (first_choice_content_pure result api w w). Qed.

Lemma keeps_endpoint_JSON_parse (v : jsval) : keeps endpoint (JSON_parse v).
Proof. intros w. unfold JSON_parse. now destruct (JSON.parse (ToString v)). Qed.

Lemma keeps_endpoint_getOutputDirectory (subDir : jsstring) :
  keeps endpoint (FileUtils.getOutputDirectory subDir).
Proof. intros w. reflexivity. Qed.

Lemma keeps_endpoint_ensureDirectoryExists (path : jsstring) :
  keeps endpoint (FileUtils.ensureDirectoryExists path).
Proof.
  intros w. unfold FileUtils.ensureDirectoryExists, fs_mkdir. now destruct (read_only w path).
Qed.

Lemma keeps_endpoint_generateTimestampedFilename (path : jsstring) (suffix : option jsstring) :
  keeps endpoint (FileUtils.generateTimestampedFilename path suffix).
Proof. intros w. reflexivity. Qed.

Lemma keeps_endpoint_saveJsonToFile (data : jsval) (path : jsstring) (indent : option nat) :
  keeps endpoint (FileUtils.saveJsonToFile data path indent).
Proof.
  intros w. unfold FileUtils.saveJsonToFile, fs_writeFile.
  destruct (JSON.stringify_indent _ data); [|reflexivity].
  now destruct (read_only w path).
Qed.

Lemma keeps_endpoint_generateSchema (filePath apiKey : jsstring) (onProgress : option Sink) :
  keeps endpoint (InformationExtractor.generateSchema filePath apiKey onProgress).
Proof.
  unfold InformationExtractor.generateSchema. cbv zeta.
  repeat first
    [ apply keeps_endpoint_makeApiRequest
    | apply keeps_endpoint_first_choice_content
    | apply keeps_endpoint_JSON_parse
    | apply keeps_endpoint_getOutputDirectory
    | apply keeps_endpoint_ensureDirectoryExists
    | apply keeps_endpoint_generateTimestampedFilename
    | apply keeps_endpoint_saveJsonToFile
    | apply keeps_endpoint_quiet; solve [auto with quiet]
    | match goal with
      | |- keeps _ (if ?b then _ else _) => destruct b
      | |- keeps _ (bind _ _) => apply keeps_bind; [|intros ?]
      end ].
Qed.

Lemma keeps_endpoint_resolveSchema (o : InformationExtractor.ExtractInformationOptions) :
  keeps endpoint (InformationExtractor.resolveSchema o).
Proof.
  destruct (given (InformationExtractor.schemaJson o)) eqn:Gj;
    [apply keeps_endpoint_quiet, quiet_given_schema; now left|].
  destruct (given (InformationExtractor.schemaPath o)) eqn:Gp;
    [apply keeps_endpoint_quiet, quiet_given_schema; now right|].
  unfold InformationExtractor.resolveSchema. cbv zeta. rewrite Gj, Gp.
  destruct (match InformationExtractor.autoGenerateSchema o with
            | Some b => b
            | None => true
            end);
    [apply keeps_endpoint_generateSchema | apply keeps_endpoint_quiet, quiet_ret].
Qed.

(** X17. For every successful [extract_information] call. The last request
    of the call is the extraction request, and it carries the schema as its
    response format; when [schema_json] is given, this schema is the one of
    that text, also when a [schema_path] is given with it. The extracted
    data are what [JSON.parse] makes of the content of the first choice of
    the response, an answer of the endpoint to this request. The last file
    written is the result, at the output path, and it holds exactly the text
    the call returns. When the numbers of the extracted data are plain,
    this text is the JSON text, indented by two, of the extracted data and
    of the metadata, which [JSON.parse] reads back as this very object.
    Among the metadata, [schema_used] is the [schema_path] of the call when
    it has one, and [auto-generated] in every other case, also when the
    schema came from [schema_json]. (A number that is not plain is written
    by the engine in another form than it was read in, and the statement on
    the text is not made for these.) *)
Theorem extraction_saved_and_returned
        (o : InformationExtractor.ExtractInformationOptions) (w w' : World) (text : jsstring) :
  InformationExtractor.extractInformation o w = (Ok text, w') ->
  exists schema fileBase64 result content extractedData outputPath sent saved n i,
    let request :=
      ApiClient.build_request (InformationExtractor.apiKey o) Constants.INFORMATION_EXTRACTION
        (json_request
           (chat_request "information-extract"
              (FileUtils.getMimeType (InformationExtractor.filePath o)) fileBase64
              (Some (obj [ "type" :-> str "json_schema"; "json_schema" :-> schema ])))) in
    let response :=
      obj [ "extracted_data" :-> extractedData;
            "metadata" :->
              obj [ "file" :-> VStr (Path.basename (InformationExtractor.filePath o) None);
                    "result_saved_to" :-> VStr outputPath;
                    "schema_used" :->
                      match InformationExtractor.schemaPath o with
                      | Some (c :: p) => VStr (c :: p)
                      | _ => str "auto-generated"
                      end ] ] in
    1 <= n <= 3 /\
    requests w' = sent ++ repeat request n /\
    endpoint w (length sent + i) request = Response result /\
    fst (first_choice_content result "information extraction" w) = Ok content /\
    JSON.parse (ToString content) = Some extractedData /\
    written w' = saved ++ [(outputPath, text)] /\
    (plain_numbers extractedData = true ->
     JSON.stringify_indent 2 response = Some text /\
     JSON.parse text = Some response) /\
    (forall s,
        InformationExtractor.schemaJson o = Some s -> s <> [] ->
        exists parsed,
          SchemaHelper.parseSchemaJson s = Ok parsed /\
          schema = prop parsed "json_schema" /\
          sent = requests w /\ saved = written w).
Proof.
  intros H. unfold InformationExtractor.extractInformation in H. cbv zeta in H.
  apply bind_ok_inv in H as (x1 & w1 & H1 & H).
  apply bind_ok_inv in H as (x2 & w2 & H2 & H).
  apply bind_ok_inv in H as (schema & w3 & H3 & H).
  destruct (truthy schema) eqn:Hschema; cbn [negb] in H; [|discriminate H].
  apply bind_ok_inv in H as (x4 & w4 & H4 & H).
  apply bind_ok_inv in H as (fileBase64 & w5 & H5 & H).
  apply bind_ok_inv in H as (result & w6 & H6 & H).
  apply bind_ok_inv in H as (content & w7 & H7 & H).
  apply bind_ok_inv in H as (extractedData & w8 & H8 & H).
  apply bind_ok_inv in H as (x9 & w9 & H9 & H).
  apply bind_ok_inv in H as (outputDir & w10 & H10 & H).
  apply bind_ok_inv in H as (x11 & w11 & H11 & H).
  apply bind_ok_inv in H as (outputFilename & w12 & H12 & H).
  apply bind_ok_inv in H as (x13 & w13 & H13 & H).
  apply bind_ok_inv in H as (x14 & w14 & H14 & H).
  pose proof (f_equal snd H) as Hw'. pose proof (f_equal fst H) as Htext.
  cbn [fst snd ret] in Hw', Htext. subst w14. apply Ok_inj in Htext. clear H.
  destruct x13.
  destruct (saveJsonToFile_ok _ _ _ _ _ H13) as (content' & Hcontent & ->).
  destruct (makeApiRequest_requests _ _ _ _ _ _ _ H6) as (n & Hn & Hreq).
  assert (requests w' = requests w5
                          ++ repeat
                               (ApiClient.build_request (InformationExtractor.apiKey o)
                                  Constants.INFORMATION_EXTRACTION
                                  (json_request
                                     (chat_request "information-extract"
                                        (FileUtils.getMimeType (InformationExtractor.filePath o))
                                        fileBase64
                                        (Some (obj [ "type" :-> str "json_schema";
                                                     "json_schema" :-> schema ]))))) n)
    as Hrequests.
  { rewrite (kept requests _ _ _ _ (silent_report _ _) H14).
    change (requests (log_written ?p ?c ?x)) with (requests x).
    rewrite (kept requests _ _ _ _ (silent_generateTimestampedFilename _ _) H12),
      (kept requests _ _ _ _ (silent_ensureDirectoryExists _) H11),
      (kept requests _ _ _ _ (silent_getOutputDirectory _) H10),
      (kept requests _ _ _ _ (silent_report _ _) H9),
      (kept requests _ _ _ _ (silent_JSON_parse _) H8),
      (kept requests _ _ _ _ (silent_first_choice_content _ _) H7).
    exact Hreq. }
  assert (written w' = written w5
                         ++ [(Path.join_paths [outputDir; outputFilename], content')])
    as Hwritten.
  { rewrite (kept written _ _ _ _ (keeps_written_report _ _) H14).
    cbn [written log_written]. f_equal.
    rewrite (kept written _ _ _ _ (keeps_written_generateTimestampedFilename _ _) H12),
      (kept written _ _ _ _ (keeps_written_ensureDirectoryExists _) H11),
      (kept written _ _ _ _ (keeps_written_getOutputDirectory _) H10),
      (kept written _ _ _ _ (keeps_written_report _ _) H9).
    assert (w8 = w7) as ->.
    { unfold JSON_parse in H8. destruct (JSON.parse (ToString content));
        [now injection H8 as _ <- | discriminate H8]. }
    assert (w7 = w6) as ->.
    { rewrite (first_choice_content_pure result "information extraction" w6 w6) in H7.
      now injection H7 as _ <-. }
    exact (kept written _ _ _ _ (keeps_written_makeApiRequest _ _ _ _) H6). }
  assert (content' = text) as ->.
  { rewrite Hcontent in Htext. exact Htext. }
  assert ((if given (InformationExtractor.schemaPath o)
           then opt_str (InformationExtractor.schemaPath o)
           else str "auto-generated")
          = match InformationExtractor.schemaPath o with
            | Some (c :: p) => VStr (c :: p)
            | _ => str "auto-generated"
            end) as Hused.
  { now destruct (InformationExtractor.schemaPath o) as [[|c p]|]. }
  rewrite Hused in Hcontent.
  destruct (makeApiRequest_ok_reply _ _ _ _ _ _ _ H6) as [i Hi].
  assert (endpoint w5 = endpoint w) as He5.
  { rewrite (kept endpoint _ _ _ _ (keeps_endpoint_quiet _ (quiet_readFileAsBase64 _)) H5),
      (kept endpoint _ _ _ _ (keeps_endpoint_quiet _ (quiet_report _ _)) H4),
      (kept endpoint _ _ _ _ (keeps_endpoint_resolveSchema _) H3),
      (kept endpoint _ _ _ _ (keeps_endpoint_quiet _ (quiet_report _ _)) H2),
      (kept endpoint _ _ _ _ (keeps_endpoint_quiet _ (quiet_validateExtractionFile _)) H1).
    reflexivity. }
  exists schema, fileBase64, result, content, extractedData,
    (Path.join_paths [outputDir; outputFilename]), (requests w5), (written w5), n, i.
  cbv zeta.
  split; [exact Hn|]. split; [exact Hrequests|].
  split; [unfold ApiClient.reply_at in Hi; rewrite He5 in Hi; exact Hi|].
  split.
  { rewrite (first_choice_content_pure result "information extraction" w w6) in H7.
    now injection H7 as -> _. }
  split; [exact (JSON_parse_ok _ _ _ _ H8)|].
  split; [exact Hwritten|].
  split.
  { intros _. split; [exact Hcontent|].
    pose proof (ParseFacts.parse_json_value _ _ (JSON_parse_ok _ _ _ _ H8)) as Hjv.
    match type of Hcontent with
    | JSON.stringify_indent 2 (obj ?entries) = _ =>
        destruct (literal_reads_back 2 entries) as (t & Ht & Hparse)
    end.
    { unfold json_members. cbn [forallb snd]. rewrite Hjv.
      now destruct (InformationExtractor.schemaPath o) as [[|c p]|]. }
    rewrite Ht in Hcontent. injection Hcontent as <-. exact Hparse. }
  intros s Hs Hne.
  assert (given (InformationExtractor.schemaJson o) = true) as Hgiven.
  { rewrite Hs. now destruct s. }
  pose proof (quiet_given_schema o (or_introl Hgiven)) as Hquiet.
  assert (same_but_notified w w5) as Hsame.
  { pose proof (quiet_validateExtractionFile (InformationExtractor.filePath o) w) as S1.
    rewrite H1 in S1.
    pose proof (quiet_report (InformationExtractor.onProgress o) 10 w1) as S2.
    rewrite H2 in S2.
    pose proof (Hquiet w2) as S3. rewrite H3 in S3.
    pose proof (quiet_report (InformationExtractor.onProgress o) 60 w3) as S4.
    rewrite H4 in S4.
    pose proof (quiet_readFileAsBase64 (InformationExtractor.filePath o) w4) as S5.
    rewrite H5 in S5. cbn [snd] in S1, S2, S3, S4, S5.
    exact (same_trans _ _ _ S1 (same_trans _ _ _ S2 (same_trans _ _ _ S3
             (same_trans _ _ _ S4 S5)))). }
  unfold InformationExtractor.resolveSchema in H3. cbv zeta in H3.
  rewrite Hgiven, Hs in H3.
  apply bind_ok_inv in H3 as (schema0 & w2' & Hparse & H3).
  destruct (SchemaHelper.parseSchemaJson s) as [parsed|error]; [|discriminate Hparse].
  injection Hparse as <- <-.
  apply bind_ok_inv in H3 as (x & w2'' & _ & H3). injection H3 as <- _.
  exists parsed. split; [reflexivity|]. split; [reflexivity|].
  destruct Hsame as (_&_&_&_&_&_&Hr&_&_&Hwr&_). now split.
Qed.

Lemma extraction_saved_and_returned_witness :
  let o :=
    {| InformationExtractor.filePath := js "/docs/invoice.pdf";
       InformationExtractor.apiKey := Scenario.key;
       InformationExtractor.schemaPath := Some (js "/schemas/invoice.json");
       InformationExtractor.schemaJson := None;
       InformationExtractor.autoGenerateSchema := Some false;
       InformationExtractor.onProgress := Some Server.notify |} in
  let w := Scenario.world (fun _ _ => Response (Scenario.chat_reply (jsq "{`total_amount`:12}"))) in
  exists outputPath text saved,
    fst (InformationExtractor.extractInformation o w) = Ok text /\
    written (snd (InformationExtractor.extractInformation o w)) = saved ++ [(outputPath, text)].
Proof.
  intros o w.
  destruct (InformationExtractor.extractInformation o w) as [[text|e] w'] eqn:Hrun.
  - destruct (extraction_saved_and_returned o w w' text Hrun)
      as (schema & b64 & result & content & data & path & sent & saved & n & i
          & _ & _ & _ & _ & _ & Hwritten & _).
    exists path, text, saved. now split.
  - exfalso. vm_compute in Hrun. discriminate Hrun.
Defined.

(** ** httpServer: the session identifier *)

Lemma cors_no_session (req : HttpServer.HttpRequest) :
  FileUtils.assoc (js "Mcp-Session-Id") (HttpServer.cors req) = None.
Proof. reflexivity. Qed.

Lemma assoc_app_none (k : jsstring) (a b : list (jsstring * jsstring)) :
  FileUtils.assoc k a = None -> FileUtils.assoc k (a ++ b) = FileUtils.assoc k b.
Proof.
  induction a as [|[k' v'] a IH]; cbn [FileUtils.assoc app]; [reflexivity|].
  destruct (str_eqb k k'); [discriminate | exact IH].
Qed.

(** X23. The [Mcp-Session-Id] header of a response. The application sets it
    on the answers of [POST /mcp] to the requests whose body the parsers
    accepted and that passed the gate of the [Accept] header, to the
    identifier of the request when the request has one that is not empty:
    on the list of tools as on the errors [Invalid Request] and [Method not
    found]. No other response carries it: not the error page sent for a
    body that the parsers refuse, not the refusal of the gate, not the
    stream of [GET /mcp], not the answers to [OPTIONS], to [HEAD] and to
    [/health], not the 404. So a response never carries an identifier that
    its request did not supply. *)
Theorem session_id_is_echoed (framework : HttpServer.Framework) (inc : HttpServer.Incoming) :
  let echoed :=
    FileUtils.assoc (js "Mcp-Session-Id")
      (HttpServer.headers (HttpServer.app framework inc)) in
  echoed
  = match HttpServer.body_parsers framework (HttpServer.in_sent inc) with
    | HttpServer.Body _ =>
        if str_eqb (HttpServer.in_method inc) "POST"
           && HttpServer.route (HttpServer.in_path inc) "/mcp"
           && HttpServer.acceptable (HttpServer.in_accept inc)
        then match HttpServer.in_mcp_session_id inc with
             | Some (c :: s) => Some (c :: s)
             | _ => None
             end
        else None
    | HttpServer.Refused _ => None
    end /\
  (forall s, echoed = Some s -> HttpServer.in_mcp_session_id inc = Some s).
Proof.
  cbv zeta.
  assert (forall req,
             FileUtils.assoc (js "Mcp-Session-Id") (HttpServer.headers (HttpServer.handle req))
             = (if str_eqb (HttpServer.method req) "POST"
                   && HttpServer.route (HttpServer.path req) "/mcp"
                   && HttpServer.acceptable (HttpServer.accept req)
                then match HttpServer.mcp_session_id req with
                     | Some (c :: s) => Some (c :: s)
                     | _ => None
                     end
                else None)) as Hhandle.
  { intros req.
    assert (forall status payload extra,
               FileUtils.assoc (js "Mcp-Session-Id")
                 (HttpServer.headers
                    {| HttpServer.status := status;
                       HttpServer.headers := HttpServer.cors req ++ extra;
                       HttpServer.payload := payload |})
               = FileUtils.assoc (js "Mcp-Session-Id") extra) as Hextra.
    { intros status payload extra. cbn [HttpServer.headers].
      now rewrite (assoc_app_none _ _ _ (cors_no_session req)). }
    assert (FileUtils.assoc (js "Mcp-Session-Id") (HttpServer.headers (HttpServer.get_mcp req))
            = None) as Hget.
    { unfold HttpServer.get_mcp. destruct (negb _); now rewrite Hextra. }
    assert (FileUtils.assoc (js "Mcp-Session-Id")
              (HttpServer.headers (HttpServer.get_health req)) = None) as Hhealth.
    { unfold HttpServer.get_health. now rewrite Hextra. }
    unfold HttpServer.handle.
    destruct (str_eqb (HttpServer.method req) "OPTIONS") eqn:Eo.
    { apply str_eqb_eq in Eo. rewrite Eo. reflexivity. }
    destruct (str_eqb (HttpServer.method req) "GET") eqn:Eg.
    { apply str_eqb_eq in Eg. rewrite Eg.
      change (str_eqb (js "GET") (js "POST")) with false.
      change (str_eqb (js "GET") (js "HEAD")) with false. cbn [andb].
      destruct (HttpServer.route (HttpServer.path req) "/health"); [exact Hhealth|].
      destruct (HttpServer.route (HttpServer.path req) "/mcp"); [exact Hget|].
      now rewrite Hextra. }
    destruct (str_eqb (HttpServer.method req) "HEAD") eqn:Eh.
    { apply str_eqb_eq in Eh. rewrite Eh.
      change (str_eqb (js "HEAD") (js "POST")) with false. cbn [andb].
      destruct (HttpServer.route (HttpServer.path req) "/health"); [exact Hhealth|].
      destruct (HttpServer.route (HttpServer.path req) "/mcp"); [exact Hget|].
      now rewrite Hextra. }
    cbn [andb].
    destruct (str_eqb (HttpServer.method req) "POST"); cbn [andb];
      [|now rewrite Hextra].
    destruct (HttpServer.route (HttpServer.path req) "/mcp"); cbn [andb];
      [|now rewrite Hextra].
    unfold HttpServer.post_mcp.
    destruct (HttpServer.acceptable (HttpServer.accept req)); cbn [negb];
      [|now rewrite Hextra].
    cbv zeta.
    repeat match goal with
           | |- context [if SchemaHelper.not_an_object ?b then _ else _] =>
               destruct (SchemaHelper.not_an_object b)
           | |- context [if is_string ?a ?b then _ else _] => destruct (is_string a b)
           end;
      rewrite Hextra; cbn [app FileUtils.assoc];
      change (str_eqb (js "Mcp-Session-Id") (fst HttpServer.json_type)) with false;
      destruct (HttpServer.mcp_session_id req) as [[|c s]|]; reflexivity. }
  assert (FileUtils.assoc (js "Mcp-Session-Id")
            (HttpServer.headers (HttpServer.app framework inc))
          = match HttpServer.body_parsers framework (HttpServer.in_sent inc) with
            | HttpServer.Body _ =>
                if str_eqb (HttpServer.in_method inc) "POST"
                   && HttpServer.route (HttpServer.in_path inc) "/mcp"
                   && HttpServer.acceptable (HttpServer.in_accept inc)
                then match HttpServer.in_mcp_session_id inc with
                     | Some (c :: s) => Some (c :: s)
                     | _ => None
                     end
                else None
            | HttpServer.Refused _ => None
            end) as Hecho.
  { unfold HttpServer.app.
    destruct (HttpServer.body_parsers framework (HttpServer.in_sent inc)) as [body|status];
      [|reflexivity].
    exact (Hhandle (HttpServer.parsed_request inc body)). }
  split; [exact Hecho|].
  intros s. rewrite Hecho.
  destruct (HttpServer.body_parsers framework (HttpServer.in_sent inc)); [|discriminate].
  destruct (_ && _ && _)%bool; [|discriminate].
  destruct (HttpServer.in_mcp_session_id inc) as [[|c s']|]; [discriminate | | discriminate].
  now intros [= <-].
Qed.

Lemma session_id_is_echoed_witness :
  let inc := Scenario.post_json (jsq "{`jsonrpc`:`2.0`,`id`:1,`method`:`tools/list`}") in
  FileUtils.assoc (js "Mcp-Session-Id")
    (HttpServer.headers (HttpServer.app HttpServer.Express4 inc))
  = Some (js "session-1") /\
  HttpServer.in_mcp_session_id inc = Some (js "session-1").
Proof.
  intros inc. split; [reflexivity|].
  apply (proj2 (session_id_is_echoed HttpServer.Express4 inc)). reflexivity.
Defined.

(** ** The progress a call reports *)

Lemma climbs_bounds (lo hi : N) (ps : list N) : climbs lo ps hi = true -> (lo <= hi)%N.
Proof.
  revert lo. induction ps as [|p ps IH]; intros lo; cbn [climbs].
  - apply N.leb_le.
  - intros H. apply andb_true_iff in H as [H1 H2]. apply N.ltb_lt in H1.
    specialize (IH _ H2). lia.
Qed.

Lemma climbs_from_below (lo lo' hi : N) (ps : list N) :
  (lo <= lo')%N -> climbs lo' ps hi = true -> climbs lo ps hi = true.
Proof.
  intros Hlo. destruct ps as [|p ps]; cbn [climbs].
  - intros H. apply N.leb_le in H. apply N.leb_le. lia.
  - intros H. apply andb_true_iff in H as [H1 H2]. rewrite H2, andb_true_r.
    apply N.ltb_lt in H1. apply N.ltb_lt. lia.
Qed.

Lemma climbs_app (lo mid hi : N) (ps qs : list N) :
  climbs lo ps mid = true -> climbs mid qs hi = true -> climbs lo (ps ++ qs) hi = true.
Proof.
  revert lo. induction ps as [|p ps IH]; intros lo; cbn [climbs app].
  - intros H. apply N.leb_le in H. now apply climbs_from_below.
  - intros H Hq. apply andb_true_iff in H as [H1 H2]. rewrite H1. cbn [andb].
    now apply IH.
Qed.

(** All the values are above the first bound and not above the second, and
    no value comes twice. *)
Lemma climbs_within (lo hi : N) (ps : list N) :
  climbs lo ps hi = true -> Forall (fun p => (lo < p <= hi)%N) ps /\ NoDup ps.
Proof.
  revert lo. induction ps as [|p ps IH]; intros lo; cbn [climbs]; [now split; constructor|].
  intros H. apply andb_true_iff in H as [H1 H2]. apply N.ltb_lt in H1.
  destruct (IH _ H2) as [Hall Hnd]. pose proof (climbs_bounds _ _ _ H2) as Hb.
  split.
  - constructor; [lia|]. revert Hall. apply Forall_impl. intros q Hq. lia.
  - constructor; [|exact Hnd]. intros Hin.
    rewrite Forall_forall in Hall. specialize (Hall _ Hin). lia.
Qed.

Lemma reports_still {A} (lo : N) (m : M A) : keeps notified m -> reports lo lo m.
Proof.
  intros H w. exists []. rewrite app_nil_r. split; [apply H|]. apply N.leb_refl.
Qed.

Lemma reports_report (sink : option Sink) (lo p : N) :
  N.ltb lo p = true -> reports lo p (report sink p).
Proof.
  intros Hp w. unfold report. destruct sink as [sink|].
  - destruct (sink p).
    + exists []. rewrite app_nil_r. split; [reflexivity|].
      apply N.leb_le. apply N.ltb_lt in Hp. lia.
    + exists [p]. split; [reflexivity|]. cbn [climbs]. now rewrite Hp, N.leb_refl.
  - exists []. rewrite app_nil_r. split; [reflexivity|].
    apply N.leb_le. apply N.ltb_lt in Hp. lia.
Qed.

Lemma reports_bind {A B} (lo mid hi : N) (m : M A) (k : A -> M B) :
  reports lo mid m -> (forall a, reports mid hi (k a)) -> (mid <= hi)%N ->
  reports lo hi (bind m k).
Proof.
  intros Hm Hk Hle w. unfold bind. destruct (Hm w) as (ps & Hps & Hc).
  destruct (m w) as [[a|e] w1]; cbn [snd] in Hps |- *.
  - destruct (Hk a w1) as (qs & Hqs & Hd). exists (ps ++ qs). split.
    + now rewrite Hqs, Hps, app_assoc.
    + exact (climbs_app _ _ _ _ _ Hc Hd).
  - exists ps. split; [exact Hps|].
    rewrite <- (app_nil_r ps). apply (climbs_app _ mid); [exact Hc|].
    now apply N.leb_le.
Qed.

Lemma reports_ret {A} (lo hi : N) (a : A) : N.leb lo hi = true -> reports lo hi (ret a).
Proof. intros H w. exists []. rewrite app_nil_r. now split. Qed.

Lemma reports_throw {A} (lo hi : N) (e : exn) :
  N.leb lo hi = true -> reports lo hi (@throw A e).
Proof. intros H w. exists []. rewrite app_nil_r. now split. Qed.

Lemma reports_more {A} (lo mid hi : N) (m : M A) :
  (mid <= hi)%N -> reports lo mid m -> reports lo hi m.
Proof.
  intros Hle H w. destruct (H w) as (ps & Hps & Hc). exists ps. split; [exact Hps|].
  rewrite <- (app_nil_r ps). apply (climbs_app _ mid); [exact Hc|]. now apply N.leb_le.
Qed.

(** The steps that notify nothing. *)
Lemma keeps_notified_validateDocumentFile (path : jsstring) :
  keeps notified (Validators.validateDocumentFile path).
Proof. intros w. now rewrite validateDocumentFile_world. Qed.

Lemma keeps_notified_validateExtractionFile (path : jsstring) :
  keeps notified (Validators.validateExtractionFile path).
Proof. intros w. now rewrite validateExtractionFile_world. Qed.

Lemma keeps_notified_fs_read (path : jsstring) : keeps notified (fs_read path).
Proof. intros w. unfold fs_read. now destruct (disk w path) as [[f|n|code]|]. Qed.

Lemma keeps_notified_readFileAsBase64 (path : jsstring) :
  keeps notified (FileUtils.readFileAsBase64 path).
Proof.
  unfold FileUtils.readFileAsBase64. apply keeps_bind; [apply keeps_notified_fs_read|].
  intros f w. reflexivity.
Qed.

Lemma keeps_notified_readJsonFile (path : jsstring) :
  keeps notified (FileUtils.readJsonFile path).
Proof.
  unfold FileUtils.readJsonFile. apply keeps_bind; [apply keeps_notified_fs_read|].
  intros f w. now destruct (JSON.parse (f_utf8 f)).
Qed.

Lemma keeps_notified_makeApiRequest (url apiKey : jsstring)
      (options : ApiClient.ApiRequestOptions) (operation : option jsstring) :
  keeps notified (ApiClient.makeApiRequest url apiKey options operation).
Proof.
  intros w. unfold ApiClient.makeApiRequest, ApiClient.makeRequest, ApiClient.sendRequest.
  destruct (attempt_footprint
              (match operation with Some o => o | None => js "API request" end)
              (ApiClient.build_request apiKey url options)
              (Retry.timeouts (Constants.RETRY_ATTEMPTS - 1) 2 Constants.RETRY_DELAY
                 (Constants.RETRY_DELAY * 4)) [] 1 w)
    as (n & _ & _ & _ & (_&_&_&_&_&_&_&_&Hn)).
  now symmetry.
Qed.

Lemma keeps_notified_saving (path : jsstring) (data : jsval) (indent : option nat)
      (suffix : option jsstring) :
  keeps notified (FileUtils.getOutputDirectory path) /\
  keeps notified (FileUtils.ensureDirectoryExists path) /\
  keeps notified (FileUtils.generateTimestampedFilename path suffix) /\
  keeps notified (FileUtils.saveJsonToFile data path indent) /\
  keeps notified now_iso.
Proof.
  split; [|split; [|split; [|split]]]; intros w; try reflexivity.
  - unfold FileUtils.ensureDirectoryExists, fs_mkdir. now destruct (read_only w path).
  - unfold FileUtils.saveJsonToFile, fs_writeFile.
    destruct (JSON.stringify_indent _ data); [|reflexivity].
    now destruct (read_only w path).
Qed.

Lemma keeps_notified_reading (result v : jsval) (api : string) (k : jsstring) :
  keeps notified (first_choice_content result api) /\
  keeps notified (JSON_parse v) /\
  keeps notified (lift (get v k)).
Proof.
  split; [|split]; intros w.
  - now rewrite (first_choice_content_pure result api w w).
  - unfold JSON_parse. now destruct (JSON.parse (ToString v)).
  - reflexivity.
Qed.

Lemma keeps_notified_ret {A} (a : A) : keeps notified (ret a).
Proof. intros w. reflexivity. Qed.

Lemma keeps_notified_throw {A} (e : exn) : keeps notified (@throw A e).
Proof. intros w. reflexivity. Qed.

Create HintDb notified.
Create HintDb reports.

#[local] Hint Resolve keeps_notified_ret keeps_notified_throw : notified.

#[local] Hint Resolve keeps_notified_validateDocumentFile
  keeps_notified_validateExtractionFile keeps_notified_readFileAsBase64
  keeps_notified_readJsonFile keeps_notified_makeApiRequest : notified.

#[local] Hint Extern 1 (keeps notified (FileUtils.getOutputDirectory ?p)) =>
  exact (proj1 (keeps_notified_saving p VNull None None)) : notified.
#[local] Hint Extern 1 (keeps notified (FileUtils.ensureDirectoryExists ?p)) =>
  exact (proj1 (proj2 (keeps_notified_saving p VNull None None))) : notified.
#[local] Hint Extern 1 (keeps notified (FileUtils.generateTimestampedFilename ?p ?s)) =>
  exact (proj1 (proj2 (proj2 (keeps_notified_saving p VNull None s)))) : notified.
#[local] Hint Extern 1 (keeps notified (FileUtils.saveJsonToFile ?d ?p ?i)) =>
  exact (proj1 (proj2 (proj2 (proj2 (keeps_notified_saving p d i None))))) : notified.
#[local] Hint Extern 1 (keeps notified now_iso) =>
  exact (proj2 (proj2 (proj2 (proj2 (keeps_notified_saving [] VNull None None))))) : notified.
#[local] Hint Extern 1 (keeps notified (first_choice_content ?r ?a)) =>
  exact (proj1 (keeps_notified_reading r VNull a [])) : notified.
#[local] Hint Extern 1 (keeps notified (JSON_parse ?v)) =>
  exact (proj1 (proj2 (keeps_notified_reading VNull v "x" []))) : notified.
#[local] Hint Extern 1 (keeps notified (lift (get ?v ?k))) =>
  exact (proj2 (proj2 (keeps_notified_reading VNull v "x" k))) : notified.

Ltac reports_steps :=
  cbv zeta;
  repeat match goal with
         | |- reports _ _ (ret _) => apply reports_ret; reflexivity
         | |- reports _ _ (throw _) => apply reports_throw; reflexivity
         | |- reports _ _ (bind (match ?x with _ => _ end) _) => destruct x
         | |- reports _ _ (bind (report _ _) _) =>
             eapply reports_bind; [apply reports_report; reflexivity | intros ? | ]
         | |- reports _ _ (bind _ _) =>
             eapply reports_bind;
             [ first [ solve [eauto with reports]
                     | apply reports_still; solve [auto with notified] ]
             | intros ? | ]
         | |- reports _ _ (if ?b then _ else _) => destruct b
         | |- reports _ _ (match ?x with _ => _ end) => destruct x
         | |- (_ <= _)%N => apply N.leb_le; reflexivity
         end.

Lemma reports_extractor_generateSchema (filePath apiKey : jsstring) (onProgress : option Sink) :
  reports 10 40 (InformationExtractor.generateSchema filePath apiKey onProgress).
Proof. unfold InformationExtractor.generateSchema. reports_steps. Qed.

Lemma reports_resolveSchema (o : InformationExtractor.ExtractInformationOptions) :
  reports 10 40 (InformationExtractor.resolveSchema o).
Proof.
  unfold InformationExtractor.resolveSchema. cbv zeta.
  destruct (given (InformationExtractor.schemaJson o)).
  - reports_steps.
  - destruct (given (InformationExtractor.schemaPath o)).
    + reports_steps.
    + destruct (match InformationExtractor.autoGenerateSchema o with
                | Some b => b
                | None => true
                end).
      * apply reports_extractor_generateSchema.
      * reports_steps.
Qed.

Lemma reports_resolveResponseFormat (o : DocumentClassifier.ClassifyDocumentOptions) :
  reports 10 20 (DocumentClassifier.resolveResponseFormat o).
Proof. unfold DocumentClassifier.resolveResponseFormat. reports_steps. Qed.

#[local] Hint Resolve reports_resolveSchema reports_resolveResponseFormat : reports.

(** X24. The progress of a call. Whatever a call of a tool does, and
    whether it succeeds or fails, what it adds to the progress notified is a
    list of values that go up: each value is above the one before it, none
    comes twice, and all are above 0 and at most 100. (The list is empty
    when the call has no sink, and it stops where the sink rejects a
    value.) *)
Theorem progress_goes_up :
  (forall o, reports 0 100 (DocumentParser.parseDocument o)) /\
  (forall o, reports 0 100 (InformationExtractor.extractInformation o)) /\
  (forall o, reports 0 100 (SchemaGenerator.generateSchema o)) /\
  (forall o, reports 0 100 (DocumentClassifier.classifyDocument o)) /\
  (forall ps, climbs 0 ps 100 = true ->
              Forall (fun p => (0 < p <= 100)%N) ps /\ NoDup ps).
Proof.
  split; [|split; [|split; [|split]]].
  - intros o. unfold DocumentParser.parseDocument. reports_steps.
  - intros o. unfold InformationExtractor.extractInformation. reports_steps.
  - intros o. unfold SchemaGenerator.generateSchema. reports_steps.
  - intros o. unfold DocumentClassifier.classifyDocument. reports_steps.
  - intros ps. apply climbs_within.
Qed.

(** ** tools/informationExtractor: where the schema of a call comes from *)

Lemma requests_bind {A B} (m : M A) (k : A -> M B) (w : World) :
  requests (snd (bind m k w))
  = match m w with
    | (Ok a, w1) => requests (snd (k a w1))
    | (Throw _, w1) => requests w1
    end.
Proof. unfold bind. now destruct (m w) as [[a|e] w1]. Qed.

Lemma requests_then_silent {A B} (m : M A) (k : A -> M B) (w : World) :
  (forall a, silent (k a)) -> requests (snd (bind m k w)) = requests (snd (m w)).
Proof.
  intros Hk. rewrite requests_bind. destruct (m w) as [[a|e] w1]; [apply Hk | reflexivity].
Qed.

Lemma keeps_disk_quiet {A} (m : M A) : quiet m -> keeps disk m.
Proof. intros H w. destruct (H w) as (_&Hd&_). now symmetry. Qed.

Lemma keeps_disk_makeApiRequest (url apiKey : jsstring)
      (options : ApiClient.ApiRequestOptions) (operation : option jsstring) :
  keeps disk (ApiClient.makeApiRequest url apiKey options operation).
Proof.
  intros w. unfold ApiClient.makeApiRequest, ApiClient.makeRequest, ApiClient.sendRequest.
  destruct (attempt_footprint
              (match operation with Some o => o | None => js "API request" end)
              (ApiClient.build_request apiKey url options)
              (Retry.timeouts (Constants.RETRY_ATTEMPTS - 1) 2 Constants.RETRY_DELAY
                 (Constants.RETRY_DELAY * 4)) [] 1 w)
    as (n & _ & _ & _ & (_&Hd&_)).
  now symmetry.
Qed.

Lemma keeps_disk_saving (path : jsstring) (data : jsval) (indent : option nat)
      (suffix : option jsstring) :
  keeps disk (FileUtils.getOutputDirectory path) /\
  keeps disk (FileUtils.ensureDirectoryExists path) /\
  keeps disk (FileUtils.generateTimestampedFilename path suffix) /\
  keeps disk (FileUtils.saveJsonToFile data path indent).
Proof.
  split; [|split; [|split]]; intros w; try reflexivity.
  - unfold FileUtils.ensureDirectoryExists, fs_mkdir. now destruct (read_only w path).
  - unfold FileUtils.saveJsonToFile, fs_writeFile.
    destruct (JSON.stringify_indent _ data); [|reflexivity].
    now destruct (read_only w path).
Qed.

Lemma keeps_disk_reading (result v : jsval) (api : string) (k : jsstring) :
  keeps disk (first_choice_content result api) /\
  keeps disk (JSON_parse v) /\
  keeps disk (lift (get v k)).
Proof.
  split; [|split]; intros w.
  - now rewrite (first_choice_content_pure result api w w).
  - unfold JSON_parse. now destruct (JSON.parse (ToString v)).
  - reflexivity.
Qed.

Lemma readFileAsBase64_value (path : jsstring) (w0 w : World) :
  disk w = disk w0 ->
  FileUtils.readFileAsBase64 path w
  = (match disk w0 path with
     | Some (Regular f) => Ok (file_base64 w0 path)
     | Some (Directory _) => Throw (fs_error "EISDIR" "read" path)
     | Some (Unreadable code) => Throw (fs_error code "open" path)
     | None => Throw (fs_error "ENOENT" "open" path)
     end, w).
Proof.
  intros Hd. unfold FileUtils.readFileAsBase64, bind, fs_read, file_base64. rewrite Hd.
  now destruct (disk w0 path) as [[f|n|code]|].
Qed.

Lemma readJsonFile_same_disk (path : jsstring) (w0 w : World) :
  disk w = disk w0 ->
  FileUtils.readJsonFile path w = (fst (FileUtils.readJsonFile path w0), w).
Proof.
  intros Hd. unfold FileUtils.readJsonFile, bind, fs_read. rewrite Hd.
  destruct (disk w0 path) as [[f|n|code]|]; try reflexivity.
  now destruct (JSON.parse (f_utf8 f)).
Qed.

Lemma bind_run_value {A B} (m : M A) (k : A -> M B) (w : World) (r : Res A * World) :
  m w = r ->
  bind m k w = match r with
               | (Ok a, w1) => k a w1
               | (Throw e, w1) => (Throw e, w1)
               end.
Proof. intros <-. unfold bind. now destruct (m w) as [[a|e] w1]. Qed.

Lemma report_result (sink : option Sink) (p : N) (w0 w : World) :
  fst (report sink p w) = fst (report sink p w0).
Proof. unfold report. destruct sink as [sink|]; [|reflexivity]. now destruct (sink p). Qed.

(** What comes after the choice of the schema: nothing but the extraction
    request, with this schema, sent one to three times, or not at all when
    the call fails before. *)
Lemma extractInformation_shape (o : InformationExtractor.ExtractInformationOptions) :
  exists tail : jsval -> M jsstring,
    InformationExtractor.extractInformation o
    = (Validators.validateExtractionFile (InformationExtractor.filePath o) ;;
       report (InformationExtractor.onProgress o) 10 ;;
       schema <- InformationExtractor.resolveSchema o ;;
       tail schema) /\
    forall (w0 w3 : World) (schema : jsval),
      disk w3 = disk w0 ->
      exists m,
        m <= 3 /\
        requests (snd (tail schema w3))
        = requests w3
            ++ repeat (extraction_request w0 (InformationExtractor.filePath o)
                         (InformationExtractor.apiKey o) schema) m /\
        ((exists text, fst (tail schema w3) = Ok text) -> 1 <= m) /\
        (truthy schema = false ->
         m = 0 /\
         fst (tail schema w3)
         = Throw (Error (js "No schema provided or generated. Please provide a schema or enable auto_generate_schema."))).
Proof.
  eexists. split; [unfold InformationExtractor.extractInformation; cbv zeta; reflexivity|].
  intros w0 w3 schema Hdisk. cbv beta.
  destruct (truthy schema) eqn:Htruthy; cbn [negb].
  2: { exists 0. rewrite app_nil_r. split; [lia|]. split; [reflexivity|].
       split; [intros [text H]; discriminate H | intros _; now split]. }
  destruct (report (InformationExtractor.onProgress o) 60 w3) as [[[]|e] w4] eqn:H60.
  2: { exists 0. rewrite app_nil_r, (bind_throw _ _ _ _ _ H60). split; [lia|].
       pose proof (report_requests (InformationExtractor.onProgress o) 60 w3) as Hr.
       rewrite H60 in Hr. split; [exact Hr|].
       split; [intros [text H]; discriminate H | discriminate]. }
  rewrite (bind_ok _ _ _ _ _ H60).
  assert (requests w4 = requests w3 /\ disk w4 = disk w0) as [Hr4 Hd4].
  { pose proof (quiet_report (InformationExtractor.onProgress o) 60 w3) as Hq.
    rewrite H60 in Hq. destruct Hq as (_&Hd&_&_&_&_&Hr&_). cbn [snd] in Hd, Hr.
    split; [now symmetry | now rewrite <- Hd]. }
  rewrite (bind_run_value _ _ _ _ (readFileAsBase64_value _ w0 w4 Hd4)).
  destruct (disk w0 (InformationExtractor.filePath o)) as [[f|n|code]|] eqn:Hfile;
    try (exists 0; rewrite app_nil_r; cbn [fst snd]; split; [lia|]; split; [exact Hr4|];
         split; [intros [text H]; discriminate H | discriminate]).
  rewrite requests_then_silent by (intros ?; silent_steps).
  match goal with
  | |- context [ApiClient.makeApiRequest ?u ?k ?opts ?op w4] =>
      destruct (ApiClient.makeApiRequest u k opts op w4) as [r w5] eqn:Hcall;
      destruct (makeApiRequest_requests _ _ _ _ _ _ _ Hcall) as (n & Hn & Hreq)
  end.
  exists n. split; [lia|]. split; [|split; [intros _; lia | discriminate]].
  cbn [snd]. rewrite Hreq, Hr4. reflexivity.
Qed.

Lemma keeps_disk_generateSchema_rest (filePath apiKey : jsstring) (onProgress : option Sink)
      (mimeType fileBase64 : jsstring) (tail : jsval -> M jsval) :
  (forall result, keeps disk (tail result)) ->
  keeps disk
    (result <- ApiClient.makeApiRequest Constants.SCHEMA_GENERATION apiKey
                 (json_request (chat_request "information-extract" mimeType fileBase64 None))
                 (Some (js "Schema generation")) ;;
     tail result).
Proof. intros H. apply keeps_bind; [apply keeps_disk_makeApiRequest | exact H]. Qed.

(** The generation of a schema: nothing but the generation request, sent one
    to three times, or not at all when the call fails before; the schema it
    returns is the [json_schema] of what the endpoint answered. *)
Lemma generateSchema_trace (filePath apiKey : jsstring) (onProgress : option Sink)
      (w0 w1 : World) :
  same_but_notified w0 w1 ->
  let run := InformationExtractor.generateSchema filePath apiKey onProgress w1 in
  let generation := schema_generation_request w0 filePath apiKey in
  exists n,
    n <= 3 /\
    requests (snd run) = requests w1 ++ repeat generation n /\
    disk (snd run) = disk w0 /\
    (forall schema,
        fst run = Ok schema ->
        1 <= n /\
        exists i result content parsed,
          ApiClient.reply_at w0 i generation = Response result /\
          fst (first_choice_content result "schema generation" w0) = Ok content /\
          JSON.parse (ToString content) = Some parsed /\
          schema = prop parsed "json_schema") /\
    (fst (report onProgress 20 w0) = Ok tt ->
     (exists f, disk w0 filePath = Some (Regular f)) -> 1 <= n).
Proof.
  intros Hsame run generation.
  assert (disk w1 = disk w0) as Hd1 by (destruct Hsame as (_&Hd&_); now symmetry).
  subst run. unfold InformationExtractor.generateSchema. cbv zeta.
  destruct (report onProgress 20 w1) as [[[]|e] w2] eqn:H20.
  2: { rewrite (bind_throw _ _ _ _ _ H20). cbn [fst snd].
       pose proof (quiet_report onProgress 20 w1) as Hq. rewrite H20 in Hq.
       destruct Hq as (_&Hd&_&_&_&_&Hr&_). cbn [snd] in Hd, Hr.
       exists 0. rewrite app_nil_r. split; [lia|]. split; [now symmetry|].
       split; [now rewrite <- Hd|]. split; [discriminate|].
       intros H. rewrite <- (report_result onProgress 20 w0 w1), H20 in H. discriminate H. }
  rewrite (bind_ok _ _ _ _ _ H20).
  assert (same_but_notified w0 w2) as Hsame2.
  { pose proof (quiet_report onProgress 20 w1) as Hq. rewrite H20 in Hq.
    exact (same_trans _ _ _ Hsame Hq). }
  assert (requests w2 = requests w1 /\ disk w2 = disk w0) as [Hr2 Hd2].
  { pose proof (quiet_report onProgress 20 w1) as Hq. rewrite H20 in Hq.
    destruct Hq as (_&Hd&_&_&_&_&Hr&_). cbn [snd] in Hd, Hr.
    split; [now symmetry | now rewrite <- Hd]. }
  rewrite (bind_run_value _ _ _ _ (readFileAsBase64_value _ w0 w2 Hd2)).
  destruct (disk w0 filePath) as [[f|d|code]|] eqn:Hfile;
    try (exists 0; rewrite app_nil_r; cbn [fst snd]; split; [lia|]; split; [exact Hr2|];
         split; [exact Hd2|]; split; [discriminate|];
         intros _ [f' Hf']; discriminate Hf').
  match goal with
  | |- context [bind (ApiClient.makeApiRequest ?u ?k ?opts ?op) ?rest w2] =>
      set (call := ApiClient.makeApiRequest u k opts op) in *;
      set (tail := rest) in *
  end.
  assert (forall result, silent (tail result)) as Hsilent
      by (intros result; unfold tail; silent_steps).
  assert (forall result, keeps disk (tail result)) as Hkeeps.
  { intros result. unfold tail.
    destruct (keeps_disk_reading result VNull "schema generation" []) as (K1 & _ & _).
    apply keeps_bind; [exact (keeps_disk_quiet _ (quiet_report _ _))|]. intros _.
    apply keeps_bind; [exact K1|]. intros content.
    apply keeps_bind;
      [exact (proj1 (proj2 (keeps_disk_reading VNull content "x" [])))|]. intros schema.
    apply keeps_bind;
      [exact (proj2 (proj2 (keeps_disk_reading VNull schema "x" (js "json_schema"))))|].
    intros json_schema.
    destruct (negb (truthy json_schema)); [intros w; reflexivity|].
    apply keeps_bind; [exact (proj1 (keeps_disk_saving _ VNull None None))|]. intros dir.
    apply keeps_bind; [exact (proj1 (proj2 (keeps_disk_saving dir VNull None None)))|].
    intros _.
    apply keeps_bind;
      [exact (proj1 (proj2 (proj2 (keeps_disk_saving filePath VNull None _))))|].
    intros name.
    apply keeps_bind;
      [exact (proj2 (proj2 (proj2 (keeps_disk_saving _ json_schema (Some 2) None))))|].
    intros _ w. reflexivity. }
  rewrite (requests_then_silent _ _ _ Hsilent).
  destruct (call w2) as [r w3] eqn:Hcall.
  pose proof Hcall as Hcalled. unfold call in Hcalled.
  destruct (makeApiRequest_requests _ _ _ _ _ _ _ Hcalled) as (n & Hn & Hreq).
  exists n. split; [lia|]. split; [|split; [|split]].
  - cbn [snd]. rewrite Hreq, Hr2. reflexivity.
  - rewrite (keeps_bind disk call tail (keeps_disk_makeApiRequest _ _ _ _) Hkeeps w2).
    exact Hd2.
  - intros schema Hok. split; [lia|].
    destruct (bind call tail w2) as [r' w'] eqn:Hrun. cbn [fst] in Hok. subst r'.
    apply bind_ok_inv in Hrun as (result & w4 & H4 & Hrun).
    rewrite Hcall in H4. injection H4 as -> <-.
    unfold tail in Hrun.
    apply bind_ok_inv in Hrun as (x5 & w5 & H5 & Hrun).
    apply bind_ok_inv in Hrun as (content & w6 & H6 & Hrun).
    apply bind_ok_inv in Hrun as (parsed & w7 & H7 & Hrun).
    apply bind_ok_inv in Hrun as (json_schema & w8 & H8 & Hrun).
    destruct (truthy json_schema); cbn [negb] in Hrun; [|discriminate Hrun].
    apply bind_ok_inv in Hrun as (dir & w9 & H9 & Hrun).
    apply bind_ok_inv in Hrun as (x10 & w10 & H10 & Hrun).
    apply bind_ok_inv in Hrun as (name & w11 & H11 & Hrun).
    apply bind_ok_inv in Hrun as (x12 & w12 & H12 & Hrun).
    injection Hrun as <- _.
    destruct (makeApiRequest_ok_reply _ _ _ _ _ _ _ Hcalled) as [i Hi].
    exists i, result, content, parsed.
    split; [rewrite (reply_at_same _ _ _ _ Hsame2); exact Hi|].
    split.
    { rewrite (first_choice_content_pure result "schema generation" w0 w5) in H6.
      now injection H6 as -> _. }
    split; [exact (JSON_parse_ok _ _ _ _ H7)|].
    unfold lift, get in H8. destruct parsed; try discriminate H8; now injection H8 as <- _.
  - intros _ _. lia.
Qed.

(** The counterexample to C3 as stated: [schema_json] is supplied, as the
    empty string, together with [schema_path]. The text is no schema (it is
    no JSON text at all), yet the call succeeds: its one request carries the
    schema of the file. *)
Lemma empty_schema_json_yields_to_schema_path :
  let o :=
    {| InformationExtractor.filePath := js "/docs/invoice.pdf";
       InformationExtractor.apiKey := Scenario.key;
       InformationExtractor.schemaPath := Some (js "/schemas/invoice.json");
       InformationExtractor.schemaJson := Some [];
       InformationExtractor.autoGenerateSchema := Some false;
       InformationExtractor.onProgress := None |} in
  let w := Scenario.world (fun _ _ => Response (Scenario.chat_reply (jsq "{`total`:12}"))) in
  let run := InformationExtractor.extractInformation o w in
  InformationExtractor.schemaJson o <> None /\
  JSON.parse [] = None /\
  (exists text, fst run = Ok text) /\
  requests (snd run)
  = [ extraction_request w (js "/docs/invoice.pdf") Scenario.key
        (prop SchemaHelper.invoice "json_schema") ].
Proof.
  vm_compute. split; [discriminate|]. split; [reflexivity|].
  split; [eexists; reflexivity | reflexivity].
Qed.

(** C3, amended. The schema of an [extract_information] call is resolved in
    the order text, file, generation, where a parameter counts as supplied
    when it is a string that is not empty. Whatever the call does, its
    requests are generation requests ([n] of them, at most three) followed
    by extraction requests ([m] of them, at most three, and at least one
    when the call succeeds), and all extraction requests carry one schema.
    (1) With a text: no generation request; the schema is the [json_schema]
    of the text, whatever the path and the generation flag are; a text that
    [parseSchemaJson] refuses fails the call, without any request. (2) With
    no text and a path: no generation request; the schema is what the file
    holds; a file that cannot be read as JSON fails the call, without any
    request. (3) With neither and the flag not false: once the file is
    validated the generation request is sent, and an extraction request
    carries the [json_schema] of what the endpoint answered to it. (4) With
    neither and the flag false: no request at all, and once the file is
    validated the call fails with the no-schema error. *)
Theorem extract_schema_precedence
        (filePath apiKey : jsstring) (onProgress : option Sink)
        (sj sp : option jsstring) (auto : option bool) (w : World) :
  let o :=
    {| InformationExtractor.filePath := filePath;
       InformationExtractor.apiKey := apiKey;
       InformationExtractor.schemaPath := sp;
       InformationExtractor.schemaJson := sj;
       InformationExtractor.autoGenerateSchema := auto;
       InformationExtractor.onProgress := onProgress |} in
  let run := InformationExtractor.extractInformation o w in
  let generation := schema_generation_request w filePath apiKey in
  let extraction := extraction_request w filePath apiKey in
  let validated :=
    Validators.validateExtractionFile filePath w = (Ok tt, w) /\
    fst (report onProgress 10 w) = Ok tt in
  let text_of o := match o with Some s => s | None => [] end in
  exists n m schema,
    n <= 3 /\ m <= 3 /\
    requests (snd run) = requests w ++ repeat generation n ++ repeat (extraction schema) m /\
    ((exists text, fst run = Ok text) -> 1 <= m) /\
    (given sj = true ->
     n = 0 /\
     match SchemaHelper.parseSchemaJson (text_of sj) with
     | Ok parsed => schema = prop parsed "json_schema"
     | Throw error =>
         m = 0 /\
         (validated ->
          fst run = Throw (Error (js "Invalid schema format: " ++ message_of error)))
     end) /\
    (given sj = false -> given sp = true ->
     n = 0 /\
     match fst (FileUtils.readJsonFile (text_of sp) w) with
     | Ok loaded => schema = loaded
     | Throw error => m = 0 /\ (validated -> fst run = Throw error)
     end) /\
    (given sj = false -> given sp = false -> auto <> Some false ->
     (validated -> fst (report onProgress 20 w) = Ok tt -> 1 <= n) /\
     (1 <= m ->
      1 <= n /\
      exists i result content parsed,
        ApiClient.reply_at w i generation = Response result /\
        fst (first_choice_content result "schema generation" w) = Ok content /\
        JSON.parse (ToString content) = Some parsed /\
        schema = prop parsed "json_schema")) /\
    (given sj = false -> given sp = false -> auto = Some false ->
     n = 0 /\ m = 0 /\
     (validated ->
      fst run = Throw (Error (js "No schema provided or generated. Please provide a schema or enable auto_generate_schema.")))).
Proof.
  intros o run generation extraction validated text_of.
  destruct (extractInformation_shape o) as (tail & Hshape & Htail).
  subst run text_of. cbv beta. rewrite Hshape.
  change (InformationExtractor.filePath o) with filePath in *.
  change (InformationExtractor.apiKey o) with apiKey in *.
  change (InformationExtractor.onProgress o) with onProgress in *.
  (* the schema that the parameters name, if they do *)
  set (named :=
         if given sj then
           match SchemaHelper.parseSchemaJson match sj with Some s => s | None => [] end with
           | Ok parsed => prop parsed "json_schema"
           | Throw _ => VUndef
           end
         else if given sp then
           match fst (FileUtils.readJsonFile match sp with Some s => s | None => [] end w) with
           | Ok loaded => loaded
           | Throw _ => VUndef
           end
         else VUndef).
  (* a call that ends before the schema is resolved, or when its resolution
     fails, without a request *)
  assert (forall (r : Res jsstring * World),
             requests (snd r) = requests w -> (forall text, fst r <> Ok text) ->
             (given sj = true ->
              forall error,
                SchemaHelper.parseSchemaJson match sj with Some s => s | None => [] end = Throw error ->
                validated ->
                fst r = Throw (Error (js "Invalid schema format: " ++ message_of error))) ->
             (given sj = false -> given sp = true ->
              forall error,
                fst (FileUtils.readJsonFile match sp with Some s => s | None => [] end w) = Throw error ->
                validated -> fst r = Throw error) ->
             (given sj = false -> given sp = false -> auto <> Some false ->
              validated -> fst (report onProgress 20 w) = Ok tt -> False) ->
             (given sj = false -> given sp = false -> auto = Some false ->
              validated ->
              fst r = Throw (Error (js "No schema provided or generated. Please provide a schema or enable auto_generate_schema."))) ->
             exists n m schema,
               n <= 3 /\ m <= 3 /\
               requests (snd r)
               = requests w ++ repeat generation n ++ repeat (extraction schema) m /\
               ((exists text, fst r = Ok text) -> 1 <= m) /\
               (given sj = true ->
                n = 0 /\
                match SchemaHelper.parseSchemaJson match sj with Some s => s | None => [] end with
                | Ok parsed => schema = prop parsed "json_schema"
                | Throw error =>
                    m = 0 /\
                    (validated ->
                     fst r = Throw (Error (js "Invalid schema format: " ++ message_of error)))
                end) /\
               (given sj = false -> given sp = true ->
                n = 0 /\
                match fst (FileUtils.readJsonFile match sp with Some s => s | None => [] end w) with
                | Ok loaded => schema = loaded
                | Throw error => m = 0 /\ (validated -> fst r = Throw error)
                end) /\
               (given sj = false -> given sp = false -> auto <> Some false ->
                (validated -> fst (report onProgress 20 w) = Ok tt -> 1 <= n) /\
                (1 <= m ->
                 1 <= n /\
                 exists i result content parsed,
                   ApiClient.reply_at w i generation = Response result /\
                   fst (first_choice_content result "schema generation" w) = Ok content /\
                   JSON.parse (ToString content) = Some parsed /\
                   schema = prop parsed "json_schema")) /\
               (given sj = false -> given sp = false -> auto = Some false ->
                n = 0 /\ m = 0 /\
                (validated ->
                 fst r = Throw (Error (js "No schema provided or generated. Please provide a schema or enable auto_generate_schema."))))) as Hearly.
  { intros r Hreq Hfail H1 H2 H3 H4. exists 0, 0, named.
    split; [lia|]. split; [lia|]. split; [now rewrite Hreq, app_nil_r|].
    split; [intros [text Htext]; now apply Hfail in Htext|].
    split; [|split; [|split]].
    - intros Gj. split; [reflexivity|]. unfold named. rewrite Gj.
      destruct (SchemaHelper.parseSchemaJson match sj with Some s => s | None => [] end) as [parsed|error] eqn:Hp;
        [reflexivity|]. split; [reflexivity|]. now apply H1.
    - intros Gj Gp. split; [reflexivity|]. unfold named. rewrite Gj, Gp.
      destruct (fst (FileUtils.readJsonFile match sp with Some s => s | None => [] end w)) as [loaded|error] eqn:Hl;
        [reflexivity|]. split; [reflexivity|]. now apply H2.
    - intros Gj Gp Ha. split; [intros Hv H20; exfalso; now apply H3 | lia].
    - intros Gj Gp Ha. split; [reflexivity|]. split; [reflexivity|]. now apply H4. }
  (* the validation of the file *)
  pose proof (validateExtractionFile_world filePath w) as Hvw.
  destruct (Validators.validateExtractionFile filePath w) as [[[]|ev] wv] eqn:Hv;
    cbn [snd] in Hvw; subst wv.
  2: { rewrite (bind_throw _ _ _ _ _ Hv). apply Hearly; cbn [fst snd];
       try reflexivity; try discriminate; intros; exfalso;
       match goal with H : validated |- _ => destruct H as [H _]; discriminate H end. }
  rewrite (bind_ok _ _ _ _ _ Hv).
  (* the first report of progress *)
  destruct (report onProgress 10 w) as [[[]|e10] w2] eqn:H10.
  2: { rewrite (bind_throw _ _ _ _ _ H10).
       pose proof (report_requests onProgress 10 w) as Hr. rewrite H10 in Hr.
       apply Hearly; cbn [fst snd]; try exact Hr; try discriminate; intros; exfalso;
       match goal with H : validated |- _ => destruct H as [_ H]; discriminate H end. }
  rewrite (bind_ok _ _ _ _ _ H10). cbv beta.
  assert (same_but_notified w w2) as Hsame.
  { pose proof (quiet_report onProgress 10 w) as Hq. now rewrite H10 in Hq. }
  assert (requests w2 = requests w /\ disk w2 = disk w) as [Hr2 Hd2].
  { destruct Hsame as (_&Hd&_&_&_&_&Hr&_). now split. }
  assert (exists f, disk w filePath = Some (Regular f)) as Hregular.
  { pose proof (f_equal fst Hv) as Hf. cbn [fst] in Hf.
    unfold Validators.validateExtractionFile in Hf.
    apply validate_ok_iff in Hf as (f & Hf & _). now exists f. }
  assert (forall r : Res jsval * World,
             InformationExtractor.resolveSchema o w2 = r ->
             bind (InformationExtractor.resolveSchema o) (fun schema => tail schema) w2
             = match r with
               | (Ok schema, w3) => tail schema w3
               | (Throw e, w3) => (Throw e, w3)
               end) as Hthen.
  { intros r Hr. exact (bind_run_value _ _ _ _ Hr). }
  destruct (given sj) eqn:Gj.
  { (* the text *)
    destruct (SchemaHelper.parseSchemaJson match sj with Some s => s | None => [] end)
      as [parsed|error] eqn:Hp.
    - assert (InformationExtractor.resolveSchema o w2
              = match report onProgress 20 w2 with
                | (Ok _, w3) => (Ok (prop parsed "json_schema"), w3)
                | (Throw e, w3) => (Throw e, w3)
                end) as Hres.
      { unfold InformationExtractor.resolveSchema. cbv zeta.
        cbn [o InformationExtractor.schemaJson InformationExtractor.onProgress].
        rewrite Gj, Hp. unfold bind, ret.
        now destruct (report onProgress 20 w2) as [[[]|e] w3]. }
      rewrite (Hthen _ Hres).
      pose proof (quiet_report onProgress 20 w2) as Hq.
      destruct (report onProgress 20 w2) as [[[]|e20] w3] eqn:H20;
        destruct Hq as (_&Hd&_&_&_&_&Hr&_); cbn [snd] in Hd, Hr.
      + assert (disk w3 = disk w) as Hd3 by congruence.
        destruct (Htail w w3 (prop parsed "json_schema") Hd3) as (m & Hm & Hreq & Hok & _).
        exists 0, m, (prop parsed "json_schema").
        split; [lia|]. split; [exact Hm|].
        split; [unfold extraction; cbn [repeat app]; rewrite Hreq; congruence|].
        split; [exact Hok|].
        split; [intros _; split; reflexivity|].
        repeat split; intros; congruence.
      + exists 0, 0, (prop parsed "json_schema").
        split; [lia|]. split; [lia|]. cbn [fst snd].
        split; [rewrite app_nil_r; congruence|].
        split; [intros [text Htext]; discriminate Htext|].
        split; [intros _; split; reflexivity|].
        repeat split; intros; congruence.
    - assert (InformationExtractor.resolveSchema o w2
              = (Throw (Error (js "Invalid schema format: " ++ message_of error)), w2))
        as Hres.
      { unfold InformationExtractor.resolveSchema. cbv zeta.
        cbn [o InformationExtractor.schemaJson InformationExtractor.onProgress].
        rewrite Gj, Hp. reflexivity. }
      rewrite (Hthen _ Hres).
      exists 0, 0, VUndef. cbn [fst snd].
      split; [lia|]. split; [lia|]. split; [rewrite app_nil_r; exact Hr2|].
      split; [intros [text Htext]; discriminate Htext|].
      split; [intros _; split; [reflexivity|]; split; [reflexivity | intros _; reflexivity]|].
      repeat split; intros; congruence. }
  destruct (given sp) eqn:Gp.
  { (* the file *)
    pose proof (readJsonFile_same_disk match sp with Some s => s | None => [] end w w2 Hd2)
      as Hread.
    destruct (fst (FileUtils.readJsonFile match sp with Some s => s | None => [] end w))
      as [loaded|error] eqn:Hl.
    - assert (InformationExtractor.resolveSchema o w2
              = match report onProgress 20 w2 with
                | (Ok _, w3) => (Ok loaded, w3)
                | (Throw e, w3) => (Throw e, w3)
                end) as Hres.
      { unfold InformationExtractor.resolveSchema. cbv zeta.
        cbn [o InformationExtractor.schemaJson InformationExtractor.schemaPath
             InformationExtractor.onProgress].
        rewrite Gj, Gp. unfold bind at 1. rewrite Hread. unfold bind, ret.
        now destruct (report onProgress 20 w2) as [[[]|e] w3]. }
      rewrite (Hthen _ Hres).
      pose proof (quiet_report onProgress 20 w2) as Hq.
      destruct (report onProgress 20 w2) as [[[]|e20] w3] eqn:H20;
        destruct Hq as (_&Hd&_&_&_&_&Hr&_); cbn [snd] in Hd, Hr.
      + assert (disk w3 = disk w) as Hd3 by congruence.
        destruct (Htail w w3 loaded Hd3) as (m & Hm & Hreq & Hok & _).
        exists 0, m, loaded.
        split; [lia|]. split; [exact Hm|].
        split; [unfold extraction; cbn [repeat app]; rewrite Hreq; congruence|].
        split; [exact Hok|].
        split; [intros; congruence|].
        split; [intros _ _; split; reflexivity|].
        repeat split; intros; congruence.
      + exists 0, 0, loaded.
        split; [lia|]. split; [lia|]. cbn [fst snd].
        split; [rewrite app_nil_r; congruence|].
        split; [intros [text Htext]; discriminate Htext|].
        split; [intros; congruence|].
        split; [intros _ _; split; reflexivity|].
        repeat split; intros; congruence.
    - assert (InformationExtractor.resolveSchema o w2 = (Throw error, w2)) as Hres.
      { unfold InformationExtractor.resolveSchema. cbv zeta.
        cbn [o InformationExtractor.schemaJson InformationExtractor.schemaPath
             InformationExtractor.onProgress].
        rewrite Gj, Gp. unfold bind at 1. now rewrite Hread. }
      rewrite (Hthen _ Hres).
      exists 0, 0, VUndef. cbn [fst snd].
      split; [lia|]. split; [lia|]. split; [rewrite app_nil_r; exact Hr2|].
      split; [intros [text Htext]; discriminate Htext|].
      split; [intros; congruence|].
      split; [intros _ _; split; [reflexivity|]; split; [reflexivity | intros _; reflexivity]|].
      repeat split; intros; congruence. }
  destruct (match auto with Some b => b | None => true end) eqn:Ga.
  { (* the generation *)
    assert (InformationExtractor.resolveSchema o w2
            = InformationExtractor.generateSchema filePath apiKey onProgress w2) as Hres.
    { unfold InformationExtractor.resolveSchema. cbv zeta.
      cbn [o InformationExtractor.schemaJson InformationExtractor.schemaPath
           InformationExtractor.autoGenerateSchema InformationExtractor.onProgress
           InformationExtractor.filePath InformationExtractor.apiKey].
      now rewrite Gj, Gp, Ga. }
    rewrite (Hthen _ Hres).
    destruct (generateSchema_trace filePath apiKey onProgress w w2 Hsame)
      as (n & Hn & Hgen & Hdg & Hgok & Hstart).
    fold generation in Hgen, Hgok.
    destruct (InformationExtractor.generateSchema filePath apiKey onProgress w2)
      as [[schema|eg] w3] eqn:Hg; cbn [fst snd] in Hgen, Hdg, Hgok.
    - destruct (Htail w w3 schema Hdg) as (m & Hm & Hreq & Hok & _).
      destruct (Hgok schema eq_refl) as (Hn1 & Hfrom).
      exists n, m, schema.
      split; [exact Hn|]. split; [exact Hm|].
      split; [now rewrite Hreq, Hgen, Hr2, <- app_assoc|].
      split; [exact Hok|].
      split; [intros; congruence|]. split; [intros; congruence|].
      split; [intros _ _ _; split; [intros; exact Hn1 | intros _; now split]|].
      intros _ _ ->. discriminate Ga.
    - exists n, 0, VUndef. cbn [fst snd repeat].
      split; [exact Hn|]. split; [lia|].
      split; [now rewrite Hgen, Hr2, app_nil_r|].
      split; [intros [text Htext]; discriminate Htext|].
      split; [intros; congruence|]. split; [intros; congruence|].
      split; [intros _ _ _; split; [intros _ H20; now apply Hstart | lia]|].
      intros _ _ ->. discriminate Ga. }
  (* no schema *)
  assert (InformationExtractor.resolveSchema o w2 = (Ok VNull, w2)) as Hres.
  { unfold InformationExtractor.resolveSchema. cbv zeta.
    cbn [o InformationExtractor.schemaJson InformationExtractor.schemaPath
         InformationExtractor.autoGenerateSchema InformationExtractor.onProgress].
    now rewrite Gj, Gp, Ga. }
  rewrite (Hthen _ Hres).
  destruct (Htail w w2 VNull Hd2) as (m & Hm & Hreq & Hok & Hnone).
  destruct (Hnone eq_refl) as [-> Hthrow].
  exists 0, 0, VNull.
  split; [lia|]. split; [lia|]. split; [now rewrite Hreq, Hr2|].
  split; [exact Hok|].
  split; [intros; congruence|]. split; [intros; congruence|].
  split; [intros _ _ Ha; destruct auto as [[|]|];
          [discriminate Ga | now elim Ha | discriminate Ga]|].
  intros _ _ _. split; [reflexivity|]. split; [reflexivity|]. intros _. exact Hthrow.
Qed.

Lemma extract_schema_precedence_witness :
  let o :=
    {| InformationExtractor.filePath := js "/docs/invoice.pdf";
       InformationExtractor.apiKey := Scenario.key;
       InformationExtractor.schemaPath := Some (js "/schemas/missing.json");
       InformationExtractor.schemaJson := Some (Scenario.text_of SchemaHelper.receipt);
       InformationExtractor.autoGenerateSchema := None;
       InformationExtractor.onProgress := Some Server.notify |} in
  let w := Scenario.world (fun _ _ => Response (Scenario.chat_reply (jsq "{`total`:12}"))) in
  exists m,
    m <= 3 /\
    requests (snd (InformationExtractor.extractInformation o w))
    = repeat (extraction_request w (js "/docs/invoice.pdf") Scenario.key
                (prop SchemaHelper.receipt "json_schema")) m.
Proof.
  intros o w.
  destruct (extract_schema_precedence (js "/docs/invoice.pdf") Scenario.key
              (Some Server.notify) (Some (Scenario.text_of SchemaHelper.receipt))
              (Some (js "/schemas/missing.json")) None w)
    as (n & m & schema & _ & Hm & Hreq & _ & Htext & _).
  destruct (Htext eq_refl) as [-> Hschema].
  assert (SchemaHelper.parseSchemaJson (Scenario.text_of SchemaHelper.receipt)
          = Ok SchemaHelper.receipt) as Hp by (vm_compute; reflexivity).
  cbv beta iota zeta in Hschema. rewrite Hp in Hschema. subst schema.
  exists m. split; [exact Hm|]. exact Hreq.
Defined.

(** ** tools/documentClassifier: what is saved and what is returned *)

(** The content of the first choice, when there is one, is the member
    [choices[0].message.content] of the response. *)
Lemma get_ok (v x : jsval) (k : jsstring) : get v k = Ok x -> x = prop v k.
Proof. destruct v; cbn [get]; intros H; try discriminate H; now injection H as <-. Qed.

Lemma first_choice_content_member (result label : jsval) (api : string) (w : World) :
  fst (first_choice_content result api w) = Ok label ->
  label = prop (prop (prop (prop result "choices") "0") "message") "content".
Proof.
  unfold first_choice_content, bind, lift, throw.
  destruct (get result "choices") as [choices|e] eqn:E1; [|discriminate].
  destruct (negb (truthy choices) || is_zero (prop choices "length")); [discriminate|].
  destruct (get choices "0") as [choice|e] eqn:E2; [|discriminate].
  destruct (get choice "message") as [message|e] eqn:E3; [|discriminate].
  destruct (get message "content") as [content|e] eqn:E4; [|discriminate].
  cbn [fst]. intros [= <-].
  apply get_ok in E1, E2, E3, E4. now subst.
Qed.

(** A member of a JSON value, other than the length of an array or of a
    string, is a JSON value, or is not there. *)
Lemma prop_json_value (v : jsval) (k : jsstring) :
  str_eqb k "length" = false ->
  JSON.json_value v = true -> prop v k = VUndef \/ JSON.json_value (prop v k) = true.
Proof.
  intros Hk Hv. destruct v as [| |b|lit|s|l|o]; cbn [prop]; try (now left).
  - rewrite Hk.
    destruct (array_index k) as [i|]; [|now left].
    destruct (nth_error s (N.to_nat i)); [right; reflexivity | now left].
  - rewrite Hk.
    destruct (array_index k) as [i|]; [|now left].
    cbn [JSON.json_value] in Hv. rewrite forallb_forall in Hv.
    destruct (nth_in_or_default (N.to_nat i) l VUndef) as [Hin|Hd];
      [right; now apply Hv | now left].
  - rewrite ParseFacts.json_value_of_object in Hv. apply andb_true_iff in Hv as [_ Hm].
    destruct (lookup k o) as [x|] eqn:Hx; cbn [or_undef]; [|now left].
    right. exact (lookup_json_value _ _ _ Hm Hx).
Qed.

Lemma schema_used_cases (o : DocumentClassifier.ClassifyDocumentOptions) :
  DocumentClassifier.schema_used o
  = match DocumentClassifier.schemaPath o with
    | Some (c :: p) => VStr (c :: p)
    | _ => match DocumentClassifier.schemaJson o with
           | Some (_ :: _) => str "custom"
           | _ => str "default"
           end
    end.
Proof.
  unfold DocumentClassifier.schema_used.
  destruct (DocumentClassifier.schemaPath o) as [[|c p]|];
    now destruct (DocumentClassifier.schemaJson o) as [[|d q]|].
Qed.

(** A member that is [undefined] is not written. *)
Lemma undefined_member_not_written (n : nat) (k k' : string) (v : jsval) :
  str_eqb (js k') (js k) = false ->
  JSON.stringify_indent n (obj [ js k :-> VUndef; js k' :-> v ])
  = JSON.stringify_indent n (obj [ js k' :-> v ]).
Proof.
  intros H. unfold obj, object_of. cbn [fold_left fst snd].
  unfold set_prop at 2 3. cbn [has_key insert_prop].
  unfold set_prop. cbn [has_key]. rewrite H. cbn [orb].
  cbn [insert_prop].
  destruct (key_before (js k') (js k)); reflexivity.
Qed.

(** The counterexample to C9 as stated: the endpoint answers with a first
    choice whose message has no [content]. The call succeeds; the file it
    writes and the text it returns are JSON texts of objects that have the
    metadata and no [classification] member. *)
Lemma classification_absent_without_content :
  let o :=
    {| DocumentClassifier.filePath := js "/docs/invoice.pdf";
       DocumentClassifier.apiKey := Scenario.key;
       DocumentClassifier.schemaPath := None;
       DocumentClassifier.schemaJson := None;
       DocumentClassifier.onProgress := None |} in
  let reply :=
    obj [ "id" :-> str "chatcmpl-1";
          "choices" :->
            VArr [ obj [ "index" :-> VNum (js "0");
                         "message" :-> obj [ "role" :-> str "assistant" ] ] ] ] in
  let w := Scenario.world (fun _ _ => Response reply) in
  let run := DocumentClassifier.classifyDocument o w in
  let outputPath :=
    js "/home/user/.mcp-upstage/outputs/document_classification/invoice_2024-01-15T10-30-45_classification.json" in
  let metadata :=
    [ "file" :-> str "invoice.pdf";
      "result_saved_to" :-> VStr outputPath;
      "schema_used" :-> str "default" ] in
  exists text content,
    fst run = Ok text /\
    written (snd run) = [(outputPath, content)] /\
    JSON.parse content
    = Some (obj [ "metadata" :-> obj (metadata ++ [ "api_response" :-> reply ]) ]) /\
    JSON.parse text = Some (obj [ "metadata" :-> obj metadata ]).
Proof.
  intros o reply w run outputPath metadata.
  exists (match fst run with Ok t => t | Throw _ => [] end),
    (match written (snd run) with (_, c) :: _ => c | [] => [] end).
  split; [vm_compute; reflexivity|]. split; [vm_compute; reflexivity|].
  split; vm_compute; reflexivity.
Qed.

(** C9, amended. For every successful [classify_document] call: the response
    [result] is an answer of the endpoint to the classification request of
    the call; the label is its member [choices[0].message.content]; one file
    is written, at the output path: the JSON text, indented by two, of the
    object with the label under [classification] and, under [metadata], the
    name of the file, the output path, the schema used and the whole
    response as [api_response]; the text returned is the JSON text of the
    same object without [api_response]. When the response is a JSON value
    with plain numbers, the two texts read back by [JSON.parse] as these
    objects when the response has the label, and as the objects of the
    metadata alone, without a [classification] member, when it has not. *)
Theorem classification_saved_and_returned
        (o : DocumentClassifier.ClassifyDocumentOptions) (w w' : World) (text : jsstring) :
  DocumentClassifier.classifyDocument o w = (Ok text, w') ->
  exists responseFormat result outputPath content i,
    let filePath := DocumentClassifier.filePath o in
    let request :=
      ApiClient.build_request (DocumentClassifier.apiKey o)
        Constants.DOCUMENT_CLASSIFICATION
        (json_request
           (chat_request "document-classify" (FileUtils.getMimeType filePath)
              (file_base64 w filePath) (Some responseFormat))) in
    let label := prop (prop (prop (prop result "choices") "0") "message") "content" in
    let metadata :=
      [ "file" :-> VStr (Path.basename filePath None);
        "result_saved_to" :-> VStr outputPath;
        "schema_used" :->
          match DocumentClassifier.schemaPath o with
          | Some (c :: p) => VStr (c :: p)
          | _ => match DocumentClassifier.schemaJson o with
                 | Some (_ :: _) => str "custom"
                 | _ => str "default"
                 end
          end ] in
    let saved :=
      obj [ "classification" :-> label;
            "metadata" :-> obj (metadata ++ [ "api_response" :-> result ]) ] in
    let returned := obj [ "classification" :-> label; "metadata" :-> obj metadata ] in
    ApiClient.reply_at w i request = Response result /\
    written w' = written w ++ [(outputPath, content)] /\
    JSON.stringify_indent 2 saved = Some content /\
    JSON.stringify_indent 2 returned = Some text /\
    (JSON.json_value result = true -> plain_numbers result = true ->
     (label <> VUndef ->
      JSON.parse content = Some saved /\ JSON.parse text = Some returned) /\
     (label = VUndef ->
      JSON.parse content
      = Some (obj [ "metadata" :-> obj (metadata ++ [ "api_response" :-> result ]) ]) /\
      JSON.parse text = Some (obj [ "metadata" :-> obj metadata ]))).
Proof.
  intros H. unfold DocumentClassifier.classifyDocument in H. cbv zeta in H.
  apply bind_ok_inv in H as (x1 & w1 & H1 & H).
  apply bind_ok_inv in H as (x2 & w2 & H2 & H).
  apply bind_ok_inv in H as (responseFormat & w3 & H3 & H).
  apply bind_ok_inv in H as (fileBase64 & w4 & H4 & H).
  apply bind_ok_inv in H as (x5 & w5 & H5 & H).
  apply bind_ok_inv in H as (x6 & w6 & H6 & H).
  apply bind_ok_inv in H as (result & w7 & H7 & H).
  apply bind_ok_inv in H as (label & w8 & H8 & H).
  apply bind_ok_inv in H as (x9 & w9 & H9 & H).
  apply bind_ok_inv in H as (outputDir & w10 & H10 & H).
  apply bind_ok_inv in H as (x11 & w11 & H11 & H).
  apply bind_ok_inv in H as (outputFilename & w12 & H12 & H).
  apply bind_ok_inv in H as (x13 & w13 & H13 & H).
  apply bind_ok_inv in H as (x14 & w14 & H14 & H).
  pose proof (f_equal snd H) as Hw'. pose proof (f_equal fst H) as Htext.
  cbn [fst snd ret] in Hw', Htext. subst w14. apply Ok_inj in Htext. clear H.
  destruct x13.
  destruct (saveJsonToFile_ok _ _ _ _ _ H13) as (content & Hcontent & ->).
  destruct (makeApiRequest_ok_reply _ _ _ _ _ _ _ H7) as [i Hi].
  assert (same_but_notified w w3) as Hsame3.
  { pose proof (quiet_validateExtractionFile (DocumentClassifier.filePath o) w) as S1.
    rewrite H1 in S1.
    pose proof (quiet_report (DocumentClassifier.onProgress o) 10 w1) as S2.
    rewrite H2 in S2.
    pose proof (quiet_resolveResponseFormat o w2) as S3. rewrite H3 in S3.
    cbn [snd] in S1, S2, S3.
    exact (same_trans _ _ _ S1 (same_trans _ _ _ S2 S3)). }
  assert (same_but_notified w w6) as Hsame.
  { pose proof (quiet_readFileAsBase64 (DocumentClassifier.filePath o) w3) as S4.
    rewrite H4 in S4.
    pose proof (quiet_report (DocumentClassifier.onProgress o) 40 w4) as S5.
    rewrite H5 in S5.
    pose proof (quiet_report (DocumentClassifier.onProgress o) 60 w5) as S6.
    rewrite H6 in S6. cbn [snd] in S4, S5, S6.
    exact (same_trans _ _ _ Hsame3 (same_trans _ _ _ S4 (same_trans _ _ _ S5 S6))). }
  assert (fileBase64 = file_base64 w (DocumentClassifier.filePath o)) as ->.
  { assert (disk w3 = disk w) as Hd by (destruct Hsame3 as (_&Hd&_); now symmetry).
    rewrite (readFileAsBase64_value _ w w3 Hd) in H4.
    destruct (disk w (DocumentClassifier.filePath o)) as [[f|n|code]|];
      try discriminate H4. now injection H4 as <- _. }
  assert (label = prop (prop (prop (prop result "choices") "0") "message") "content")
    as ->.
  { apply (first_choice_content_member result _ "document classification" w7).
    now rewrite H8. }
  assert (written w' = written w
                         ++ [(Path.join_paths [outputDir; outputFilename], content)])
    as Hwritten.
  { rewrite (kept written _ _ _ _ (keeps_written_report _ _) H14).
    cbn [written log_written]. f_equal.
    rewrite (kept written _ _ _ _ (keeps_written_generateTimestampedFilename _ _) H12),
      (kept written _ _ _ _ (keeps_written_ensureDirectoryExists _) H11),
      (kept written _ _ _ _ (keeps_written_getOutputDirectory _) H10),
      (kept written _ _ _ _ (keeps_written_report _ _) H9).
    assert (w8 = w7) as ->.
    { rewrite (first_choice_content_pure result "document classification" w7 w7) in H8.
      now injection H8 as _ <-. }
    rewrite (kept written _ _ _ _ (keeps_written_makeApiRequest _ _ _ _) H7).
    destruct Hsame as (_&_&_&_&_&_&_&_&_&Hwr&_). now symmetry. }
  unfold DocumentClassifier.saved_result in Hcontent.
  unfold DocumentClassifier.returned_result in Htext.
  rewrite schema_used_cases in Hcontent, Htext.
  exists responseFormat, result, (Path.join_paths [outputDir; outputFilename]), content, i.
  cbv zeta. cbn [app].
  split; [rewrite (reply_at_same _ _ _ _ Hsame); exact Hi|].
  split; [exact Hwritten|].
  split; [exact Hcontent|].
  assert (forall t : option jsstring, ToString (opt_str t) = text -> t <> None -> t = Some text)
    as Hsome.
  { intros [t|] Ht Hne; [cbn in Ht; now subst | now elim Hne]. }
  assert (forall entries,
             exists t, JSON.stringify_indent 2 (obj entries) = Some t) as Hwrites.
  { intros entries. unfold obj, JSON.stringify_indent. cbn [JSON.serialize]. eauto. }
  assert (JSON.stringify_indent 2
            (obj [ "classification" :->
                     prop (prop (prop (prop result "choices") "0") "message") "content";
                   "metadata" :->
                     obj [ "file" :-> VStr (Path.basename (DocumentClassifier.filePath o) None);
                           "result_saved_to" :->
                             VStr (Path.join_paths [outputDir; outputFilename]);
                           "schema_used" :->
                             match DocumentClassifier.schemaPath o with
                             | Some (c :: p) => VStr (c :: p)
                             | _ => match DocumentClassifier.schemaJson o with
                                    | Some (_ :: _) => str "custom"
                                    | _ => str "default"
                                    end
                             end ] ])
          = Some text) as Hreturned.
  { match goal with
    | |- JSON.stringify_indent 2 (obj ?entries) = _ =>
        destruct (Hwrites entries) as [t Ht]; rewrite Ht in Htext |- *
    end.
    cbn [opt_str ToString] in Htext. now subst. }
  split; [exact Hreturned|].
  intros Hjv Hplain.
  assert (json_members
            [ "file" :-> VStr (Path.basename (DocumentClassifier.filePath o) None);
              "result_saved_to" :-> VStr (Path.join_paths [outputDir; outputFilename]);
              "schema_used" :->
                match DocumentClassifier.schemaPath o with
                | Some (c :: p) => VStr (c :: p)
                | _ => match DocumentClassifier.schemaJson o with
                       | Some (_ :: _) => str "custom"
                       | _ => str "default"
                       end
                end ] = true) as Hmeta.
  { unfold json_members. cbn [forallb snd].
    destruct (DocumentClassifier.schemaPath o) as [[|c p]|];
      now destruct (DocumentClassifier.schemaJson o) as [[|d q]|]. }
  assert (forall entries, json_members entries = true ->
                          json_members [ "metadata" :-> obj entries ] = true) as Hin.
  { intros entries He. unfold json_members. cbn [forallb snd].
    unfold obj. now rewrite (ParseFacts.object_of_json_value _ He). }
  assert (forall entries (t : jsstring),
             json_members entries = true ->
             JSON.stringify_indent 2 (obj entries) = Some t ->
             JSON.parse t = Some (obj entries)) as Hback.
  { intros entries t He Ht.
    destruct (literal_reads_back 2 entries He) as (t' & Ht' & Hp).
    rewrite Ht in Ht'. now injection Ht' as <-. }
  assert (json_members
            ([ "file" :-> VStr (Path.basename (DocumentClassifier.filePath o) None);
               "result_saved_to" :-> VStr (Path.join_paths [outputDir; outputFilename]);
               "schema_used" :->
                 match DocumentClassifier.schemaPath o with
                 | Some (c :: p) => VStr (c :: p)
                 | _ => match DocumentClassifier.schemaJson o with
                        | Some (_ :: _) => str "custom"
                        | _ => str "default"
                        end
                 end ] ++ [ "api_response" :-> result ]) = true) as Hmeta'.
  { unfold json_members in Hmeta |- *. rewrite forallb_app, Hmeta.
    cbn [forallb snd]. now rewrite Hjv. }
  cbn [app] in Hmeta'.
  split.
  - intros Hlabel.
    assert (JSON.json_value
              (prop (prop (prop (prop result "choices") "0") "message") "content") = true)
      as Hjl.
    { destruct (prop_json_value result "choices" eq_refl Hjv) as [E|J1];
        [rewrite E in Hlabel; now elim Hlabel|].
      destruct (prop_json_value _ "0" eq_refl J1) as [E|J2];
        [rewrite E in Hlabel; now elim Hlabel|].
      destruct (prop_json_value _ "message" eq_refl J2) as [E|J3];
        [rewrite E in Hlabel; now elim Hlabel|].
      destruct (prop_json_value _ "content" eq_refl J3) as [E|J4]; [now elim Hlabel | exact J4]. }
    split; apply Hback; try assumption;
      unfold json_members; cbn [forallb snd]; rewrite Hjl; cbn [andb];
        [exact (Hin _ Hmeta') | exact (Hin _ Hmeta)].
  - intros Hlabel. rewrite Hlabel in Hcontent, Hreturned.
    rewrite (undefined_member_not_written 2 "classification" "metadata" _ eq_refl)
      in Hcontent.
    rewrite (undefined_member_not_written 2 "classification" "metadata" _ eq_refl)
      in Hreturned.
    split; apply Hback; try assumption; [exact (Hin _ Hmeta') | exact (Hin _ Hmeta)].
Qed.

Lemma classification_saved_and_returned_witness :
  let o :=
    {| DocumentClassifier.filePath := js "/docs/invoice.pdf";
       DocumentClassifier.apiKey := Scenario.key;
       DocumentClassifier.schemaPath := None;
       DocumentClassifier.schemaJson := None;
       DocumentClassifier.onProgress := Some Server.notify |} in
  let w := Scenario.world (fun _ _ => Response (Scenario.chat_reply (js "invoice"))) in
  let run := DocumentClassifier.classifyDocument o w in
  exists outputPath content saved,
    written (snd run) = [(outputPath, content)] /\
    JSON.parse content = Some saved /\
    prop saved "classification" = str "invoice" /\
    prop (prop saved "metadata") "api_response" = Scenario.chat_reply (js "invoice").
Proof.
  intros o w run. subst run.
  destruct (DocumentClassifier.classifyDocument o w) as [[text|e] w'] eqn:Hrun.
  - destruct (classification_saved_and_returned o w w' text Hrun)
      as (rf & result & path & content & i & Hreply & Hwritten & _ & _ & Hback).
    assert (result = Scenario.chat_reply (js "invoice")) as ->.
    { unfold ApiClient.reply_at in Hreply. cbn [endpoint w Scenario.world] in Hreply.
      now injection Hreply as <-. }
    destruct (Hback eq_refl eq_refl) as [Hlabel _].
    destruct (Hlabel ltac:(discriminate)) as [Hsaved _].
    exists path, content. eexists.
    split; [exact Hwritten|]. split; [exact Hsaved|]. split; reflexivity.
  - exfalso. vm_compute in Hrun. discriminate Hrun.
Defined.
